(** * romPad: remote search / transfer engine

    A shallow embedding of the engine of [main.py]: the remote tree walk
    ([sftp_walk]), the substring search ([search_remote]), the streaming
    download ([download_file]), the notification queue
    ([show_notification], [draw_notifications]) and the part of
    [search_and_download] that builds the result list and runs single and
    batch downloads.

    Conventions.
    - Python [str] is [string]; [+:+] is concatenation.  Characters are
      bytes; [lower] and [strip] act on the ASCII letters and ASCII
      white space.
    - Python [int] is [Z].
    - A call that can raise returns a [sum]: [inl e] is the exception
      (with its text), [inr v] the value.
    - [time.time()] is read from the environment as a number of
      milliseconds ([Z]); the telemetry quotients are rationals ([Q]).
    - Calls to [show_notification] made by the engine are recorded, in
      order, in an event log.

    The second part embeds the interface: the key repeat
    ([DirectionRepeater]) and the joystick filter ([_allow_joy]), the
    menu ([draw_menu], [menu_select]), the on-screen keyboard
    ([virtual_keyboard_input]), the layout of the notifications and
    [format_eta], [list_platforms], and the loop of
    [search_and_download] as a whole.
    - An event of [pygame.event.get()] comes with the clock reading of
      its handling; a loop is run over the turns that are given.
    - The floats of the layout and of the times left are rationals
      ([Q]); [int] cuts the fraction off.
    - The widths that the font gives are a function [size] of the
      text.

    Bounds of the model.
    - Clock readings are whole milliseconds and the arithmetic on
      them, on the telemetry, on the alpha of a notification and on the
      layout is exact; the floats of the program round.
    - An entry of a listing has an integer [st_mode].
    - The generators of the walk nest without limit; the recursion
      limit of the interpreter is not modelled ([Walk.MAX_NESTING]).
    - In the loop of [search_and_download] the notifications of the
      search are not recorded, and a window closed while a download is
      on the screen is not an event of the model. *)

From Stdlib Require Import ZArith QArith Qminmax Qround Lia Bool Ascii.
From stdpp Require Import gmap strings list sorting pretty.

Local Open Scope Z_scope.

(** ** Python string operations used by the program *)

Module PyStr.

Definition slash : ascii := "/"%char.

(** [c.lower()] on one character: A-Z go to a-z. *)
Definition lower_char (c : ascii) : ascii :=
  let n := nat_of_ascii c in
  if (Nat.leb 65 n && Nat.leb n 90)%bool then ascii_of_nat (n + 32) else c.

(** [s.lower()] *)
Fixpoint lower (s : string) : string :=
  match s with
  | EmptyString => EmptyString
  | String c s' => String (lower_char c) (lower s')
  end.

(** White space removed by [str.strip()] (ASCII range). *)
Definition is_space (c : ascii) : bool :=
  let n := nat_of_ascii c in
  ((Nat.leb 9 n && Nat.leb n 13) || (Nat.leb 28 n && Nat.leb n 32))%bool.

Fixpoint lstrip (s : string) : string :=
  match s with
  | EmptyString => EmptyString
  | String c s' => if is_space c then lstrip s' else s
  end.

(** Removal of the trailing characters that satisfy [p]. *)
Fixpoint rstrip_by (p : ascii -> bool) (s : string) : string :=
  match s with
  | EmptyString => EmptyString
  | String c s' =>
      match rstrip_by p s' with
      | EmptyString => if p c then EmptyString else String c EmptyString
      | r => String c r
      end
  end.

(** [s.strip()] *)
Definition strip (s : string) : string := rstrip_by is_space (lstrip s).

(** Blank: empty or white space only. *)
Fixpoint all_space (s : string) : bool :=
  match s with
  | EmptyString => true
  | String c s' => (is_space c && all_space s')%bool
  end.

(** [s.rstrip('/')] *)
Definition rstrip_slash (s : string) : string :=
  rstrip_by (fun c => Ascii.eqb c slash) s.

(** [q in s] *)
Fixpoint contains (q s : string) : bool :=
  (String.prefix q s
   || match s with
      | EmptyString => false
      | String _ s' => contains q s'
      end)%bool.

(** [s.replace(old, new)] for a non-empty [old]: every occurrence, left
    to right, without overlap.  [skip] counts the characters of a
    matched occurrence that are still to be dropped. *)
Fixpoint replace_go (old new : string) (skip : nat) (s : string) : string :=
  match s with
  | EmptyString => EmptyString
  | String c s' =>
      match skip with
      | S k => replace_go old new k s'
      | O =>
          if String.prefix old s
          then new +:+ replace_go old new (String.length old - 1)%nat s'
          else String c (replace_go old new 0%nat s')
      end
  end.

(** With an empty [old] Python inserts [new] before every character
    and at the end. *)
Fixpoint intersperse (new s : string) : string :=
  match s with
  | EmptyString => new
  | String c s' => new +:+ String c (intersperse new s')
  end.

Definition replace (old new s : string) : string :=
  match old with
  | EmptyString => intersperse new s
  | _ => replace_go old new 0%nat s
  end.

(** [os.path.basename] with [os.sep = '/']: what follows the last
    slash. *)
Fixpoint basename (s : string) : string :=
  match s with
  | EmptyString => EmptyString
  | String c s' =>
      if contains (String slash EmptyString) s'
      then basename s'
      else if Ascii.eqb c slash then s' else s
  end.

(** A file or directory name as a directory listing gives it: not
    empty and without a slash. *)
Fixpoint no_slash (s : string) : bool :=
  match s with
  | EmptyString => true
  | String c s' => (negb (Ascii.eqb c slash) && no_slash s')%bool
  end.

Definition valid_name (s : string) : bool :=
  (negb (String.eqb s EmptyString) && no_slash s)%bool.

(** Nothing but slashes: what [rstrip('/')] cuts off. *)
Fixpoint all_slash (s : string) : bool :=
  match s with
  | EmptyString => true
  | String c s' => (Ascii.eqb c slash && all_slash s')%bool
  end.

(** What can follow a directory's path in the path of something
    below it: nothing, or a slash and more. *)
Definition tail_ok (s : string) : Prop :=
  s = EmptyString \/ exists s', s = String slash s'.

End PyStr.

(** ** [stat] mode bits *)

Module Stat.

Definition S_IFMT (mode : Z) : Z := Z.land mode 61440.   (* 0o170000 *)
Definition S_IFDIR : Z := 16384.                          (* 0o040000 *)
Definition S_IFLNK : Z := 40960.                          (* 0o120000 *)
Definition S_IFREG : Z := 32768.                          (* 0o100000 *)

Definition S_ISDIR (mode : Z) : bool := S_IFMT mode =? S_IFDIR.
Definition S_ISLNK (mode : Z) : bool := S_IFMT mode =? S_IFLNK.

End Stat.

(** ** Notifications emitted by the engine *)

Inductive kind := error | info | success.

#[global] Instance kind_eq_dec : EqDecision kind.
Proof. solve_decision. Defined.

(** One call [show_notification(message, notification_type)]. *)
Record shown := Shown { sh_message : string; sh_type : kind }.

#[global] Instance shown_eq_dec : EqDecision shown.
Proof. solve_decision. Defined.

(** ** Remote directory search *)

Module Walk.
Import PyStr Stat.

(** An entry of [sftp.listdir_attr]. *)
Record SFTPAttributes := Attr { filename : string; st_mode : Z }.

(** The SFTP session as the walk sees it: [listdir_attr path] either
    raises or returns the entries of [path]. *)
Definition session := string -> string + list SFTPAttributes.

(** The partition of the entries made by the [for entry in entries]
    loop of [sftp_walk]: symbolic links are skipped, directories go to
    [dirs], everything else to [files]. *)
Fixpoint classify (entries : list SFTPAttributes) : list string * list string :=
  match entries with
  | [] => ([], [])
  | entry :: rest =>
      let '(dirs, files) := classify rest in
      let mode := st_mode entry in
      let name := filename entry in
      if S_ISLNK mode then (dirs, files)
      else if S_ISDIR mode then (name :: dirs, files)
      else (dirs, name :: files)
  end.

(** [f"{top.rstrip('/')}/{d}"] *)
Definition join (top d : string) : string :=
  rstrip_slash top +:+ "/" +:+ d.

(** A tuple yielded by the generator. *)
Definition yielded : Type := string * list string * list string.

Inductive event :=
| Listed (path : string)              (* a call sftp.listdir_attr(path) *)
| Notified (n : shown).               (* a call show_notification(...) *)

(** *** The generator as a machine

    A suspended [sftp_walk] is a stack of frames, innermost first: one
    frame per generator of the [yield from] chain.  [Fresh top] is a
    generator whose body has not started; [Loop top dirs] is one that
    stands in [for d in dirs] with [dirs] still to do. *)
Inductive frame :=
| Fresh (top : string)
| Loop (top : string) (dirs : list string).

Definition stack := list frame.

Inductive action :=
| Yield (y : yielded) (k : stack) (evs : list event)
| Tau (k : stack) (evs : list event)
| Done.

Section WithSession.
Variable sftp : session.

(** One step of the innermost generator. *)
Definition gen_step (st : stack) : action :=
  match st with
  | [] => Done
  | Fresh top :: k =>
      match sftp top with
      | inl e =>
          Tau k [Listed top;
                 Notified (Shown ("Cannot access " +:+ top +:+ ": " +:+ e) error)]
      | inr entries =>
          let '(dirs, files) := classify entries in
          Yield (top, dirs, files) (Loop top dirs :: k) [Listed top]
      end
  | Loop top [] :: k => Tau k []
  | Loop top (d :: ds) :: k => Tau (Fresh (join top d) :: Loop top ds :: k) []
  end.

(** The steps that cannot go on for ever without a yield are counted
    by [weight]. *)
Definition frame_weight (f : frame) : nat :=
  match f with
  | Fresh _ => 1
  | Loop _ dirs => 1 + 2 * length dirs
  end%nat.

Definition weight (st : stack) : nat := sum_list (frame_weight <$> st).

(** [next(gen)]: run to the next yield ([Some y]) or to
    [StopIteration] ([None]).  The outer [option] is [None] when the
    step budget [n] is used up. *)
Fixpoint gen_run (n : nat) (st : stack) (log : list event)
  : option (option yielded * stack * list event) :=
  match gen_step st with
  | Done => Some (None, [], log)
  | Yield y k evs => Some (Some y, k, log ++ evs)
  | Tau k evs =>
      match n with
      | O => None
      | S n' => gen_run n' k (log ++ evs)
      end
  end.

Definition gen_next (st : stack) (log : list event)
  : option (option yielded * stack * list event) :=
  gen_run (weight st) st log.

(** The generator consumed to its end, [list(sftp_walk(sftp, top))];
    [None] when [fuel] calls of [next] do not reach the end. *)
Fixpoint gen_drain (fuel : nat) (st : stack) (log : list event)
  : option (list yielded * list event) :=
  match fuel with
  | O => None
  | S fuel' =>
      match gen_next st log with
      | None => None
      | Some (None, _, log') => Some ([], log')
      | Some (Some y, k, log') =>
          match gen_drain fuel' k log' with
          | None => None
          | Some (ys, log'') => Some (y :: ys, log'')
          end
      end
  end.

Definition sftp_walk (top : string) : stack := [Fresh top].

(** *** The recursion of the source

    [sftp_walk] read as the recursive function it is written as: the
    tuple of [top], then the walks of its directories in order.
    [depth] bounds the nesting of the recursion. *)
Fixpoint walk_rec (depth : nat) (top : string) : list yielded :=
  match depth with
  | O => []
  | S depth' =>
      match sftp top with
      | inl _ => []
      | inr entries =>
          let '(dirs, files) := classify entries in
          (top, dirs, files)
            :: (dirs ≫= fun d => walk_rec depth' (join top d))
      end
  end.

(** The directories below [top] (symbolic links are not followed)
    nest less than [depth] deep. *)
Fixpoint bounded (depth : nat) (top : string) : bool :=
  match depth with
  | O => false
  | S depth' =>
      match sftp top with
      | inl _ => true
      | inr entries =>
          forallb (fun d => bounded depth' (join top d)) (fst (classify entries))
      end
  end.

(** A listing as a directory gives it: every name valid, no name
    twice. *)
Definition names_ok (entries : list SFTPAttributes) : bool :=
  (forallb valid_name (filename <$> entries)
   && bool_decide (NoDup (filename <$> entries)))%bool.

(** Below [top] the listings are such and the directories nest less
    than [depth] deep.  Symbolic links are not followed: what they
    point to is not looked at. *)
Fixpoint tree_ok (depth : nat) (top : string) : bool :=
  match depth with
  | O => false
  | S depth' =>
      match sftp top with
      | inl _ => true
      | inr entries =>
          (names_ok entries
           && forallb (fun d => tree_ok depth' (join top d))
                (fst (classify entries)))%bool
      end
  end.

(** *** Depth first, pre-order

    The traversal said without the loop of the source: of a listing,
    the names of the directories and the names of what is neither a
    directory nor a symbolic link, both in the order of the listing;
    of a tree, the tuple of [top] followed, for each of its
    directories in turn, by the tuples of all that is below it. *)
Definition subdirs (entries : list SFTPAttributes) : list string :=
  filename
    <$> filter (fun e => S_ISLNK (st_mode e) = false
                         /\ S_ISDIR (st_mode e) = true) entries.

Definition plain_files (entries : list SFTPAttributes) : list string :=
  filename
    <$> filter (fun e => S_ISLNK (st_mode e) = false
                         /\ S_ISDIR (st_mode e) = false) entries.

Fixpoint preorder (depth : nat) (top : string) : list yielded :=
  match depth with
  | O => []
  | S depth' =>
      match sftp top with
      | inl _ => []
      | inr entries =>
          (top, subdirs entries, plain_files entries)
            :: (subdirs entries ≫= fun d => preorder depth' (join top d))
      end
  end.

(** The nesting of directories up to which the machine stands for the
    generator: each generator of the [yield from] chain is a frame of
    the interpreter while the chain runs, and at its recursion limit
    (1000 frames unless it is changed, the callers included) the
    interpreter raises [RecursionError], which the machine does not
    do. *)
Definition MAX_NESTING : nat := 900.

(** The path of a tuple. *)
Definition top_of (y : yielded) : string := y.1.1.

(** What a suspended generator still has to yield, read off its
    stack with the recursion of the source. *)
Definition pending_frame (depth : nat) (f : frame) : list yielded :=
  match f with
  | Fresh top => walk_rec depth top
  | Loop top dirs => dirs ≫= fun d => walk_rec depth (join top d)
  end.

Definition pending (depth : nat) (st : stack) : list yielded :=
  st ≫= pending_frame depth.

Definition frame_bounded (depth : nat) (f : frame) : bool :=
  match f with
  | Fresh top => bounded depth top
  | Loop top dirs => forallb (fun d => bounded depth (join top d)) dirs
  end.

(** *** [search_remote] *)

(** The loop [for fname in files]; [inr results] is the early
    [return results]. *)
Fixpoint scan_files (q root : string) (limit : Z) (files : list string)
    (results : list string) (count : Z)
  : (list string * Z) + list string :=
  match files with
  | [] => inl (results, count)
  | fname :: rest =>
      if contains q (lower fname) then
        let results' := results ++ [rstrip_slash root +:+ "/" +:+ fname] in
        let count' := count + 1 in
        if count' >=? limit then inr results'
        else scan_files q root limit rest results' count'
      else scan_files q root limit rest results count
  end.

(** The loop [for root, _dirs, files in sftp_walk(sftp, base_dir)]. *)
Fixpoint search_loop (fuel : nat) (q : string) (limit : Z) (gen : stack)
    (log : list event) (results : list string) (count : Z)
  : option (list string * list event) :=
  match fuel with
  | O => None
  | S fuel' =>
      match gen_next gen log with
      | None => None
      | Some (None, _, log') => Some (results, log')
      | Some (Some (root, _dirs, files), gen', log') =>
          match scan_files q root limit files results count with
          | inr results' => Some (results', log')
          | inl (results', count') =>
              search_loop fuel' q limit gen' log' results' count'
          end
      end
  end.

(** [search_remote(sftp, base_dir, query, limit)].  [query] may be
    [None]; the result is the returned list with the events of the
    call, or [None] when [fuel] tuples of the walk are not enough. *)
Definition search_remote (fuel : nat) (base_dir : string)
    (query : option string) (limit : Z)
  : option (list string * list event) :=
  let q := lower (strip (default "" query)) in
  let results := [] in
  if String.eqb q "" then Some (results, [])
  else search_loop fuel q limit (sftp_walk base_dir) [] results 0.

(** A path of the result: a file name of some listing, joined to
    the path that was listed, the lowered name containing [q]. *)
Definition hit_in (q root : string) (files : list string) (p : string)
  : Prop :=
  exists fname,
    fname ∈ files /\ p = (rstrip_slash root +:+ "/" +:+ fname)
    /\ contains q (lower fname) = true.

Definition hit (q p : string) : Prop :=
  exists root entries,
    sftp root = inr entries /\ hit_in q root (classify entries).2 p.

End WithSession.

End Walk.

(** ** The notification queue *)

Module Bus.

(** A [Notification] object.  [ident] stands for the identity of the
    Python object: [notification in notifications] and
    [notifications.remove(notification)] compare by identity.  Times
    are milliseconds. *)
Record Notification := Note {
  ident : nat;
  message : string;
  type : kind;
  created_at : Z;
  lifetime : Z
}.

#[global] Instance Notification_eq_dec : EqDecision Notification.
Proof. solve_decision. Defined.

(** [Notification.__init__]: [self.lifetime = 10.0]. *)
Definition LIFETIME : Z := 10000.


(** [Notification.is_expired], with [now = time.time()]. *)
Definition is_expired (now : Z) (n : Notification) : bool :=
  now - created_at n >? lifetime n.

(** [Notification.get_alpha] *)
Definition get_alpha (now : Z) (n : Notification) : Z :=
  let elapsed := now - created_at n in
  if elapsed >? lifetime n - 2000
  then Z.quot (255 * (lifetime n - elapsed)) 2000
  else 255.

(** The list [notifications], the [threading.Timer]s that are pending
    (object to remove, earliest time of firing) and the number of
    objects created so far. *)
Record bus := Bus {
  notifications : list Notification;
  timers : list (nat * Z);
  created : nat
}.


(** [show_notification(message, notification_type, duration)] *)
Definition show_notification (now : Z) (msg : string) (ty : kind)
    (duration : Z) (b : bus) : bus :=
  let notification := Note (created b) msg ty now LIFETIME in
  Bus (notifications b ++ [notification])
      (timers b ++ [(created b, now + duration)])
      (S (created b)).

(** [notifications.remove(notification)]: the first occurrence. *)
Fixpoint remove_first (i : nat) (l : list Notification) : list Notification :=
  match l with
  | [] => []
  | n :: l' => if Nat.eqb (ident n) i then l' else n :: remove_first i l'
  end.

(** The callback [remove_notification] of the timer of object [i]. *)
Definition remove_notification (i : nat) (b : bus) : bus :=
  Bus (if existsb (fun n => Nat.eqb (ident n) i) (notifications b)
       then remove_first i (notifications b)
       else notifications b)
      (filter (fun t => t.1 <> i) (timers b))
      (created b).

(** What one call of [draw_notifications] puts on the screen: the
    notifications of the snapshot that are not expired, each with its
    alpha.  The clock is read once for the frame. *)
Definition drawn (now : Z) (b : bus) : list (Notification * Z) :=
  (fun n => (n, get_alpha now n))
    <$> filter (fun n => is_expired now n = false) (notifications b).

(** The pruning at the end of [draw_notifications]. *)
Definition prune (now : Z) (b : bus) : bus :=
  Bus (filter (fun n => is_expired now n = false) (notifications b))
      (timers b) (created b).

Definition draw_notifications (now : Z) (b : bus)
  : list (Notification * Z) * bus :=
  (drawn now b, prune now b).

(** What happens to the queue: a call of [show_notification], a timer
    that fires, a frame that is drawn. *)
Inductive op :=
| Post (msg : string) (ty : kind) (duration : Z)
| Fire (i : nat)
| Draw.

(** A timer fires only when pending and due. *)
Definition due (now : Z) (i : nat) (b : bus) : bool :=
  existsb (fun t => Nat.eqb t.1 i && (t.2 <=? now))%bool (timers b).

(** One operation at time [now]; [None] when a timer is asked to fire
    that is not due.  The second component is what was drawn. *)
Definition step (now : Z) (o : op) (b : bus)
  : option (bus * list (Notification * Z)) :=
  match o with
  | Post msg ty duration => Some (show_notification now msg ty duration b, [])
  | Fire i => if due now i b then Some (remove_notification i b, []) else None
  | Draw => let '(scr, b') := draw_notifications now b in Some (b', scr)
  end.

(** A run: timed operations, the clock never going back.  The result
    is the final queue and the last frame drawn. *)
Fixpoint run (clock : Z) (ops : list (Z * op)) (b : bus)
    (frame : list (Notification * Z))
  : option (bus * list (Notification * Z)) :=
  match ops with
  | [] => Some (b, frame)
  | (now, o) :: rest =>
      if now <? clock then None
      else
        match step now o b with
        | None => None
        | Some (b', scr) =>
            run now rest b' (match o with Draw => scr | _ => frame end)
        end
  end.



End Bus.

(** ** Module-level state of the program *)

Record globals := Globals {
  downloading : bool;
  download_progress : Q;
  download_speed : Q;
  download_eta : Q;
  stop_download : bool;
  multi_select_enabled : bool;
  selected_results : gset string;
  last_platform : option string
}.

(** The values given by the module's top-level assignments. *)
Definition initial_globals : globals :=
  Globals false 0 0 0 false false ∅ None.

Definition set_downloading (b : bool) (g : globals) : globals :=
  Globals b (download_progress g) (download_speed g) (download_eta g)
    (stop_download g) (multi_select_enabled g) (selected_results g)
    (last_platform g).

Definition set_progress (p : Q) (g : globals) : globals :=
  Globals (downloading g) p (download_speed g) (download_eta g)
    (stop_download g) (multi_select_enabled g) (selected_results g)
    (last_platform g).

Definition set_speed (v : Q) (g : globals) : globals :=
  Globals (downloading g) (download_progress g) v (download_eta g)
    (stop_download g) (multi_select_enabled g) (selected_results g)
    (last_platform g).

Definition set_eta (v : Q) (g : globals) : globals :=
  Globals (downloading g) (download_progress g) (download_speed g) v
    (stop_download g) (multi_select_enabled g) (selected_results g)
    (last_platform g).

Definition set_stop (b : bool) (g : globals) : globals :=
  Globals (downloading g) (download_progress g) (download_speed g)
    (download_eta g) b (multi_select_enabled g) (selected_results g)
    (last_platform g).

Definition set_multi (b : bool) (g : globals) : globals :=
  Globals (downloading g) (download_progress g) (download_speed g)
    (download_eta g) (stop_download g) b (selected_results g)
    (last_platform g).

Definition set_selected (s : gset string) (g : globals) : globals :=
  Globals (downloading g) (download_progress g) (download_speed g)
    (download_eta g) (stop_download g) (multi_select_enabled g) s
    (last_platform g).

Definition set_platform (p : option string) (g : globals) : globals :=
  Globals (downloading g) (download_progress g) (download_speed g)
    (download_eta g) (stop_download g) (multi_select_enabled g)
    (selected_results g) p.

(** A write to [stop_download] made by another thread, if one landed. *)
Definition land (w : option bool) (g : globals) : globals :=
  match w with
  | Some b => set_stop b g
  | None => g
  end.

(** ** The download engine *)

Module Download.
Import PyStr.

(** What [download_file] can touch: the module globals, the file at
    [local_path] ([None]: no such file; [Some bytes]: its content) and
    the notifications it has shown. *)
Record world := World {
  g : globals;
  local_file : option (list Byte.byte);
  shown_log : list shown
}.

(** A computation that reads and writes the world and may raise; the
    world at the raise is kept, as an [except] clause sees it. *)
Definition M (A : Type) : Type := world -> (string + A) * world.

#[global] Instance M_ret : MRet M := fun A a w => (inr a, w).
#[global] Instance M_bind : MBind M := fun A B f m w =>
  match m w with
  | (inl e, w') => (inl e, w')
  | (inr a, w') => f a w'
  end.

Definition raise {A} (e : string) : M A := fun w => (inl e, w).

(** [try: body / except Exception as e: handler(e)] *)
Definition try_except {A} (body : M A) (handler : string -> M A) : M A :=
  fun w =>
    match body w with
    | (inl e, w') => handler e w'
    | r => r
    end.

(** [with ...: body]: the exit of the block runs also when the body
    raises; when the exit raises ([r] is its exception), that exception
    is the one that leaves the block. *)
Definition with_exit {A} (r : option string) (body : M A) : M A :=
  fun w =>
    match body w, r with
    | (_, w'), Some e' => (inl e', w')
    | res, None => res
    end.

(** A call that raises when the environment says so. *)
Definition may_raise (r : option string) : M unit :=
  match r with
  | Some e => raise e
  | None => mret tt
  end.

Definition modify_globals (f : globals -> globals) : M unit :=
  fun w => (inr tt, World (f (g w)) (local_file w) (shown_log w)).

Definition read_globals : M globals := fun w => (inr (g w), w).

Definition show_notification (msg : string) (ty : kind) : M unit :=
  fun w => (inr tt, World (g w) (local_file w) (shown_log w ++ [Shown msg ty])).

(** [open(local_path, "wb")]: the file is created or truncated. *)
Definition open_local (r : option string) : M unit :=
  fun w =>
    match r with
    | Some e => (inl e, w)
    | None => (inr tt, World (g w) (Some []) (shown_log w))
    end.

(** [f.write(data)] *)
Definition write_local (r : option string) (data : list Byte.byte) : M unit :=
  fun w =>
    match r with
    | Some e => (inl e, w)
    | None =>
        (inr tt, World (g w) (Some (default [] (local_file w) ++ data)) (shown_log w))
    end.

(** One turn of the [while True] loop as the environment decides it:
    a write of the foreground to [stop_download] that lands before the
    test at the top of the loop, the outcome of [remote_f.read], of
    [f.write], and the clock read after the block. *)
Record block := Block {
  b_flag : option bool;
  b_read : string + list Byte.byte;
  b_write : option string;
  b_now : Z
}.

(** What the surroundings of one call do: every call that can raise
    ([e_close] is the exit of the [with] block, which closes the two
    files), the blocks the remote file delivers (after the last one
    [read] returns [b""]), a write to [stop_download] that lands
    between the loop and the test of success, and the clock at the
    start. *)
Record env := Env {
  e_makedirs : option string;
  e_stat : string + Z;
  e_open_local : option string;
  e_open_remote : option string;
  e_start_time : Z;
  e_blocks : list block;
  e_close : option string;
  e_late : option bool;
  e_remove : option string
}.

(** The bytes of the first [k] blocks. *)
Definition block_data (b : block) : list Byte.byte :=
  match b_read b with
  | inl _ => []
  | inr data => data
  end.

Definition delivered (k : nat) (blocks : list block) : list Byte.byte :=
  mjoin (block_data <$> take k blocks).

(** The local variables of the loop. *)
Record counters := Counters {
  read_bytes : Z;
  last_time : Z;
  last_bytes : Z
}.

Definition MiB : Q := inject_Z (1024 * 1024).

(** The telemetry written after a block. *)
Definition telemetry (size : Z) (now : Z) (c : counters) : M counters :=
  modify_globals
    (set_progress (inject_Z (read_bytes c) / inject_Z (Z.max 1 size)));;
  let elapsed := (inject_Z (now - last_time c) / inject_Z 1000)%Q in
  if Qle_bool (1 # 2) elapsed then
    let speed :=
      (inject_Z (read_bytes c - last_bytes c) / elapsed / MiB)%Q in
    modify_globals (set_speed speed);;
    let remaining_bytes := Z.max 0 (size - read_bytes c) in
    modify_globals
      (set_eta (inject_Z remaining_bytes
                / (Qmax speed (1 # 1000000) * MiB))%Q);;
    mret (Counters (read_bytes c) now (read_bytes c))
  else mret c.

(** The [while True] loop. *)
Fixpoint read_loop (size : Z) (blocks : list block) (c : counters)
  : M counters :=
  match blocks with
  | [] =>
      gl ← read_globals;
      if stop_download gl
      then show_notification "Download aborted by user" info;; mret c
      else mret c                       (* [read] returns [b""] *)
  | b :: rest =>
      modify_globals (land (b_flag b));;
      gl ← read_globals;
      if stop_download gl
      then show_notification "Download aborted by user" info;; mret c
      else
        match b_read b with
        | inl e => raise e
        | inr [] => mret c
        | inr data =>
            write_local (b_write b) data;;
            let c' := Counters (read_bytes c + Z.of_nat (length data))
                               (last_time c) (last_bytes c) in
            c'' ← telemetry size (b_now b) c';
            read_loop size rest c''
        end
  end.

(** [if os.path.exists(local_path): os.remove(local_path); show(...)]
    inside its own [try], whose handler reports the failure. *)
Definition remove_partial (E : env) (done_msg : string) : M unit :=
  fun w =>
    match local_file w with
    | None => (inr tt, w)
    | Some _ =>
        match e_remove E with
        | Some rm_err =>
            show_notification ("Failed to remove partial file: " +:+ rm_err) error w
        | None =>
            show_notification done_msg info
              (World (g w) None (shown_log w))
        end
    end.

(** The assignments that open [download_file]. *)
Definition prologue : M unit :=
  modify_globals (set_downloading true);;
  modify_globals (set_stop false);;
  modify_globals (set_progress 0);;
  modify_globals (set_speed 0);;
  modify_globals (set_eta 0).

(** Line 427:
    [(not stop_download) and (size == 0 or read_bytes >= size)]. *)
Definition completion_test (stop : bool) (size read : Z) : bool :=
  (negb stop && ((size =? 0) || (read >=? size)))%bool.

(** How the call ended: the outer [try] ran to its end, with the
    locals [success], [size] and [read_bytes] as they then are, or the
    outer [except] caught [e]. *)
Inductive result :=
| Finished (success_ : bool) (size read : Z)
| Caught (e : string).

(** The body of the outer [try]. *)
Definition transfer (E : env) (local_path : string) : M result :=
  may_raise (e_makedirs E);;
  size ← (match e_stat E with inl e => raise e | inr n => mret n end);
  open_local (e_open_local E);;
  c ← with_exit (e_close E)
        (may_raise (e_open_remote E);;
         read_loop size (e_blocks E) (Counters 0 (e_start_time E) 0));
  modify_globals (land (e_late E));;
  gl ← read_globals;
  let success_ := completion_test (stop_download gl) size (read_bytes c) in
  (if success_
   then show_notification ("Download complete: " +:+ basename local_path) success
   else remove_partial E "Removed partial file");;
  mret (Finished success_ size (read_bytes c)).

(** [download_file(sftp, remote_path, local_path)] *)
Definition download_file (E : env) (remote_path local_path : string)
  : M result :=
  prologue;;
  r ← try_except (transfer E local_path)
        (fun e =>
           show_notification ("Download failed: " +:+ e) error;;
           remove_partial E "Removed partial file after error";;
           mret (Caught e));
  modify_globals (set_downloading false);;
  mret r.

(** The same surroundings with another fate for [os.remove]. *)
Definition with_remove (rm : option string) (E : env) : env :=
  Env (e_makedirs E) (e_stat E) (e_open_local E) (e_open_remote E)
      (e_start_time E) (e_blocks E) (e_close E) (e_late E) rm.

(** The call reported success. *)
Definition reported (local_path : string) (d : list shown) : Prop :=
  Shown ("Download complete: " +:+ basename local_path) success ∈ d.

(** The removal of the partial file failed and was reported. *)
Definition remove_failed (E : env) (d : list shown) : Prop :=
  exists e, e_remove E = Some e
    /\ Shown ("Failed to remove partial file: " +:+ e) error ∈ d.

Definition no_success (d : list shown) : Prop :=
  Forall (fun n => sh_type n <> success) d.

(** The world with the flag and the telemetry as another thread may
    have left them before the worker runs. *)
Definition touched_before (b : bool) (p v t : Q) (w : world) : world :=
  World (set_stop b (set_progress p (set_speed v (set_eta t (g w)))))
        (local_file w) (shown_log w).

(** *** The call, said of its surroundings alone *)

(** The flag [b0] after the writes [ws] of the foreground have landed
    on it, in order; [None] is a moment at which no write lands. *)
Definition flag_after (ws : list (option bool)) (b0 : bool) : bool :=
  foldl (fun b w => default b w) b0 ws.

(** The loop, entered with the flag at [b0], takes the first [k]
    blocks and is then left without an exception: at each of the [k]
    blocks the flag is found unset, [read] returns data and [write]
    succeeds; at the next one the flag is found set, or [read] returns
    [b""] (as it does when no block is left). *)
Definition loop_takes (b0 : bool) (blocks : list block) (k : nat) : Prop :=
  (k <= length blocks)%nat
  /\ (forall i b, (i < k)%nat -> blocks !! i = Some b ->
        flag_after (b_flag <$> take (S i) blocks) b0 = false
        /\ exists data, b_read b = inr data /\ data <> [] /\ b_write b = None)
  /\ (forall b, blocks !! k = Some b ->
        flag_after (b_flag <$> take (S k) blocks) b0 = true
        \/ b_read b = inr []).

(** The flag as the test of line 427 finds it when the loop has taken
    [k] blocks: unset by the opening assignments, then written by what
    landed at the tests of the loop and between the loop and line
    427. *)
Definition flag_at_test (E : env) (k : nat) : bool :=
  flag_after ((b_flag <$> take (S k) (e_blocks E)) ++ [e_late E]) false.

(** The transfer goes through: no call raises, the loop takes [k]
    blocks, the flag is unset at line 427, and the remote size is 0 or
    not more than the bytes of the [k] blocks. *)
Definition succeeds (E : env) (size : Z) (k : nat) : Prop :=
  e_makedirs E = None /\ e_stat E = inr size
  /\ e_open_local E = None /\ e_open_remote E = None
  /\ loop_takes false (e_blocks E) k
  /\ e_close E = None
  /\ flag_at_test E k = false
  /\ (size = 0 \/ size <= Z.of_nat (length (delivered k (e_blocks E)))).

(** A block reaches the local file: the calls before the loop do not
    raise, and at the first block no cancel has landed, [read] returns
    data and [write] succeeds. *)
Definition first_block_written (E : env) : Prop :=
  e_makedirs E = None /\ (exists size, e_stat E = inr size)
  /\ e_open_local E = None /\ e_open_remote E = None
  /\ exists b rest data,
       e_blocks E = b :: rest /\ b_flag b <> Some true
       /\ b_read b = inr data /\ data <> [] /\ b_write b = None.

(** The notification of the branch [if stop_download] of the loop. *)
Definition aborted (d : list shown) : Prop :=
  Shown "Download aborted by user" info ∈ d.

(** The three numbers of the telemetry. *)
Definition telemetry_of (g0 : globals) : Q * Q * Q :=
  (download_progress g0, download_speed g0, download_eta g0).

End Download.

(** ** The session: result list, single and batch downloads *)

Module Session.
Import PyStr.

Definition BACK : string := "< Back".
Definition remote_root : string := "/roms".

(** [f"{remote_root.rstrip('/')}/{last_platform}"] *)
Definition remote_base_of (platform : string) : string :=
  rstrip_slash remote_root +:+ "/" +:+ platform.

(** [[p.replace(remote_base + "/", "") for p in results]] *)
Definition display_of (remote_base : string) (results : list string)
  : list string :=
  (fun p => replace (remote_base +:+ "/") "" p) <$> results.

(** [{label: full for label, full in zip(display_items, results)}]: a
    later pair with the same label replaces an earlier one. *)
Definition label_map (display_items results : list string)
  : gmap string string :=
  foldl (fun m lf => <[lf.1 := lf.2]> m) ∅ (zip display_items results).

(** Lines 1036-1038: the display list, with ["< Back"] appended, and
    the dictionary. *)
Definition build (remote_base : string) (results : list string)
  : list string * gmap string string :=
  let display_items := display_of remote_base results in
  (display_items ++ [BACK], label_map display_items results).

(** [os.path.join(a, b)] on POSIX. *)
Definition ends_with_slash (a : string) : bool :=
  negb (String.eqb (rstrip_slash a) a).

Definition path_join (a b : string) : string :=
  if String.prefix "/" b then b
  else if (String.eqb a "" || ends_with_slash a)%bool then a +:+ b
  else a +:+ "/" +:+ b.

(** [os.sep] *)
Definition sep : string := "/".

(** What the foreground does to start a transfer: the thread
    [download_file(sftp, remote, local)] is started and
    [download_screen(title, index, total)] is entered. *)
Record launch := Launch {
  l_label : string;
  l_remote : string;
  l_local : string;
  l_title : string;
  l_index : option Z;
  l_total : option Z
}.

(** The foreground state: the globals, the notifications it has shown,
    the transfers it has started. *)
Record fg := Fg {
  gl : globals;
  notes : list shown;
  launched : list launch
}.

Definition notify (msg : string) (ty : kind) (s : fg) : fg :=
  Fg (gl s) (notes s ++ [Shown msg ty]) (launched s).

Definition with_globals (f : globals -> globals) (s : fg) : fg :=
  Fg (f (gl s)) (notes s) (launched s).

(** What surrounds one item of the batch: whether [os.makedirs]
    raises, whether creating or starting the thread raises, and the
    writes to [stop_download] that land, in order, between the start
    of the thread and the test [if stop_download] of line 1087: the
    worker's opening [stop_download = False], the
    [stop_download = True] of [download_screen] on a cancel. *)
Record task_env := Task {
  t_makedirs : option string;
  t_start : option string;
  t_writes : list bool
}.

Definition land_all (ws : list bool) (g0 : globals) : globals :=
  foldl (fun g0 b => set_stop b g0) g0 ws.


(** A label of the result list: not ["< Back"], and with a remote
    path in the dictionary. *)
Definition mapped (label_to_remote : gmap string string) (label : string)
  : Prop :=
  label <> BACK
  /\ exists r, label_to_remote !! label = Some r /\ r <> EmptyString.

Section WithDest.
Variable DEST_DIR : string.

Definition local_path_of (platform label : string) : string :=
  let rel_name := replace "/" sep label in
  let local_dir := path_join DEST_DIR platform in
  path_join local_dir rel_name.


(** The loop of lines 1069-1093 over the labels still to do.  [pos]
    numbers the turns of the loop, [i] is the counter of the
    source. *)
Fixpoint batch_loop (label_to_remote : gmap string string)
    (platform : string) (total : Z) (env : nat -> task_env)
    (queue : list string) (pos : nat) (i : Z) (s : fg) : fg :=
  match queue with
  | [] => s
  | label :: rest =>
      let continue_ := batch_loop label_to_remote platform total env rest (S pos) in
      if String.eqb label BACK then continue_ i s
      else
        match label_to_remote !! label with
        | None | Some EmptyString =>
            continue_ i (notify ("Missing remote path for " +:+ label) error s)
        | Some remote_path =>
            let rel_name := replace "/" sep label in
            let local_path := local_path_of platform label in
            match t_makedirs (env pos) with
            | Some e =>
                continue_ i (notify ("Failed to start download: " +:+ e) error s)
            | None =>
                let i := i + 1 in
                match t_start (env pos) with
                | Some e =>
                    continue_ i (notify ("Failed to start download: " +:+ e) error s)
                | None =>
                    let s1 :=
                      Fg (land_all (t_writes (env pos)) (gl s)) (notes s)
                         (launched s
                          ++ [Launch label remote_path local_path
                                (basename rel_name) (Some i) (Some total)]) in
                    if stop_download (gl s1)
                    then with_globals (set_stop false) s1      (* break *)
                    else continue_ i s1
                end
            end
        end
  end.

(** The branch [sel == "__MULTI_START__"] up to the menu that
    follows the batch. *)
Definition multi_start (display_items : list string)
    (label_to_remote : gmap string string) (env : nat -> task_env)
    (s : fg) : fg :=
  let selected := selected_results (gl s) in
  if decide (selected = ∅) then notify "No entries selected" info s
  else
    let total := Z.of_nat (size selected) in
    let queue := filter (fun lbl => lbl ∈ selected) display_items in
    let s1 :=
      batch_loop label_to_remote (default "" (last_platform (gl s)))
        total env queue 0 0 s in
    let s2 := with_globals (set_selected ∅) s1 in
    let s3 := with_globals (set_multi false) s2 in
    notify "Multi Select OFF — selections cleared" info s3.

(** The single-selection path, lines 1128-1154: [confirm] is the
    answer to the question, [E] surrounds the transfer. *)
Definition single_download (label_to_remote : gmap string string)
    (sel : string) (confirm : bool) (E : task_env) (s : fg) : fg :=
  match label_to_remote !! sel with
  | None => notify "Invalid selection." error s
  | Some remote_path =>
      let rel_name := replace "/" sep sel in
      let local_path :=
        local_path_of (default "" (last_platform (gl s))) sel in
      if confirm then
        match t_makedirs E, t_start E with
        | Some e, _ | None, Some e =>
            notify ("Failed to start download: " +:+ e) error s
        | None, None =>
            Fg (land_all (t_writes E) (gl s)) (notes s)
               (launched s
                ++ [Launch sel remote_path local_path (basename rel_name)
                      None None])
        end
      else s
  end.

End WithDest.

(** *** The keys of the results menu

    [menu_select] with [allow_multi_controls=True], as far as it
    changes the globals: the label under the cursor is confirmed, the
    multi-select mode is toggled, the batch is asked for, or the menu
    is left. *)
Inductive key :=
| Confirm (label : string)
| Leave
| ToggleMulti
| StartBatch.

(** The state after the key and the value returned by [menu_select],
    [None] when the menu goes on. *)
Definition menu_key (k : key) (s : fg) : fg * option string :=
  let g0 := gl s in
  match k with
  | Confirm label =>
      if multi_select_enabled g0 then
        if String.eqb label BACK then (s, Some BACK)
        else if decide (label ∈ selected_results g0) then
          (notify ("Unselected: " +:+ label) info
             (with_globals (set_selected (selected_results g0 ∖ {[label]})) s),
           None)
        else
          (notify ("Selected: " +:+ label) info
             (with_globals (set_selected (selected_results g0 ∪ {[label]})) s),
           None)
      else (s, Some label)
  | Leave => (s, Some "__BACK__")
  | ToggleMulti =>
      let s1 := with_globals (set_multi (negb (multi_select_enabled g0))) s in
      if (negb (multi_select_enabled (gl s1))
          && negb (bool_decide (selected_results g0 = ∅)))%bool
      then
        (notify "Multi Select OFF — selections cleared" info
           (with_globals (set_selected ∅) s1), None)
      else
        (notify "Multi Select ON — choose entries, press ▲ to start" info s1,
         None)
  | StartBatch =>
      if multi_select_enabled g0 then
        if decide (selected_results g0 = ∅)
        then (notify "No entries selected" info s, None)
        else (s, Some "__MULTI_START__")
      else (s, None)
  end.

(** Keys pressed one after another until the menu returns. *)
Fixpoint menu_select (keys : list key) (s : fg) : fg * option string :=
  match keys with
  | [] => (s, None)
  | k :: rest =>
      match menu_key k s with
      | (s', None) => menu_select rest s'
      | r => r
      end
  end.

(** The selection stays within the labels of the display list, and is
    empty while the multi-select mode is off. *)
Definition selection_ok (display_items : list string) (g0 : globals) : Prop :=
  (forall l, l ∈ selected_results g0 -> l ∈ display_items /\ l <> BACK)
  /\ (multi_select_enabled g0 = false -> selected_results g0 = ∅).

(** Lines 1052-1059: leaving the results for a new query. *)
Definition leave_results (s : fg) : fg :=
  with_globals (set_multi false) (with_globals (set_selected ∅) s).

End Session.

(** ** The foreground and the workers as interleaved threads

    The statements of [download_file] (the worker), of [download_screen]
    and of the two places of [search_and_download] that start a worker
    (the foreground), each an atomic step on the shared globals
    [downloading] and [stop_download].  A schedule says which thread
    moves and, for the foreground, what the user does. *)

Module Threads.

(** Where a worker stands in [download_file]. *)
Inductive wpc :=
| WNew          (* thread started, nothing executed *)
| WFlag         (* after [downloading = True] *)
| WTest         (* at [if stop_download] at the top of the loop *)
| WRead         (* inside [remote_f.read(block_size)] *)
| WExit         (* out of the loop, before [downloading = False] *)
| WDone.        (* returned *)

#[global] Instance wpc_eq_dec : EqDecision wpc.
Proof. solve_decision. Defined.

Record worker := Worker {
  pc : wpc;
  blocks : nat;          (* blocks the remote file still delivers *)
  saw_cancel : bool      (* left the loop through [if stop_download] *)
}.

(** What the user asks for: one file, or a batch of files; each file
    is given by its number of blocks. *)
Inductive job :=
| Single (file : nat)
| Batch (files : list nat).

(** Where the foreground stands. *)
Inductive fpc :=
| FMenu                          (* in a menu, no transfer started *)
| FScreen (rest : option (list nat))   (* in [download_screen] *)
| FJoin (rest : option (list nat))     (* at [t.join(timeout=0.1)] *)
| FAfter (rest : list nat).            (* at line 1087 *)

Record state := State {
  downloading : bool;
  stop_download : bool;
  workers : list worker;
  fg : fpc;
  todo : list job
}.

Definition init (program : list job) : state :=
  State false false [] FMenu program.

Inductive act :=
| Run (i : nat)     (* worker [i] executes its next statement *)
| Start             (* the foreground starts the next job *)
| Poll              (* a turn of [while downloading] without a cancel *)
| Cancel            (* a turn in which the cancel key is read *)
| Join              (* [t.join(timeout=0.1)] returns *)
| Branch.           (* [if stop_download] of the batch loop *)

Definition worker_step (w : worker) (s : state) : option (worker * bool * bool) :=
  match pc w with
  | WNew => Some (Worker WFlag (blocks w) (saw_cancel w), true, stop_download s)
  | WFlag => Some (Worker WTest (blocks w) (saw_cancel w), downloading s, false)
  | WTest =>
      if stop_download s
      then Some (Worker WExit (blocks w) true, downloading s, stop_download s)
      else Some (Worker WRead (blocks w) (saw_cancel w), downloading s, stop_download s)
  | WRead =>
      match blocks w with
      | O => Some (Worker WExit O (saw_cancel w), downloading s, stop_download s)
      | S n => Some (Worker WTest n (saw_cancel w), downloading s, stop_download s)
      end
  | WExit => Some (Worker WDone (blocks w) (saw_cancel w), false, stop_download s)
  | WDone => None
  end.

Definition spawn (file : nat) (s : state) (f : fpc) (jobs : list job) : state :=
  State (downloading s) (stop_download s)
        (workers s ++ [Worker WNew file false]) f jobs.

Definition step (a : act) (s : state) : option state :=
  match a, fg s with
  | Run i, _ =>
      w ← workers s !! i;
      '(w', d, st) ← worker_step w s;
      Some (State d st (<[i := w']> (workers s)) (fg s) (todo s))
  | Start, FMenu =>
      match todo s with
      | [] => None
      | Single file :: jobs => Some (spawn file s (FScreen None) jobs)
      | Batch [] :: jobs => Some (State (downloading s) (stop_download s) (workers s) FMenu jobs)
      | Batch (file :: rest) :: jobs => Some (spawn file s (FScreen (Some rest)) jobs)
      end
  | Poll, FScreen rest =>
      if downloading s then Some s
      else Some (State (downloading s) (stop_download s) (workers s) (FJoin rest) (todo s))
  | Cancel, FScreen rest =>
      if downloading s
      then Some (State (downloading s) true (workers s) (FJoin rest) (todo s))
      else None
  | Join, FJoin None =>
      Some (State (downloading s) (stop_download s) (workers s) FMenu (todo s))
  | Join, FJoin (Some rest) =>
      Some (State (downloading s) (stop_download s) (workers s) (FAfter rest) (todo s))
  | Branch, FAfter rest =>
      if stop_download s
      then Some (State (downloading s) false (workers s) FMenu (todo s))
      else
        match rest with
        | [] => Some (State (downloading s) (stop_download s) (workers s) FMenu (todo s))
        | file :: rest' => Some (spawn file s (FScreen (Some rest')) (todo s))
        end
  | _, _ => None
  end.

Fixpoint run (schedule : list act) (s : state) : option state :=
  match schedule with
  | [] => Some s
  | a :: rest => s' ← step a s; run rest s'
  end.

(** The workers that have not returned, and those inside a call on
    the SFTP session. *)
Definition active (s : state) : list worker :=
  filter (fun w => pc w <> WDone) (workers s).

Definition in_session (s : state) : list worker :=
  filter (fun w => pc w = WRead) (workers s).

End Threads.

(** ** Concrete inputs *)

Module Examples.
Import PyStr Walk.

Definition DIR_MODE : Z := 16877.        (* 0o040755 *)
Definition FILE_MODE : Z := 33188.       (* 0o100644 *)
Definition LINK_MODE : Z := 41471.       (* 0o120777 *)

(** The platform ["a"] of a server.  ["loop"] is a symbolic link to
    the directory it is in and ["up"] one to an ancestor, so the
    server lists the same entries under [/roms/a], [/roms/a/loop],
    [/roms/a/loop/loop], ...: the links make a cycle.  The directory
    ["locked"] cannot be listed. *)
Definition resolve (path : string) : string :=
  replace "/up" "" (replace "/loop" "" path).

Definition demo : session := fun path =>
  let p := resolve path in
  if String.eqb p "/roms/a" then
    inr [Attr "bx" FILE_MODE; Attr "b" DIR_MODE; Attr "loop" LINK_MODE;
         Attr "A.BIN" FILE_MODE]
  else if String.eqb p "/roms/a/b" then inr [Attr "roms" DIR_MODE]
  else if String.eqb p "/roms/a/b/roms" then
    inr [Attr "a" DIR_MODE; Attr "locked" DIR_MODE]
  else if String.eqb p "/roms/a/b/roms/a" then
    inr [Attr "x" FILE_MODE; Attr "up" LINK_MODE]
  else if String.eqb p "/roms/a/b/roms/locked" then inl "Permission denied"
  else inl "No such file".

(** A directory that contains itself as a directory, not as a link:
    a tree without end. *)
Definition endless : session := fun _ =>
  inr [Attr "rom.bin" FILE_MODE; Attr "deeper" DIR_MODE].

(** Five results of a search on the platform ["a"], their labels and
    the dictionary. *)
Definition five_results : list string :=
  ["/roms/a/r1.bin"; "/roms/a/r2.bin"; "/roms/a/r3.bin"; "/roms/a/r4.bin";
   "/roms/a/r5.bin"].

Definition five_display : list string := (Session.build "/roms/a" five_results).1.
Definition five_map : gmap string string := (Session.build "/roms/a" five_results).2.

(** Every item starts and runs to its end. *)
Definition calm : nat -> Session.task_env :=
  fun _ => Session.Task None None [false].

(** No directory can be made. *)
Definition no_space : nat -> Session.task_env :=
  fun _ => Session.Task (Some "[Errno 13] Permission denied") None [].

(** The worker starts, then the user cancels. *)
Definition cancelled : Session.task_env := Session.Task None None [false; true].

(** The directory of the first item cannot be made; the others start
    and run to their end. *)
Definition first_unwritable : nat -> Session.task_env :=
  fun pos =>
    match pos with
    | O => Session.Task (Some "[Errno 13] Permission denied") None []
    | S _ => Session.Task None None [false]
    end.

(** The thread of the first item cannot be started. *)
Definition first_unstarted : nat -> Session.task_env :=
  fun pos =>
    match pos with
    | O => Session.Task None (Some "can't start new thread") []
    | S _ => Session.Task None None [false]
    end.

(** The foreground before anything is selected, on platform ["a"]. *)
Definition fresh (selected : gset string) (multi : bool) : Session.fg :=
  Session.Fg (set_platform (Some "a")
                (set_multi multi (set_selected selected initial_globals)))
             [] [].

Definition two_results : list string := ["/roms/a/bx"; "/roms/a/sub/by.bin"].
Definition two_display : list string := (Session.build "/roms/a" two_results).1.
Definition two_map : gmap string string := (Session.build "/roms/a" two_results).2.

(** A remote file of which [stat] says 3 bytes and that delivers 5. *)
Definition five_bytes : list Byte.byte :=
  [Byte.x72; Byte.x6f; Byte.x6d; Byte.x21; Byte.x0a].

Definition grown : Download.env :=
  Download.Env None (inr 3) None None 0
    [Download.Block None (inr five_bytes) None 40] None None None.

Definition empty_world : Download.world :=
  Download.World initial_globals None [].

(** A single download of ["bx"] that the user cancels; then the
    multi-select mode is switched on, ["sub/by.bin"] is marked and the
    batch is asked for; no directory can be made for it. *)
Definition after_cancelled_single : Session.fg :=
  Session.single_download "./downloads" two_map "bx" true cancelled
    (fresh ∅ false).

Definition batch_keys : list Session.key :=
  [Session.ToggleMulti; Session.Confirm "sub/by.bin"; Session.StartBatch].

Definition after_keys : Session.fg :=
  (Session.menu_select batch_keys after_cancelled_single).1.

Definition after_batch : Session.fg :=
  Session.multi_start "./downloads" two_display two_map no_space after_keys.

(** Two results of the query ["x"] on the platform ["a"] of [demo]. *)
Definition colliding : list string := ["/roms/a/bx"; "/roms/a/b/roms/a/x"].




(** The user cancels the first file of a batch while a block is being
    read; [join] times out; the batch is left.  A single download is
    started next. *)
Definition program : list Threads.job :=
  [Threads.Batch [100%nat; 100%nat]; Threads.Single 5].

Definition schedule : list Threads.act :=
  [Threads.Start;                      (* first worker started *)
   Threads.Run 0; Threads.Run 0;       (* its opening assignments *)
   Threads.Run 0;                      (* flag tested, [read] entered *)
   Threads.Cancel;                     (* [stop_download = True], screen left *)
   Threads.Join;                       (* 0.1 s pass, the read goes on *)
   Threads.Branch;                     (* flag seen, reset, [break] *)
   Threads.Run 0;                      (* the block arrives *)
   Threads.Run 0;                      (* flag tested: unset; next [read] *)
   Threads.Start;                      (* the single download *)
   Threads.Run 1; Threads.Run 1; Threads.Run 1].

End Examples.

(** ** Controller input: held directions and joystick filtering *)

Module Input.

(** [REPEAT_DELAY = 0.12], [REPEAT_RATE = 0.045] and
    [BUTTON_DEBOUNCE = 0.22] seconds, in milliseconds. *)
Definition REPEAT_DELAY : Z := 120.
Definition REPEAT_RATE : Z := 45.
Definition BUTTON_DEBOUNCE : Z := 220.

(** An object of the class [DirectionRepeater].  A direction is the
    string the callers pass (["up"], ["down"], ["left"], ["right"]);
    [held = None] is Python's [None]. *)
Record DirectionRepeater := Repeater {
  held : option string;
  hold_start : Z;
  last_repeat : Z
}.

(** [DirectionRepeater.__init__] *)
Definition new : DirectionRepeater := Repeater None 0 0.

(** [DirectionRepeater.press], with [now = time.time()]: the returned
    flag and the object afterwards. *)
Definition press (now : Z) (direction : string) (r : DirectionRepeater)
  : bool * DirectionRepeater :=
  if decide (held r <> Some direction)
  then (true, Repeater (Some direction) now now)
  else (false, Repeater (held r) (hold_start r) now).

(** [DirectionRepeater.release]; [direction = None] is the default of
    the parameter. *)
Definition release (direction : option string) (r : DirectionRepeater)
  : DirectionRepeater :=
  match direction with
  | None => Repeater None (hold_start r) (last_repeat r)
  | Some d =>
      if decide (held r = Some d)
      then Repeater None (hold_start r) (last_repeat r)
      else r
  end.

(** The truth value of [self.held]: [None] and the empty string are
    false. *)
Definition truthy (h : option string) : bool :=
  match h with
  | None | Some EmptyString => false
  | Some _ => true
  end.

(** [DirectionRepeater.tick]: the direction to repeat, if any, and the
    object afterwards. *)
Definition tick (now : Z) (r : DirectionRepeater)
  : option string * DirectionRepeater :=
  if negb (truthy (held r)) then (None, r)
  else if ((now - hold_start r >=? REPEAT_DELAY)
           && (now - last_repeat r >=? REPEAT_RATE))%bool
       then (held r, Repeater (held r) (hold_start r) now)
       else (None, r).

(** The calls made on one repeater, each with the clock it reads. *)
Inductive call :=
| Press (direction : string)
| Release (direction : option string)
| Tick.

(** The move of the cursor that a call brings about in its callers:
    [Some d] when [press(d)] returns [True] and when [tick] returns the
    direction [d]. *)
Definition apply_call (now : Z) (c : call) (r : DirectionRepeater)
  : option string * DirectionRepeater :=
  match c with
  | Press d => let '(moved, r') := press now d r in
               (if moved then Some d else None, r')
  | Release d => (None, release d r)
  | Tick => tick now r
  end.

(** A sequence of timed calls: what each returns, in order, and the
    object at the end. *)
Fixpoint calls (cs : list (Z * call)) (r : DirectionRepeater)
  : list (option string) * DirectionRepeater :=
  match cs with
  | [] => ([], r)
  | (now, c) :: rest =>
      let '(out, r1) := apply_call now c r in
      let '(outs, r2) := calls rest r1 in
      (out :: outs, r2)
  end.

(** A call that ends the hold of [d]: a release of [d] or of whatever
    is held, or the press of another direction. *)
Definition ends_hold (d : string) (c : call) : Prop :=
  match c with
  | Press d' => d' <> d
  | Release None => True
  | Release (Some d') => d' = d
  | Tick => False
  end.

(** *** [_allow_joy] *)

(** The globals [PRIMARY_JOY_ID] and [_last_button_time]. *)
Record joy_state := JoyState {
  PRIMARY_JOY_ID : option Z;
  _last_button_time : gmap Z Z
}.

Definition joy_initial : joy_state := JoyState None ∅.

(** [_allow_joy(event, button)].  [joy] is [event.joy] when the event
    has that attribute; [button = None] is the default of the
    parameter. *)
Definition _allow_joy (now : Z) (joy : option Z) (button : option Z)
    (s : joy_state) : bool * joy_state :=
  let s1 :=
    match PRIMARY_JOY_ID s, joy with
    | None, Some j => JoyState (Some j) (_last_button_time s)
    | _, _ => s
    end in
  if bool_decide (is_Some joy /\ joy <> PRIMARY_JOY_ID s1) then (false, s1)
  else
    match button with
    | None => (true, s1)
    | Some b =>
        let last := default 0 (_last_button_time s1 !! b) in
        if now - last <? BUTTON_DEBOUNCE then (false, s1)
        else (true, JoyState (PRIMARY_JOY_ID s1) (<[b := now]> (_last_button_time s1)))
    end.

(** A sequence of calls [(now, event.joy, button)]: the answers, in
    order, and the globals at the end. *)
Fixpoint allow_all (cs : list (Z * option Z * option Z)) (s : joy_state)
  : list bool * joy_state :=
  match cs with
  | [] => ([], s)
  | (now, joy, button) :: rest =>
      let '(ok, s1) := _allow_joy now joy button s in
      let '(oks, s2) := allow_all rest s1 in
      (ok :: oks, s2)
  end.

(** The hold of [d] that a repeater is in after the calls [pre]: it
    began with a press of [d] that moved the cursor, and no call since
    has ended it. *)
Definition held_since (pre : list (Z * call)) (r : DirectionRepeater)
    (d : string) : Prop :=
  exists j t0,
    pre !! j = Some (t0, Press d)
    /\ (calls pre new).1 !! j = Some (Some d)
    /\ hold_start r = t0
    /\ forall k tk c, (j < k)%nat -> pre !! k = Some (tk, c) -> ~ ends_hold d c.

End Input.

(** ** The menu: what is drawn and how the events are handled *)

Module Menu.
Import PyStr Input.

(** Python's [int(x)] on a number: the fraction is cut off, towards
    zero. *)
Definition int (x : Q) : Z :=
  if Qle_bool 0 x then Qfloor x else Qceiling x.

(** [l[i]]: a negative index counts from the end; [None] is
    [IndexError]. *)
Definition py_index {A} (l : list A) (i : Z) : option A :=
  let n := Z.of_nat (length l) in
  if 0 <=? i then l !! Z.to_nat i
  else if -n <=? i then l !! Z.to_nat (n + i)
  else None.

(** [x % n] for an [int] [n]; [None] is [ZeroDivisionError]. *)
Definition py_mod (x n : Z) : option Z :=
  if n =? 0 then None else Some (x mod n).

(** The key constants of [pygame.locals] that the program names; every
    other key is [K_other]. *)
Inductive pykey :=
| K_RETURN | K_KP_ENTER | K_ESCAPE | K_BACKSPACE
| K_UP | K_DOWN | K_LEFT | K_RIGHT
| K_w | K_a | K_s | K_d | K_l | K_r
| K_other (code : Z).

#[global] Instance pykey_eq_dec : EqDecision pykey.
Proof. solve_decision. Defined.

(** The controller ids. *)
Definition CROSS : Z := 0.
Definition CIRCLE : Z := 1.
Definition SQUARE : Z := 2.
Definition TRIANGLE : Z := 3.
Definition DPAD_UP : Z := 11.
Definition DPAD_DOWN : Z := 12.
Definition DPAD_LEFT : Z := 13.
Definition DPAD_RIGHT : Z := 14.

Definition AXIS_THRESHOLD : Q := 1 # 2.

(** An event of [pygame.event.get()], with the attributes the program
    reads.  [joy] and the [button] of [JOYBUTTONUP] are [None] when the
    event has no such attribute ([hasattr]). *)
Inductive event :=
| QUIT
| KEYDOWN (key : pykey)
| KEYUP (key : pykey)
| JOYBUTTONDOWN (joy : option Z) (button : Z)
| JOYBUTTONUP (button : option Z)
| JOYHATMOTION (joy : option Z) (value : Z * Z)
| JOYAXISMOTION (joy : option Z) (axis : Z) (value : Q)
| OTHER.

(** The state shared with the rest of the program: the module globals,
    the joystick filter, and the calls of [show_notification] so far. *)
Record ui := Ui {
  u_gl : globals;
  u_joy : joy_state;
  u_notes : list shown
}.

Definition notify (msg : string) (ty : kind) (u : ui) : ui :=
  Ui (u_gl u) (u_joy u) (u_notes u ++ [Shown msg ty]).

Definition with_globals (f : globals -> globals) (u : ui) : ui :=
  Ui (f (u_gl u)) (u_joy u) (u_notes u).

(** [_allow_joy(event, button)] on the shared state. *)
Definition allow (now : Z) (joy button : option Z) (u : ui) : bool * ui :=
  let '(ok, j) := _allow_joy now joy button (u_joy u) in
  (ok, Ui (u_gl u) j (u_notes u)).

(** How a function that reads the events goes on: with the next event,
    with a [return], with [handle_exit()] (which leaves the program), or
    with an exception. *)
Inductive outcome (L : Type) :=
| Next (l : L) (u : ui)
| Return (v : string) (u : ui)
| Exit (u : ui)
| Raise (e : string) (u : ui).
Arguments Next {L} l u.
Arguments Return {L} v u.
Arguments Exit {L} u.
Arguments Raise {L} e u.

(** *** [draw_menu] *)

(** A line of the list as it is drawn: its height on the screen, its
    text, and whether it is the highlighted one. *)
Record row := Row {
  row_y : Z;
  row_text : string;
  row_highlight : bool
}.

(** What [draw_menu] draws, apart from the notifications: the title,
    the lines, the bar of the scrollbar (its top and its height) and
    the footer. *)
Record screen := Screen {
  sc_title : string;
  sc_rows : list row;
  sc_bar : option (Z * Z);
  sc_footer : option string
}.

Section WithDisplay.
Variable SCREEN_H : Z.

Definition visible_count : Z := (SCREEN_H - 200) `div` 50.

(** The text of a line: the check mark of a selected entry. *)
Definition display_text (selected_set : option (gset string))
    (multi : bool) (label : string) : string :=
  match selected_set with
  | Some sel =>
      if (multi && negb (bool_decide (sel = ∅)) && bool_decide (label ∈ sel)
          && negb (String.eqb label "< Back"))%bool
      then "[x] " +:+ label
      else label
  | None => label
  end.

(** The loop over [range(start, end)]; [None] is the [IndexError] of
    [options[i]]. *)
Definition draw_rows (options : list string) (selected_index scroll_offset : Z)
    (selected_set : option (gset string)) (multi : bool) : option (list row) :=
  let start := scroll_offset in
  let end_ := Z.min (Z.of_nat (length options)) (scroll_offset + visible_count) in
  mapM (fun idx =>
          let i := start + idx in
          label ← py_index options i;
          Some (Row (200 + idx * 50) (display_text selected_set multi label)
                    (i =? selected_index)))
       (seqZ 0 (end_ - start)).

(** The scrollbar: drawn when there is more than one option. *)
Definition draw_bar (options : list string) (selected_index : Z)
  : option (Z * Z) :=
  let n := Z.of_nat (length options) in
  if 1 <? n then
    let track_y := 200 in
    let track_h := SCREEN_H - 400 in
    let bar_height := Z.max 60 (Z.min 200 (int (inject_Z track_h * (1 # 4)))) in
    let usable := Z.max 1 (n - 1) in
    let step := (inject_Z (track_h - bar_height) / inject_Z usable)%Q in
    let bar_y :=
      (inject_Z track_y
       + step * inject_Z (Z.min (Z.max 0 selected_index) (n - 1)))%Q in
    Some (int bar_y, bar_height)
  else None.

(** [draw_menu(title, options, selected_index, scroll_offset,
    footer_msg, selected_set, multi_enabled)] *)
Definition draw_menu (title : string) (options : list string)
    (selected_index scroll_offset : Z) (footer_msg : string)
    (selected_set : option (gset string)) (multi : bool) : option screen :=
  rows ← draw_rows options selected_index scroll_offset selected_set multi;
  Some (Screen title rows (draw_bar options selected_index)
          (if String.eqb footer_msg "" then None else Some footer_msg)).

(** *** [menu_select] *)

(** The local variables of [menu_select] that the loop changes.  (The
    set [keys_down] is written and never read; it is left out.) *)
Record locals := Locals {
  selected_index : Z;
  scroll_offset : Z;
  multi_enabled : bool;
  repeater : DirectionRepeater;
  unknown_button_hint_shown : bool
}.

Definition set_index (i : Z) (l : locals) : locals :=
  Locals i (scroll_offset l) (multi_enabled l) (repeater l)
    (unknown_button_hint_shown l).

Definition set_scroll (o : Z) (l : locals) : locals :=
  Locals (selected_index l) o (multi_enabled l) (repeater l)
    (unknown_button_hint_shown l).

Definition set_multi_enabled (b : bool) (l : locals) : locals :=
  Locals (selected_index l) (scroll_offset l) b (repeater l)
    (unknown_button_hint_shown l).

Definition set_repeater (r : DirectionRepeater) (l : locals) : locals :=
  Locals (selected_index l) (scroll_offset l) (multi_enabled l) r
    (unknown_button_hint_shown l).

Definition set_hint (b : bool) (l : locals) : locals :=
  Locals (selected_index l) (scroll_offset l) (multi_enabled l) (repeater l) b.

Section WithOptions.
Variable title : string.
Variable options : list string.
Variable allow_back allow_multi_controls : bool.

(** The top of the loop: the list is scrolled to the cursor. *)
Definition adjust (l : locals) : locals :=
  if selected_index l <? scroll_offset l
  then set_scroll (selected_index l) l
  else if selected_index l >=? scroll_offset l + visible_count
       then set_scroll (selected_index l - visible_count + 1) l
       else l.

Definition footer_of (l : locals) (u : ui) : string :=
  "D-pad = Navigate | X = Select"
  +:+ (if allow_back then " | O = Back" else "")
  +:+ (if allow_multi_controls
       then " | ■ = Toggle Multi-Select | ▲ = Start Multi-Select Download"
            +:+ (if multi_enabled l
                 then " | Multi: ON ("
                      +:+ pretty (size (selected_results (u_gl u)))
                      +:+ " selected)"
                 else " | Multi: OFF")
       else "").

(** The call of [draw_menu] in the loop.  [selected_set] is the set
    object [selected_results] in every call of the program. *)
Definition draw (l : locals) (u : ui) : option screen :=
  draw_menu title options (selected_index l) (scroll_offset l) (footer_of l u)
    (if (allow_multi_controls && multi_enabled l)%bool
     then Some (selected_results (u_gl u)) else None)
    (allow_multi_controls && multi_enabled l).

(** [selected_index = (selected_index + delta) % len(options)] *)
Definition move (delta : Z) (l : locals) (u : ui) : outcome locals :=
  match py_mod (selected_index l + delta) (Z.of_nat (length options)) with
  | Some i => Next (set_index i l) u
  | None => Raise "ZeroDivisionError" u
  end.

Definition delta_of (direction : string) : Z :=
  if String.eqb direction "up" then -1 else 1.

(** [if repeater.press(direction): selected_index = ...] *)
Definition press_move (now : Z) (direction : string) (l : locals) (u : ui)
  : outcome locals :=
  let '(moved, r) := press now direction (repeater l) in
  let l1 := set_repeater r l in
  if moved then move (delta_of direction) l1 u else Next l1 u.

(** [if repeater.held in ("up", "down"): repeater.release()] *)
Definition release_vertical (l : locals) : locals :=
  if bool_decide (held (repeater l) = Some "up"
                  \/ held (repeater l) = Some "down")
  then set_repeater (release None (repeater l)) l
  else l.

(** [Enter] and the cross button: the entry under the cursor is
    returned or, in the multi-select mode, marked or unmarked. *)
Definition confirm (l : locals) (u : ui) : outcome locals :=
  match py_index options (selected_index l) with
  | None => Raise "IndexError" u
  | Some label =>
      if (allow_multi_controls && multi_enabled l)%bool then
        if String.eqb label "< Back" then Return "< Back" u
        else
          let sel := selected_results (u_gl u) in
          if bool_decide (label ∈ sel) then
            Next l (notify ("Unselected: " +:+ label) info
                      (with_globals (set_selected (sel ∖ {[label]})) u))
          else
            Next l (notify ("Selected: " +:+ label) info
                      (with_globals (set_selected (sel ∪ {[label]})) u))
      else Return label u
  end.

(** The key [l] and the square button; [on_msg] is the text of the
    branch [else], which differs between the two. *)
Definition toggle_multi (on_msg : string) (l : locals) (u : ui)
  : outcome locals :=
  let u1 :=
    with_globals (set_multi (negb (multi_select_enabled (u_gl u)))) u in
  let l1 := set_multi_enabled (multi_select_enabled (u_gl u1)) l in
  if (negb (multi_enabled l1)
      && negb (bool_decide (selected_results (u_gl u1) = ∅)))%bool
  then Next l1 (notify "Multi Select OFF — selections cleared" info
                  (with_globals (set_selected ∅) u1))
  else Next l1 (notify on_msg info u1).

(** The key [r] and the triangle button. *)
Definition start_batch (l : locals) (u : ui) : outcome locals :=
  if multi_enabled l then
    if bool_decide (selected_results (u_gl u) = ∅)
    then Next l (notify "No entries selected" info u)
    else Return "__MULTI_START__" u
  else Next l u.

(** One turn of [for event in pygame.event.get()]; [now] is the clock
    as the handling of the event reads it. *)
Definition handle_event (now : Z) (ev : event) (l : locals) (u : ui)
  : outcome locals :=
  match ev with
  | QUIT => Exit (with_globals (set_stop true) u)
  | KEYDOWN key =>
      if bool_decide (key = K_RETURN \/ key = K_KP_ENTER) then confirm l u
      else if (allow_back && bool_decide (key = K_ESCAPE))%bool
      then Return "__BACK__" u
      else if bool_decide (key = K_UP \/ key = K_w) then press_move now "up" l u
      else if bool_decide (key = K_DOWN \/ key = K_s) then press_move now "down" l u
      else if (allow_multi_controls && bool_decide (key = K_l))%bool
      then toggle_multi
             "Multi Select ON — choose entries, Press ▲ to Start Download" l u
      else if (allow_multi_controls && bool_decide (key = K_r))%bool
      then start_batch l u
      else Next l u
  | KEYUP key =>
      if (bool_decide (key = K_UP \/ key = K_w)
          && bool_decide (held (repeater l) = Some "up"))%bool
      then Next (set_repeater (release (Some "up") (repeater l)) l) u
      else if (bool_decide (key = K_DOWN \/ key = K_s)
               && bool_decide (held (repeater l) = Some "down"))%bool
      then Next (set_repeater (release (Some "down") (repeater l)) l) u
      else Next l u
  | JOYBUTTONDOWN joy button =>
      let '(ok, u) := allow now joy (Some button) u in
      if negb ok then Next l u
      else if (allow_multi_controls && (button =? SQUARE))%bool
      then toggle_multi
             "Multi Select ON — choose entries, press ▲ to start" l u
      else if (allow_multi_controls && (button =? TRIANGLE))%bool
      then start_batch l u
      else if button =? CROSS then confirm l u
      else if (allow_back && (button =? CIRCLE))%bool then Return "__BACK__" u
      else if button =? DPAD_UP then press_move now "up" l u
      else if button =? DPAD_DOWN then press_move now "down" l u
      else if (allow_multi_controls && negb (unknown_button_hint_shown l))%bool
      then Next (set_hint true l)
             (notify ("Button: " +:+ pretty button
                      +:+ " is not mapped. Read the Tooltip!") error u)
      else Next l u
  | JOYBUTTONUP None => Next l u
  | JOYBUTTONUP (Some button) =>
      if ((button =? DPAD_UP)
          && bool_decide (held (repeater l) = Some "up"))%bool
      then Next (set_repeater (release (Some "up") (repeater l)) l) u
      else if ((button =? DPAD_DOWN)
               && bool_decide (held (repeater l) = Some "down"))%bool
      then Next (set_repeater (release (Some "down") (repeater l)) l) u
      else Next l u
  | JOYHATMOTION joy (hat_x, hat_y) =>
      let '(ok, u) := allow now joy None u in
      if negb ok then Next l u
      else if hat_y =? 1 then press_move now "up" l u
      else if hat_y =? -1 then press_move now "down" l u
      else Next (release_vertical l) u
  | JOYAXISMOTION joy axis value =>
      let '(ok, u) := allow now joy None u in
      if negb ok then Next l u
      else if axis =? 1 then
        if Qle_bool value (- AXIS_THRESHOLD) then press_move now "up" l u
        else if Qle_bool AXIS_THRESHOLD value then press_move now "down" l u
        else Next (release_vertical l) u
      else Next l u
  | OTHER => Next l u
  end.

(** The loop [for event in pygame.event.get()]. *)
Fixpoint handle_events (evs : list (Z * event)) (l : locals) (u : ui)
  : outcome locals :=
  match evs with
  | [] => Next l u
  | (now, ev) :: rest =>
      match handle_event now ev l u with
      | Next l' u' => handle_events rest l' u'
      | r => r
      end
  end.

(** The end of a turn of the outer loop: [rep = repeater.tick()] and
    the move that follows. *)
Definition repeat (now : Z) (l : locals) (u : ui) : outcome locals :=
  let '(rep, r) := tick now (repeater l) in
  let l1 := set_repeater r l in
  if bool_decide (rep = Some "up") then move (-1) l1 u
  else if bool_decide (rep = Some "down") then move 1 l1 u
  else Next l1 u.

(** One turn of [while True]: the events that [pygame.event.get()]
    returns, each with the clock at its handling, and the clock at
    [repeater.tick()]. *)
Definition frame : Type := list (Z * event) * Z.

Definition turn (f : frame) (l : locals) (u : ui) : outcome locals :=
  let l1 := adjust l in
  match draw l1 u with
  | None => Raise "IndexError" u
  | Some _ =>
      match handle_events f.1 l1 u with
      | Next l2 u2 => repeat f.2 l2 u2
      | r => r
      end
  end.

(** The loop over the turns that are given; [Next] at the end: the
    menu is still open. *)
Fixpoint menu_loop (frames : list frame) (l : locals) (u : ui)
  : outcome locals :=
  match frames with
  | [] => Next l u
  | f :: rest =>
      match turn f l u with
      | Next l' u' => menu_loop rest l' u'
      | r => r
      end
  end.

(** [menu_select(title, options, selected_index, scroll_offset,
    allow_back, allow_multi_controls=..., selected_set=...,
    multi_enabled=...)]; [multi = None] is the default of the
    parameter [multi_enabled]. *)
Definition menu_select (index offset : Z) (multi : option bool)
    (frames : list frame) (u : ui) : outcome locals :=
  let multi_enabled := default (multi_select_enabled (u_gl u)) multi in
  menu_loop frames (Locals index offset multi_enabled new false) u.

End WithOptions.

End WithDisplay.

End Menu.

(** ** What the menu keeps and what it returns *)

Module MenuSpec.
Import PyStr Input Menu.

(** The foreground state of the session with the globals [g0]. *)
Definition fg_of (g0 : globals) : Session.fg := Session.Fg g0 [] [].

Section OverOptions.
Variable options : list string.
Variable allow_back allow_multi_controls : bool.

(** The cursor is on an option and the list is not scrolled before its
    start. *)
Definition in_range (l : locals) : Prop :=
  0 <= selected_index l < Z.of_nat (length options) /\ 0 <= scroll_offset l.

(** The function goes on or ends without an exception, the cursor
    staying on an option. *)
Definition safe (o : outcome locals) : Prop :=
  match o with
  | Next l _ => in_range l
  | Raise _ _ => False
  | _ => True
  end.

(** The local copy of the multi-select flag agrees with the global. *)
Definition synced (l : locals) (u : ui) : Prop :=
  multi_enabled l = multi_select_enabled (u_gl u).

(** The values [menu_select] can return. *)
Definition result_ok (v : string) (u : ui) : Prop :=
  (v ∈ options
   /\ (allow_multi_controls = true -> multi_select_enabled (u_gl u) = true ->
       v = "< Back"))
  \/ (allow_back = true /\ v = "__BACK__")
  \/ (allow_multi_controls = true /\ v = "__MULTI_START__"
      /\ multi_select_enabled (u_gl u) = true
      /\ selected_results (u_gl u) <> ∅).

Definition returns_ok (o : outcome locals) : Prop :=
  match o with
  | Next l u => synced l u
  | Return v u => result_ok v u
  | _ => True
  end.

(** The keys stand for events of a menu over [options]: what is
    confirmed is an option. *)
Definition keys_over (keys : list Session.key) : Prop :=
  Forall (fun k => forall label, k = Session.Confirm label -> label ∈ options)
    keys.

(** The outcome [o] of the event loop, started with the globals [g0],
    is the outcome of a sequence of keys. *)
Definition played (g0 : globals) (o : outcome locals) : Prop :=
  exists keys,
    keys_over keys
    /\ let r := Session.menu_select keys (fg_of g0) in
       match o with
       | Next l u => synced l u /\ r.2 = None /\ Session.gl r.1 = u_gl u
       | Return v u => r.2 = Some v /\ Session.gl r.1 = u_gl u
       | Exit u => r.2 = None /\ set_stop true (Session.gl r.1) = u_gl u
       | Raise _ _ => True
       end.

End OverOptions.

End MenuSpec.

(** ** The on-screen keyboard *)

Module Keyboard.
Import PyStr Input Menu.

(** [list(s)]: the characters of [s], each a string. *)
Fixpoint chars (s : string) : list string :=
  match s with
  | EmptyString => []
  | String c s' => String c EmptyString :: chars s'
  end.

Definition VIRTUAL_KEYS : list (list string) :=
  [chars "ABCDEFGHIJ";
   chars "KLMNOPQRST";
   chars "UVWXYZ0123";
   chars "456789-_.<";
   ["SPACE"; "ENTER"; "BACK"]].

(** [s[:-1]] *)
Fixpoint drop_last (s : string) : string :=
  match s with
  | EmptyString => EmptyString
  | String c EmptyString => EmptyString
  | String c s' => String c (drop_last s')
  end.

(** The local variables of [virtual_keyboard_input]. *)
Record locals := Locals {
  input_text : string;
  selected_row : Z;
  selected_col : Z;
  v_rep : DirectionRepeater;
  h_rep : DirectionRepeater
}.

Definition set_text (t : string) (l : locals) : locals :=
  Locals t (selected_row l) (selected_col l) (v_rep l) (h_rep l).

Definition set_cursor (r c : Z) (l : locals) : locals :=
  Locals (input_text l) r c (v_rep l) (h_rep l).

Definition set_v (r : DirectionRepeater) (l : locals) : locals :=
  Locals (input_text l) (selected_row l) (selected_col l) r (h_rep l).

Definition set_h (r : DirectionRepeater) (l : locals) : locals :=
  Locals (input_text l) (selected_row l) (selected_col l) (v_rep l) r.

(** [len(VIRTUAL_KEYS[row])]; [None] is [IndexError]. *)
Definition row_length (row : Z) : option Z :=
  keys ← py_index VIRTUAL_KEYS row;
  Some (Z.of_nat (length keys)).

(** The inner function [move_cursor(direction)]; [None] is the
    [IndexError] of [VIRTUAL_KEYS[selected_row]]. *)
Definition move_cursor (direction : string) (l : locals) : option locals :=
  if String.eqb direction "up" then
    let row := Z.max (selected_row l - 1) 0 in
    n ← row_length row;
    Some (set_cursor row (Z.min (selected_col l) (n - 1)) l)
  else if String.eqb direction "down" then
    let row := Z.min (selected_row l + 1) (Z.of_nat (length VIRTUAL_KEYS) - 1) in
    n ← row_length row;
    Some (set_cursor row (Z.min (selected_col l) (n - 1)) l)
  else if String.eqb direction "left" then
    Some (set_cursor (selected_row l) (Z.max (selected_col l - 1) 0) l)
  else if String.eqb direction "right" then
    n ← row_length (selected_row l);
    Some (set_cursor (selected_row l) (Z.min (selected_col l + 1) (n - 1)) l)
  else Some l.

Definition moved (direction : string) (l : locals) (u : ui) : outcome locals :=
  match move_cursor direction l with
  | Some l' => Next l' u
  | None => Raise "IndexError" u
  end.

(** [if v_rep.press(d): move_cursor(d)] and the same for [h_rep]. *)
Definition press_v (now : Z) (direction : string) (l : locals) (u : ui)
  : outcome locals :=
  let '(go, r) := press now direction (v_rep l) in
  let l1 := set_v r l in
  if go then moved direction l1 u else Next l1 u.

Definition press_h (now : Z) (direction : string) (l : locals) (u : ui)
  : outcome locals :=
  let '(go, r) := press now direction (h_rep l) in
  let l1 := set_h r l in
  if go then moved direction l1 u else Next l1 u.

(** [if rep.held in (a, b): rep.release()] *)
Definition release_if (a b : string) (r : DirectionRepeater)
  : DirectionRepeater :=
  if bool_decide (held r = Some a \/ held r = Some b) then release None r
  else r.

(** The cross button: the key under the cursor. *)
Definition select_key (l : locals) (u : ui) : outcome locals :=
  match py_index VIRTUAL_KEYS (selected_row l) with
  | None => Raise "IndexError" u
  | Some keys =>
      match py_index keys (selected_col l) with
      | None => Raise "IndexError" u
      | Some key =>
          if String.eqb key "ENTER" then Return (strip (input_text l)) u
          else if String.eqb key "BACK"
          then Next (set_text (drop_last (input_text l)) l) u
          else if String.eqb key "SPACE"
          then Next (set_text (input_text l +:+ " ") l) u
          else Next (set_text (input_text l +:+ key) l) u
      end
  end.

(** One turn of [for event in pygame.event.get()].  The assignment
    [stop_download = True] before [handle_exit()] is to a local
    variable (the function has no [global] statement): the globals are
    as they were. *)
Definition handle_event (now : Z) (ev : event) (l : locals) (u : ui)
  : outcome locals :=
  match ev with
  | QUIT => Exit u
  | KEYDOWN key =>
      if bool_decide (key = K_RETURN \/ key = K_KP_ENTER)
      then Return (strip (input_text l)) u
      else if bool_decide (key = K_BACKSPACE)
      then Next (set_text (drop_last (input_text l)) l) u
      else if bool_decide (key = K_UP \/ key = K_w) then press_v now "up" l u
      else if bool_decide (key = K_DOWN \/ key = K_s) then press_v now "down" l u
      else if bool_decide (key = K_LEFT \/ key = K_a) then press_h now "left" l u
      else if bool_decide (key = K_RIGHT \/ key = K_d) then press_h now "right" l u
      else Next l u
  | KEYUP key =>
      if (bool_decide (key = K_UP \/ key = K_w)
          && bool_decide (held (v_rep l) = Some "up"))%bool
      then Next (set_v (release (Some "up") (v_rep l)) l) u
      else if (bool_decide (key = K_DOWN \/ key = K_s)
               && bool_decide (held (v_rep l) = Some "down"))%bool
      then Next (set_v (release (Some "down") (v_rep l)) l) u
      else if (bool_decide (key = K_LEFT \/ key = K_a)
               && bool_decide (held (h_rep l) = Some "left"))%bool
      then Next (set_h (release (Some "left") (h_rep l)) l) u
      else if (bool_decide (key = K_RIGHT \/ key = K_d)
               && bool_decide (held (h_rep l) = Some "right"))%bool
      then Next (set_h (release (Some "right") (h_rep l)) l) u
      else Next l u
  | JOYBUTTONDOWN joy button =>
      let '(ok, u) := allow now joy (Some button) u in
      if negb ok then Next l u
      else if button =? 0 then select_key l u
      else if button =? 1 then Return "__BACK__" u
      else if button =? DPAD_UP then press_v now "up" l u
      else if button =? DPAD_DOWN then press_v now "down" l u
      else if button =? DPAD_LEFT then press_h now "left" l u
      else if button =? DPAD_RIGHT then press_h now "right" l u
      else Next l u
  | JOYBUTTONUP None => Next l u
  | JOYBUTTONUP (Some button) =>
      if ((button =? DPAD_UP)
          && bool_decide (held (v_rep l) = Some "up"))%bool
      then Next (set_v (release (Some "up") (v_rep l)) l) u
      else if ((button =? DPAD_DOWN)
               && bool_decide (held (v_rep l) = Some "down"))%bool
      then Next (set_v (release (Some "down") (v_rep l)) l) u
      else if ((button =? DPAD_LEFT)
               && bool_decide (held (h_rep l) = Some "left"))%bool
      then Next (set_h (release (Some "left") (h_rep l)) l) u
      else if ((button =? DPAD_RIGHT)
               && bool_decide (held (h_rep l) = Some "right"))%bool
      then Next (set_h (release (Some "right") (h_rep l)) l) u
      else Next l u
  | JOYHATMOTION joy (hat_x, hat_y) =>
      let '(ok, u) := allow now joy None u in
      if negb ok then Next l u
      else
        let vertical :=
          if hat_y =? 1 then press_v now "up" l u
          else if hat_y =? -1 then press_v now "down" l u
          else Next (set_v (release_if "up" "down" (v_rep l)) l) u in
        match vertical with
        | Next l u =>
            if hat_x =? -1 then press_h now "left" l u
            else if hat_x =? 1 then press_h now "right" l u
            else Next (set_h (release_if "left" "right" (h_rep l)) l) u
        | r => r
        end
  | JOYAXISMOTION joy axis value =>
      let '(ok, u) := allow now joy None u in
      if negb ok then Next l u
      else if axis =? 1 then
        if Qle_bool value (- AXIS_THRESHOLD) then press_v now "up" l u
        else if Qle_bool AXIS_THRESHOLD value then press_v now "down" l u
        else Next (set_v (release_if "up" "down" (v_rep l)) l) u
      else if axis =? 0 then
        if Qle_bool value (- AXIS_THRESHOLD) then press_h now "left" l u
        else if Qle_bool AXIS_THRESHOLD value then press_h now "right" l u
        else Next (set_h (release_if "left" "right" (h_rep l)) l) u
      else Next l u
  | OTHER => Next l u
  end.

Fixpoint handle_events (evs : list (Z * event)) (l : locals) (u : ui)
  : outcome locals :=
  match evs with
  | [] => Next l u
  | (now, ev) :: rest =>
      match handle_event now ev l u with
      | Next l' u' => handle_events rest l' u'
      | r => r
      end
  end.

(** [rep = r.tick(); if rep: move_cursor(rep)] for [v_rep], then for
    [h_rep]; [f] carries the clock of the two calls. *)
Definition repeat (now_v now_h : Z) (l : locals) (u : ui) : outcome locals :=
  let '(rep_v, r) := tick now_v (v_rep l) in
  let l1 := set_v r l in
  match (if truthy rep_v then moved (default "" rep_v) l1 u else Next l1 u) with
  | Next l2 u2 =>
      let '(rep_h, r') := tick now_h (h_rep l2) in
      let l3 := set_h r' l2 in
      if truthy rep_h then moved (default "" rep_h) l3 u2 else Next l3 u2
  | r => r
  end.

(** One turn of [while True]: the events, each with the clock at its
    handling, and the clock at the two calls of [tick]. *)
Definition frame : Type := list (Z * event) * (Z * Z).

Definition turn (f : frame) (l : locals) (u : ui) : outcome locals :=
  match handle_events f.1 l u with
  | Next l1 u1 => repeat f.2.1 f.2.2 l1 u1
  | r => r
  end.

Fixpoint keyboard_loop (frames : list frame) (l : locals) (u : ui)
  : outcome locals :=
  match frames with
  | [] => Next l u
  | f :: rest =>
      match turn f l u with
      | Next l' u' => keyboard_loop rest l' u'
      | r => r
      end
  end.

(** [virtual_keyboard_input(prompt)] *)
Definition virtual_keyboard_input (frames : list frame) (u : ui)
  : outcome locals :=
  keyboard_loop frames (Locals "" 0 0 new new) u.

(** The characters that the keys can put into the text. *)
Definition key_char (c : ascii) : bool :=
  let n := nat_of_ascii c in
  ((Nat.leb 65 n && Nat.leb n 90) || (Nat.leb 48 n && Nat.leb n 57)
   || Ascii.eqb c "-" || Ascii.eqb c "_" || Ascii.eqb c "." || Ascii.eqb c "<"
   || Ascii.eqb c " ")%bool.

Fixpoint typed (s : string) : bool :=
  match s with
  | EmptyString => true
  | String c s' => (key_char c && typed s')%bool
  end.

(** The call of [_allow_joy] that the handling of an event makes:
    [_allow_joy(event, event.button)] for a button that goes down,
    [_allow_joy(event)] for the hat and the axes, none for the other
    events. *)
Definition allow_call (now : Z) (ev : event)
  : list (Z * option Z * option Z) :=
  match ev with
  | JOYBUTTONDOWN joy button => [(now, joy, Some button)]
  | JOYHATMOTION joy _ => [(now, joy, None)]
  | JOYAXISMOTION joy _ _ => [(now, joy, None)]
  | _ => []
  end.

(** Those of the events of the turns, in order. *)
Definition allow_calls (frames : list frame)
  : list (Z * option Z * option Z) :=
  frames ≫= fun f => f.1 ≫= fun e => allow_call e.1 e.2.

End Keyboard.

(** ** What the keyboard keeps *)

Module KeyboardSpec.
Import PyStr Input Menu Keyboard.

(** The cursor is on a key and the text is made of key characters. *)
Definition on_key (l : locals) : Prop :=
  exists keys,
    0 <= selected_row l /\ VIRTUAL_KEYS !! Z.to_nat (selected_row l) = Some keys
    /\ 0 <= selected_col l < Z.of_nat (length keys).

Definition well_formed (l : locals) : Prop :=
  on_key l /\ typed (input_text l) = true.

(** The function goes on or ends without an exception and without a
    write to the globals of [u_gl]; what it returns is ["__BACK__"] or
    a stripped text of key characters. *)
Definition safe (g0 : globals) (o : outcome locals) : Prop :=
  match o with
  | Next l u => well_formed l /\ u_gl u = g0
  | Return v u =>
      (v = "__BACK__" \/ (typed v = true /\ strip v = v)) /\ u_gl u = g0
  | Exit u => u_gl u = g0
  | Raise _ _ => False
  end.

(** The shared state that an outcome carries. *)
Definition state_of (o : outcome locals) : ui :=
  match o with
  | Next _ u | Return _ u | Exit u | Raise _ u => u
  end.

(** The joystick filter has seen the calls [cs] of [_allow_joy] and
    nothing else, and no notification has been shown. *)
Definition filtered (u : ui) (cs : list (Z * option Z * option Z))
    (u' : ui) : Prop :=
  u_joy u' = (allow_all cs (u_joy u)).2 /\ u_notes u' = u_notes u.

End KeyboardSpec.

(** ** What is put on the screen: notifications, the time left *)

Module Render.
Import PyStr Menu.

(** [s.split()]: the maximal runs of characters that are not white
    space.  [split_aux s] is the run at the start of [s] (empty when
    [s] starts with white space) and the words after it. *)
Definition cons_word (w : string) (ws : list string) : list string :=
  if String.eqb w "" then ws else w :: ws.

Fixpoint split_aux (s : string) : string * list string :=
  match s with
  | EmptyString => (EmptyString, [])
  | String c s' =>
      let '(w, ws) := split_aux s' in
      if is_space c then (EmptyString, cons_word w ws) else (String c w, ws)
  end.

Definition split (s : string) : list string :=
  let '(w, ws) := split_aux s in cons_word w ws.

(** A word: not empty, no white space. *)
Fixpoint no_space (s : string) : bool :=
  match s with
  | EmptyString => true
  | String c s' => (negb (is_space c) && no_space s')%bool
  end.

Definition word (s : string) : bool :=
  (negb (String.eqb s "") && no_space s)%bool.

Definition margin : Z := 20.
Definition notification_width : Z := 400.
Definition notification_height : Z := 80.

Section WithFont.
(** [small_font.size(text)[0]]: the width of a text, in pixels. *)
Variable size : string -> Z.
Variable SCREEN_W : Z.

(** The loop [for word in words] of the word wrap: the lines that are
    complete and the line that is being filled. *)
Fixpoint wrap_loop (words : list string) (lines : list string)
    (current_line : string) : list string * string :=
  match words with
  | [] => (lines, current_line)
  | word :: rest =>
      let test_line :=
        current_line +:+ (if String.eqb current_line "" then "" else " ")
        +:+ word in
      if size test_line <? notification_width - 20
      then wrap_loop rest lines test_line
      else
        wrap_loop rest
          (if String.eqb current_line "" then lines else lines ++ [current_line])
          word
  end.

(** The lines of a message. *)
Definition wrap (message : string) : list string :=
  let '(lines, current_line) := wrap_loop (split message) [] "" in
  if String.eqb current_line "" then lines else lines ++ [current_line].

(** One notification on the screen: where its box is, its alpha and
    colour, and its lines of text with the place of each. *)
Record box := Box {
  box_x : Z;
  box_y : Z;
  box_alpha : Z;
  box_color : Z * Z * Z;
  box_text : list (string * (Z * Z))
}.

Definition bg_color (ty : kind) : Z * Z * Z :=
  match ty with
  | error => (180, 40, 40)
  | success => (40, 180, 80)
  | info => (40, 120, 180)
  end.

(** [for i, line in enumerate(lines[:3])] *)
Definition place_lines (x y : Z) (lines : list string)
  : list (string * (Z * Z)) :=
  imap (fun i line => (line, (x + 10, y + 10 + Z.of_nat i * 25)))
       (take 3 lines).

(** The loop [for notification in snapshot] of [draw_notifications],
    with [y_offset] as it stands. *)
Fixpoint draw_boxes (now : Z) (snapshot : list Bus.Notification)
    (y_offset : Z) : list box :=
  match snapshot with
  | [] => []
  | notification :: rest =>
      if Bus.is_expired now notification then draw_boxes now rest y_offset
      else
        let x := SCREEN_W - notification_width - margin in
        let y := y_offset in
        Box x y (Bus.get_alpha now notification)
            (bg_color (Bus.type notification))
            (place_lines x y (wrap (Bus.message notification)))
          :: draw_boxes now rest (y_offset + (notification_height + 10))
  end.

(** [draw_notifications()]: what is drawn and the queue afterwards. *)
Definition draw_notifications (now : Z) (b : Bus.bus) : list box * Bus.bus :=
  (draw_boxes now (Bus.notifications b) margin, Bus.prune now b).

End WithFont.

(** [format_eta(seconds)] *)
Definition format_eta (seconds : Q) : string :=
  let seconds := int seconds in
  if seconds <? 60 then pretty seconds +:+ "s"
  else
    let minutes := seconds `div` 60 in
    let sec := seconds `mod` 60 in
    if minutes <? 60 then pretty minutes +:+ "m " +:+ pretty sec +:+ "s"
    else
      let hours := minutes `div` 60 in
      let min := minutes `mod` 60 in
      if hours <? 24 then pretty hours +:+ "h " +:+ pretty min +:+ "m"
      else
        let days := hours `div` 24 in
        let hr := hours `mod` 24 in
        pretty days +:+ "d " +:+ pretty hr +:+ "h".

(** The title of [download_screen(filename, index, total)]. *)
Definition download_title (filename : string) (index total : option Z)
  : string :=
  match index, total with
  | Some i, Some n =>
      "Downloading " +:+ pretty i +:+ "/" +:+ pretty n +:+ ": " +:+ filename
  | _, _ => "Downloading: " +:+ filename
  end.

End Render.

(** ** The platforms *)

Module Platforms.
Import PyStr Stat Walk.

(** [list_platforms(sftp)]: the list returned and the notifications
    shown. *)
Definition list_platforms (sftp : session) : list string * list shown :=
  match sftp Session.remote_root with
  | inr items =>
      (filename <$> filter (fun i => S_ISDIR (st_mode i) = true) items, [])
  | inl e => ([], [Shown ("Could not list /roms/: " +:+ e) error])
  end.

End Platforms.

(** ** What the word wrap and the telemetry keep *)

Module RenderSpec.
Import PyStr Menu Render.

Section Lines.
Variable size : string -> Z.

(** A line: words with one space between them; it fits, or it is one
    word. *)
Definition line_ok (line : string) : Prop :=
  split line <> []
  /\ (size line < notification_width - 20 \/ exists w, split line = [w] /\ line = w).

End Lines.

End RenderSpec.

Module TelemetrySpec.
Import PyStr Download.

(** The three numbers that [download_screen] reads are not negative. *)
Definition telemetry_ok (g0 : globals) : Prop :=
  (0 <= download_progress g0)%Q /\ (0 <= download_speed g0)%Q
  /\ (0 <= download_eta g0)%Q.

(** A computation keeps the telemetry in order and returns values that
    satisfy [Q]. *)
Definition keeps {A} (Q : A -> Prop) (m : M A) : Prop :=
  forall w, telemetry_ok (g w) ->
    telemetry_ok (g (m w).2) /\ forall a, (m w).1 = inr a -> Q a.

(** The counters of the loop: what was read is not negative and not
    less than what was read at the last measurement. *)
Definition counters_ok (c : counters) : Prop :=
  0 <= last_bytes c <= read_bytes c.

End TelemetrySpec.

(** ** The main loop: [search_and_download] *)

Module App.
Import PyStr Input.

(** The local variables of [search_and_download] that outlive a turn
    of its loops; [None] is Python's [None]. *)
Record locals := Locals {
  results : option (list string);
  display_items : option (list string);
  label_to_remote : option (gmap string string);
  remote_base : option string
}.

(** The state of the program between two waits for the user: the
    foreground state of the session (globals, notifications shown,
    transfers started), the joystick filter, the locals, the global
    [last_query], and whether [safe_close_sftp] was called. *)
Record app := Make {
  fg : Session.fg;
  joy : joy_state;
  loc : locals;
  last_query : option string;
  closed : bool
}.

(** What the surroundings give when the program waits: the events
    while a menu or the keyboard is open, what surrounds a single
    download, what surrounds the items of a batch. *)
Inductive input :=
| Pad (frames : list Menu.frame)
| Keys (frames : list Keyboard.frame)
| One (E : Session.task_env)
| Many (env : nat -> Session.task_env).

(** How a piece of the program ends: with a value, with
    [handle_exit()], with an exception that leaves
    [search_and_download], or waiting (the inputs given are used up,
    or the search has not returned). *)
Inductive answer (A : Type) :=
| Got (a : A) (s : app) (ins : list input)
| Exited (s : app)
| Crashed (e : string)
| Waiting (s : app).
Arguments Got {A} a s ins.
Arguments Exited {A} s.
Arguments Crashed {A} e.
Arguments Waiting {A} s.

Definition P (A : Type) : Type := app -> list input -> answer A.

#[global] Instance P_ret : MRet P := fun A a s ins => Got a s ins.
#[global] Instance P_bind : MBind P := fun A B f m s ins =>
  match m s ins with
  | Got a s' ins' => f a s' ins'
  | Exited s' => Exited s'
  | Crashed e => Crashed e
  | Waiting s' => Waiting s'
  end.

Definition get : P app := fun s ins => Got s s ins.

Definition update (f : app -> app) : P unit := fun s ins => Got tt (f s) ins.

Definition crash {A} (e : string) : P A := fun _ _ => Crashed e.

Definition set_fg (f : Session.fg -> Session.fg) (s : app) : app :=
  Make (f (fg s)) (joy s) (loc s) (last_query s) (closed s).

Definition set_globals (f : globals -> globals) : P unit :=
  update (set_fg (Session.with_globals f)).

Definition set_loc (l : locals) : P unit :=
  update (fun s => Make (fg s) (joy s) l (last_query s) (closed s)).

Definition show_notification (msg : string) (ty : kind) : P unit :=
  update (set_fg (Session.notify msg ty)).

(** The program waits and nothing more is given. *)
Definition wait {A} : P A := fun s _ => Waiting s.

(** [handle_exit()] *)
Definition handle_exit {A} : P A := fun s _ => Exited s.

(** [safe_close_sftp(sftp, transport)]: both [close] calls are in a
    [try] of their own that passes over every exception. *)
Definition safe_close_sftp : P unit :=
  update (fun s => Make (fg s) (joy s) (loc s) (last_query s) true).

(** The clearing of the cached search, lines 976-979. *)
Definition no_cache (l : locals) : locals := Locals None None None None.

(** Lines 1054-1056, 1112-1114, 1118-1120: [remote_base] is kept. *)
Definition drop_results (l : locals) : locals :=
  Locals None None None (remote_base l).

Definition ui_of (s : app) : Menu.ui :=
  Menu.Ui (Session.gl (fg s)) (joy s) (Session.notes (fg s)).

Definition with_ui (u : Menu.ui) (s : app) : app :=
  Make (Session.Fg (Menu.u_gl u) (Menu.u_notes u) (Session.launched (fg s)))
       (Menu.u_joy u) (loc s) (last_query s) (closed s).

(** The truth value of a string or [None], of a list or [None]. *)
Definition truthy_str (x : option string) : bool :=
  match x with
  | None | Some EmptyString => false
  | Some _ => true
  end.

Definition truthy_list {A} (x : option (list A)) : bool :=
  match x with
  | None | Some [] => false
  | Some _ => true
  end.

Section WithConfig.
Variable SCREEN_H : Z.
Variable DEST_DIR : string.
(** The outcome of [connect_sftp()]: the session, or the text of the
    exception that the function reports; whether
    [os.makedirs(DEST_DIR, exist_ok=True)] raises; and the number of
    tuples of the walk a search may take. *)
Variable connection : string + Walk.session.
Variable makedirs : option string.
Variable search_fuel : nat.

(** A call of [menu_select] with the list [options]: index and scroll
    offset start at 0. *)
Definition menu (title : string) (options : list string)
    (allow_back allow_multi_controls : bool) (multi : option bool)
  : P string :=
  fun s ins =>
    match ins with
    | Pad frames :: rest =>
        match Menu.menu_select SCREEN_H title options allow_back
                allow_multi_controls 0 0 multi frames (ui_of s) with
        | Menu.Return v u => Got v (with_ui u s) rest
        | Menu.Exit u => Exited (with_ui u s)
        | Menu.Raise e _ => Crashed e
        | Menu.Next _ u => Waiting (with_ui u s)
        end
    | _ => Waiting s
    end.

(** A call of [virtual_keyboard_input]. *)
Definition keyboard : P string :=
  fun s ins =>
    match ins with
    | Keys frames :: rest =>
        match Keyboard.virtual_keyboard_input frames (ui_of s) with
        | Menu.Return v u => Got v (with_ui u s) rest
        | Menu.Exit u => Exited (with_ui u s)
        | Menu.Raise e _ => Crashed e
        | Menu.Next _ u => Waiting (with_ui u s)
        end
    | _ => Waiting s
    end.

Definition next_one : P Session.task_env :=
  fun s ins =>
    match ins with
    | One E :: rest => Got E s rest
    | _ => Waiting s
    end.

Definition next_many : P (nat -> Session.task_env) :=
  fun s ins =>
    match ins with
    | Many env :: rest => Got env s rest
    | _ => Waiting s
    end.

(** [search_remote(sftp, remote_base, query, limit=2000)] inside its
    [try]: the model of the search raises nothing. *)
Definition search (sftp : Walk.session) (base query : string)
  : P (list string) :=
  fun s ins =>
    match Walk.search_remote sftp search_fuel base (Some query) 2000 with
    | Some (found, _) => Got found s ins
    | None => Waiting s
    end.

(** The four answers to ["What next?"], lines 1101-1124 and
    1157-1180: [true] when the results loop is left. *)
Definition what_next : P bool :=
  next_action ← menu "What next?"
    ["Choose Another File"; "New Search"; "Change Platform"; "Exit"]
    false false None;
  if String.eqb next_action "Exit" then safe_close_sftp;; handle_exit
  else if String.eqb next_action "Change Platform" then
    set_globals (set_platform None);;
    s ← get; set_loc (drop_results (loc s));;
    mret true
  else if String.eqb next_action "New Search" then
    s ← get; set_loc (drop_results (loc s));;
    mret true
  else mret false.

(** The batch, lines 1066-1098.  With the dictionary and the platform
    set it is [Session.multi_start]; [label_to_remote.get] on [None]
    and [os.path.join(DEST_DIR, None)] raise, outside every [try], for
    the first label that gets there. *)
Definition batch (items : list string) (env : nat -> Session.task_env)
  : P unit :=
  s ← get;
  let g0 := Session.gl (fg s) in
  let queue := filter (fun lbl => lbl ∈ selected_results g0) items in
  match label_to_remote (loc s), last_platform g0 with
  | Some ltr, Some _ =>
      update (set_fg (Session.multi_start DEST_DIR items ltr env))
  | Some ltr, None =>
      if existsb (fun label => negb (String.eqb label Session.BACK)
                               && truthy_str (ltr !! label))%bool queue
      then crash "TypeError"
      else update (set_fg (Session.multi_start DEST_DIR items ltr env))
  | None, _ =>
      if existsb (fun label => negb (String.eqb label Session.BACK)) queue
      then crash "AttributeError"
      else update (set_fg (Session.multi_start DEST_DIR items ∅ env))
  end.

(** One turn of the results loop, lines 1042-1180: [true] when the
    loop is left ([break]). *)
Definition results_turn : P bool :=
  s ← get;
  match display_items (loc s) with
  | None => crash "TypeError"
  | Some items =>
      sel ← menu "Results" items true true
               (Some (multi_select_enabled (Session.gl (fg s))));
      if (String.eqb sel "__BACK__" || String.eqb sel "< Back")%bool then
        s ← get; set_loc (drop_results (loc s));;
        set_globals (set_selected ∅);;
        set_globals (set_multi false);;
        mret true
      else if String.eqb sel "__MULTI_START__" then
        s ← get;
        if bool_decide (selected_results (Session.gl (fg s)) = ∅) then
          show_notification "No entries selected" info;; mret false
        else
          env ← next_many;
          batch items env;;
          what_next
      else
        s ← get;
        (* [sel not in None] raises inside the [try]: the handler shows
           the same notification *)
        match ltr ← label_to_remote (loc s); (ltr : gmap string string) !! sel with
        | None => show_notification "Invalid selection." error;; mret false
        | Some _ =>
            match last_platform (Session.gl (fg s)) with
            | None => crash "TypeError"
            | Some _ =>
                let rel_name := replace "/" Session.sep sel in
                confirm ← menu ("Download '" +:+ rel_name +:+ "'?")
                            ["No"; "Yes"] false false None;
                (if String.eqb confirm "Yes" then
                   E ← next_one;
                   update (set_fg (Session.single_download DEST_DIR
                                     (default ∅ (label_to_remote (loc s)))
                                     sel true E))
                 else mret tt);;
                what_next
            end
        end
  end.

(** The loop of lines 1041-1180. *)
Fixpoint results_loop (fuel : nat) : P unit :=
  match fuel return P unit with
  | O => wait
  | S fuel' =>
      leave ← results_turn;
      if (leave : bool) then mret tt else results_loop fuel'
  end.

(** Lines 974-1001: the choice of the platform; [false] is
    [continue]. *)
Definition choose_platform (sftp : Walk.session) : P bool :=
  s ← get;
  set_loc (no_cache (loc s));;
  set_globals (set_selected ∅);;
  set_globals (set_multi false);;
  let '(platforms, shown) := Platforms.list_platforms sftp in
  update (set_fg (fun f => Session.Fg (Session.gl f) (Session.notes f ++ shown)
                             (Session.launched f)));;
  match platforms with
  | [] => safe_close_sftp;; handle_exit
  | _ =>
      choice ← menu "Select Platform" platforms true false None;
      if String.eqb choice "__BACK__" then
        confirm ← menu "Are you sure you want to exit the Downloader?"
                    ["No"; "Yes"] false false None;
        if String.eqb confirm "Yes" then safe_close_sftp;; handle_exit
        else mret false
      else set_globals (set_platform (Some choice));; mret true
  end.

(** Lines 1004-1038: the query and the search; [false] is
    [continue]. *)
Definition ask_and_search (sftp : Walk.session) : P bool :=
  query ← keyboard;
  if String.eqb query "__BACK__" then
    set_globals (set_platform None);; mret false
  else
    update (fun s => Make (fg s) (joy s) (loc s) (Some query) (closed s));;
    s ← get;
    let base :=
      Session.remote_base_of
        (default "None" (last_platform (Session.gl (fg s)))) in
    set_loc (Locals (results (loc s)) (display_items (loc s))
               (label_to_remote (loc s)) (Some base));;
    found ← search sftp base query;
    s ← get;
    set_loc (Locals (Some found) (display_items (loc s))
               (label_to_remote (loc s)) (remote_base (loc s)));;
    match found with
    | [] =>
        show_notification "No results found." info;;
        action ← menu "No results. What next?"
                   ["New Search"; "Change Platform"; "Exit"] false false None;
        if String.eqb action "Exit" then safe_close_sftp;; handle_exit
        else if String.eqb action "Change Platform" then
          set_globals (set_platform None);; mret false
        else
          s ← get;
          set_loc (Locals None (display_items (loc s))
                     (label_to_remote (loc s)) (remote_base (loc s)));;
          mret false
    | _ =>
        let '(items, ltr) := Session.build base found in
        s ← get;
        set_loc (Locals (results (loc s)) (Some items) (Some ltr)
                   (remote_base (loc s)));;
        mret true
    end.

(** One turn of the outer loop, lines 972-1180. *)
Definition main_turn (sftp : Walk.session) (fuel : nat) : P unit :=
  s ← get;
  go ← (if truthy_str (last_platform (Session.gl (fg s))) then mret true
        else choose_platform sftp);
  if (go : bool) then
    s ← get;
    go ← (if truthy_list (results (loc s)) then mret true
          else ask_and_search sftp);
    if (go : bool) then results_loop fuel else mret tt
  else mret tt.

Fixpoint main_loop (sftp : Walk.session) (fuel : nat) : P unit :=
  match fuel return P unit with
  | O => wait
  | S fuel' => main_turn sftp fuel';; main_loop sftp fuel'
  end.

(** [search_and_download()] *)
Definition search_and_download (fuel : nat) : P unit :=
  match connection with
  | inl e =>
      show_notification ("SFTP connection failed: " +:+ e) error;;
      handle_exit
  | inr sftp =>
      match makedirs with
      | Some e => crash e
      | None =>
          set_loc (Locals None None None None);;
          main_loop sftp fuel
      end
  end.

End WithConfig.

(** The program as the module leaves it before [main()] is called. *)
Definition start : app :=
  Make (Session.Fg initial_globals [] []) joy_initial
       (Locals None None None None) None false.

End App.

(** ** The invariant of the main loop *)

Module AppSpec.
Import PyStr Input App.

(** The globals agree on the multi-select mode, the selection and the
    platform. *)
Definition same_mode (g1 g2 : globals) : Prop :=
  multi_select_enabled g1 = multi_select_enabled g2
  /\ selected_results g1 = selected_results g2
  /\ last_platform g1 = last_platform g2.

(** A transfer started for a label of the dictionary, into the
    directory of the platform. *)
Definition from_map (DEST_DIR : string) (ltr : gmap string string)
    (platform : string) (L : Session.launch) : Prop :=
  ltr !! Session.l_label L = Some (Session.l_remote L)
  /\ Session.l_local L = Session.local_path_of DEST_DIR platform (Session.l_label L).

(** Such a menu changes no global of [u_gl], except [stop_download]
    when the window is closed. *)
Definition plain (g0 : globals) (o : Menu.outcome Menu.locals) : Prop :=
  match o with
  | Menu.Next _ u | Menu.Return _ u => Menu.u_gl u = g0
  | Menu.Exit u => Menu.u_gl u = set_stop true g0
  | Menu.Raise _ _ => True
  end.

(** The state [s'] differs from [s] in what a menu, the keyboard or
    the filter of the joystick may change. *)
Definition steady (s s' : app) : Prop :=
  loc s' = loc s
  /\ Session.launched (fg s') = Session.launched (fg s)
  /\ same_mode (Session.gl (fg s')) (Session.gl (fg s)).

Section Launches.
Variable DEST_DIR : string.
Variable sftp : Walk.session.
Variable search_fuel : nat.

(** The platforms that [list_platforms] offers. *)
Definition platforms : list string := (Platforms.list_platforms sftp).1.

(** [found] is what a search in the directory of an offered platform
    has returned, for a query that came from the keyboard. *)
Definition found_by (platform : string) (found : list string) : Prop :=
  platform ∈ platforms
  /\ exists query log,
       Keyboard.typed query = true /\ strip query = query
       /\ Walk.search_remote sftp search_fuel (Session.remote_base_of platform)
            (Some query) 2000 = Some (found, log).

(** A transfer of a file that a search has found, into the directory
    of its platform, under its label. *)
Definition sound_launch (L : Session.launch) : Prop :=
  exists platform found,
    found_by platform found
    /\ Session.l_remote L ∈ found
    /\ replace (Session.remote_base_of platform +:+ "/") "" (Session.l_remote L)
       = Session.l_label L
    /\ Session.l_local L
       = Session.local_path_of DEST_DIR platform (Session.l_label L).

Definition platform_ok (g0 : globals) : Prop :=
  forall p, last_platform g0 = Some p -> p ∈ platforms.

(** The cached search: either there is a display list and a
    dictionary, built from what a search on the current platform has
    found, and the selection is within that list; or there is neither,
    and nothing is selected. *)
Definition cached (s : app) : Prop :=
  let g0 := Session.gl (fg s) in
  match display_items (loc s), label_to_remote (loc s) with
  | Some items, Some ltr =>
      exists platform found,
        last_platform g0 = Some platform
        /\ found_by platform found
        /\ (items, ltr) = Session.build (Session.remote_base_of platform) found
        /\ Session.selection_ok items g0
  | None, None =>
      selected_results g0 = ∅ /\ multi_select_enabled g0 = false
      /\ truthy_list (results (loc s)) = false
  | _, _ => False
  end.

Definition inv (s : app) : Prop :=
  Forall sound_launch (Session.launched (fg s))
  /\ platform_ok (Session.gl (fg s))
  /\ cached s.

(** A piece of the program, started in a state that satisfies [pre]:
    it does not crash, it waits or exits in a state that satisfies the
    invariant, and it ends in a state that satisfies [post]. *)
Definition triple {A} (pre : app -> Prop) (m : P A) (post : A -> app -> Prop)
  : Prop :=
  forall s ins, pre s ->
    match m s ins with
    | Got a s' _ => post a s'
    | Exited s' | Waiting s' => inv s'
    | Crashed _ => False
    end.

(** Where the results loop stands: there is a display list. *)
Definition in_results (s : app) : Prop :=
  inv s /\ is_Some (display_items (loc s)).

(** Where the outer loop stands: there is none. *)
Definition at_top (s : app) : Prop :=
  inv s /\ display_items (loc s) = None.

(** Between the query and the display list: nothing is cached,
    nothing is selected, the platform is set. *)
Definition pending (platform : string) (s : app) : Prop :=
  Forall sound_launch (Session.launched (fg s))
  /\ platform_ok (Session.gl (fg s))
  /\ display_items (loc s) = None /\ label_to_remote (loc s) = None
  /\ selected_results (Session.gl (fg s)) = ∅
  /\ multi_select_enabled (Session.gl (fg s)) = false
  /\ last_platform (Session.gl (fg s)) = Some platform.

End Launches.

End AppSpec.

(** ** Scenes: events as a user produces them *)

Module Scenes.
Import Input Menu.

(** The shared state as the module leaves it. *)
Definition fresh : ui := Ui initial_globals joy_initial [].

Definition three : list string := ["a.zip"; "b.zip"; "< Back"].

(** The cursor is moved down with the key and the key is let go. *)
Definition down_once : list Menu.frame :=
  [([(1000, KEYDOWN K_DOWN)], 1005); ([(1040, KEYUP K_DOWN)], 1045)].

(** [Enter] on the first entry. *)
Definition enter : list Menu.frame := [([(1000, KEYDOWN K_RETURN)], 1005)].

(** Square, cross on the first entry, down with the hat, cross on the
    second, triangle: a batch of two. *)
Definition batch_of_two : list Menu.frame :=
  [([(1000, JOYBUTTONDOWN (Some 0) SQUARE)], 1005);
   ([(1300, JOYBUTTONDOWN (Some 0) CROSS)], 1305);
   ([(1600, JOYHATMOTION (Some 0) (0, -1))], 1605);
   ([(1650, JOYHATMOTION (Some 0) (0, 0))], 1655);
   ([(1900, JOYBUTTONDOWN (Some 0) CROSS)], 1905);
   ([(2200, JOYBUTTONDOWN (Some 0) TRIANGLE)], 2205)].

(** The key [A], then down to the last row, right, and [ENTER]. *)
Definition type_a : list Keyboard.frame :=
  [([(1000, JOYBUTTONDOWN (Some 0) CROSS)], (1005, 1005));
   ([(1100, KEYDOWN K_DOWN); (1110, KEYUP K_DOWN)], (1115, 1115));
   ([(1200, KEYDOWN K_DOWN); (1210, KEYUP K_DOWN)], (1215, 1215));
   ([(1300, KEYDOWN K_DOWN); (1310, KEYUP K_DOWN)], (1315, 1315));
   ([(1400, KEYDOWN K_DOWN); (1410, KEYUP K_DOWN)], (1415, 1415));
   ([(1500, KEYDOWN K_RIGHT); (1510, KEYUP K_RIGHT)], (1515, 1515));
   ([(1600, JOYBUTTONDOWN (Some 0) CROSS)], (1605, 1605))].

(** A notification created at 1000 ms. *)
Definition note : Bus.Notification :=
  Bus.Note 0 "Download started" success 1000 Bus.LIFETIME.

End Scenes.

(** * Properties *)

(** ** Strings and paths *)

Module WalkTheory.
Import PyStr Stat Walk.

Lemma str_app_cons c (a b : string) : String c a +:+ b = String c (a +:+ b).
Proof. reflexivity. Qed.

Lemma str_app_nil_l (a : string) : "" +:+ a = a.
Proof. reflexivity. Qed.

Lemma str_app_assoc (a b c : string) : (a +:+ b) +:+ c = a +:+ (b +:+ c).
Proof. induction a as [|x a IH]; [done|]. rewrite !str_app_cons. by f_equal. Qed.

Lemma str_app_nil_r (a : string) : a +:+ "" = a.
Proof. induction a as [|x a IH]; [done|]. rewrite str_app_cons. by f_equal. Qed.

Lemma str_app_eq_nil (a b : string) : a +:+ b = "" -> a = "" /\ b = "".
Proof. destruct a; [done|]. rewrite str_app_cons. done. Qed.

(** [rstrip_by] leaves alone a string that ends with a kept suffix. *)
Lemma rstrip_by_app p (a b : string) :
  b <> "" -> rstrip_by p b = b -> rstrip_by p (a +:+ b) = a +:+ b.
Proof.
  intros Hb Hfix. induction a as [|x a IH]; [done|].
  rewrite str_app_cons. simpl. rewrite IH.
  destruct (a +:+ b) eqn:E; [|done].
  apply str_app_eq_nil in E as [_ ?]. done.
Qed.

Lemma rstrip_slash_name (d : string) : no_slash d = true -> rstrip_slash d = d.
Proof.
  unfold rstrip_slash. induction d as [|c d IH]; [done|].
  simpl. intros [Hc Hd]%andb_prop. rewrite (IH Hd).
  destruct d; [|done]. destruct (Ascii.eqb c slash); done.
Qed.

Lemma valid_name_spec d : valid_name d = true -> d <> "" /\ no_slash d = true.
Proof.
  unfold valid_name. intros [H1 H2]%andb_prop. split; [|done].
  intros ->. done.
Qed.

Lemma rstrip_join top d : valid_name d = true -> rstrip_slash (join top d) = join top d.
Proof.
  intros [Hne Hns]%valid_name_spec. unfold join, rstrip_slash.
  rewrite <- str_app_assoc. apply rstrip_by_app; [done|].
  by apply rstrip_slash_name.
Qed.


(** A string is its [rstrip('/')] followed by slashes only. *)
Lemma rstrip_slash_split (s : string) :
  exists r, s = rstrip_slash s +:+ r /\ all_slash r = true.
Proof.
  unfold rstrip_slash. induction s as [|c s (r & Hs & Hr)].
  - by exists "".
  - simpl. destruct (rstrip_by _ s) eqn:E.
    + destruct (Ascii.eqb c slash) eqn:Hc.
      * exists (String c s). split; [done|]. simpl. rewrite Hc. simpl.
        rewrite Hs. done.
      * exists r. rewrite str_app_cons. simpl in Hs. by rewrite <- Hs.
    + exists r. rewrite str_app_cons. by rewrite <- Hs.
Qed.

(** Two names followed by nothing or by a slash: equal strings have
    equal names. *)

Lemma name_then_tail_inj (d1 d2 s1 s2 : string) :
  no_slash d1 = true -> no_slash d2 = true -> tail_ok s1 -> tail_ok s2 ->
  d1 +:+ s1 = d2 +:+ s2 -> d1 = d2.
Proof.
  revert d2. induction d1 as [|c d1 IH]; intros [|c2 d2] H1 H2 T1 T2 E.
  - done.
  - rewrite str_app_nil_l, str_app_cons in E. simpl in H2.
    apply andb_prop in H2 as [Hc _].
    destruct T1 as [-> | [s' ->]]; [done|].
    injection E as <- _. by rewrite Ascii.eqb_refl in Hc.
  - rewrite str_app_nil_l, str_app_cons in E. simpl in H1.
    apply andb_prop in H1 as [Hc _].
    destruct T2 as [-> | [s' ->]]; [done|].
    injection E as -> _. by rewrite Ascii.eqb_refl in Hc.
  - rewrite !str_app_cons in E. injection E as -> E.
    simpl in H1, H2. apply andb_prop in H1 as [_ H1]. apply andb_prop in H2 as [_ H2].
    f_equal. by apply (IH d2).
Qed.

Lemma all_slash_head (r d s : string) :
  all_slash r = true -> valid_name d = true -> r <> "/" +:+ d +:+ s.
Proof.
  intros Hr [Hne Hns]%valid_name_spec E. subst r.
  change ("/" +:+ d +:+ s) with (String slash (d +:+ s)) in Hr.
  simpl in Hr. destruct d as [|c d]; [done|].
  rewrite str_app_cons in Hr. simpl in Hr, Hns.
  apply andb_prop in Hns as [Hc _].
  destruct (Ascii.eqb c slash); done.
Qed.

Section WalkFacts.
Variable sftp : session.


Lemma classify_fst_names entries d :
  d ∈ (classify entries).1 ->
  exists e, e ∈ entries /\ filename e = d
            /\ S_ISLNK (st_mode e) = false /\ S_ISDIR (st_mode e) = true.
Proof.
  induction entries as [|e entries IH]; simpl; [by intros ?%elem_of_nil|].
  destruct (classify entries) as [dirs files] eqn:E. simpl in IH.
  destruct (S_ISLNK (st_mode e)) eqn:Hl; simpl.
  - intros (e' & ? & ?)%IH. exists e'. split; [by right|done].
  - destruct (S_ISDIR (st_mode e)) eqn:Hd; simpl.
    + intros [->|Hin]%elem_of_cons.
      * exists e. split; [by left|done].
      * destruct (IH Hin) as (e' & ? & ?). exists e'. split; [by right|done].
    + intros (e' & ? & ?)%IH. exists e'. split; [by right|done].
Qed.

Lemma classify_snd_names entries f :
  f ∈ (classify entries).2 ->
  exists e, e ∈ entries /\ filename e = f
            /\ S_ISLNK (st_mode e) = false /\ S_ISDIR (st_mode e) = false.
Proof.
  induction entries as [|e entries IH]; simpl; [by intros ?%elem_of_nil|].
  destruct (classify entries) as [dirs files] eqn:E. simpl in IH.
  destruct (S_ISLNK (st_mode e)) eqn:Hl; simpl.
  - intros (e' & ? & ?)%IH. exists e'. split; [by right|done].
  - destruct (S_ISDIR (st_mode e)) eqn:Hd; simpl.
    + intros (e' & ? & ?)%IH. exists e'. split; [by right|done].
    + intros [->|Hin]%elem_of_cons.
      * exists e. split; [by left|done].
      * destruct (IH Hin) as (e' & ? & ?). exists e'. split; [by right|done].
Qed.

Lemma classify_fst_sublist entries :
  sublist (classify entries).1 (filename <$> entries).
Proof.
  induction entries as [|e entries IH]; simpl; [constructor|].
  destruct (classify entries) as [dirs files]. simpl in *.
  destruct (S_ISLNK _); simpl; [by constructor|].
  destruct (S_ISDIR _); simpl; by constructor.
Qed.

Lemma names_ok_spec entries :
  names_ok entries = true ->
  Forall (fun e => valid_name (filename e) = true) entries
  /\ NoDup (filename <$> entries).
Proof.
  unfold names_ok. intros [H1 H2]%andb_prop. split.
  - rewrite forallb_forall in H1. apply Forall_forall. intros e He.
    apply H1. apply list_elem_of_In. by apply list_elem_of_fmap_2.
  - by apply bool_decide_eq_true in H2.
Qed.

Lemma tree_ok_bounded n top : tree_ok sftp n top = true -> bounded sftp n top = true.
Proof.
  revert top. induction n as [|n IH]; intros top; simpl; [done|].
  destruct (sftp top) as [e|entries]; [done|].
  intros [_ H]%andb_prop. rewrite forallb_forall in H |- *.
  intros d Hd. apply IH. by apply H.
Qed.

Lemma bounded_S n top : bounded sftp n top = true -> bounded sftp (S n) top = true.
Proof.
  revert top. induction n as [|n IH]; intros top; [done|].
  intros H. simpl in H. change (bounded sftp (S (S n)) top)
    with (match sftp top with
          | inl _ => true
          | inr entries => forallb (fun d => bounded sftp (S n) (join top d)) (classify entries).1
          end).
  destruct (sftp top) as [e|entries]; [done|].
  rewrite forallb_forall in H |- *. intros d Hd. apply IH. by apply H.
Qed.

Lemma walk_rec_S n top :
  bounded sftp n top = true -> walk_rec sftp (S n) top = walk_rec sftp n top.
Proof.
  revert top. induction n as [|n IH]; intros top; [done|].
  intros H. simpl in H.
  change (walk_rec sftp (S (S n)) top)
    with (match sftp top with
          | inl _ => []
          | inr entries =>
              let '(dirs, files) := classify entries in
              (top, dirs, files) :: (dirs ≫= fun d => walk_rec sftp (S n) (join top d))
          end).
  change (walk_rec sftp (S n) top)
    with (match sftp top with
          | inl _ => []
          | inr entries =>
              let '(dirs, files) := classify entries in
              (top, dirs, files) :: (dirs ≫= fun d => walk_rec sftp n (join top d))
          end).
  destruct (sftp top) as [e|entries]; [done|].
  destruct (classify entries) as [dirs files]. simpl in H. f_equal.
  rewrite forallb_forall in H.
  clear -H IH. induction dirs as [|d dirs IHd]; [done|].
  change ((d :: dirs) ≫= ?f) with (f d ++ (dirs ≫= f)). cbv beta.
  rewrite IH by (apply H; by left). f_equal.
  apply IHd. intros x Hx. apply H. by right.
Qed.
End WalkFacts.

Section WalkOrder.
Variable sftp : session.


Lemma fmap_bind_list {A B C} (f : B -> C) (g : A -> list B) (l : list A) :
  f <$> (l ≫= g) = l ≫= (fun x => f <$> g x).
Proof.
  induction l as [|x l IH]; [done|].
  rewrite !bind_cons, fmap_app. by f_equal.
Qed.

Lemma walk_rec_unfold n top :
  walk_rec sftp (S n) top
  = match sftp top with
    | inl _ => []
    | inr entries =>
        (top, (classify entries).1, (classify entries).2)
          :: ((classify entries).1 ≫= fun d => walk_rec sftp n (join top d))
    end.
Proof. simpl. destruct (sftp top); [done|]. by destruct (classify _). Qed.

Lemma tree_ok_unfold n top :
  tree_ok sftp (S n) top
  = match sftp top with
    | inl _ => true
    | inr entries =>
        (names_ok entries
         && forallb (fun d => tree_ok sftp n (join top d)) (classify entries).1)%bool
    end.
Proof. done. Qed.

Lemma tree_ok_dirs n top entries d :
  sftp top = inr entries -> tree_ok sftp (S n) top = true ->
  d ∈ (classify entries).1 ->
  valid_name d = true /\ tree_ok sftp n (join top d) = true.
Proof.
  intros Hs Hok Hd. rewrite tree_ok_unfold, Hs in Hok.
  apply andb_prop in Hok as [Hn Hc]. split.
  - apply names_ok_spec in Hn as [Hv _].
    destruct (classify_fst_names _ _ Hd) as (e & He & <- & _).
    rewrite Forall_forall in Hv. by apply Hv.
  - rewrite forallb_forall in Hc. apply Hc. by apply list_elem_of_In.
Qed.

(** The paths yielded below a directory extend the path of that
    directory by nothing or by [/...]. *)
Lemma walk_rec_under n : forall top d y,
  valid_name d = true -> tree_ok sftp n (join top d) = true ->
  y ∈ walk_rec sftp n (join top d) ->
  exists s, tail_ok s /\ top_of y = join top d +:+ s.
Proof.
  induction n as [|n IH]; intros top d y Hd Hok Hy; [done|].
  rewrite walk_rec_unfold in Hy.
  destruct (sftp (join top d)) as [e|entries] eqn:Hs; [by apply elem_of_nil in Hy|].
  apply elem_of_cons in Hy as [-> | Hy].
  - exists "". split; [by left|]. by rewrite str_app_nil_r.
  - apply list_elem_of_bind in Hy as (d' & Hy & Hd').
    destruct (tree_ok_dirs _ _ _ _ Hs Hok Hd') as [Hv' Hok'].
    destruct (IH _ _ _ Hv' Hok' Hy) as (s & Hs' & ->).
    exists ("/" +:+ d' +:+ s). split; [right; by eexists|].
    unfold join at 1. rewrite (rstrip_join _ _ Hd).
    by rewrite !str_app_assoc.
Qed.

Lemma walk_rec_NoDup n : forall top,
  tree_ok sftp n top = true -> NoDup (top_of <$> walk_rec sftp n top).
Proof.
  induction n as [|n IH]; intros top Hok; [constructor|].
  rewrite walk_rec_unfold.
  destruct (sftp top) as [e|entries] eqn:Hs; [constructor|].
  rewrite fmap_cons, fmap_bind_list. apply NoDup_cons. split.
  - intros (d & Hin & Hd)%list_elem_of_bind.
    apply list_elem_of_fmap in Hin as (y & Hy & Hin).
    destruct (tree_ok_dirs _ _ _ _ Hs Hok Hd) as [Hv Hok'].
    destruct (walk_rec_under _ _ _ _ Hv Hok' Hin) as (s & Hs' & E).
    unfold top_of at 1 in Hy. simpl in Hy. rewrite <- Hy in E.
    destruct (rstrip_slash_split top) as (r & Hr & Hall).
    unfold join in E. rewrite Hr in E at 1. rewrite !str_app_assoc in E.
    apply String.app_inj in E.
    by apply (all_slash_head r d s).
  - apply NoDup_bind.
    + intros d1 d2 p Hd1 Hd2 Hp1 Hp2.
      apply list_elem_of_fmap in Hp1 as (y1 & -> & Hy1).
      apply list_elem_of_fmap in Hp2 as (y2 & E & Hy2).
      destruct (tree_ok_dirs _ _ _ _ Hs Hok Hd1) as [Hv1 Hok1].
      destruct (tree_ok_dirs _ _ _ _ Hs Hok Hd2) as [Hv2 Hok2].
      destruct (walk_rec_under _ _ _ _ Hv1 Hok1 Hy1) as (s1 & Ht1 & E1).
      destruct (walk_rec_under _ _ _ _ Hv2 Hok2 Hy2) as (s2 & Ht2 & E2).
      rewrite E1, E2 in E. unfold join in E. rewrite !str_app_assoc in E.
      apply String.app_inj in E. apply String.app_inj in E.
      apply valid_name_spec in Hv1 as [_ Hv1].
      apply valid_name_spec in Hv2 as [_ Hv2].
      by apply (name_then_tail_inj d1 d2 s1 s2).
    + intros d Hd. apply IH.
      by destruct (tree_ok_dirs _ _ _ _ Hs Hok Hd).
    + rewrite tree_ok_unfold, Hs in Hok. apply andb_prop in Hok as [Hn _].
      apply names_ok_spec in Hn as [_ Hnd].
      exact (sublist_NoDup _ _ Hnd (classify_fst_sublist entries)).
Qed.
End WalkOrder.

Section GenFacts.
Variable sftp : session.




Lemma bounded_unfold n top :
  bounded sftp (S n) top
  = match sftp top with
    | inl _ => true
    | inr entries => forallb (fun d => bounded sftp n (join top d)) (classify entries).1
    end.
Proof. done. Qed.

Lemma bind_walk_S n top dirs :
  forallb (fun d => bounded sftp n (join top d)) dirs = true ->
  (dirs ≫= fun d => walk_rec sftp (S n) (join top d))
  = (dirs ≫= fun d => walk_rec sftp n (join top d)).
Proof.
  induction dirs as [|d dirs IH]; [done|].
  intros [H1 H2]%andb_prop. rewrite !bind_cons.
  rewrite walk_rec_S by done. f_equal. by apply IH.
Qed.

Lemma weight_cons f st : weight (f :: st) = (frame_weight f + weight st)%nat.
Proof. done. Qed.

(** [next] returns on every stack, whatever the tree: its step budget
    is never used up. *)
Lemma gen_run_total : forall n st log,
  (weight st <= n)%nat -> is_Some (gen_run sftp n st log).
Proof.
  induction n as [|n IH]; intros st log Hw.
  - destruct st as [|f st]; [done|].
    rewrite weight_cons in Hw. destruct f; simpl in Hw; lia.
  - destruct st as [|[top|top [|d ds]] st]; rewrite ?weight_cons in Hw;
      simpl in Hw; simpl.
    + done.
    + destruct (sftp top) as [e|entries]; [apply IH; lia|].
      by destruct (classify entries).
    + apply IH. lia.
    + apply IH. rewrite !weight_cons. simpl. lia.
Qed.

Lemma gen_next_total st log : is_Some (gen_next sftp st log).
Proof. by apply gen_run_total. Qed.

Lemma pending_cons N f st :
  pending sftp N (f :: st) = pending_frame sftp N f ++ pending sftp N st.
Proof. done. Qed.

(** [next] on a stack whose directories nest less than [N] deep:
    it returns, with the first tuple still pending, or with
    [StopIteration] when nothing is pending. *)
Lemma gen_run_spec N : forall n st log,
  (weight st <= n)%nat -> Forall (fun f => frame_bounded sftp N f = true) st ->
  exists r, gen_run sftp n st log = Some r
    /\ match r.1.1 with
       | None => pending sftp N st = []
       | Some y =>
           pending sftp N st = y :: pending sftp N r.1.2
           /\ Forall (fun f => frame_bounded sftp N f = true) r.1.2
       end.
Proof.
  induction n as [|n IH]; intros st log Hw Hb.
  - destruct st as [|f st].
    + eexists. split; [done|]. done.
    + rewrite weight_cons in Hw. destruct f; simpl in Hw; lia.
  - destruct st as [|[top|top [|d ds]] st].
    + eexists. split; [done|]. done.
    + apply Forall_cons in Hb as [Hf Hb]. simpl in Hf.
      destruct N as [|N]; [done|]. rewrite bounded_unfold in Hf.
      rewrite weight_cons in Hw. simpl in Hw.
      rewrite pending_cons.
      change (pending_frame sftp (S N) (Fresh top)) with (walk_rec sftp (S N) top).
      rewrite walk_rec_unfold.
      simpl gen_run. destruct (sftp top) as [e|entries] eqn:Hs.
      * destruct (IH st
          (log ++ [Listed top;
                   Notified (Shown ("Cannot access " +:+ top +:+ ": " +:+ e) error)]))
          as (r & Hr & Hspec); [lia|done|].
        exists r. split; [done|]. done.
      * destruct (classify entries) as [dirs files] eqn:Hc. simpl in Hf |- *.
        eexists. split; [reflexivity|]. cbn [fst snd]. split.
        -- rewrite pending_cons.
           change (pending_frame sftp (S N) (Loop top dirs))
             with (dirs ≫= fun d => walk_rec sftp (S N) (join top d)).
           by rewrite bind_walk_S.
        -- apply Forall_cons. split; [|done]. simpl.
           rewrite forallb_forall in Hf |- *. intros d Hd.
           apply bounded_S. by apply Hf.
    + apply Forall_cons in Hb as [Hf Hb].
      rewrite weight_cons in Hw. simpl in Hw.
      destruct (IH st (log ++ [])) as (r & Hr & Hspec); [lia|done|].
      exists r. split; [done|]. by rewrite pending_cons.
    + apply Forall_cons in Hb as [Hf Hb]. simpl in Hf.
      apply andb_prop in Hf as [Hd Hds].
      rewrite weight_cons in Hw. simpl in Hw.
      destruct (IH (Fresh (join top d) :: Loop top ds :: st) (log ++ []))
        as (r & Hr & Hspec).
      * rewrite !weight_cons. simpl. lia.
      * repeat (apply Forall_cons; split); done.
      * exists r. split; [done|].
        assert (pending sftp N (Loop top (d :: ds) :: st)
                = pending sftp N (Fresh (join top d) :: Loop top ds :: st)) as ->; [|done].
        rewrite !pending_cons.
        change (pending_frame sftp N (Loop top (d :: ds)))
          with (walk_rec sftp N (join top d) ++ pending_frame sftp N (Loop top ds)).
        change (pending_frame sftp N (Fresh (join top d)))
          with (walk_rec sftp N (join top d)).
        by rewrite <- app_assoc.
Qed.

Lemma gen_next_spec N st log :
  Forall (fun f => frame_bounded sftp N f = true) st ->
  exists r, gen_next sftp st log = Some r
    /\ match r.1.1 with
       | None => pending sftp N st = []
       | Some y =>
           pending sftp N st = y :: pending sftp N r.1.2
           /\ Forall (fun f => frame_bounded sftp N f = true) r.1.2
       end.
Proof. intros. by apply gen_run_spec. Qed.

(** The generator, consumed, gives what is pending. *)
Lemma gen_drain_spec N : forall fuel st log,
  Forall (fun f => frame_bounded sftp N f = true) st ->
  (length (pending sftp N st) < fuel)%nat ->
  exists log', gen_drain sftp fuel st log = Some (pending sftp N st, log').
Proof.
  induction fuel as [|fuel IH]; intros st log Hb Hlen; [lia|].
  destruct (gen_next_spec N st log Hb) as ([[[y|] k] log'] & Hr & Hspec);
    simpl in Hspec; simpl; rewrite Hr.
  - destruct Hspec as [Hp Hk]. rewrite Hp in Hlen. simpl in Hlen.
    destruct (IH k log' Hk) as (log'' & ->); [lia|].
    exists log''. by rewrite Hp.
  - exists log'. by rewrite Hspec.
Qed.

Lemma pending_walk N top : pending sftp N (sftp_walk top) = walk_rec sftp N top.
Proof. unfold pending, sftp_walk. rewrite bind_cons. simpl. apply app_nil_r. Qed.
End GenFacts.

Section SearchFacts.
Variable sftp : session.

Lemma NoDup_fmap_eq {A B} (f : A -> B) (l : list A) x y :
  NoDup (f <$> l) -> x ∈ l -> y ∈ l -> f x = f y -> x = y.
Proof.
  induction l as [|a l IH]; [by intros _ ?%elem_of_nil|].
  rewrite fmap_cons. intros [Hn Hnd]%NoDup_cons Hx Hy E.
  apply elem_of_cons in Hx as [->|Hx]; apply elem_of_cons in Hy as [->|Hy].
  - done.
  - destruct Hn. rewrite E. by apply list_elem_of_fmap_2.
  - destruct Hn. rewrite <- E. by apply list_elem_of_fmap_2.
  - by apply IH.
Qed.

(** Every tuple of the walk is the classified listing of its path. *)
Lemma walk_rec_yield n : forall top y,
  tree_ok sftp n top = true -> y ∈ walk_rec sftp n top ->
  exists entries, sftp (top_of y) = inr entries
    /\ classify entries = (y.1.2, y.2) /\ names_ok entries = true.
Proof.
  induction n as [|n IH]; intros top y Hok Hy; [done|].
  rewrite walk_rec_unfold in Hy.
  destruct (sftp top) as [e|entries] eqn:Hs; [by apply elem_of_nil in Hy|].
  apply elem_of_cons in Hy as [-> | Hy].
  - exists entries. split; [done|]. split; [by destruct (classify entries)|].
    rewrite tree_ok_unfold, Hs in Hok. by apply andb_prop in Hok as [? _].
  - apply list_elem_of_bind in Hy as (d & Hy & Hd).
    destruct (tree_ok_dirs _ _ _ _ _ Hs Hok Hd) as [_ Hok'].
    by apply (IH (join top d)).
Qed.

(** A symbolic link of a listing is in neither list. *)
Lemma link_not_classified entries e :
  NoDup (filename <$> entries) -> e ∈ entries ->
  S_ISLNK (st_mode e) = true ->
  (filename e ∉ (classify entries).1) /\ (filename e ∉ (classify entries).2).
Proof.
  intros Hnd He Hl. split.
  - intros (e' & He' & E & Hl' & _)%classify_fst_names.
    assert (e' = e) as ->; [by apply (NoDup_fmap_eq filename entries)|].
    congruence.
  - intros (e' & He' & E & Hl' & _)%classify_snd_names.
    assert (e' = e) as ->; [by apply (NoDup_fmap_eq filename entries)|].
    congruence.
Qed.

(** What [next] yields is the classified listing of a path just
    listed. *)
Lemma gen_run_yield n : forall st log y k log',
  gen_run sftp n st log = Some (Some y, k, log') ->
  exists entries l, sftp (top_of y) = inr entries
    /\ classify entries = (y.1.2, y.2)
    /\ log' = l ++ [Listed (top_of y)].
Proof.
  induction n as [|n IH]; intros st log y k log' H;
    destruct st as [|[top|top [|d ds]] st]; simpl in H; try done.
  - destruct (sftp top) as [e|entries] eqn:Hs; [done|].
    destruct (classify entries) as [dirs files] eqn:Hc.
    injection H as <- <- <-. exists entries, log. unfold top_of. simpl.
    by rewrite Hs, Hc.
  - destruct (sftp top) as [e|entries] eqn:Hs; [by eapply IH|].
    destruct (classify entries) as [dirs files] eqn:Hc.
    injection H as <- <- <-. exists entries, log. unfold top_of. simpl.
    by rewrite Hs, Hc.
  - by eapply IH.
  - by eapply IH.
Qed.



Lemma scan_files_spec q root limit files : forall results count,
  match scan_files q root limit files results count with
  | inl (r', c') =>
      exists new, r' = results ++ new
        /\ c' = count + Z.of_nat (length new)
        /\ Forall (hit_in q root files) new
        /\ (count < limit -> c' < limit)
  | inr r' =>
      exists new p, r' = results ++ new ++ [p]
        /\ Forall (hit_in q root files) (new ++ [p])
        /\ (count < limit -> count + Z.of_nat (length (new ++ [p])) = limit)
  end.
Proof.
  induction files as [|fname files IH]; intros results count; simpl.
  - exists []. rewrite app_nil_r. simpl. repeat split; [lia|constructor|lia].
  - assert (Hmono : forall l, Forall (hit_in q root files) l ->
                     Forall (hit_in q root (fname :: files)) l).
    { intros l Hl. eapply Forall_impl; [exact Hl|]. intros p (f & ? & ? & ?).
      exists f. split; [by right|done]. }
    destruct (contains q (lower fname)) eqn:Hq.
    + assert (Hh : hit_in q root (fname :: files)
                     (rstrip_slash root +:+ "/" +:+ fname)).
      { exists fname. split; [by left|done]. }
      destruct (count + 1 >=? limit) eqn:Hlim.
      * exists [], (rstrip_slash root +:+ "/" +:+ fname). simpl.
        split; [done|]. split; [by repeat constructor|]. lia.
      * specialize (IH (results ++ [rstrip_slash root +:+ "/" +:+ fname]) (count + 1)).
        destruct (scan_files _ _ _ _ _ _) as [[r' c']|r'].
        -- destruct IH as (new & -> & -> & Hall & Hlt).
           exists ((rstrip_slash root +:+ "/" +:+ fname) :: new).
           rewrite <- app_assoc. simpl. split; [done|].
           split; [lia|]. split; [constructor; auto|]. lia.
        -- destruct IH as (new & p & -> & Hall & Hlt).
           exists ((rstrip_slash root +:+ "/" +:+ fname) :: new), p.
           rewrite <- !app_assoc. simpl. split; [done|].
           split; [constructor; auto|].
           intros. rewrite length_app in Hlt |- *. simpl in *. lia.
    + specialize (IH results count).
      destruct (scan_files _ _ _ _ _ _) as [[r' c']|r'].
      * destruct IH as (new & -> & -> & Hall & Hlt).
        exists new. repeat split; auto.
      * destruct IH as (new & p & -> & Hall & Hlt).
        exists new, p. repeat split; auto.
Qed.

Lemma hit_in_hit q root entries p :
  sftp root = inr entries ->
  hit_in q root (classify entries).2 p -> hit sftp q p.
Proof. intros Hs Hp. by exists root, entries. Qed.

(** The loop of [search_remote]: what it returns are hits; from a
    count below [limit] it returns at most [limit] of them, and when
    it returns [limit] the last listing made is that of the directory
    of the last hit. *)
Lemma search_loop_spec q limit : forall fuel gen log results count r log',
  search_loop sftp fuel q limit gen log results count = Some (r, log') ->
  Forall (hit sftp q) results -> Z.of_nat (length results) = count ->
  Forall (hit sftp q) r
  /\ (count < limit ->
      Z.of_nat (length r) <= limit
      /\ (Z.of_nat (length r) = limit ->
          exists root fname,
            last r = Some (rstrip_slash root +:+ "/" +:+ fname)
            /\ last log' = Some (Listed root))).
Proof.
  induction fuel as [|fuel IH]; intros gen log results count r log' H Hall Hlen;
    [done|].
  simpl in H. unfold gen_next in H.
  destruct (gen_run sftp (weight gen) gen log) as [[[[y|] k] l]|] eqn:Hg; [| |done].
  - destruct y as [[root dirs] files].
    destruct (gen_run_yield _ _ _ _ _ _ Hg) as (entries & l0 & Hs & Hc & Hl).
    unfold top_of in Hs, Hl. simpl in Hs, Hc, Hl.
    assert (Hf : files = (classify entries).2) by by rewrite Hc.
    pose proof (scan_files_spec q root limit files results count) as Hscan.
    destruct (scan_files q root limit files results count) as [[r' c']|r'].
    + destruct Hscan as (new & -> & -> & Hnew & Hlt).
      assert (Hall' : Forall (hit sftp q) (results ++ new)).
      { apply Forall_app. split; [done|]. eapply Forall_impl; [exact Hnew|].
        intros p Hp. subst files. by eapply hit_in_hit. }
      destruct (IH _ _ _ _ _ _ H Hall') as [Hr Hb].
      { rewrite length_app. lia. }
      split; [done|]. intros Hcl. apply Hb. by apply Hlt.
    + injection H as <- <-.
      destruct Hscan as (new & p & -> & Hnew & Hlt).
      split.
      * apply Forall_app. split; [done|]. eapply Forall_impl; [exact Hnew|].
        intros p' Hp. subst files. by eapply hit_in_hit.
      * intros Hcl. specialize (Hlt Hcl).
        rewrite length_app. split; [lia|]. intros _.
        apply Forall_app in Hnew as [_ Hp]. apply Forall_cons in Hp as [Hp _].
        destruct Hp as (fname & _ & -> & _).
        exists root, fname. rewrite app_assoc, last_snoc. split; [done|].
        by rewrite Hl, last_snoc.
  - injection H as <- <-. split; [done|]. intros Hcl. split; [lia|].
    intros; lia.
Qed.

(** On a tree of bounded nesting the loop returns. *)
Lemma search_loop_returns N q limit : forall fuel gen log results count,
  Forall (fun f => frame_bounded sftp N f = true) gen ->
  (length (pending sftp N gen) < fuel)%nat ->
  exists r, search_loop sftp fuel q limit gen log results count = Some r.
Proof.
  induction fuel as [|fuel IH]; intros gen log results count Hb Hlen; [lia|].
  destruct (gen_next_spec sftp N gen log Hb) as ([[[y|] k] log'] & Hr & Hspec);
    simpl in Hspec; simpl; rewrite Hr.
  - destruct y as [[root dirs] files]. destruct Hspec as [Hp Hk].
    destruct (scan_files q root limit files results count) as [[r' c']|r'];
      [|by eexists].
    apply IH; [done|]. rewrite Hp in Hlen. simpl in Hlen. lia.
  - by eexists.
Qed.
End SearchFacts.

Lemma contains_cons q c s :
  contains q (String c s) = (String.prefix q (String c s) || contains q s)%bool.
Proof. done. Qed.

Lemma prefix_slash c s : String.prefix "/" (String c s) = Ascii.eqb c slash.
Proof.
  change (String.prefix "/" (String c s))
    with (if ascii_dec "/" c then String.prefix "" s else false).
  destruct (ascii_dec "/" c) as [<-|Hne].
  - rewrite Ascii.eqb_refl. by destruct s.
  - symmetry. apply Ascii.eqb_neq. intros ->. by apply Hne.
Qed.

Lemma contains_slash_name f : no_slash f = true -> contains "/" f = false.
Proof.
  induction f as [|c f IH]; [done|].
  intros [Hc Hf]%andb_prop. apply negb_true_iff in Hc.
  by rewrite contains_cons, prefix_slash, Hc, (IH Hf).
Qed.

Lemma contains_slash_join r f : contains "/" (r +:+ "/" +:+ f) = true.
Proof.
  induction r as [|c r IH].
  - change ("" +:+ "/" +:+ f) with (String slash f).
    by rewrite contains_cons, prefix_slash, Ascii.eqb_refl.
  - rewrite str_app_cons, contains_cons, IH. apply orb_true_r.
Qed.

(** The file name of a joined path is the name that was joined. *)
Lemma basename_join r f : no_slash f = true -> basename (r +:+ "/" +:+ f) = f.
Proof.
  intros Hf. induction r as [|c r IH].
  - change ("" +:+ "/" +:+ f) with (String slash f).
    change (basename (String slash f))
      with (if contains "/" f then basename f
            else if Ascii.eqb slash slash then f else String slash f).
    by rewrite (contains_slash_name f Hf), Ascii.eqb_refl.
  - rewrite str_app_cons.
    change (basename (String c (r +:+ "/" +:+ f)))
      with (if contains "/" (r +:+ "/" +:+ f) then basename (r +:+ "/" +:+ f)
            else if Ascii.eqb c slash then r +:+ "/" +:+ f
                 else String c (r +:+ "/" +:+ f)).
    by rewrite contains_slash_join.
Qed.

(** *** Claims on the walk and the search *)

(** The search returns on every tree of bounded nesting. *)
Lemma search_remote_returns sftp N base_dir query limit :
  bounded sftp N base_dir = true ->
  exists r, search_remote sftp (S (length (walk_rec sftp N base_dir)))
              base_dir query limit = Some r.
Proof.
  intros Hb. unfold search_remote.
  destruct (String.eqb _ _); [by eexists|].
  apply (search_loop_returns sftp N).
  - apply Forall_singleton. exact Hb.
  - rewrite pending_walk. lia.
Qed.

Lemma strip_all_space s : all_space s = true -> strip s = "".
Proof.
  intros H. unfold strip.
  assert (lstrip s = "") as ->; [|done].
  induction s as [|c s IH]; [done|]. simpl in *.
  apply andb_prop in H as [-> H]. by apply IH.
Qed.

(** *** The walk is the pre-order traversal *)

Section PreorderFacts.
Variable sftp : session.

Lemma classify_spec entries :
  classify entries = (subdirs entries, plain_files entries).
Proof.
  unfold subdirs, plain_files.
  induction entries as [|e entries IH]; [done|]. simpl. rewrite IH.
  rewrite !filter_cons.
  destruct (S_ISLNK (st_mode e)) eqn:Hl.
  - rewrite !decide_False by (by intros [? ?]). done.
  - destruct (S_ISDIR (st_mode e)) eqn:Hd.
    + rewrite decide_True by done. rewrite decide_False by (by intros [? ?]). done.
    + rewrite decide_False by (by intros [? ?]). rewrite decide_True by done. done.
Qed.

Lemma preorder_walk_rec n : forall top,
  preorder sftp n top = walk_rec sftp n top.
Proof.
  induction n as [|n IH]; intros top; [done|].
  rewrite walk_rec_unfold. simpl. destruct (sftp top) as [e|entries]; [done|].
  rewrite classify_spec. simpl. f_equal.
  induction (subdirs entries) as [|d ds IHd]; [done|].
  rewrite !bind_cons. by rewrite IH, IHd.
Qed.

(** Every directory of a tuple is walked in its turn: unless it
    cannot be listed, it has a tuple of its own. *)
Lemma walk_rec_visits n : forall top y d entries,
  tree_ok sftp n top = true -> y ∈ walk_rec sftp n top -> d ∈ y.1.2 ->
  sftp (join (top_of y) d) = inr entries ->
  join (top_of y) d ∈ top_of <$> walk_rec sftp n top.
Proof.
  induction n as [|n IH]; intros top y d entries' Hok Hy Hd Hs'; [done|].
  rewrite walk_rec_unfold in Hy |- *.
  destruct (sftp top) as [e|entries] eqn:Hs; [by apply elem_of_nil in Hy|].
  rewrite fmap_cons. apply elem_of_cons in Hy as [-> | Hy].
  - right. unfold top_of in *. simpl in *.
    destruct (tree_ok_dirs sftp _ _ _ _ Hs Hok Hd) as [_ Hok'].
    apply list_elem_of_fmap. destruct n as [|n]; [done|].
    exists (join top d, (classify entries').1, (classify entries').2).
    split; [done|]. apply list_elem_of_bind. exists d. split; [|done].
    rewrite walk_rec_unfold, Hs'. by left.
  - right. apply list_elem_of_bind in Hy as (d' & Hy & Hd').
    destruct (tree_ok_dirs sftp _ _ _ _ Hs Hok Hd') as [_ Hok'].
    pose proof (IH _ _ _ _ Hok' Hy Hd Hs') as Hin.
    apply list_elem_of_fmap in Hin as (y' & Hy' & Hin).
    apply list_elem_of_fmap. exists y'. split; [done|].
    apply list_elem_of_bind. by exists d'.
Qed.

Lemma subdirs_spec entries e :
  e ∈ entries -> S_ISLNK (st_mode e) = false -> S_ISDIR (st_mode e) = true ->
  filename e ∈ subdirs entries.
Proof.
  intros He Hl Hd. unfold subdirs. apply list_elem_of_fmap_2.
  by apply list_elem_of_filter.
Qed.

Lemma plain_files_spec entries e :
  e ∈ entries -> S_ISLNK (st_mode e) = false -> S_ISDIR (st_mode e) = false ->
  filename e ∈ plain_files entries.
Proof.
  intros He Hl Hd. unfold plain_files. apply list_elem_of_fmap_2.
  by apply list_elem_of_filter.
Qed.

End PreorderFacts.

(** C4.  On a remote tree (below [top] every listing has valid, distinct
    names and the directories nest less than [depth] deep, [depth]
    within what the recursion limit of the interpreter leaves room for;
    what the symbolic links point to is not constrained and may form
    cycles) the generator [sftp_walk]
    - terminates: consumed with enough fuel it yields a finite list, the
      same for every larger fuel;
    - is depth first, pre-order: the list is the tuple of [top] followed,
      for each directory of [top] in listing order, by the whole walk of
      that directory;
    - yields no directory path twice;
    - gives in each tuple the listing of its path: as directories the
      names of the entries that are directories, as files the names of
      those that are neither directories nor symbolic links, both in
      listing order;
    - puts no entry whose mode is that of a symbolic link into the
      directories or the files of a tuple, and leaves out no other
      entry;
    - visits every directory of a tuple: unless it cannot be listed, it
      has a tuple of its own. *)
Theorem sftp_walk_preorder_skips_links sftp depth top :
  (depth <= MAX_NESTING)%nat ->
  tree_ok sftp depth top = true ->
  let ys := preorder sftp depth top in
  (forall fuel log, (length ys < fuel)%nat ->
     exists log', gen_drain sftp fuel (sftp_walk top) log = Some (ys, log'))
  /\ match sftp top with
     | inl _ => ys = []
     | inr entries =>
         ys = (top, subdirs entries, plain_files entries)
                :: (subdirs entries
                      ≫= fun d => preorder sftp (pred depth) (join top d))
     end
  /\ NoDup (top_of <$> ys)
  /\ forall y, y ∈ ys ->
       exists entries,
         sftp (top_of y) = inr entries
         /\ y.1.2 = subdirs entries /\ y.2 = plain_files entries
         /\ (forall e, e ∈ entries -> S_ISLNK (st_mode e) = true ->
               (filename e ∉ y.1.2) /\ (filename e ∉ y.2))
         /\ (forall e, e ∈ entries -> S_ISLNK (st_mode e) = false ->
               if S_ISDIR (st_mode e)
               then filename e ∈ y.1.2
                    /\ forall below,
                         sftp (join (top_of y) (filename e)) = inr below ->
                         join (top_of y) (filename e) ∈ top_of <$> ys
               else filename e ∈ y.2).
Proof.
  intros _ Hok ys. unfold ys. rewrite preorder_walk_rec.
  split; [|split; [|split]].
  - intros fuel log Hlen. rewrite <- (pending_walk sftp depth top).
    apply gen_drain_spec.
    + apply Forall_singleton. simpl. by apply tree_ok_bounded.
    + by rewrite pending_walk.
  - destruct depth as [|n]; [done|]. rewrite walk_rec_unfold.
    simpl pred. destruct (sftp top) as [e|entries]; [done|].
    rewrite classify_spec. simpl. f_equal.
    induction (subdirs entries) as [|d ds IHd]; [done|].
    rewrite !bind_cons. by rewrite preorder_walk_rec, IHd.
  - by apply walk_rec_NoDup.
  - intros y Hy.
    destruct (walk_rec_yield sftp depth top y Hok Hy) as (entries & Hs & Hc & Hn).
    exists entries. rewrite classify_spec in Hc. injection Hc as Hc1 Hc2.
    split; [done|]. split; [done|]. split; [done|]. split.
    + intros e He Hl. apply names_ok_spec in Hn as [_ Hnd].
      destruct (link_not_classified entries e Hnd He Hl) as [H1 H2].
      rewrite classify_spec in H1, H2. simpl in H1, H2. by rewrite <- Hc1, <- Hc2.
    + intros e He Hl. destruct (S_ISDIR (st_mode e)) eqn:Hd.
      * assert (filename e ∈ y.1.2) as Hin
          by (rewrite <- Hc1; by apply subdirs_spec).
        split; [done|]. intros below Hb.
        by apply (walk_rec_visits sftp depth top y (filename e) below).
      * rewrite <- Hc2. by apply plain_files_spec.
Qed.

Lemma sftp_walk_preorder_witness :
  (5 <= MAX_NESTING)%nat
  /\ tree_ok Examples.demo 5 "/roms/a" = true
  /\ exists log',
       gen_drain Examples.demo 10 (sftp_walk "/roms/a") []
       = Some ([("/roms/a", ["b"], ["bx"; "A.BIN"]);
                ("/roms/a/b", ["roms"], []);
                ("/roms/a/b/roms", ["a"; "locked"], []);
                ("/roms/a/b/roms/a", [], ["x"])], log').
Proof.
  assert (5 <= MAX_NESTING)%nat as Hd by (unfold MAX_NESTING; lia).
  split; [exact Hd|]. split; [reflexivity|].
  destruct (sftp_walk_preorder_skips_links Examples.demo 5 "/roms/a" Hd eq_refl)
    as (Hrun & _).
  apply (Hrun 10%nat []). vm_compute. lia.
Defined.

(** C3, as the code has it.  Every path returned by [search_remote] is
    the path of a listed directory joined to a file name of that listing,
    and the name contains, case-insensitively, the query stripped of
    surrounding white space; for a limit of at least 1 the number of
    results is at most the limit, and when the limit is reached the last
    directory listed is that of the last result (the walk goes no
    further).  On a tree of bounded nesting the search returns.  A blank
    query gives the empty list, without an error and without a
    listing. *)
Theorem search_remote_hits_bounded_blank sftp base_dir query limit :
  let q := lower (strip (default "" query)) in
  (forall fuel results log,
     search_remote sftp fuel base_dir query limit = Some (results, log) ->
     (forall p, p ∈ results -> hit sftp q p)
     /\ (1 <= limit ->
         Z.of_nat (length results) <= limit
         /\ (Z.of_nat (length results) = limit ->
             exists root fname,
               last results = Some (rstrip_slash root +:+ "/" +:+ fname)
               /\ last log = Some (Listed root))))
  /\ (forall N, bounded sftp N base_dir = true ->
        exists r, search_remote sftp (S (length (walk_rec sftp N base_dir)))
                    base_dir query limit = Some r)
  /\ (all_space (default "" query) = true ->
      forall fuel, search_remote sftp fuel base_dir query limit = Some ([], [])).
Proof.
  intros q. split; [|split].
  - intros fuel results log H. unfold search_remote in H. fold q in H.
    destruct (String.eqb q "") eqn:Hq.
    + injection H as <- <-. split; [by intros p ?%elem_of_nil|].
      intros Hl. simpl. split; [lia|]. intros; lia.
    + destruct (search_loop_spec sftp q limit _ _ _ _ _ _ _ H (Forall_nil_2 _) eq_refl)
        as [Hall Hb].
      split; [by apply Forall_forall|]. intros Hl. apply Hb. lia.
  - intros N Hb. by apply search_remote_returns.
  - intros Hs fuel. unfold search_remote.
    by rewrite (strip_all_space _ Hs).
Qed.

Lemma search_remote_hits_witness :
  search_remote Examples.demo 10 "/roms/a" (Some " X ") 2
  = Some (["/roms/a/bx"; "/roms/a/b/roms/a/x"],
          [Listed "/roms/a"; Listed "/roms/a/b"; Listed "/roms/a/b/roms";
           Listed "/roms/a/b/roms/a"])
  /\ 1 <= 2
  /\ bounded Examples.demo 5 "/roms/a" = true
  /\ all_space (default "" (Some "  ")) = true
  /\ (forall p, p ∈ ["/roms/a/bx"; "/roms/a/b/roms/a/x"] -> hit Examples.demo "x" p)
  /\ Z.of_nat (length ["/roms/a/bx"; "/roms/a/b/roms/a/x"]) <= 2
  /\ (exists r, search_remote Examples.demo
                  (S (length (walk_rec Examples.demo 5 "/roms/a")))
                  "/roms/a" (Some " X ") 2 = Some r)
  /\ search_remote Examples.demo 0 "/roms/a" (Some "  ") 2 = Some ([], []).
Proof.
  destruct (search_remote_hits_bounded_blank Examples.demo "/roms/a" (Some " X ") 2)
    as (Hres & Hret & _).
  destruct (Hres 10%nat _ _ eq_refl) as (Hhit & Hlim).
  destruct (search_remote_hits_bounded_blank Examples.demo "/roms/a" (Some "  ") 2)
    as (_ & _ & Hblank).
  split; [reflexivity|]. split; [lia|]. split; [reflexivity|].
  split; [reflexivity|]. split; [exact Hhit|].
  split; [apply Hlim; lia|]. split; [apply Hret; reflexivity|].
  apply Hblank. reflexivity.
Defined.

(** On listings with valid names a hit is a path whose file name
    contains the query. *)
Lemma hit_file_name sftp q p :
  (forall root entries, sftp root = inr entries -> names_ok entries = true) ->
  hit sftp q p -> contains q (lower (basename p)) = true.
Proof.
  intros Hok (root & entries & Hs & fname & Hf & -> & Hq).
  destruct (classify_snd_names _ _ Hf) as (e & He & <- & _).
  destruct (names_ok_spec _ (Hok _ _ Hs)) as [Hv _].
  rewrite Forall_forall in Hv. destruct (valid_name_spec _ (Hv _ He)) as [_ Hn].
  by rewrite basename_join.
Qed.

(** The walk is consumed lazily: on a tree without end the search
    returns as soon as the limit is reached, after three listings. *)
Lemma search_stops_on_endless_tree :
  search_remote Examples.endless 3 "/roms/a" (Some "rom") 3
  = Some (["/roms/a/rom.bin"; "/roms/a/deeper/rom.bin";
           "/roms/a/deeper/deeper/rom.bin"],
          [Listed "/roms/a"; Listed "/roms/a/deeper";
           Listed "/roms/a/deeper/deeper"]).
Proof. reflexivity. Qed.

(** C3 as stated fails: the query [" X"] with limit 0 returns
    [/roms/a/bx]; the file name [bx] does not contain [" X"] in any
    case, and one result is more than the limit. *)
Lemma search_remote_padded_query_zero_limit :
  search_remote Examples.demo 10 "/roms/a" (Some " X") 0
  = Some (["/roms/a/bx"], [Listed "/roms/a"])
  /\ basename "/roms/a/bx" = "bx"
  /\ contains (lower " X") (lower (basename "/roms/a/bx")) = false
  /\ ~ (Z.of_nat (length ["/roms/a/bx"]) <= 0).
Proof. split; [reflexivity|]. split; [reflexivity|]. split; [reflexivity|]. simpl. lia. Qed.

End WalkTheory.

(** ** The download engine *)

Module DownloadTheory.
Import PyStr Download.

Lemma bind_unfold {A B} (m : M A) (f : A -> M B) w :
  (m ≫= f) w = match m w with
               | (inl e, w') => (inl e, w')
               | (inr a, w') => f a w'
               end.
Proof. done. Qed.

Lemma prologue_spec w :
  prologue w
  = (inr tt,
     World (Globals true 0 0 0 false (multi_select_enabled (g w))
              (selected_results (g w)) (last_platform (g w)))
           (local_file w) (shown_log w)).
Proof. by destruct w as [[] ? ?]. Qed.

(** The telemetry touches only the progress, speed and eta. *)
Lemma telemetry_spec size now c w :
  exists c' w', telemetry size now c w = (inr c', w')
    /\ read_bytes c' = read_bytes c
    /\ local_file w' = local_file w
    /\ shown_log w' = shown_log w
    /\ stop_download (g w') = stop_download (g w).
Proof.
  unfold telemetry. rewrite bind_unfold. simpl.
  destruct (Qle_bool _ _); simpl; eexists _, _; by split.
Qed.


Lemma delivered_0 blocks : delivered 0 blocks = [].
Proof. done. Qed.

Lemma delivered_S k b blocks :
  delivered (S k) (b :: blocks) = block_data b ++ delivered k blocks.
Proof. done. Qed.

(** The loop shows nothing but the abort; when it ends without an
    exception the local file is what it was followed by the bytes of
    the first [k] blocks, for some [k], and [read_bytes] is its size. *)
Lemma read_loop_spec size blocks : forall c w content,
  local_file w = Some content -> Z.of_nat (length content) = read_bytes c ->
  exists r w' d, read_loop size blocks c w = (r, w')
    /\ shown_log w' = shown_log w ++ d /\ no_success d
    /\ match r with
       | inr c' =>
           exists k, local_file w' = Some (content ++ delivered k blocks)
             /\ Z.of_nat (length (content ++ delivered k blocks)) = read_bytes c'
       | inl _ => is_Some (local_file w')
       end.
Proof.
  induction blocks as [|b blocks IH]; intros c w content Hf Hlen.
  - simpl. unfold mbind, M_bind, read_globals. simpl.
    destruct (stop_download (g w)).
    + eexists _, _, _. split; [reflexivity|]. simpl.
      split; [done|]. split; [by repeat constructor|].
      exists 0%nat. by rewrite delivered_0, app_nil_r.
    + eexists _, _, []. split; [reflexivity|]. simpl. rewrite app_nil_r.
      split; [done|]. split; [constructor|].
      exists 0%nat. by rewrite delivered_0, app_nil_r.
  - simpl. unfold mbind at 1, M_bind at 1. simpl.
    unfold mbind at 1, M_bind at 1. simpl.
    destruct (stop_download (land (b_flag b) (g w))).
    + eexists _, _, _. split; [reflexivity|]. simpl.
      split; [done|]. split; [by repeat constructor|].
      exists 0%nat. by rewrite delivered_0, app_nil_r.
    + destruct (b_read b) as [e|[|x data]] eqn:Hread.
      * eexists _, _, []. split; [reflexivity|]. simpl. rewrite app_nil_r.
        split; [done|]. split; [constructor|]. by rewrite Hf.
      * eexists _, _, []. split; [reflexivity|]. simpl. rewrite app_nil_r.
        split; [done|]. split; [constructor|].
        exists 0%nat. by rewrite delivered_0, app_nil_r.
      * unfold mbind at 1, M_bind at 1, write_local. simpl.
        destruct (b_write b) as [e|].
        -- eexists _, _, []. split; [reflexivity|]. simpl. rewrite app_nil_r.
           split; [done|]. split; [constructor|]. by rewrite Hf.
        -- rewrite bind_unfold.
           match goal with |- context [telemetry size ?n ?c0 ?w0] =>
             destruct (telemetry_spec size n c0 w0) as (c' & w' & -> & Hc & Hl & Hs & _)
           end.
           simpl in Hc, Hl, Hs. rewrite Hf in Hl. simpl in Hl.
           destruct (IH c' w' _ Hl) as (r & w'' & d & -> & Hlog & Hd & Hr).
           { rewrite Hc. rewrite length_app. simpl length. lia. }
           exists r, w'', d. split; [done|]. split; [by rewrite Hlog, Hs|].
           split; [done|]. destruct r as [e|c'']; [done|].
           destruct Hr as (k & Hk & Hlen'). exists (S k).
           rewrite delivered_S. unfold block_data. rewrite Hread.
           by rewrite <- app_assoc in Hk, Hlen'.
Qed.


Lemma remove_partial_spec E msg w :
  exists w' d, remove_partial E msg w = (inr tt, w')
    /\ shown_log w' = shown_log w ++ d /\ no_success d /\ g w' = g w
    /\ (local_file w' = None \/ remove_failed E d)
    /\ (e_remove E = None -> local_file w' = None).
Proof.
  unfold remove_partial, remove_failed. destruct (local_file w) eqn:Hf.
  - destruct (e_remove E) as [e|] eqn:Hr.
    + eexists _, _. split; [reflexivity|]. simpl.
      split; [done|]. split; [by repeat constructor|]. split; [done|].
      split; [|done]. right. exists e. split; [done|]. by left.
    + eexists _, _. split; [reflexivity|]. simpl.
      split; [done|]. split; [by repeat constructor|]. split; [done|].
      split; [by left|done].
  - exists w, []. rewrite app_nil_r. split; [done|]. split; [done|].
    split; [constructor|]. split; [done|]. split; [by left|done].
Qed.


(** The outer [try]: what it leaves behind, case by case. *)
Lemma transfer_spec E local_path w :
  exists r w' d, transfer E local_path w = (r, w')
    /\ shown_log w' = shown_log w ++ d
    /\ match r with
       | inl _ => no_success d
       | inr (Finished b size read) =>
           e_stat E = inr size
           /\ b = completion_test (stop_download (g w')) size read
           /\ exists k,
                read = Z.of_nat (length (delivered k (e_blocks E)))
                /\ if b then
                     Shown ("Download complete: " +:+ basename local_path) success ∈ d
                     /\ local_file w' = Some (delivered k (e_blocks E))
                   else
                     no_success d
                     /\ (local_file w' = None \/ remove_failed E d)
                     /\ (e_remove E = None -> local_file w' = None)
       | inr (Caught _) => False
       end.
Proof.
  unfold transfer. rewrite bind_unfold.
  destruct (e_makedirs E) as [e|]; simpl.
  { exists (inl e), w, []. rewrite app_nil_r. repeat split; try done; apply Forall_nil_2. }
  rewrite bind_unfold. destruct (e_stat E) as [e|size] eqn:Hstat; simpl.
  { exists (inl e), w, []. rewrite app_nil_r. repeat split; try done; apply Forall_nil_2. }
  rewrite bind_unfold. unfold open_local.
  destruct (e_open_local E) as [e|]; simpl.
  { exists (inl e), w, []. rewrite app_nil_r. repeat split; try done; apply Forall_nil_2. }
  rewrite bind_unfold. unfold with_exit. rewrite bind_unfold.
  destruct (e_open_remote E) as [e|]; simpl.
  { destruct (e_close E) as [e'|];
      eexists (inl _), (World (g w) (Some []) (shown_log w)), [];
      rewrite app_nil_r; repeat split; try done; apply Forall_nil_2. }
  match goal with |- context [read_loop size ?bs ?c0 ?w0] =>
    destruct (read_loop_spec size bs c0 w0 [] eq_refl eq_refl)
      as (r & w1 & d1 & -> & Hlog1 & Hd1 & Hr)
  end.
  simpl in Hlog1. destruct r as [e|c].
  { destruct (e_close E) as [e'|]; eexists (inl _), w1, d1; by repeat split. }
  destruct Hr as (k & Hf & Hlen). rewrite app_nil_l in Hf, Hlen.
  destruct (e_close E) as [e|]; simpl.
  { exists (inl e), w1, d1. by repeat split. }
  unfold mbind at 1, M_bind at 1. simpl.
  unfold mbind at 1, M_bind at 1. simpl.
  destruct (completion_test _ _ _) eqn:Ht.
  - unfold mbind, M_bind. simpl.
    eexists _, _, (d1 ++ [_]). split; [reflexivity|]. simpl.
    split; [by rewrite Hlog1, app_assoc|].
    split; [done|]. split; [by rewrite Ht|]. exists k.
    split; [done|]. split; [apply elem_of_app; right; by left|done].
  - rewrite bind_unfold.
    match goal with |- context [remove_partial E ?m ?w0] =>
      destruct (remove_partial_spec E m w0)
        as (w2 & d2 & -> & Hlog2 & Hd2 & Hg2 & Hrm & Hrm')
    end.
    simpl in Hlog2, Hg2. simpl.
    exists (inr (Finished false size (read_bytes c))), w2, (d1 ++ d2).
    split; [done|]. split; [by rewrite Hlog2, Hlog1, app_assoc|].
    split; [done|]. split; [by rewrite Hg2, Ht|]. exists k.
    split; [done|]. split; [by apply Forall_app|]. split; [|done].
    destruct Hrm as [?|(e & ? & ?)]; [by left|right].
    exists e. split; [done|]. apply elem_of_app. by right.
Qed.

Lemma success_not_shown d msg : no_success d -> Shown msg success ∉ d.
Proof.
  intros H Hin. unfold no_success in H. rewrite Forall_forall in H.
  by apply (H _ Hin).
Qed.

(** [download_file] returns; what it returns and leaves behind. *)
Lemma download_file_spec E remote_path local_path w :
  exists r w' d,
    download_file E remote_path local_path w = (inr r, w')
    /\ shown_log w' = shown_log w ++ d
    /\ downloading (g w') = false
    /\ match r with
       | Finished b size read =>
           e_stat E = inr size
           /\ b = completion_test (stop_download (g w')) size read
           /\ exists k,
                read = Z.of_nat (length (delivered k (e_blocks E)))
                /\ if b then
                     Shown ("Download complete: " +:+ basename local_path) success ∈ d
                     /\ local_file w' = Some (delivered k (e_blocks E))
                   else
                     no_success d
                     /\ (local_file w' = None \/ remove_failed E d)
                     /\ (e_remove E = None -> local_file w' = None)
       | Caught e =>
           no_success d
           /\ (local_file w' = None \/ remove_failed E d)
           /\ (e_remove E = None -> local_file w' = None)
       end.
Proof.
  unfold download_file. rewrite bind_unfold, prologue_spec.
  rewrite bind_unfold. unfold try_except.
  match goal with |- context [transfer E local_path ?w0] =>
    destruct (transfer_spec E local_path w0) as (r & w1 & d1 & -> & Hlog1 & Hr)
  end.
  simpl in Hlog1. destruct r as [e|[b size read|e]]; [| |done].
  - rewrite bind_unfold. unfold show_notification at 1. cbv beta iota.
    rewrite bind_unfold.
    match goal with |- context [remove_partial E ?m ?w0] =>
      destruct (remove_partial_spec E m w0)
        as (w2 & d2 & -> & Hlog2 & Hd2 & Hg2 & Hrm & Hrm')
    end.
    simpl in Hlog2. simpl.
    eexists _, _, (d1 ++ [_] ++ d2). split; [reflexivity|]. simpl.
    split; [by rewrite Hlog2, Hlog1, <- !app_assoc|]. split; [done|].
    split; [apply Forall_app; split; [done|]; by apply Forall_cons|].
    split; [|done].
    destruct Hrm as [?|(e' & ? & ?)]; [by left|right].
    exists e'. split; [done|]. apply elem_of_app. right. by right.
  - simpl. eexists _, _, d1. split; [reflexivity|]. simpl.
    split; [done|]. split; [done|]. done.
Qed.

Lemma remove_partial_fst E msg w : (remove_partial E msg w).1 = inr tt.
Proof. by destruct (remove_partial_spec E msg w) as (? & ? & -> & _). Qed.

Ltac bind_step :=
  rewrite !bind_unfold;
  match goal with
  | |- context [match ?m ?w with _ => _ end] =>
      destruct (m w) as [[?|?] ?]; cbv beta iota; try done
  end.

Lemma transfer_result_remove rm E local_path w :
  (transfer (with_remove rm E) local_path w).1 = (transfer E local_path w).1.
Proof.
  unfold transfer. cbn [with_remove e_makedirs e_stat e_open_local e_open_remote
                        e_start_time e_blocks e_close e_late].
  do 6 bind_step.
  destruct (completion_test _ _ _).
  - done.
  - rewrite !bind_unfold.
    match goal with |- context [remove_partial E ?m ?w0] =>
      pose proof (remove_partial_fst (with_remove rm E) m w0) as H1;
      pose proof (remove_partial_fst E m w0) as H2;
      destruct (remove_partial (with_remove rm E) m w0) as [[?|[]] ?]; [done|];
      destruct (remove_partial E m w0) as [[?|[]] ?]; [done|]
    end.
    done.
Qed.

Lemma download_result_remove rm E remote_path local_path w :
  (download_file (with_remove rm E) remote_path local_path w).1
  = (download_file E remote_path local_path w).1.
Proof.
  unfold download_file. rewrite !bind_unfold, !prologue_spec.
  rewrite !bind_unfold. unfold try_except.
  match goal with |- context [transfer E local_path ?w0] =>
    pose proof (transfer_result_remove rm E local_path w0) as H;
    destruct (transfer (with_remove rm E) local_path w0) as [r1 w1];
    destruct (transfer E local_path w0) as [r2 w2]
  end.
  simpl in H. subst r2. destruct r1 as [e|r]; [|done].
  rewrite !bind_unfold. unfold show_notification. cbv beta iota.
  rewrite !bind_unfold.
  match goal with |- context [remove_partial E ?m ?w0] =>
    pose proof (remove_partial_fst E m w0) as H2;
    destruct (remove_partial E m w0) as [[?|[]] ?]; [done|]
  end.
  match goal with |- context [remove_partial ?E' ?m ?w0] =>
    pose proof (remove_partial_fst E' m w0) as H1;
    destruct (remove_partial E' m w0) as [[?|[]] ?]; [done|]
  end.
  done.
Qed.


(** *** The loop and the flag *)

Lemma flag_after_cons w ws b0 :
  flag_after (w :: ws) b0 = flag_after ws (default b0 w).
Proof. done. Qed.

Lemma flag_after_app ws1 ws2 b0 :
  flag_after (ws1 ++ ws2) b0 = flag_after ws2 (flag_after ws1 b0).
Proof. unfold flag_after. by rewrite foldl_app. Qed.

Lemma land_stop w g0 : stop_download (land w g0) = default (stop_download g0) w.
Proof. by destruct w. Qed.

Lemma loop_takes_nil b0 k : loop_takes b0 [] k <-> k = 0%nat.
Proof.
  split.
  - intros (Hk & _). simpl in Hk. lia.
  - intros ->. split; [simpl; lia|]. split; [intros i b Hi; lia|done].
Qed.

Lemma loop_takes_0 b0 b rest :
  loop_takes b0 (b :: rest) 0
  <-> default b0 (b_flag b) = true \/ b_read b = inr [].
Proof.
  split.
  - intros (_ & _ & H). by apply (H b).
  - intros H. split; [simpl; lia|]. split; [intros i b' Hi; lia|].
    by intros b' [= <-].
Qed.

Lemma loop_takes_S b0 b rest k :
  loop_takes b0 (b :: rest) (S k)
  <-> (default b0 (b_flag b) = false
       /\ exists data, b_read b = inr data /\ data <> [] /\ b_write b = None)
      /\ loop_takes (default b0 (b_flag b)) rest k.
Proof.
  split.
  - intros (Hk & Hi & He). split; [apply (Hi 0%nat b); [lia|done]|].
    split; [simpl in Hk; lia|]. split.
    + intros i b' Hlt Hb'. apply (Hi (S i) b'); [lia|done].
    + intros b' Hb'. by apply (He b').
  - intros ((Hf & Hb) & Hk & Hi & He). split; [simpl; lia|]. split.
    + intros [|i] b' Hlt Hb'.
      * injection Hb' as <-. done.
      * apply (Hi i b'); [lia|done].
    + intros b' Hb'. by apply (He b').
Qed.

(** What the loop does when it takes [k] blocks. *)
Lemma read_loop_takes size blocks : forall k c w,
  loop_takes (stop_download (g w)) blocks k ->
  exists c' w',
    read_loop size blocks c w = (inr c', w')
    /\ read_bytes c' = read_bytes c + Z.of_nat (length (delivered k blocks))
    /\ stop_download (g w')
       = flag_after (b_flag <$> take (S k) blocks) (stop_download (g w)).
Proof.
  induction blocks as [|b blocks IH]; intros k c w Hk.
  - apply loop_takes_nil in Hk as ->. simpl.
    unfold mbind, M_bind, read_globals. simpl.
    destruct (stop_download (g w)) eqn:Hs; eexists _, _;
      (split; [reflexivity|]); simpl; rewrite ?Hs; split; try done; lia.
  - simpl. unfold mbind at 1, M_bind at 1. simpl.
    unfold mbind at 1, M_bind at 1. simpl. rewrite land_stop.
    destruct k as [|k].
    + apply loop_takes_0 in Hk. rewrite delivered_0. simpl.
      destruct (default (stop_download (g w)) (b_flag b)) eqn:Hs.
      * eexists _, _. split; [reflexivity|]. simpl. rewrite land_stop.
        split; [lia|done].
      * destruct Hk as [?|Hr]; [done|]. rewrite Hr.
        eexists _, _. split; [reflexivity|]. simpl. rewrite land_stop.
        split; [lia|done].
    + apply loop_takes_S in Hk as ((Hf & data & Hr & Hne & Hw) & Hk).
      rewrite Hf, Hr. destruct data as [|x data]; [done|].
      unfold mbind at 1, M_bind at 1, write_local. rewrite Hw. cbv beta iota.
      rewrite bind_unfold.
      match goal with |- context [telemetry size ?n ?c0 ?w0] =>
        destruct (telemetry_spec size n c0 w0) as (c1 & w1 & -> & Hc & _ & _ & Hs)
      end.
      simpl in Hc, Hs. rewrite land_stop in Hs.
      destruct (IH k c1 w1) as (c' & w' & -> & Hbytes & Hflag);
        [by rewrite Hs|].
      exists c', w'. split; [done|]. split.
      * rewrite Hbytes, Hc, delivered_S. unfold block_data. rewrite Hr.
        rewrite length_app. simpl length. lia.
      * rewrite Hflag, Hs, Hf. done.
Qed.

(** When the loop is left without an exception it has taken some
    number of blocks. *)
Lemma read_loop_returns size blocks : forall c w c' w',
  read_loop size blocks c w = (inr c', w') ->
  exists k, loop_takes (stop_download (g w)) blocks k.
Proof.
  induction blocks as [|b blocks IH]; intros c w c' w' H.
  - exists 0%nat. by apply loop_takes_nil.
  - simpl in H. unfold mbind at 1, M_bind at 1 in H. simpl in H.
    unfold mbind at 1, M_bind at 1 in H. simpl in H. rewrite land_stop in H.
    destruct (default (stop_download (g w)) (b_flag b)) eqn:Hs.
    { exists 0%nat. apply loop_takes_0. by left. }
    destruct (b_read b) as [e|[|x data]] eqn:Hr; [done| |].
    { exists 0%nat. apply loop_takes_0. by right. }
    unfold mbind at 1, M_bind at 1, write_local in H.
    destruct (b_write b) as [e|] eqn:Hw; [done|]. cbv beta iota in H.
    rewrite bind_unfold in H.
    match type of H with context [telemetry size ?n ?c0 ?w0] =>
      destruct (telemetry_spec size n c0 w0) as (c1 & w1 & Ht & _ & _ & _ & Hs1)
    end.
    rewrite Ht in H. simpl in Hs1. rewrite land_stop in Hs1.
    destruct (IH _ _ _ _ H) as [k Hk]. exists (S k).
    apply loop_takes_S. split; [split; [done|by exists (x :: data)]|].
    by rewrite <- Hs1.
Qed.

(** The outer [try] ends with [success] exactly when the transfer goes
    through. *)
Lemma transfer_succeeds E local_path w size read :
  stop_download (g w) = false ->
  (exists w1, transfer E local_path w = (inr (Finished true size read), w1))
  <-> exists k, succeeds E size k
                /\ read = Z.of_nat (length (delivered k (e_blocks E))).
Proof.
  intros Hw. unfold transfer, succeeds, flag_at_test. split.
  - intros [w1 H]. rewrite bind_unfold in H.
    destruct (e_makedirs E) as [e|]; [done|]. simpl in H.
    rewrite bind_unfold in H. destruct (e_stat E) as [e|size']; [done|].
    simpl in H. rewrite bind_unfold in H. unfold open_local in H.
    destruct (e_open_local E) as [e|]; [done|]. simpl in H.
    rewrite bind_unfold in H. unfold with_exit in H.
    rewrite bind_unfold in H.
    destruct (e_open_remote E) as [e|];
      [simpl in H; by destruct (e_close E)|].
    simpl in H.
    match type of H with context [read_loop size' ?bs ?c0 ?w0] =>
      destruct (read_loop size' bs c0 w0) as [[e|c] w2] eqn:Hloop;
        [by destruct (e_close E)|];
      destruct (read_loop_returns _ _ _ _ _ _ Hloop) as [k Hk];
      destruct (read_loop_takes size' bs k c0 w0 Hk)
        as (c' & w2' & Hloop' & Hbytes & Hflag)
    end.
    rewrite Hloop in Hloop'. injection Hloop' as <- <-.
    simpl in Hk, Hbytes, Hflag. rewrite Hw in Hk, Hflag.
    destruct (e_close E) as [e|]; [done|].
    simpl in H. unfold mbind at 1, M_bind at 1 in H. simpl in H.
    unfold mbind at 1, M_bind at 1 in H. simpl in H.
    rewrite land_stop, Hflag in H.
    destruct (completion_test _ _ _) eqn:Ht.
    + unfold mbind, M_bind in H. simpl in H. injection H as <- <- _.
      exists k. split; [|done]. repeat (split; [done|]).
      unfold completion_test in Ht. apply andb_prop in Ht as [Hs Hc].
      apply negb_true_iff in Hs. split.
      * rewrite flag_after_app. done.
      * rewrite Hbytes in Hc. apply orb_prop in Hc as [?|?]; lia.
    + rewrite bind_unfold in H.
      match type of H with context [remove_partial E ?m ?w0] =>
        destruct (remove_partial_spec E m w0) as (w3 & d3 & Hrm & _)
      end.
      rewrite Hrm in H. done.
  - intros (k & (Hmk & Hst & Hol & Hor & Hk & Hcl & Hflag & Hsize) & ->).
    rewrite bind_unfold, Hmk. simpl. rewrite bind_unfold, Hst. simpl.
    rewrite bind_unfold. unfold open_local. rewrite Hol. simpl.
    rewrite bind_unfold. unfold with_exit. rewrite bind_unfold, Hor, Hcl. simpl.
    match goal with |- context [read_loop size ?bs ?c0 ?w0] =>
      destruct (read_loop_takes size bs k c0 w0) as (c' & w2 & -> & Hbytes & Hf);
        [simpl; by rewrite Hw|]
    end.
    simpl in Hbytes, Hf. rewrite Hw in Hf.
    unfold mbind at 1, M_bind at 1. simpl.
    unfold mbind at 1, M_bind at 1. simpl.
    rewrite land_stop, Hf. rewrite flag_after_app in Hflag.
    change (flag_after [e_late E] ?b) with (default b (e_late E)) in Hflag.
    rewrite Hflag.
    assert (completion_test false size (read_bytes c') = true) as ->.
    { unfold completion_test. simpl. rewrite Hbytes.
      apply orb_true_intro. destruct Hsize as [->|?]; [by left|right]. lia. }
    unfold mbind, M_bind. simpl. rewrite Hbytes. by eexists.
Qed.

(** What [download_file] returns is what the outer [try] ended with. *)
Lemma download_file_result E remote_path local_path w :
  (download_file E remote_path local_path w).1
  = inr (match (transfer E local_path (prologue w).2).1 with
         | inl e => Caught e
         | inr r => r
         end).
Proof.
  unfold download_file. rewrite bind_unfold, prologue_spec. simpl.
  rewrite bind_unfold. unfold try_except.
  destruct (transfer E local_path _) as [[e|r] w1]; [|done].
  rewrite !bind_unfold. unfold show_notification at 1. cbv beta iota.
  rewrite !bind_unfold.
  match goal with |- context [remove_partial E ?m ?w0] =>
    pose proof (remove_partial_fst E m w0) as H2;
    destruct (remove_partial E m w0) as [[?|[]] ?]; [done|]
  end.
  done.
Qed.

(** C1.  Every call of [download_file] returns, and it reports success
    (the notification "Download complete") if and only if the transfer
    goes through: no call raises -- not [makedirs], [stat], the two
    [open], [read], [write], nor the exit of the [with] block --, the
    loop is left after some number [k] of blocks (by [read] returning
    [b""] or by the flag), the cancel flag is unset at the test of line
    427, and the remote stat size is 0 or not more than the bytes of
    the [k] blocks read.  The call then returns with [success] true,
    that size and that number of bytes, and the flag unset; said of the
    locals of the call, success is reported if and only if the outer
    [try] ran to its end with [size] the stat size, [read_bytes] the
    bytes of the blocks consumed, the flag unset, and [size] 0 or not
    more than [read_bytes].  In every
    other outcome (exception, short read, cancellation) the partial
    file is removed: it is gone when [os.remove] does not raise, and if
    it is still there the failure of the removal has been reported. *)
Theorem download_success_iff E remote_path local_path w :
  exists r w' d,
    download_file E remote_path local_path w = (inr r, w')
    /\ shown_log w' = shown_log w ++ d
    /\ (reported local_path d <-> exists size k, succeeds E size k)
    /\ (forall size k, succeeds E size k ->
          r = Finished true size (Z.of_nat (length (delivered k (e_blocks E))))
          /\ stop_download (g w') = false)
    /\ (reported local_path d
        <-> exists b size k,
              r = Finished b size (Z.of_nat (length (delivered k (e_blocks E))))
              /\ e_stat E = inr size
              /\ stop_download (g w') = false
              /\ (size = 0 \/ size <= Z.of_nat (length (delivered k (e_blocks E)))))
    /\ (~ reported local_path d ->
        (e_remove E = None -> local_file w' = None)
        /\ (local_file w' = None \/ remove_failed E d)).
Proof.
  destruct (download_file_spec E remote_path local_path w)
    as (r & w' & d & Hrun & Hlog & _ & Hr).
  exists r, w', d. split; [done|]. split; [done|].
  assert (reported local_path d
          <-> exists b size k,
                r = Finished b size (Z.of_nat (length (delivered k (e_blocks E))))
                /\ e_stat E = inr size
                /\ stop_download (g w') = false
                /\ (size = 0
                    \/ size <= Z.of_nat (length (delivered k (e_blocks E)))))
    as Hlocal.
  { destruct r as [b size read|e].
    - destruct Hr as (Hstat & Hb & k & Hk & Hcase). destruct b.
      + destruct Hcase as [Hin _]. split; [|done].
        intros _. exists true, size, k. rewrite <- Hk.
        split; [done|]. split; [done|].
        symmetry in Hb. unfold completion_test in Hb.
        apply andb_prop in Hb as [Hs Hc]. apply negb_true_iff in Hs.
        split; [done|]. apply orb_prop in Hc as [?|?]; lia.
      + destruct Hcase as (Hinfo & _).
        split; [intros Hin; by apply success_not_shown in Hin|].
        intros (b & size' & k' & [= <- <- Hread] & _ & Hs & Hc).
        unfold completion_test in Hb. rewrite Hs in Hb. simpl in Hb.
        symmetry in Hb. apply orb_false_elim in Hb as [? ?]. lia.
    - destruct Hr as (Hinfo & _).
      split; [intros Hin; by apply success_not_shown in Hin|].
      by intros (b & size' & k' & ? & _). }
  pose proof (download_file_result E remote_path local_path w) as Hres.
  rewrite Hrun in Hres. simpl in Hres. injection Hres as Hres.
  assert (stop_download (g (prologue w).2) = false) as Hw0
    by by rewrite prologue_spec.
  assert (forall size read,
            r = Finished true size read
            <-> exists k, succeeds E size k
                  /\ read = Z.of_nat (length (delivered k (e_blocks E))))
    as Hiff.
  { intros size read.
    rewrite <- (transfer_succeeds E local_path (prologue w).2 size read Hw0).
    rewrite Hres. destruct (transfer E local_path _) as [[e|r'] w1]; simpl.
    - split; [done|]. by intros [? ?].
    - split; [intros ->; by eexists|]. by intros [? [= ->]]. }
  assert (reported local_path d <-> exists size read, r = Finished true size read)
    as Hrep.
  { destruct r as [[|] size read|e].
    - destruct Hr as (_ & _ & k & _ & Hin & _). split; [by eexists _, _|done].
    - destruct Hr as (_ & _ & k & _ & Hno & _).
      split; [intros Hin; by apply success_not_shown in Hin|by intros (? & ? & ?)].
    - destruct Hr as (Hno & _).
      split; [intros Hin; by apply success_not_shown in Hin|by intros (? & ? & ?)]. }
  split; [|split].
  - rewrite Hrep. split.
    + intros (size & read & H). apply Hiff in H as (k & H & _). by exists size, k.
    + intros (size & k & H). exists size, (Z.of_nat (length (delivered k (e_blocks E)))).
      apply Hiff. by exists k.
  - intros size k H.
    assert (r = Finished true size (Z.of_nat (length (delivered k (e_blocks E)))))
      as Hrk by (apply Hiff; by exists k).
    split; [done|]. rewrite Hrk in Hr. destruct Hr as (_ & Hb & _).
    symmetry in Hb. unfold completion_test in Hb.
    apply andb_prop in Hb as [Hs _]. by apply negb_true_iff in Hs.
  - split; [exact Hlocal|].
    intros Hn. destruct r as [[|] size read|e].
    + destruct Hn. apply Hrep. by eexists _, _.
    + by destruct Hr as (_ & _ & k & _ & _ & ? & ?).
    + by destruct Hr as (_ & ? & ?).
Qed.

(** The transfer of [Examples.grown] goes through: the loop takes its
    one block of five bytes, of which [stat] said three. *)
Lemma grown_succeeds : succeeds Examples.grown 3 1.
Proof.
  unfold succeeds, flag_at_test. simpl.
  repeat (split; [done|]). split; [|split; [done|split; [done|]]].
  - apply loop_takes_S. split.
    + split; [done|]. by exists Examples.five_bytes.
    + by apply loop_takes_nil.
  - right. lia.
Qed.

(** C2, as the code has it.  After [download_file] returns, the local
    path holds, on success, the bytes that were read, a file whose size
    is at least the remote stat size; otherwise it does not exist,
    unless the removal failed, and then that failure has been reported.
    How the call ended does not depend on whether the removal fails. *)
Theorem download_leaves_file_or_nothing E remote_path local_path w :
  exists r w' d,
    download_file E remote_path local_path w = (inr r, w')
    /\ shown_log w' = shown_log w ++ d
    /\ match r with
       | Finished true size read =>
           e_stat E = inr size
           /\ exists k, local_file w' = Some (delivered k (e_blocks E))
                /\ Z.of_nat (length (delivered k (e_blocks E))) = read
                /\ size <= read
       | _ => local_file w' = None \/ remove_failed E d
       end
    /\ (forall rm,
          (download_file (with_remove rm E) remote_path local_path w).1 = inr r).
Proof.
  destruct (download_file_spec E remote_path local_path w)
    as (r & w' & d & Hrun & Hlog & _ & Hr).
  exists r, w', d. split; [done|]. split; [done|]. split.
  - destruct r as [[|] size read|e].
    + destruct Hr as (Hstat & Hb & k & Hk & _ & Hf).
      split; [done|]. exists k. split; [done|]. split; [done|].
      symmetry in Hb. unfold completion_test in Hb.
      apply andb_prop in Hb as [_ Hc]. apply orb_prop in Hc as [?|?]; lia.
    + by destruct Hr as (_ & _ & _ & _ & _ & ? & _).
    + by destruct Hr as (_ & ? & _).
  - intros rm. by rewrite download_result_remove, Hrun.
Qed.

(** *** The opening assignments, seen from the end of the call *)

Lemma flag_after_true ws b0 :
  flag_after ws b0 = true -> b0 = true \/ Some true ∈ ws.
Proof.
  revert b0. induction ws as [|w ws IH]; intros b0 H; [by left|].
  rewrite flag_after_cons in H. destruct (IH _ H) as [Hd|Hin].
  - destruct w as [[|]|]; simpl in Hd; [right; by left|done|by left].
  - right. by right.
Qed.

Lemma land_telemetry w g0 : telemetry_of (land w g0) = telemetry_of g0.
Proof. by destruct w. Qed.

(** The loop writes the flag only as the foreground does, shows
    nothing but the abort, and shows it only when it finds the flag
    set. *)
Lemma read_loop_flag size blocks : forall c w,
  exists r w' d j,
    read_loop size blocks c w = (r, w')
    /\ shown_log w' = shown_log w ++ d
    /\ stop_download (g w')
       = flag_after (b_flag <$> take j blocks) (stop_download (g w))
    /\ (d = [] \/ (d = [Shown "Download aborted by user" info]
                   /\ stop_download (g w') = true)).
Proof.
  induction blocks as [|b blocks IH]; intros c w.
  - simpl. unfold mbind, M_bind, read_globals. simpl.
    destruct (stop_download (g w)) eqn:Hs.
    + eexists _, _, _, 0%nat. split; [reflexivity|]. simpl.
      split; [done|]. split; [done|]. right. by rewrite Hs.
    + eexists _, _, [], 0%nat. split; [reflexivity|]. simpl.
      rewrite app_nil_r. split; [done|]. split; [done|]. by left.
  - simpl. unfold mbind at 1, M_bind at 1. simpl.
    unfold mbind at 1, M_bind at 1. simpl. rewrite land_stop.
    destruct (default (stop_download (g w)) (b_flag b)) eqn:Hs.
    + eexists _, _, _, 1%nat. split; [reflexivity|]. simpl.
      rewrite land_stop. split; [done|]. split; [done|]. right. by rewrite Hs.
    + destruct (b_read b) as [e|[|x data]] eqn:Hread.
      * eexists _, _, [], 1%nat. split; [reflexivity|]. simpl.
        rewrite app_nil_r, land_stop. split; [done|]. split; [done|]. by left.
      * eexists _, _, [], 1%nat. split; [reflexivity|]. simpl.
        rewrite app_nil_r, land_stop. split; [done|]. split; [done|]. by left.
      * unfold mbind at 1, M_bind at 1, write_local.
        destruct (b_write b) as [e|].
        -- eexists _, _, [], 1%nat. split; [reflexivity|]. simpl.
           rewrite app_nil_r, land_stop. split; [done|]. split; [done|]. by left.
        -- cbv beta iota. rewrite bind_unfold.
           match goal with |- context [telemetry size ?n ?c0 ?w0] =>
             destruct (telemetry_spec size n c0 w0)
               as (c1 & w1 & -> & _ & _ & Hlog1 & Hs1)
           end.
           simpl in Hlog1, Hs1. rewrite land_stop in Hs1.
           destruct (IH c1 w1) as (r & w' & d & j & -> & Hlog & Hflag & Hd).
           exists r, w', d, (S j). split; [done|].
           split; [by rewrite Hlog, Hlog1|]. split; [|done].
           by rewrite Hflag, Hs1.
Qed.

(** Unless its first block reaches the local file, the loop leaves the
    telemetry as it is. *)
Lemma read_loop_telemetry size blocks c w :
  (forall b rest data,
     blocks = b :: rest -> default (stop_download (g w)) (b_flag b) = false ->
     b_read b = inr data -> data <> [] -> b_write b = None -> False) ->
  telemetry_of (g (read_loop size blocks c w).2) = telemetry_of (g w).
Proof.
  intros H. destruct blocks as [|b blocks].
  - simpl. unfold mbind, M_bind, read_globals. simpl.
    by destruct (stop_download (g w)).
  - simpl. unfold mbind at 1, M_bind at 1. simpl.
    unfold mbind at 1, M_bind at 1. simpl. rewrite land_stop.
    destruct (default (stop_download (g w)) (b_flag b)) eqn:Hs;
      [simpl; apply land_telemetry|].
    destruct (b_read b) as [e|[|x data]] eqn:Hread;
      [simpl; apply land_telemetry..|].
    unfold mbind at 1, M_bind at 1, write_local.
    destruct (b_write b) as [e|] eqn:Hw; [simpl; apply land_telemetry|].
    by destruct (H b blocks (x :: data)).
Qed.

Lemma remove_partial_shown E msg w :
  exists w' d, remove_partial E msg w = (inr tt, w')
    /\ shown_log w' = shown_log w ++ d /\ g w' = g w
    /\ (d = [] \/ d = [Shown msg info]
        \/ exists e, d = [Shown ("Failed to remove partial file: " +:+ e) error]).
Proof.
  unfold remove_partial. destruct (local_file w).
  - destruct (e_remove E) as [e|].
    + eexists _, _. split; [reflexivity|]. simpl. split; [done|].
      split; [done|]. right. right. by exists e.
    + eexists _, _. split; [reflexivity|]. simpl. split; [done|].
      split; [done|]. right. by left.
  - exists w, []. rewrite app_nil_r. split; [done|]. split; [done|].
    split; [done|]. by left.
Qed.

Lemma remove_partial_not_aborted msg d :
  msg <> "Download aborted by user" ->
  (d = [] \/ d = [Shown msg info]
   \/ exists e, d = [Shown ("Failed to remove partial file: " +:+ e) error]) ->
  ~ aborted d.
Proof.
  unfold aborted. intros Hmsg [->|[->|[e ->]]] Hin.
  - by apply elem_of_nil in Hin.
  - apply list_elem_of_singleton in Hin. congruence.
  - apply list_elem_of_singleton in Hin. done.
Qed.

(** The outer [try], entered with the flag unset. *)
Lemma transfer_flag E local_path w :
  stop_download (g w) = false ->
  exists r w' d,
    transfer E local_path w = (r, w')
    /\ shown_log w' = shown_log w ++ d
    /\ (exists ws, ws `sublist_of` (b_flag <$> e_blocks E) ++ [e_late E]
          /\ stop_download (g w') = flag_after ws false)
    /\ (aborted d -> exists b, b ∈ e_blocks E /\ b_flag b = Some true)
    /\ (~ first_block_written E -> telemetry_of (g w') = telemetry_of (g w)).
Proof.
  intros Hw.
  assert (exists ws, ws `sublist_of` (b_flag <$> e_blocks E) ++ [e_late E]
            /\ false = flag_after ws false) as Hnil.
  { exists []. split; [apply sublist_nil_l|done]. }
  unfold transfer. rewrite bind_unfold.
  destruct (e_makedirs E) as [e|] eqn:Hmk; simpl.
  { exists (inl e), w, []. rewrite app_nil_r, Hw.
    split; [done|]. split; [done|]. split; [done|].
    split; [by intros ?%elem_of_nil|done]. }
  rewrite bind_unfold. destruct (e_stat E) as [e|size] eqn:Hstat; simpl.
  { exists (inl e), w, []. rewrite app_nil_r, Hw.
    split; [done|]. split; [done|]. split; [done|].
    split; [by intros ?%elem_of_nil|done]. }
  rewrite bind_unfold. unfold open_local.
  destruct (e_open_local E) as [e|] eqn:Hol; simpl.
  { exists (inl e), w, []. rewrite app_nil_r, Hw.
    split; [done|]. split; [done|]. split; [done|].
    split; [by intros ?%elem_of_nil|done]. }
  rewrite bind_unfold. unfold with_exit. rewrite bind_unfold.
  destruct (e_open_remote E) as [e|] eqn:Hor; simpl.
  { exists (inl (default e (e_close E))),
      (World (g w) (Some []) (shown_log w)), [].
    rewrite app_nil_r. simpl. rewrite Hw.
    split; [by destruct (e_close E)|]. split; [done|]. split; [done|].
    split; [by intros ?%elem_of_nil|done]. }
  set (w0 := World (g w) (Some []) (shown_log w)).
  set (c0 := Counters 0 (e_start_time E) 0).
  destruct (read_loop_flag size (e_blocks E) c0 w0)
    as (r & w1 & d1 & j & Hloop & Hlog1 & Hflag1 & Hd1).
  pose proof (read_loop_telemetry size (e_blocks E) c0 w0) as Htel.
  rewrite Hloop in Htel. simpl in Htel, Hlog1, Hflag1.
  rewrite Hloop. rewrite Hw in Hflag1.
  assert (~ first_block_written E -> telemetry_of (g w1) = telemetry_of (g w))
    as Htel1.
  { intros Hn. apply Htel. intros b rest data Hb Hf Hr Hne Hwr. apply Hn.
    split; [done|]. split; [by exists size|]. split; [done|]. split; [done|].
    exists b, rest, data. split; [done|]. split; [|done].
    intros Hb'. rewrite Hb', Hw in Hf. done. }
  assert (aborted d1 -> exists b, b ∈ e_blocks E /\ b_flag b = Some true)
    as Hab1.
  { intros Hin. destruct Hd1 as [->|[-> Hs]]; [by apply elem_of_nil in Hin|].
    rewrite Hflag1 in Hs. apply flag_after_true in Hs as [?|Hs]; [done|].
    apply list_elem_of_fmap in Hs as (b & Hb & Hs).
    exists b. split; [|done]. apply (elem_of_sublist _ _ _ Hs (sublist_take _ _)). }
  assert (take j (b_flag <$> e_blocks E) `sublist_of` b_flag <$> e_blocks E)
    as Hsub by apply sublist_take.
  assert (forall e : string,
            exists (r' : string + result) w' d,
              (inl e : string + result, w1) = (r', w')
              /\ shown_log w' = shown_log w ++ d
              /\ (exists ws,
                    ws `sublist_of` (b_flag <$> e_blocks E) ++ [e_late E]
                    /\ stop_download (g w') = flag_after ws false)
              /\ (aborted d -> exists b, b ∈ e_blocks E /\ b_flag b = Some true)
              /\ (~ first_block_written E ->
                  telemetry_of (g w') = telemetry_of (g w))) as Hraise.
  { intros e. exists (inl e), w1, d1. split; [done|]. split; [done|]. split.
    - exists (b_flag <$> take j (e_blocks E)). split; [|done].
      rewrite fmap_take. by apply sublist_inserts_r.
    - done. }
  destruct r as [e|c]; [destruct (e_close E) as [e'|]; apply Hraise|].
  destruct (e_close E) as [e|]; simpl; [apply Hraise|].
  unfold mbind at 1, M_bind at 1. simpl.
  unfold mbind at 1, M_bind at 1. simpl.
  assert (exists ws, ws `sublist_of` (b_flag <$> e_blocks E) ++ [e_late E]
            /\ stop_download (land (e_late E) (g w1)) = flag_after ws false)
    as Hfl.
  { exists ((b_flag <$> take j (e_blocks E)) ++ [e_late E]). split.
    - rewrite fmap_take. by apply sublist_app.
    - by rewrite land_stop, Hflag1, flag_after_app. }
  destruct (completion_test _ _ _).
  - unfold mbind, M_bind. simpl.
    eexists _, _, (d1 ++ [_]). split; [reflexivity|]. simpl.
    split; [by rewrite Hlog1, app_assoc|]. split; [done|]. split.
    + intros [Hin|Hin]%elem_of_app; [by apply Hab1|].
      apply list_elem_of_singleton in Hin. done.
    + intros Hn. rewrite land_telemetry. by apply Htel1.
  - rewrite bind_unfold.
    match goal with |- context [remove_partial E ?m ?w2] =>
      destruct (remove_partial_shown E m w2)
        as (w3 & d3 & -> & Hlog3 & Hg3 & Hd3)
    end.
    simpl in Hlog3, Hg3. simpl.
    eexists _, w3, (d1 ++ d3). split; [reflexivity|].
    split; [by rewrite Hlog3, Hlog1, app_assoc|]. rewrite Hg3.
    split; [done|]. split.
    + intros [Hin|Hin]%elem_of_app; [by apply Hab1|].
      by apply remove_partial_not_aborted in Hd3.
    + intros Hn. rewrite land_telemetry. by apply Htel1.
Qed.

(** C10.  [download_file] begins by setting [stop_download] to [False]
    and the progress, speed and eta to 0, whatever they were; what the
    call leaves behind shows it:
    - the flag at its end is [False] changed by nothing but writes of
      the foreground that landed during the call, so a cancellation
      requested before the worker's first statement is discarded;
    - the loop is aborted only by a cancellation that landed during the
      call;
    - unless a block reached the local file, the progress, speed and
      eta are 0 at its end;
    - the call on a world in which the flag and the telemetry had been
      set to anything returns the same and leaves the same world. *)
Theorem download_file_starts_cleared E remote_path local_path w :
  exists r w' d,
    download_file E remote_path local_path w = (inr r, w')
    /\ shown_log w' = shown_log w ++ d
    /\ (exists ws, ws `sublist_of` (b_flag <$> e_blocks E) ++ [e_late E]
          /\ stop_download (g w') = flag_after ws false)
    /\ (aborted d -> exists b, b ∈ e_blocks E /\ b_flag b = Some true)
    /\ (~ first_block_written E -> telemetry_of (g w') = (0%Q, 0%Q, 0%Q))
    /\ (forall b p v t,
          download_file E remote_path local_path (touched_before b p v t w)
          = (inr r, w')).
Proof.
  assert (forall b p v t,
            download_file E remote_path local_path (touched_before b p v t w)
            = download_file E remote_path local_path w) as Hsame.
  { intros b p v t. unfold download_file.
    rewrite !(bind_unfold prologue), !prologue_spec. done. }
  assert (exists r w' d,
            download_file E remote_path local_path w = (inr r, w')
            /\ shown_log w' = shown_log w ++ d
            /\ (exists ws, ws `sublist_of` (b_flag <$> e_blocks E) ++ [e_late E]
                  /\ stop_download (g w') = flag_after ws false)
            /\ (aborted d -> exists b, b ∈ e_blocks E /\ b_flag b = Some true)
            /\ (~ first_block_written E ->
                telemetry_of (g w') = (0%Q, 0%Q, 0%Q)))
    as (r & w' & d & Hrun & Hlog & Hflag & Hab & Htel).
  { unfold download_file. rewrite bind_unfold, prologue_spec.
    cbv beta iota. rewrite bind_unfold. unfold try_except.
    match goal with |- context [transfer E local_path ?w0] =>
      destruct (transfer_flag E local_path w0 eq_refl)
        as (r & w1 & d1 & -> & Hlog1 & Hflag & Hab & Htel)
    end.
    simpl in Hlog1, Htel. destruct r as [e|r].
    - rewrite bind_unfold. unfold show_notification at 1. cbv beta iota.
      rewrite bind_unfold.
      match goal with |- context [remove_partial E ?m ?w2] =>
        destruct (remove_partial_shown E m w2)
          as (w3 & d3 & -> & Hlog3 & Hg3 & Hd3)
      end.
      simpl in Hlog3, Hg3. simpl.
      eexists _, _, (d1 ++ [_] ++ d3). split; [reflexivity|]. simpl.
      split; [by rewrite Hlog3, Hlog1, <- !app_assoc|]. rewrite Hg3.
      split; [done|]. split.
      + intros [Hin|Hin]%elem_of_app; [by apply Hab|].
        apply elem_of_cons in Hin as [Hin|Hin]; [done|].
        by apply remove_partial_not_aborted in Hd3.
      + intros Hn. pose proof (Htel Hn) as Ht. unfold telemetry_of in *.
        simpl in *. done.
    - simpl. eexists _, _, d1. split; [reflexivity|]. simpl.
      split; [done|]. split; [done|]. split; [done|].
      intros Hn. pose proof (Htel Hn) as Ht. unfold telemetry_of in *.
      simpl in *. done. }
  exists r, w', d. repeat (split; [done|]).
  intros b p v t. by rewrite Hsame.
Qed.

(** A cancellation and a telemetry left over from before the call:
    the transfer of [Examples.grown] goes through all the same, is not
    aborted, and leaves the flag unset. *)
Lemma stale_cancel_is_discarded :
  exists w',
    download_file Examples.grown "/roms/a/bx" "./downloads/a/bx"
      (touched_before true 1 1 1 Examples.empty_world)
    = (inr (Finished true 3 5), w')
    /\ stop_download (g w') = false
    /\ shown_log w' = [Shown "Download complete: bx" success].
Proof. eexists. split; [vm_compute; reflexivity|]. by split. Qed.

(** C2 as stated fails: [stat] says 3 bytes, the remote file delivers 5
    (it grew in between); the call succeeds and the local file has 5
    bytes. *)
Lemma download_size_can_exceed_stat :
  exists w',
    download_file Examples.grown "/roms/a/bx" "./downloads/a/bx" Examples.empty_world
    = (inr (Finished true 3 5), w')
    /\ reported "./downloads/a/bx" (shown_log w')
    /\ local_file w' = Some Examples.five_bytes
    /\ Z.of_nat (length Examples.five_bytes) <> 3.
Proof.
  eexists. split; [vm_compute; reflexivity|].
  split; [cbv; by left|]. split; [reflexivity|]. simpl. lia.
Qed.

End DownloadTheory.

(** ** The session *)

Module SessionTheory.
Import PyStr Session.



(** The dictionary has every label, and gives it a path of the
    results with that label. *)
Lemma label_map_lookup remote_base results l :
  l ∈ display_of remote_base results ->
  exists p, p ∈ results
    /\ label_map (display_of remote_base results) results !! l = Some p
    /\ replace (remote_base +:+ "/") "" p = l.
Proof.
  unfold label_map, display_of.
  induction results as [|p results IH] using rev_ind; [by intros ?%elem_of_nil|].
  rewrite fmap_app, zip_with_app by by rewrite length_fmap.
  rewrite foldl_app. simpl.
  destruct (decide (replace (remote_base +:+ "/") "" p = l)) as [<-|Hne].
  - intros _. exists p. split; [apply elem_of_app; right; by left|].
    by rewrite lookup_insert_eq.
  - intros [Hl|Hl%list_elem_of_singleton]%elem_of_app; [|done].
    destruct (IH Hl) as (p' & Hp' & Hlk & Hlab).
    exists p'. split; [apply elem_of_app; by left|].
    by rewrite lookup_insert_ne.
Qed.

Lemma build_mapped remote_base results l :
  "" ∉ results -> l ∈ display_of remote_base results -> l <> BACK ->
  mapped (build remote_base results).2 l.
Proof.
  intros Hne Hl Hb. split; [done|].
  destruct (label_map_lookup _ _ _ Hl) as (p & Hp & Hlk & _).
  exists p. split; [done|]. by intros ->.
Qed.

(** The keys of the results menu keep the selection within the
    display list. *)
Lemma menu_key_selection_ok display_items k s :
  (forall label, k = Confirm label -> label ∈ display_items) ->
  selection_ok display_items (gl s) ->
  selection_ok display_items (gl (menu_key k s).1).
Proof.
  intros Hk Hok. pose proof Hok as [Hin Hoff].
  destruct k as [label| | |]; unfold menu_key.
  - destruct (multi_select_enabled (gl s)) eqn:Hm; [|exact Hok].
    destruct (String.eqb_spec label BACK) as [->|Hb]; [exact Hok|].
    destruct (decide (label ∈ selected_results (gl s))); simpl.
    + split; simpl; [|by rewrite Hm].
      intros l [Hl _]%elem_of_difference. by apply Hin.
    + split; simpl; [|by rewrite Hm].
      intros l [Hl|Hl]%elem_of_union; [by apply Hin|].
      apply elem_of_singleton in Hl as ->. split; [by apply Hk|done].
  - exact Hok.
  - cbn [gl with_globals multi_select_enabled set_multi].
    destruct (multi_select_enabled (gl s)) eqn:Hm; simpl.
    + destruct (bool_decide _) eqn:Hd; simpl.
      * apply bool_decide_eq_true in Hd. split; simpl; [|done].
        intros l Hl. by apply Hin.
      * split; simpl; [|done]. by intros l ?%not_elem_of_empty.
    + split; simpl; [|done]. intros l Hl. rewrite (Hoff eq_refl) in Hl.
      by apply not_elem_of_empty in Hl.
  - destruct (multi_select_enabled (gl s)) eqn:Hm; [|exact Hok].
    destruct (decide _); exact Hok.
Qed.

Section BatchFacts.
Variable DEST_DIR : string.
Variable m : gmap string string.
Variable platform : string.
Variable total : Z.
Variable env : nat -> task_env.






(** The flag can be set at the end of the loop only if it was set at
    its start and nothing was started. *)
Lemma batch_loop_stop : forall queue pos i s,
  let s' := batch_loop DEST_DIR m platform total env queue pos i s in
  selected_results (gl s') = selected_results (gl s)
  /\ (stop_download (gl s') = true ->
      stop_download (gl s) = true /\ launched s' = launched s).
Proof.
  induction queue as [|label queue IH]; intros pos i s; [done|].
  simpl. destruct (String.eqb label BACK); [apply IH|].
  destruct (m !! label) as [[|c r]|].
  - apply (IH (S pos) i (notify _ error s)).
  - destruct (t_makedirs (env pos)); [apply (IH (S pos) i (notify _ error s))|].
    destruct (t_start (env pos)); [apply (IH (S pos) (i + 1) (notify _ error s))|].
    set (s1 := Fg _ _ _).
    assert (Hsel : selected_results (gl s1) = selected_results (gl s)).
    { subst s1. simpl. generalize (gl s). unfold land_all.
      induction (t_writes (env pos)) as [|b ws IHw] using rev_ind; [done|].
      intros g0. rewrite foldl_app. simpl. apply IHw. }
    change (stop_download (land_all (t_writes (env pos)) (gl s)))
      with (stop_download (gl s1)).
    destruct (stop_download (gl s1)) eqn:Hs1.
    + split; [by rewrite <- Hsel|]. intros H. cbn in H. done.
    + destruct (IH (S pos) (i + 1) s1) as [H1 H2]. split; [congruence|].
      intros H. destruct (H2 H) as [? _]. congruence.
  - apply (IH (S pos) i (notify _ error s)).
Qed.
End BatchFacts.

Section BatchOrder.
Variable DEST_DIR : string.
Variable m : gmap string string.
Variable platform : string.
Variable total : Z.
Variable env : nat -> task_env.


End BatchOrder.


(** C6, as the code has it.  After the batch branch has run, whatever
    raised and whatever was cancelled, the selection is empty and the
    multi-select flag is off; the cancel flag is unset unless it was set
    when the batch began and no transfer was started (the reset stands
    in the branch that sees a cancel, not at the end of the batch). *)
Theorem batch_end_clears_selection DEST_DIR display_items label_to_remote env s :
  selected_results (gl s) <> ∅ ->
  let s' := multi_start DEST_DIR display_items label_to_remote env s in
  selected_results (gl s') = ∅
  /\ multi_select_enabled (gl s') = false
  /\ (stop_download (gl s') = true ->
      stop_download (gl s) = true /\ launched s' = launched s).
Proof.
  intros Hne. unfold multi_start.
  destruct (decide (selected_results (gl s) = ∅)) as [|_]; [done|].
  cbn [gl launched notify with_globals].
  split; [done|]. split; [done|].
  match goal with |- context [batch_loop ?D ?m ?p ?t ?e ?q ?pos ?i ?s0] =>
    destruct (batch_loop_stop D m p t e q pos i s0) as [_ H]
  end.
  intros Hs. apply H. by destruct (gl (batch_loop _ _ _ _ _ _ _ _ _)).
Qed.

Lemma selection_nonempty (x : string) (X : gset string) : x ∈ X -> X <> ∅.
Proof. intros Hx ->. by apply not_elem_of_empty in Hx. Qed.


(** The scenario of the specification: of five results the second and
    the fourth are marked, in any order; the batch transfers the second
    as 1 of 2, then the fourth as 2 of 2. *)
Lemma batch_second_then_fourth :
  (fun L => (l_label L, l_index L, l_total L))
    <$> launched
          (multi_start "./downloads" Examples.five_display Examples.five_map
             Examples.calm (Examples.fresh ({["r4.bin"]} ∪ {["r2.bin"]}) true))
  = [("r2.bin", Some 1, Some 2); ("r4.bin", Some 2, Some 2)].
Proof. by vm_compute. Qed.

Lemma batch_end_clears_selection_witness :
  selected_results (gl (Examples.fresh {["r2.bin"]} true)) <> ∅
  /\ selected_results
       (gl (multi_start "./downloads" Examples.five_display Examples.five_map
              Examples.calm (Examples.fresh {["r2.bin"]} true))) = ∅
  /\ multi_select_enabled
       (gl (multi_start "./downloads" Examples.five_display Examples.five_map
              Examples.calm (Examples.fresh {["r2.bin"]} true))) = false.
Proof.
  assert (H1 : selected_results (gl (Examples.fresh {["r2.bin"]} true)) <> ∅).
  { apply (selection_nonempty "r2.bin"). simpl. by apply elem_of_singleton. }
  split; [exact H1|].
  destruct (batch_end_clears_selection "./downloads" Examples.five_display
              Examples.five_map Examples.calm
              (Examples.fresh {["r2.bin"]} true) H1) as (Hs & Hm & _).
  split; [exact Hs|exact Hm].
Defined.

(** A cancel seen on the first of two selected items: the second is not
    started, and the flag is reset. *)
Lemma batch_cancelled_after_first :
  (fun L => (l_label L, l_index L, l_total L))
    <$> launched
          (multi_start "./downloads" Examples.five_display Examples.five_map
             (fun _ => Examples.cancelled)
             (Examples.fresh ({["r4.bin"]} ∪ {["r2.bin"]}) true))
  = [("r2.bin", Some 1, Some 2)]
  /\ stop_download
       (gl (multi_start "./downloads" Examples.five_display Examples.five_map
              (fun _ => Examples.cancelled)
              (Examples.fresh ({["r4.bin"]} ∪ {["r2.bin"]}) true))) = false.
Proof. split; by vm_compute. Qed.


(** A label whose directory cannot be made is skipped; one whose
    thread cannot be started is skipped after it has been counted. *)
Lemma batch_skips_failed_item :
  (fun L => (l_label L, l_index L, l_total L))
    <$> launched
          (multi_start "./downloads" Examples.five_display Examples.five_map
             Examples.first_unwritable
             (Examples.fresh ({["r4.bin"]} ∪ {["r2.bin"]}) true))
  = [("r4.bin", Some 1, Some 2)]
  /\ (fun L => (l_label L, l_index L, l_total L))
       <$> launched
             (multi_start "./downloads" Examples.five_display Examples.five_map
                Examples.first_unstarted
                (Examples.fresh ({["r4.bin"]} ∪ {["r2.bin"]}) true))
     = [("r4.bin", Some 2, Some 2)].
Proof. split; by vm_compute. Qed.

(** C6 as stated fails.  A single download is cancelled: the flag stays
    set, the single path never resets it.  Then one label is marked and
    the batch started, and the directory for it cannot be made: the
    batch ends with the selection empty, the multi-select flag off, and
    the cancel flag still set. *)
Lemma batch_end_token_still_set :
  stop_download (gl (Examples.fresh ∅ false)) = false
  /\ stop_download (gl Examples.after_cancelled_single) = true
  /\ Session.menu_select Examples.batch_keys Examples.after_cancelled_single
     = (Examples.after_keys, Some "__MULTI_START__")
  /\ elements (selected_results (gl Examples.after_keys)) = ["sub/by.bin"]
  /\ elements (selected_results (gl Examples.after_batch)) = []
  /\ multi_select_enabled (gl Examples.after_batch) = false
  /\ stop_download (gl Examples.after_batch) = true.
Proof. repeat split; by vm_compute. Qed.

(** C7.  The labels are made with [str.replace], which removes every
    occurrence of [remote_base + "/"], not only the leading one.  On the
    server [demo] the query ["x"] on the platform ["a"] returns two
    distinct paths whose labels are both ["bx"]: the display list has
    the label twice and the dictionary keeps only the second path. *)
Theorem display_labels_collide :
  (exists log,
     Walk.search_remote Examples.demo 10 (remote_base_of "a") (Some "x") 2000
     = Some (Examples.colliding, log))
  /\ NoDup Examples.colliding
  /\ display_of (remote_base_of "a") Examples.colliding = ["bx"; "bx"]
  /\ ~ NoDup (display_of (remote_base_of "a") Examples.colliding)
  /\ (build (remote_base_of "a") Examples.colliding).2 !! "bx"
     = Some "/roms/a/b/roms/a/x"
  /\ size (build (remote_base_of "a") Examples.colliding).2 = 1%nat.
Proof.
  split; [eexists; by vm_compute|].
  split; [apply (bool_decide_unpack _); by vm_compute|].
  split; [by vm_compute|].
  split; [apply (bool_decide_unpack _); by vm_compute|].
  split; by vm_compute.
Qed.

(** With such a list a batch over the one selected label ["bx"] starts
    two transfers, both of the second path, numbered 1 and 2 of 1. *)
Lemma colliding_labels_batch :
  (fun L => (l_remote L, l_index L, l_total L))
    <$> launched
          (multi_start "./downloads"
             (build (remote_base_of "a") Examples.colliding).1
             (build (remote_base_of "a") Examples.colliding).2
             Examples.calm (Examples.fresh {["bx"]} true))
  = [("/roms/a/b/roms/a/x", Some 1, Some 1);
     ("/roms/a/b/roms/a/x", Some 2, Some 1)].
Proof. by vm_compute. Qed.

End SessionTheory.

(** ** The notification queue *)

Module BusTheory.
Import Bus.







(** The alpha of a notification that is not expired. *)
Lemma get_alpha_range now n :
  now - created_at n <= lifetime n -> 0 <= get_alpha now n <= 255.
Proof.
  intros H. unfold get_alpha.
  destruct (Z.gtb_spec (now - created_at n) (lifetime n - 2000)); [|lia].
  split.
  - apply Z.quot_pos; lia.
  - apply Z.quot_le_upper_bound; lia.
Qed.





End BusTheory.

(** ** Foreground and workers *)

Module ThreadsTheory.
Import Threads.

(** C9.  The foreground waits for a worker with [t.join(timeout=0.1)] and
    leaves [download_screen] at once on a cancel.  In the run
    [Examples.schedule] the user cancels the first file of a batch while
    a block is being read; the join times out, the batch loop sees the
    flag, resets it and ends; the worker finds the flag unset at its
    next test and reads on.  A single download is started next: two
    workers are alive, both inside a read on the one SFTP session, and
    neither has seen a cancel. *)
Theorem two_workers_share_session :
  exists st,
    run Examples.schedule (init Examples.program) = Some st
    /\ length (active st) = 2%nat
    /\ length (in_session st) = 2%nat
    /\ saw_cancel <$> workers st = [false; false]
    /\ stop_download st = false.
Proof. eexists. split; [by vm_compute|]. repeat split; by vm_compute. Qed.

End ThreadsTheory.

Module InputTheory.
Import Input.

Lemma calls_app cs1 cs2 r :
  calls (cs1 ++ cs2) r =
  let '(o1, r1) := calls cs1 r in
  let '(o2, r2) := calls cs2 r1 in (o1 ++ o2, r2).
Proof.
  revert r. induction cs1 as [|[now c] cs1 IH]; intros r; simpl.
  - by destruct (calls cs2 r).
  - destruct (apply_call now c r) as [out r1]. rewrite IH.
    destruct (calls cs1 r1) as [o1 r1']. by destruct (calls cs2 r1').
Qed.

Lemma calls_length cs r : length (calls cs r).1 = length cs.
Proof.
  revert r. induction cs as [|[now c] cs IH]; intros r; simpl; [done|].
  destruct (apply_call now c r) as [out r1]. specialize (IH r1).
  destruct (calls cs r1). simpl in *. by rewrite IH.
Qed.

(** After a call at [now] that moved or repeated, [last_repeat] is
    [now]; no later call at a later time puts it back. *)
Lemma apply_call_last_repeat now c r t :
  t <= last_repeat r -> t <= now -> t <= last_repeat (apply_call now c r).2.
Proof.
  intros H1 H2. destruct c as [d|[d|]|]; simpl.
  - unfold press. by destruct (decide _).
  - by destruct (decide _).
  - done.
  - unfold tick. destruct (negb _); [done|]. by destruct (_ && _)%bool.
Qed.

Lemma tick_fires now r d :
  (tick now r).1 = Some d ->
  held r = Some d /\ hold_start r + REPEAT_DELAY <= now
  /\ last_repeat r + REPEAT_RATE <= now
  /\ last_repeat (tick now r).2 = now.
Proof.
  unfold tick. destruct (negb _); [done|].
  destruct (_ && _)%bool eqn:H; [|done].
  apply andb_prop in H as [H1 H2]. simpl. intros ->.
  apply Z.geb_le in H1, H2. repeat split; lia.
Qed.

(** No repeat comes sooner than [REPEAT_RATE] after the time [t] of an
    earlier repeat. *)
Lemma calls_after_repeat cs : forall r t j t2 d,
  t <= last_repeat r ->
  Forall (fun tc => t <= tc.1) cs ->
  cs !! j = Some (t2, Tick) -> (calls cs r).1 !! j = Some (Some d) ->
  t + REPEAT_RATE <= t2.
Proof.
  induction cs as [|[now c] cs IH]; intros r t j t2 d Hr Hall Hj Ho; [done|].
  apply Forall_cons in Hall as [Hnow Hall]. simpl in Hnow, Ho.
  destruct (apply_call now c r) as [out r1] eqn:Hc.
  destruct (calls cs r1) as [outs r2] eqn:Hcs.
  destruct j as [|j]; simpl in *.
  - injection Hj as -> ->. injection Ho as ->.
    assert ((tick t2 r).1 = Some d) as H by (simpl in Hc; by rewrite Hc).
    apply tick_fires in H as (_ & _ & H & _). lia.
  - eapply (IH r1 t j); [|done|done|by rewrite Hcs].
    replace r1 with (apply_call now c r).2 by by rewrite Hc.
    by apply apply_call_last_repeat.
Qed.

Lemma Sorted_le_tail (t : Z) (ts : list Z) :
  Sorted Z.le (t :: ts) -> Forall (fun x => t <= x) ts.
Proof.
  intros H. apply Sorted_StronglySorted in H; [|intros ???; lia].
  by apply StronglySorted_inv in H as [_ H].
Qed.

(** X1.  Held-direction repeats are at least [REPEAT_RATE] (45 ms)
    apart: in any sequence of calls on a repeater whose clock readings
    do not go back, two calls of [tick] that both return a direction
    are at least 45 ms apart. *)
Theorem repeats_are_spaced cs r i j t1 t2 d1 d2 :
  Sorted Z.le (cs.*1) -> (i < j)%nat ->
  cs !! i = Some (t1, Tick) -> (calls cs r).1 !! i = Some (Some d1) ->
  cs !! j = Some (t2, Tick) -> (calls cs r).1 !! j = Some (Some d2) ->
  t1 + REPEAT_RATE <= t2.
Proof.
  revert r i j. induction cs as [|[now c] cs IH]; intros r i j Hs Hij Hi Hoi Hj Hoj; [done|].
  simpl in Hoi, Hoj.
  destruct (apply_call now c r) as [out r1] eqn:Hc.
  destruct (calls cs r1) as [outs r2] eqn:Hcs.
  destruct j as [|j]; [lia|]. simpl in Hj, Hoj.
  destruct i as [|i]; simpl in Hi, Hoi.
  - injection Hi as -> ->. injection Hoi as ->.
    assert ((tick t1 r).1 = Some d1) as H by (simpl in Hc; by rewrite Hc).
    apply tick_fires in H as (_ & _ & _ & H). simpl in Hc. rewrite Hc in H. simpl in H.
    eapply (calls_after_repeat cs r1 t1 j); [lia| |done|by rewrite Hcs].
    simpl in Hs. apply Sorted_le_tail in Hs.
    rewrite Forall_fmap in Hs. exact Hs.
  - eapply (IH r1 i j); [|lia|done|by rewrite Hcs|done|by rewrite Hcs].
    simpl in Hs. by apply Sorted_inv in Hs as [Hs _].
Qed.

Lemma calls_snoc pre now c r :
  calls (pre ++ [(now, c)]) r =
  ((calls pre r).1 ++ [(apply_call now c (calls pre r).2).1],
   (apply_call now c (calls pre r).2).2).
Proof.
  rewrite calls_app. destruct (calls pre r) as [o1 r1]. simpl.
  by destruct (apply_call now c r1).
Qed.

Lemma held_since_snoc pre now c r r' d :
  held_since pre r d -> hold_start r' = hold_start r -> ~ ends_hold d c ->
  held_since (pre ++ [(now, c)]) r' d.
Proof.
  intros (j & t0 & Hj & Ho & Hs & Hno) Hr Hc.
  pose proof (lookup_lt_Some _ _ _ Hj) as Hlt.
  exists j, t0. split; [by apply lookup_app_l_Some|].
  split; [rewrite calls_snoc; by apply lookup_app_l_Some|].
  split; [congruence|].
  intros k tk c' Hk Hlk.
  destruct (decide (k < length pre)%nat) as [Hin|Hout].
  - rewrite lookup_app_l in Hlk by done. by eapply Hno.
  - rewrite lookup_app_r in Hlk by lia.
    destruct (k - length pre)%nat; [|done]. by injection Hlk as <- <-.
Qed.

Lemma calls_held_since pre d :
  held (calls pre new).2 = Some d -> held_since pre (calls pre new).2 d.
Proof.
  induction pre as [|[now c] pre IH] using rev_ind; [done|].
  rewrite calls_snoc. simpl.
  destruct (calls pre new) as [o1 r1] eqn:Hpre. simpl in *.
  destruct c as [d'|[d'|]|]; simpl.
  - unfold press. destruct (decide (held r1 <> Some d')) as [Hne|Heq]; simpl.
    + intros [= ->]. exists (length pre), now.
      split; [by rewrite list_lookup_middle|].
      split.
      { rewrite calls_snoc, Hpre. simpl. unfold press.
        rewrite decide_True by done. simpl.
        rewrite lookup_app_r; rewrite <- (calls_length pre new), Hpre; simpl; [|lia].
        by rewrite Nat.sub_diag. }
      split; [done|].
      intros k tk c Hk Hlk. apply lookup_lt_Some in Hlk.
      rewrite length_app in Hlk. simpl in Hlk. lia.
    + intros Hd. assert (d' = d) as -> by (apply dec_stable in Heq; congruence).
      apply held_since_snoc with (r := r1); [by apply IH|done|].
      simpl. by intros ?.
  - destruct (decide (held r1 = Some d')) as [Heq|Hne]; simpl; [done|].
    intros Hd. apply held_since_snoc with (r := r1); [by apply IH|done|].
    simpl. congruence.
  - done.
  - unfold tick. destruct (negb _); simpl.
    + intros Hd. apply held_since_snoc with (r := r1); [by apply IH|done|by intros ?].
    + destruct (_ && _)%bool; simpl; intros Hd;
        (apply held_since_snoc with (r := r1); [by apply IH|done|by intros ?]).
Qed.

(** X2.  [tick] repeats only a direction that is being held: when a
    call of [tick] on a repeater that started fresh returns [d], an
    earlier [press(d)] returned [True] at least [REPEAT_DELAY] (120 ms)
    before, and between the two there is no release of [d], no
    [release()] and no press of another direction. *)
Theorem repeat_needs_hold cs i t d :
  cs !! i = Some (t, Tick) -> (calls cs new).1 !! i = Some (Some d) ->
  exists j t0,
    (j < i)%nat /\ cs !! j = Some (t0, Press d)
    /\ (calls cs new).1 !! j = Some (Some d)
    /\ t0 + REPEAT_DELAY <= t
    /\ forall k tk c, (j < k < i)%nat -> cs !! k = Some (tk, c) -> ~ ends_hold d c.
Proof.
  intros Hi Ho.
  pose proof (take_drop_middle _ _ _ Hi) as Hsplit.
  pose proof (lookup_lt_Some _ _ _ Hi) as Hlen.
  set (pre := take i cs) in *.
  assert (length pre = i) as Hpre by (unfold pre; rewrite length_take; lia).
  assert (forall k, (k < i)%nat -> cs !! k = pre !! k) as Hcs.
  { intros k Hk. unfold pre. by rewrite lookup_take_lt. }
  assert (exists outs r2,
            calls cs new = ((calls pre new).1 ++ (tick t (calls pre new).2).1 :: outs, r2))
    as (outs & r2 & Hrun).
  { rewrite <- Hsplit, calls_app. destruct (calls pre new) as [o1 r1]. simpl.
    destruct (tick t r1) as [out r1']. destruct (calls _ r1') as [o2 r2']. by eexists _, _. }
  rewrite Hrun in Ho |- *. simpl in Ho |- *.
  assert (length (calls pre new).1 = i) as Hlo by by rewrite calls_length.
  rewrite lookup_app_r in Ho by lia. rewrite Hlo, Nat.sub_diag in Ho.
  injection Ho as Ho.
  apply tick_fires in Ho as (Hheld & Hdelay & _ & _).
  destruct (calls_held_since pre d Hheld) as (j & t0 & Hj & Hoj & Hs & Hno).
  pose proof (lookup_lt_Some _ _ _ Hj) as Hji.
  exists j, t0. split; [lia|]. split; [rewrite Hcs; [done|lia]|].
  split; [by apply lookup_app_l_Some|]. split; [lia|].
  intros k tk c [Hk1 Hk2] Hk. rewrite Hcs in Hk by done. by eapply Hno.
Qed.

(** *** The joystick filter *)

Lemma allow_joy_primary now joy button s p :
  PRIMARY_JOY_ID s = Some p ->
  PRIMARY_JOY_ID (_allow_joy now joy button s).2 = Some p
  /\ ((_allow_joy now joy button s).1 = true -> forall j, joy = Some j -> j = p).
Proof.
  intros Hp. unfold _allow_joy. rewrite Hp. cbv iota beta.
  rewrite Hp. case_bool_decide as Hd.
  - split; [done|]. done.
  - assert (forall j, joy = Some j -> j = p) as Hj.
    { intros j ->. destruct (decide (j = p)) as [|Hne]; [done|].
      destruct Hd. split; [by eexists|congruence]. }
    destruct button as [b|]; [|done].
    by destruct (_ <? _).
Qed.

Lemma allow_all_primary cs : forall s p i now j b,
  PRIMARY_JOY_ID s = Some p ->
  cs !! i = Some (now, Some j, b) -> (allow_all cs s).1 !! i = Some true ->
  j = p.
Proof.
  induction cs as [|[[now0 joy0] b0] cs IH]; intros s p i now j b Hp Hi Ho; [done|].
  simpl in Ho. destruct (_allow_joy now0 joy0 b0 s) as [ok s1] eqn:Hc.
  destruct (allow_all cs s1) as [oks s2] eqn:Hcs.
  destruct (allow_joy_primary now0 joy0 b0 s p Hp) as [Hp1 Hok].
  rewrite Hc in Hp1, Hok. simpl in Hp1, Hok.
  destruct i as [|i]; simpl in *.
  - injection Hi as -> -> ->. injection Ho as ->. by apply Hok.
  - eapply (IH s1 p i); [done|done|by rewrite Hcs].
Qed.

(** X3.  The program listens to one joystick only, the first that sends
    an event: in any sequence of calls of [_allow_joy] that starts with
    [PRIMARY_JOY_ID = None], every event that is let through and comes
    from a joystick comes from the joystick of the first event of the
    sequence that came from one. *)
Theorem first_joystick_is_the_only_one cs s k t0 j0 b0 i t j b :
  PRIMARY_JOY_ID s = None ->
  cs !! k = Some (t0, Some j0, b0) ->
  (forall k' c, (k' < k)%nat -> cs !! k' = Some c -> c.1.2 = None) ->
  cs !! i = Some (t, Some j, b) -> (allow_all cs s).1 !! i = Some true ->
  j = j0.
Proof.
  revert s k i. induction cs as [|[[now0 joy0] bt0] cs IH];
    intros s k i Hs Hk Hfirst Hi Ho; [done|].
  simpl in Ho. destruct (_allow_joy now0 joy0 bt0 s) as [ok s1] eqn:Hc.
  destruct (allow_all cs s1) as [oks s2] eqn:Hcs.
  destruct joy0 as [j1|].
  - (* the head is the first event from a joystick *)
    assert (k = 0%nat) as ->.
    { destruct k as [|k]; [done|].
      by specialize (Hfirst 0%nat _ ltac:(lia) eq_refl). }
    simpl in Hk. injection Hk as -> -> ->.
    assert (PRIMARY_JOY_ID s1 = Some j0) as Hp.
    { revert Hc. unfold _allow_joy. rewrite Hs. simpl.
      case_bool_decide; [by intros [= <- <-]|].
      destruct b0; [|by intros [= <- <-]].
      destruct (_ <? _); by intros [= <- <-]. }
    destruct i as [|i]; simpl in *; [by injection Hi as -> -> ->|].
    eapply (allow_all_primary cs s1 j0 i); [done|done|by rewrite Hcs].
  - assert (PRIMARY_JOY_ID s1 = None) as Hp.
    { revert Hc. unfold _allow_joy. rewrite Hs. simpl.
      destruct bt0; [|by intros [= <- <-]].
      destruct (_ <? _); by intros [= <- <-]. }
    destruct k as [|k]; [done|]. destruct i as [|i]; [done|]. simpl in *.
    eapply (IH s1 k i); [done|done| |done|by rewrite Hcs].
    intros k' c Hk' Hc'. by apply (Hfirst (S k') c ltac:(lia)).
Qed.

Lemma allow_joy_last now joy button s b t :
  t <= default 0 (_last_button_time s !! b) ->
  t <= default 0 (_last_button_time (_allow_joy now joy button s).2 !! b)
  /\ ((_allow_joy now joy button s).1 = true -> button = Some b ->
      default 0 (_last_button_time s !! b) + BUTTON_DEBOUNCE <= now
      /\ _last_button_time (_allow_joy now joy button s).2 !! b = Some now).
Proof.
  intros Ht. unfold _allow_joy.
  set (s1 := match PRIMARY_JOY_ID s, joy with
             | None, Some j => JoyState (Some j) (_last_button_time s)
             | _, _ => s end).
  assert (_last_button_time s1 = _last_button_time s) as Hl.
  { unfold s1. destruct (PRIMARY_JOY_ID s), joy; done. }
  case_bool_decide; simpl; [by rewrite Hl|].
  destruct button as [b'|]; simpl; [|by rewrite Hl].
  rewrite Hl. destruct (Z.ltb_spec (now - default 0 (_last_button_time s !! b')) BUTTON_DEBOUNCE);
    simpl; [split; [by rewrite ?Hl|done]|].
  destruct (decide (b' = b)) as [->|Hne].
  - rewrite lookup_insert_eq. simpl. split; [unfold BUTTON_DEBOUNCE in *; lia|].
    intros _ _. split; [lia|done].
  - rewrite lookup_insert_ne by done. split; [done|]. congruence.
Qed.

Lemma allow_all_after_press cs : forall s b t i now joy,
  t <= default 0 (_last_button_time s !! b) ->
  cs !! i = Some (now, joy, Some b) -> (allow_all cs s).1 !! i = Some true ->
  t + BUTTON_DEBOUNCE <= now.
Proof.
  induction cs as [|[[now0 joy0] b0] cs IH]; intros s b t i now joy Ht Hi Ho; [done|].
  simpl in Ho. destruct (_allow_joy now0 joy0 b0 s) as [ok s1] eqn:Hc.
  destruct (allow_all cs s1) as [oks s2] eqn:Hcs.
  destruct (allow_joy_last now0 joy0 b0 s b t Ht) as [Ht1 Hok].
  rewrite Hc in Ht1, Hok. simpl in Ht1, Hok.
  destruct i as [|i]; simpl in *.
  - injection Hi as -> -> ->. injection Ho as ->.
    destruct (Hok eq_refl eq_refl) as [H _]. lia.
  - eapply (IH s1 b t i); [done|done|by rewrite Hcs].
Qed.

(** X4.  Button presses are debounced: in any sequence of calls of
    [_allow_joy], two presses of the same button that are both let
    through are at least [BUTTON_DEBOUNCE] (220 ms) apart. *)
Theorem accepted_presses_are_debounced cs s i j b t1 joy1 t2 joy2 :
  (i < j)%nat ->
  cs !! i = Some (t1, joy1, Some b) -> (allow_all cs s).1 !! i = Some true ->
  cs !! j = Some (t2, joy2, Some b) -> (allow_all cs s).1 !! j = Some true ->
  t1 + BUTTON_DEBOUNCE <= t2.
Proof.
  revert s i j. induction cs as [|[[now0 joy0] b0] cs IH];
    intros s i j Hij Hi Hoi Hj Hoj; [done|].
  simpl in Hoi, Hoj. destruct (_allow_joy now0 joy0 b0 s) as [ok s1] eqn:Hc.
  destruct (allow_all cs s1) as [oks s2] eqn:Hcs.
  destruct j as [|j]; [lia|]. simpl in Hj, Hoj.
  destruct i as [|i]; simpl in Hi, Hoi.
  - injection Hi as -> -> ->. injection Hoi as ->.
    eapply (allow_all_after_press cs s1 b t1 j); [|done|by rewrite Hcs].
    assert (exists t, t <= default 0 (_last_button_time s !! b)) as [t Ht] by by eexists.
    destruct (allow_joy_last t1 joy1 (Some b) s b t Ht) as [_ Hok].
    rewrite Hc in Hok. simpl in Hok. destruct (Hok eq_refl eq_refl) as [_ ->]. done.
  - eapply (IH s1 i j); [lia|done|by rewrite Hcs|done|by rewrite Hcs].
Qed.

(** A direction is pressed and held: the first repeats come after
    120 ms and 165 ms. *)
Lemma repeats_are_spaced_witness :
  (calls [(0, Press "up"); (120, Tick); (140, Tick); (165, Tick)] new).1
    = [Some "up"; Some "up"; None; Some "up"]
  /\ 120 + REPEAT_RATE <= 165.
Proof.
  split; [reflexivity|].
  apply (repeats_are_spaced
           [(0, Press "up"); (120, Tick); (140, Tick); (165, Tick)] new
           1 3 120 165 "up" "up");
    [repeat constructor; simpl; lia|lia|reflexivity..].
Defined.

Lemma repeat_needs_hold_witness :
  exists j t0,
    (j < 2)%nat
    /\ [(0, Press "up"); (60, Press "up"); (130, Tick)] !! j = Some (t0, Press "up")
    /\ (calls [(0, Press "up"); (60, Press "up"); (130, Tick)] new).1 !! j
       = Some (Some "up")
    /\ t0 + REPEAT_DELAY <= 130
    /\ forall k tk c, (j < k < 2)%nat ->
         [(0, Press "up"); (60, Press "up"); (130, Tick)] !! k = Some (tk, c) ->
         ~ ends_hold "up" c.
Proof.
  apply (repeat_needs_hold
           [(0, Press "up"); (60, Press "up"); (130, Tick)] 2 130 "up");
    reflexivity.
Defined.

(** Joystick 0 sends the first event; a press on joystick 1 is
    ignored. *)
Lemma first_joystick_witness :
  (allow_all [(1000, None, None); (1010, Some 0, Some 0);
              (1500, Some 1, Some 0); (1600, Some 0, Some 1)] joy_initial).1
    = [true; true; false; true]
  /\ 0 = 0.
Proof.
  split; [reflexivity|].
  apply (first_joystick_is_the_only_one
           [(1000, None, None); (1010, Some 0, Some 0);
            (1500, Some 1, Some 0); (1600, Some 0, Some 1)] joy_initial
           1 1010 0 (Some 0) 3 1600 0 (Some 1)); try reflexivity.
  intros k' c Hk' Hc. destruct k' as [|k']; [|lia]. by injection Hc as <-.
Defined.

Lemma accepted_presses_witness :
  (allow_all [(1000, Some 0, Some 0); (1100, Some 0, Some 0);
              (1220, Some 0, Some 0)] joy_initial).1 = [true; false; true]
  /\ 1000 + BUTTON_DEBOUNCE <= 1220.
Proof.
  split; [reflexivity|].
  apply (accepted_presses_are_debounced
           [(1000, Some 0, Some 0); (1100, Some 0, Some 0);
            (1220, Some 0, Some 0)] joy_initial 0 2 0 1000 (Some 0) 1220 (Some 0));
    [lia|reflexivity..].
Defined.

End InputTheory.

Module MenuTheory.
Import PyStr Input Menu MenuSpec.

Lemma py_index_in_range {A} (l : list A) (i : Z) :
  0 <= i < Z.of_nat (length l) -> exists x, py_index l i = Some x /\ l !! Z.to_nat i = Some x.
Proof.
  intros Hi. unfold py_index.
  destruct (Z.leb_spec 0 i); [|lia].
  destruct (lookup_lt_is_Some_2 l (Z.to_nat i)) as [x Hx]; [lia|].
  by exists x.
Qed.

Lemma py_index_elem_of {A} (l : list A) (i : Z) x :
  py_index l i = Some x -> x ∈ l.
Proof.
  unfold py_index. destruct (_ <=? _); [apply list_elem_of_lookup_2|].
  destruct (_ <=? _); [apply list_elem_of_lookup_2|done].
Qed.

Section MenuFacts.
Variable SCREEN_H : Z.
Variable title : string.
Variable options : list string.
Variable allow_back allow_multi_controls : bool.

Local Abbreviation handle_event := (handle_event options allow_back allow_multi_controls).
Local Abbreviation handle_events := (handle_events options allow_back allow_multi_controls).
Local Abbreviation turn := (turn SCREEN_H title options allow_back allow_multi_controls).
Local Abbreviation menu_loop := (menu_loop SCREEN_H title options allow_back allow_multi_controls).
Local Abbreviation draw := (draw SCREEN_H title options allow_back allow_multi_controls).
Local Abbreviation adjust := (adjust SCREEN_H).
Local Abbreviation in_range := (MenuSpec.in_range options).
Local Abbreviation safe := (MenuSpec.safe options).

Lemma move_safe delta l u : in_range l -> safe (move options delta l u).
Proof.
  intros [Hi Hs]. unfold move, py_mod.
  destruct (Z.eqb_spec (Z.of_nat (length options)) 0); [lia|]. simpl.
  split; simpl; [|done]. apply Z.mod_pos_bound. lia.
Qed.

Lemma press_move_safe now d l u : in_range l -> safe (press_move options now d l u).
Proof.
  intros H. unfold press_move. destruct (press now d (repeater l)) as [moved r].
  destruct moved; [by apply move_safe|done].
Qed.

Lemma confirm_safe l u : in_range l -> safe (confirm options allow_multi_controls l u).
Proof.
  intros H. unfold confirm.
  destruct (py_index_in_range options (selected_index l)) as (x & -> & _); [apply H|].
  destruct (_ && _)%bool; [|done].
  destruct (String.eqb _ _); [done|]. by case_bool_decide.
Qed.

Lemma toggle_multi_safe msg l u : in_range l -> safe (toggle_multi msg l u).
Proof. intros H. unfold toggle_multi. by destruct (_ && _)%bool. Qed.

Lemma start_batch_safe l u : in_range l -> safe (start_batch l u).
Proof.
  intros H. unfold start_batch. destruct (multi_enabled l); [|done].
  by case_bool_decide.
Qed.

Lemma release_vertical_in_range l : in_range l -> in_range (release_vertical l).
Proof. intros H. unfold release_vertical. by case_bool_decide. Qed.

Lemma handle_event_safe now ev l u : in_range l -> safe (handle_event now ev l u).
Proof.
  intros H. pose proof confirm_safe. pose proof press_move_safe.
  pose proof toggle_multi_safe. pose proof start_batch_safe.
  pose proof release_vertical_in_range.
  destruct ev as [|key|key|joy button|[button|]|joy [hat_x hat_y]|joy axis value|];
    simpl; try done.
  - repeat (first [case_bool_decide | destruct (_ && _)%bool]; auto); done.
  - repeat (destruct (_ && _)%bool; [done|]). done.
  - destruct (allow now joy (Some button) u) as [ok u1].
    destruct ok; simpl; [|done].
    repeat (first [destruct (_ =? _) | destruct (_ && _)%bool]; auto); done.
  - repeat (destruct (_ && _)%bool; [done|]). done.
  - destruct (allow now joy None u) as [ok u1].
    destruct ok; simpl; [|done].
    repeat (destruct (_ =? _); auto). simpl. auto.
  - destruct (allow now joy None u) as [ok u1].
    destruct ok; simpl; [|done].
    destruct (_ =? _); [|done].
    repeat (destruct (Qle_bool _ _); auto). simpl. auto.
Qed.

Lemma handle_events_safe evs : forall l u, in_range l -> safe (handle_events evs l u).
Proof.
  induction evs as [|[now ev] evs IH]; intros l u H; [done|]. simpl.
  pose proof (handle_event_safe now ev l u H) as Hs.
  destruct (handle_event now ev l u); try done. by apply IH.
Qed.

Lemma repeat_safe now l u : in_range l -> safe (repeat options now l u).
Proof.
  intros H. unfold repeat. destruct (tick now (repeater l)) as [rep r].
  repeat (case_bool_decide; [by apply move_safe|]). done.
Qed.

Lemma adjust_in_range l : in_range l -> in_range (adjust l).
Proof.
  intros [Hi Hs]. unfold Menu.adjust.
  destruct (Z.ltb_spec (selected_index l) (scroll_offset l)); [split; simpl; lia|].
  destruct (Z.geb_spec (selected_index l) (scroll_offset l + visible_count SCREEN_H));
    [|done].
  split; simpl; lia.
Qed.

(** The lines that are drawn when nothing is out of range. *)
Lemma draw_rows_in_range sel off set multi :
  0 <= off ->
  draw_rows SCREEN_H options sel off set multi =
  Some ((fun idx =>
           Row (200 + idx * 50)
               (display_text set multi (default "" (options !! Z.to_nat (off + idx))))
               (off + idx =? sel))
        <$> seqZ 0 (Z.min (Z.of_nat (length options)) (off + visible_count SCREEN_H) - off)).
Proof.
  intros Hoff. unfold draw_rows. apply mapM_Some. apply Forall2_fmap_r.
  apply Forall_Forall2_diag. apply Forall_forall. intros idx Hidx.
  apply elem_of_seqZ in Hidx.
  destruct (py_index_in_range options (off + idx)) as (x & -> & Hx); [lia|].
  simpl. by rewrite Hx.
Qed.

Lemma draw_in_range l u : in_range l -> is_Some (draw l u).
Proof.
  intros [_ Hs]. unfold Menu.draw, draw_menu.
  rewrite draw_rows_in_range by done. by eexists.
Qed.

Lemma turn_safe f l u : in_range l -> safe (turn f l u).
Proof.
  intros H. unfold Menu.turn. apply adjust_in_range in H.
  destruct (draw_in_range _ u H) as [sc ->].
  pose proof (handle_events_safe f.1 _ u H) as Hs.
  destruct (handle_events _ _ _); try done. by apply repeat_safe.
Qed.

Lemma menu_loop_safe frames : forall l u, in_range l -> safe (menu_loop frames l u).
Proof.
  induction frames as [|f frames IH]; intros l u H; [done|]. simpl.
  pose proof (turn_safe f l u H) as Hs.
  destruct (turn f l u); try done. by apply IH.
Qed.

End MenuFacts.

(** X5.  A menu over a list that is not empty never fails: whatever the
    events and the clock, [menu_select] raises neither [IndexError] nor
    [ZeroDivisionError] -- not at [options[selected_index]], not at
    [% len(options)], not in [draw_menu] -- and while the menu is open
    the cursor stays on an option and the scroll offset is not
    negative. *)
Theorem menu_select_never_raises SCREEN_H title options allow_back
    allow_multi_controls index offset multi frames u :
  0 <= index < Z.of_nat (length options) -> 0 <= offset ->
  match menu_select SCREEN_H title options allow_back allow_multi_controls
          index offset multi frames u with
  | Raise _ _ => False
  | Next l _ =>
      0 <= selected_index l < Z.of_nat (length options) /\ 0 <= scroll_offset l
  | _ => True
  end.
Proof.
  intros Hi Ho.
  pose proof (menu_loop_safe SCREEN_H title options allow_back allow_multi_controls
                frames (Locals index offset
                          (default (multi_select_enabled (u_gl u)) multi) new false)
                u (conj Hi Ho)) as H.
  unfold menu_select. destruct (menu_loop _ _ _ _ _ _ _ _); try done; apply H.
Qed.

(** X6.  The entry under the cursor is always on the screen: with room
    for at least one line, after the scrolling at the top of the loop
    [draw_menu] draws the option under the cursor, highlighted, on a
    line between the heights 200 and [SCREEN_H - 50], and highlights no
    other line. *)
Theorem cursor_row_is_drawn SCREEN_H title options allow_back
    allow_multi_controls l u :
  0 <= selected_index l < Z.of_nat (length options) -> 0 <= scroll_offset l ->
  1 <= visible_count SCREEN_H ->
  let l1 := adjust SCREEN_H l in
  let k := Z.to_nat (selected_index l - scroll_offset l1) in
  exists sc label text y,
    draw SCREEN_H title options allow_back allow_multi_controls l1 u = Some sc
    /\ options !! Z.to_nat (selected_index l) = Some label
    /\ sc_rows sc !! k = Some (Row y text true)
    /\ (text = label \/ text = "[x] " +:+ label)
    /\ 200 <= y <= SCREEN_H - 50
    /\ forall k' r, sc_rows sc !! k' = Some r -> row_highlight r = true -> k' = k.
Proof.
  intros Hi Hs Hv l1 k.
  assert (selected_index l1 = selected_index l
          /\ 0 <= scroll_offset l1 <= selected_index l
          /\ selected_index l < scroll_offset l1 + visible_count SCREEN_H)
    as (Hsel & Hoff & Hvis).
  { unfold l1, adjust.
    destruct (Z.ltb_spec (selected_index l) (scroll_offset l)); [simpl; lia|].
    destruct (Z.geb_spec (selected_index l)
                (scroll_offset l + visible_count SCREEN_H)); simpl; lia. }
  destruct (lookup_lt_is_Some_2 options (Z.to_nat (selected_index l)))
    as [label Hlabel]; [lia|].
  unfold draw, draw_menu. rewrite draw_rows_in_range by lia. simpl.
  set (set := if (allow_multi_controls && multi_enabled l1)%bool
              then Some (selected_results (u_gl u)) else None).
  set (n := Z.min (Z.of_nat (length options))
              (scroll_offset l1 + visible_count SCREEN_H) - scroll_offset l1).
  assert (Z.of_nat k < n) as Hk by (unfold k, n; lia).
  eexists _, label, _, _. split; [reflexivity|]. split; [done|]. simpl.
  split.
  { rewrite list_lookup_fmap, lookup_seqZ_lt by done. simpl.
    replace (scroll_offset l1 + (0 + Z.of_nat k)) with (selected_index l)
      by (unfold k; lia).
    rewrite Hlabel, Hsel, Z.eqb_refl. reflexivity. }
  split.
  { unfold display_text. destruct set; [|by left].
    destruct (_ && _)%bool; [by right|by left]. }
  split.
  { unfold visible_count in *.
    pose proof (Z.mul_div_le (SCREEN_H - 200) 50 ltac:(lia)). unfold k. lia. }
  intros k' r Hr Hh.
  rewrite list_lookup_fmap in Hr.
  destruct (seqZ 0 n !! k') as [idx|] eqn:Hidx; [|done].
  apply lookup_seqZ in Hidx as [-> _]. injection Hr as <-. simpl in Hh.
  apply Z.eqb_eq in Hh. unfold k. lia.
Qed.

Lemma int_nonneg (x : Q) : (0 <= x)%Q -> int x = Qfloor x.
Proof.
  intros H. unfold int. destruct (Qle_bool 0 x) eqn:E; [done|].
  apply Qle_bool_iff in H. congruence.
Qed.

(** The height of the bar: from a starting point [a], a share of a
    non-negative length [b]. *)
Lemma int_share (a b u k : Z) :
  0 <= a -> 0 <= b -> 0 < u -> 0 <= k <= u ->
  a <= int (inject_Z a + inject_Z b / inject_Z u * inject_Z k) <= a + b.
Proof.
  intros Ha Hb Hu Hk.
  set (q := (inject_Z a + inject_Z b / inject_Z u * inject_Z k)%Q).
  assert (inject_Z a <= q /\ q <= inject_Z (a + b))%Q as [H1 H2].
  { unfold q. destruct u as [|p|p]; try lia.
    unfold Qle, Qplus, Qmult, Qdiv, Qinv, inject_Z. simpl. split; nia. }
  rewrite int_nonneg.
  - split.
    + rewrite <- (Qfloor_Z a). by apply Qfloor_resp_le.
    + rewrite <- (Qfloor_Z (a + b)). by apply Qfloor_resp_le.
  - eapply Qle_trans; [|exact H1]. unfold Qle. simpl. lia.
Qed.

Lemma int_share_mono (a b u k1 k2 : Z) :
  0 <= a -> 0 <= b -> 0 < u -> 0 <= k1 <= k2 ->
  int (inject_Z a + inject_Z b / inject_Z u * inject_Z k1)
  <= int (inject_Z a + inject_Z b / inject_Z u * inject_Z k2).
Proof.
  intros Ha Hb Hu Hk.
  assert (forall k, 0 <= k ->
            (0 <= inject_Z a + inject_Z b / inject_Z u * inject_Z k)%Q) as Hpos.
  { intros k Hk0. destruct u as [|p|p]; try lia.
    unfold Qle, Qplus, Qmult, Qdiv, Qinv, inject_Z. simpl. nia. }
  rewrite !int_nonneg by (apply Hpos; lia).
  apply Qfloor_resp_le. destruct u as [|p|p]; try lia.
  unfold Qle, Qplus, Qmult, Qdiv, Qinv, inject_Z. simpl.
  rewrite !Z.mul_1_r, !Pos.mul_1_r.
  assert (b * k1 <= b * k2) by nia.
  generalize dependent (b * k1). generalize dependent (b * k2). intros. nia.
Qed.

Lemma bar_height_bounds (track_h : Z) :
  60 <= track_h ->
  let bar_height := Z.max 60 (Z.min 200 (int (inject_Z track_h * (1 # 4)))) in
  60 <= bar_height <= 200 /\ bar_height <= track_h.
Proof.
  intros H bar_height. unfold bar_height.
  assert (int (inject_Z track_h * (1 # 4)) <= track_h); [|lia].
  rewrite int_nonneg by (unfold Qle, Qmult, inject_Z; simpl; lia).
  rewrite <- (Qfloor_Z track_h) at 2. apply Qfloor_resp_le.
  unfold Qle, Qmult, inject_Z. simpl. lia.
Qed.

(** X7.  The bar of the scrollbar stays on its track: on a screen at
    least 460 high and with more than one option, whatever the index
    passed, the bar is between 60 and 200 high, lies within the track
    (from 200 to [SCREEN_H - 200]), is at the top of the track for the
    first option, and does not move up when the index grows. *)
Theorem scrollbar_stays_on_track SCREEN_H options selected_index :
  460 <= SCREEN_H -> (1 < length options)%nat ->
  exists y h,
    draw_bar SCREEN_H options selected_index = Some (y, h)
    /\ 60 <= h <= 200
    /\ 200 <= y /\ y + h <= SCREEN_H - 200
    /\ (selected_index <= 0 -> y = 200)
    /\ forall i' y' h',
         selected_index <= i' ->
         draw_bar SCREEN_H options i' = Some (y', h') -> y <= y' /\ h' = h.
Proof.
  intros HH Hn. unfold draw_bar.
  destruct (Z.ltb_spec 1 (Z.of_nat (length options))); [|lia].
  set (track_h := SCREEN_H - 400).
  destruct (bar_height_bounds track_h ltac:(unfold track_h; lia)) as [Hb Hbt].
  set (bar_height := Z.max 60 (Z.min 200 (int (inject_Z track_h * (1 # 4))))) in *.
  set (n := Z.of_nat (length options)) in *.
  set (usable := Z.max 1 (n - 1)).
  eexists _, _. split; [reflexivity|]. split; [done|].
  pose proof (int_share 200 (track_h - bar_height) usable
                (Z.min (Z.max 0 selected_index) (n - 1))
                ltac:(lia) ltac:(lia) ltac:(lia) ltac:(lia)) as Hy.
  split; [lia|]. split; [unfold track_h in *; lia|]. split.
  - intros H0. replace (Z.min (Z.max 0 selected_index) (n - 1)) with 0 by lia.
    rewrite int_nonneg.
    + replace (inject_Z 200 + inject_Z (track_h - bar_height) / inject_Z usable * inject_Z 0)%Q
        with (inject_Z 200 + inject_Z (track_h - bar_height) / inject_Z usable * 0)%Q by done.
      rewrite <- (Qfloor_Z 200) at 2. apply Z.le_antisymm; apply Qfloor_resp_le;
        rewrite Qmult_0_r; unfold Qle; simpl; lia.
    + rewrite Qmult_0_r. unfold Qle. simpl. lia.
  - intros i' y' h' Hi' [= <- <-]. split; [|done].
    apply int_share_mono; lia.
Qed.

(** *** What the menu returns *)

(** X22.  The cursor wraps around the ends of the list and a step back
    undoes a step: with the cursor on an option, a step down goes to
    the next option, from the last one to the first; a step up goes to
    the one before, from the first one to the last; and a step down
    followed by a step up, or the other way round, leaves the menu as
    it was. *)
Theorem cursor_wraps_around options l u :
  0 <= selected_index l < Z.of_nat (length options) ->
  let n := Z.of_nat (length options) in
  let down := set_index (if selected_index l =? n - 1 then 0
                         else selected_index l + 1) l in
  let up := set_index (if selected_index l =? 0 then n - 1
                       else selected_index l - 1) l in
  move options 1 l u = Next down u
  /\ move options (-1) l u = Next up u
  /\ move options (-1) down u = Next l u
  /\ move options 1 up u = Next l u.
Proof.
  intros Hi n down up. destruct l as [i o m r h].
  unfold down, up, move, py_mod, set_index. simpl in *. fold n.
  destruct (Z.eqb_spec n 0); [lia|].
  assert (forall k, (k + -1 * n) mod n = k mod n) as Hwrap
    by (intros k; by apply Z.mod_add).
  assert ((i + 1) mod n = if i =? n - 1 then 0 else i + 1) as Hd.
  { destruct (Z.eqb_spec i (n - 1)) as [->|].
    - replace (n - 1 + 1) with n by lia. by apply Z.mod_same.
    - apply Z.mod_small. lia. }
  assert ((i + -1) mod n = if i =? 0 then n - 1 else i - 1) as Hu.
  { destruct (Z.eqb_spec i 0) as [->|].
    - replace (0 + -1) with (n - 1 + -1 * n) by lia.
      rewrite Hwrap. apply Z.mod_small. lia.
    - apply Z.mod_small. lia. }
  assert (((if i =? n - 1 then 0 else i + 1) + -1) mod n = i) as Hdu.
  { destruct (Z.eqb_spec i (n - 1)) as [->|].
    - replace (0 + -1) with (n - 1 + -1 * n) by lia.
      rewrite Hwrap. apply Z.mod_small. lia.
    - rewrite Z.mod_small; lia. }
  assert (((if i =? 0 then n - 1 else i - 1) + 1) mod n = i) as Hud.
  { destruct (Z.eqb_spec i 0) as [->|].
    - replace (n - 1 + 1) with n by lia. by apply Z.mod_same.
    - rewrite Z.mod_small; lia. }
  by rewrite Hd, Hu, Hdu, Hud.
Qed.


Section ReturnFacts.
Variable SCREEN_H : Z.
Variable title : string.
Variable options : list string.
Variable allow_back allow_multi_controls : bool.

Local Abbreviation result_ok :=
  (MenuSpec.result_ok options allow_back allow_multi_controls).
Local Abbreviation returns_ok :=
  (MenuSpec.returns_ok options allow_back allow_multi_controls).

Lemma allow_gl now joy button u :
  u_gl (allow now joy button u).2 = u_gl u.
Proof. unfold allow. by destruct (_allow_joy _ _ _ _). Qed.

Lemma move_synced delta l u :
  synced l u -> returns_ok (move options delta l u).
Proof. intros H. unfold move. by destruct (py_mod _ _). Qed.

Lemma press_move_synced now d l u :
  synced l u -> returns_ok (press_move options now d l u).
Proof.
  intros H. unfold press_move. destruct (press _ _ _) as [[] r]; [|done].
  by apply move_synced.
Qed.

Lemma confirm_returns l u :
  synced l u -> returns_ok (confirm options allow_multi_controls l u).
Proof.
  intros H. unfold confirm.
  destruct (py_index options (selected_index l)) as [label|] eqn:Hl; [|done].
  apply py_index_elem_of in Hl.
  destruct allow_multi_controls eqn:Ha; simpl.
  - destruct (multi_enabled l) eqn:Hm.
    + destruct (String.eqb_spec label "< Back") as [->|Hne].
      * left. by split.
      * by case_bool_decide.
    + left. split; [done|]. intros _ Hg. red in H. congruence.
  - left. split; [done|]. intros Hc. congruence.
Qed.

Lemma toggle_multi_synced msg l u : returns_ok (toggle_multi msg l u).
Proof. unfold toggle_multi. by destruct (_ && _)%bool. Qed.

Lemma start_batch_returns l u :
  allow_multi_controls = true -> synced l u -> returns_ok (start_batch l u).
Proof.
  intros Ha H. unfold start_batch. destruct (multi_enabled l) eqn:Hm; [|done].
  case_bool_decide as He; [done|]. right. right. red in H.
  repeat split; [done|congruence|done].
Qed.

Lemma handle_event_returns now ev l u :
  synced l u ->
  returns_ok (handle_event options allow_back allow_multi_controls now ev l u).
Proof.
  intros H. pose proof confirm_returns. pose proof press_move_synced.
  pose proof toggle_multi_synced. pose proof start_batch_returns.
  assert (forall l, synced l u -> synced (release_vertical l) u) as Hrv.
  { intros l0 Hl0. unfold release_vertical. by case_bool_decide. }
  assert (forall u', u_gl u' = u_gl u -> synced l u') as Hsy.
  { intros u' Hu. red. by rewrite Hu. }
  destruct ev as [|key|key|joy button|[button|]|joy [hat_x hat_y]|joy axis value|];
    simpl; try done.
  - destruct (bool_decide (key = K_RETURN \/ key = K_KP_ENTER)); [auto|].
    destruct (allow_back && _)%bool eqn:E;
      [apply andb_prop in E as [E _]; right; left; done|].
    destruct (bool_decide (key = K_UP \/ key = K_w)); [auto|].
    destruct (bool_decide (key = K_DOWN \/ key = K_s)); [auto|].
    destruct (allow_multi_controls && _)%bool; [auto|].
    destruct (allow_multi_controls && _)%bool eqn:E3;
      [apply andb_prop in E3 as [E3 _]; auto|].
    done.
  - repeat (destruct (_ && _)%bool; [done|]). done.
  - pose proof (allow_gl now joy (Some button) u) as Hg.
    destruct (allow now joy (Some button) u) as [ok u1]. simpl in Hg.
    assert (synced l u1) as Hs1 by (red; by rewrite Hg).
    clear Hsy Hrv.
    assert (forall l, synced l u1 -> synced (release_vertical l) u1) as Hrv.
    { intros l0 Hl0. unfold release_vertical. by case_bool_decide. }
    destruct ok; simpl; [|done].
    destruct (allow_multi_controls && _)%bool; [auto|].
    destruct (allow_multi_controls && _)%bool eqn:E3;
      [apply andb_prop in E3 as [E3 _]; auto|].
    destruct (_ =? CROSS); [auto|].
    destruct (allow_back && _)%bool eqn:E;
      [apply andb_prop in E as [E _]; right; left; done|].
    destruct (_ =? DPAD_UP); [auto|]. destruct (_ =? DPAD_DOWN); [auto|].
    destruct (allow_multi_controls && negb _)%bool; exact Hs1.
  - repeat (destruct (_ && _)%bool; [done|]). done.
  - pose proof (allow_gl now joy None u) as Hg.
    destruct (allow now joy None u) as [ok u1]. simpl in Hg.
    assert (synced l u1) as Hs1 by (red; by rewrite Hg).
    destruct ok; simpl; [|done].
    destruct (_ =? 1); [auto|]. destruct (_ =? -1); [auto|].
    simpl. unfold release_vertical. by case_bool_decide.
  - pose proof (allow_gl now joy None u) as Hg.
    destruct (allow now joy None u) as [ok u1]. simpl in Hg.
    assert (synced l u1) as Hs1 by (red; by rewrite Hg).
    destruct ok; simpl; [|done].
    destruct (_ =? 1); [|done].
    destruct (Qle_bool _ _); [auto|]. destruct (Qle_bool _ _); [auto|].
    simpl. unfold release_vertical. by case_bool_decide.
Qed.

Lemma handle_events_returns evs : forall l u,
  synced l u ->
  returns_ok (handle_events options allow_back allow_multi_controls evs l u).
Proof.
  induction evs as [|[now ev] evs IH]; intros l u H; [done|]. simpl.
  pose proof (handle_event_returns now ev l u H) as Hs.
  destruct (handle_event _ _ _ _ _ _ _); try done. by apply IH.
Qed.

Lemma turn_returns f l u :
  synced l u ->
  returns_ok (turn SCREEN_H title options allow_back allow_multi_controls f l u).
Proof.
  intros H. unfold turn.
  assert (synced (adjust SCREEN_H l) u) as Ha.
  { unfold adjust. destruct (_ <? _); [done|]. by destruct (_ >=? _). }
  destruct (draw _ _ _ _ _ _ _); [|done].
  pose proof (handle_events_returns f.1 _ u Ha) as Hs.
  destruct (handle_events _ _ _ _ _ _); try done.
  unfold repeat. destruct (tick _ _) as [rep r].
  repeat (case_bool_decide; [by apply move_synced|]). done.
Qed.

Lemma menu_loop_returns frames : forall l u,
  synced l u ->
  returns_ok (menu_loop SCREEN_H title options allow_back allow_multi_controls
                frames l u).
Proof.
  induction frames as [|f frames IH]; intros l u H; [done|]. simpl.
  pose proof (turn_returns f l u H) as Hs.
  destruct (turn _ _ _ _ _ _ _ _); try done. by apply IH.
Qed.

End ReturnFacts.

(** X8.  What [menu_select] can return, when its parameter
    [multi_enabled] is left out or is the global flag (as in every call
    of the program): an element of [options] -- which, with the
    multi-select controls allowed and the mode on, can only be
    ["< Back"] --, or ["__BACK__"] and then [allow_back] holds, or
    ["__MULTI_START__"] and then the controls are allowed, the mode is
    on and the selection is not empty. *)
Theorem menu_select_returns SCREEN_H title options allow_back
    allow_multi_controls index offset multi frames u v u' :
  multi = None \/ multi = Some (multi_select_enabled (u_gl u)) ->
  menu_select SCREEN_H title options allow_back allow_multi_controls
    index offset multi frames u = Return v u' ->
  (v ∈ options
   /\ (allow_multi_controls = true -> multi_select_enabled (u_gl u') = true ->
       v = "< Back"))
  \/ (allow_back = true /\ v = "__BACK__")
  \/ (allow_multi_controls = true /\ v = "__MULTI_START__"
      /\ multi_select_enabled (u_gl u') = true
      /\ selected_results (u_gl u') <> ∅).
Proof.
  intros Hm Hr. unfold menu_select in Hr.
  pose proof (menu_loop_returns SCREEN_H title options allow_back
                allow_multi_controls frames
                (Locals index offset
                   (default (multi_select_enabled (u_gl u)) multi) new false) u)
    as H.
  rewrite Hr in H. apply H. red. simpl. by destruct Hm as [->| ->].
Qed.

(** *** The results menu and its keys *)

(** What a key of the results menu does depends on the globals
    only. *)
Lemma menu_key_globals k s1 s2 :
  Session.gl s1 = Session.gl s2 ->
  Session.gl (Session.menu_key k s1).1 = Session.gl (Session.menu_key k s2).1
  /\ (Session.menu_key k s1).2 = (Session.menu_key k s2).2.
Proof.
  intros H. destruct k as [label| | |]; unfold Session.menu_key; rewrite <- ?H.
  - destruct (multi_select_enabled _); [|done].
    destruct (String.eqb _ _); [done|].
    destruct (decide _); simpl; by rewrite H.
  - done.
  - simpl. destruct (_ && _)%bool; simpl; by rewrite H.
  - destruct (multi_select_enabled _); [|done]. by destruct (decide _).
Qed.

Lemma menu_select_globals keys : forall s1 s2,
  Session.gl s1 = Session.gl s2 ->
  Session.gl (Session.menu_select keys s1).1
  = Session.gl (Session.menu_select keys s2).1
  /\ (Session.menu_select keys s1).2 = (Session.menu_select keys s2).2.
Proof.
  induction keys as [|k keys IH]; intros s1 s2 H; [done|]. simpl.
  destruct (menu_key_globals k s1 s2 H) as [Hg Hr].
  destruct (Session.menu_key k s1) as [s1' [v1|]],
           (Session.menu_key k s2) as [s2' [v2|]]; simpl in *; try done.
  by apply IH.
Qed.

Lemma menu_select_keys_app ks1 ks2 s :
  (Session.menu_select ks1 s).2 = None ->
  Session.menu_select (ks1 ++ ks2) s
  = Session.menu_select ks2 (Session.menu_select ks1 s).1.
Proof.
  revert s. induction ks1 as [|k ks1 IH]; intros s H; [done|]. simpl in *.
  destruct (Session.menu_key k s) as [s' [v|]]; [done|]. by apply IH.
Qed.

Section KeyFacts.
Variable SCREEN_H : Z.
Variable title : string.
Variable options : list string.

Local Abbreviation keys_over := (MenuSpec.keys_over options).
Local Abbreviation played := (MenuSpec.played options).

Lemma played_nothing l u g0 : synced l u -> u_gl u = g0 -> played g0 (Next l u).
Proof. intros H <-. exists []. split; [constructor|]. done. Qed.

Lemma played_raise g0 e u : played g0 (Raise e u : outcome locals).
Proof. exists []. split; [constructor|done]. Qed.

Lemma played_key k l u o :
  synced l u ->
  (forall label, k = Session.Confirm label -> label ∈ options) ->
  match o with
  | Next l' u' =>
      synced l' u' /\ (Session.menu_key k (fg_of (u_gl u))).2 = None
      /\ Session.gl (Session.menu_key k (fg_of (u_gl u))).1 = u_gl u'
  | Return v u' =>
      (Session.menu_key k (fg_of (u_gl u))).2 = Some v
      /\ Session.gl (Session.menu_key k (fg_of (u_gl u))).1 = u_gl u'
  | _ => False
  end ->
  played (u_gl u) o.
Proof.
  intros Hs Hk H. exists [k]. split; [by apply Forall_singleton|]. simpl.
  destruct (Session.menu_key k (fg_of (u_gl u))) as [s' [v|]]; destruct o; naive_solver.
Qed.

Lemma move_played delta l u :
  synced l u -> played (u_gl u) (move options delta l u).
Proof.
  intros H. unfold move. destruct (py_mod _ _); [by apply played_nothing|].
  apply played_raise.
Qed.

Lemma press_move_played now d l u :
  synced l u -> played (u_gl u) (press_move options now d l u).
Proof.
  intros H. unfold press_move. destruct (press _ _ _) as [[] r].
  - by apply move_played.
  - by apply played_nothing.
Qed.

Lemma confirm_played l u :
  synced l u -> played (u_gl u) (confirm options true l u).
Proof.
  intros H. unfold confirm.
  destruct (py_index options (selected_index l)) as [label|] eqn:Hl;
    [|apply played_raise].
  apply py_index_elem_of in Hl.
  apply (played_key (Session.Confirm label) l); [done|by intros ? [= <-]|].
  pose proof H as Hs. red in H. simpl. rewrite <- H.
  destruct (multi_enabled l) eqn:Hm; [|done].
  destruct (String.eqb label "< Back") eqn:Hb.
  - unfold Session.BACK. rewrite Hb. apply String.eqb_eq in Hb as ->. done.
  - unfold Session.BACK. rewrite Hb.
    case_bool_decide; [rewrite decide_True by done|rewrite decide_False by done];
      simpl; done.
Qed.

Lemma toggle_multi_played msg l u :
  synced l u -> played (u_gl u) (toggle_multi msg l u).
Proof.
  intros H. unfold toggle_multi.
  apply (played_key Session.ToggleMulti l); [done|done|]. simpl.
  destruct (_ && _)%bool; simpl; done.
Qed.

Lemma start_batch_played l u :
  synced l u -> played (u_gl u) (start_batch l u).
Proof.
  intros H. unfold start_batch.
  apply (played_key Session.StartBatch l); [done|done|].
  pose proof H as Hs. red in H. simpl. rewrite <- H.
  destruct (multi_enabled l) eqn:Hm; [|done].
  case_bool_decide; [rewrite decide_True by done|rewrite decide_False by done]; done.
Qed.

Lemma leave_played l u : synced l u -> played (u_gl u) (Return "__BACK__" u : outcome locals).
Proof. intros H. by apply (played_key Session.Leave l). Qed.

Lemma handle_event_played now ev l u :
  synced l u ->
  played (u_gl u) (handle_event options true true now ev l u).
Proof.
  intros H. pose proof confirm_played. pose proof press_move_played.
  pose proof toggle_multi_played. pose proof start_batch_played.
  pose proof leave_played.
  assert (forall l' u', multi_enabled l' = multi_enabled l -> u_gl u' = u_gl u ->
            played (u_gl u) (Next l' u')) as Hsame.
  { intros l' u' Hl Hu. apply played_nothing; [|done]. red. rewrite Hl, Hu. done. }
  destruct ev as [|key|key|joy button|[button|]|joy [hat_x hat_y]|joy axis value|];
    simpl; auto.
  - exists []. split; [constructor|]. split; reflexivity.
  - destruct (bool_decide (key = K_RETURN \/ key = K_KP_ENTER)); [eauto|].
    destruct (bool_decide (key = K_ESCAPE)); [eauto|].
    destruct (bool_decide (key = K_UP \/ key = K_w)); [eauto|].
    destruct (bool_decide (key = K_DOWN \/ key = K_s)); [eauto|].
    destruct (bool_decide (key = K_l)); [eauto|].
    destruct (bool_decide (key = K_r)); eauto.
  - repeat (destruct (_ && _)%bool; [by apply Hsame|]). by apply Hsame.
  - pose proof (allow_gl now joy (Some button) u) as Hg.
    destruct (allow now joy (Some button) u) as [ok u1]. simpl in Hg.
    assert (synced l u1) as Hs1 by (red; by rewrite Hg).
    rewrite <- Hg.
    destruct ok; simpl; [|by apply played_nothing].
    destruct (_ =? SQUARE); [eauto|]. destruct (_ =? TRIANGLE); [eauto|].
    destruct (_ =? CROSS); [eauto|]. destruct (_ =? CIRCLE); [eauto|].
    destruct (_ =? DPAD_UP); [eauto|]. destruct (_ =? DPAD_DOWN); [eauto|].
    destruct (negb _); by apply played_nothing.
  - repeat (destruct (_ && _)%bool; [by apply Hsame|]). by apply Hsame.
  - pose proof (allow_gl now joy None u) as Hg.
    destruct (allow now joy None u) as [ok u1]. simpl in Hg.
    assert (synced l u1) as Hs1 by (red; by rewrite Hg).
    rewrite <- Hg.
    destruct ok; simpl; [|by apply played_nothing].
    destruct (_ =? 1); [eauto|]. destruct (_ =? -1); [eauto|].
    apply played_nothing; [|done]. unfold release_vertical. by case_bool_decide.
  - pose proof (allow_gl now joy None u) as Hg.
    destruct (allow now joy None u) as [ok u1]. simpl in Hg.
    assert (synced l u1) as Hs1 by (red; by rewrite Hg).
    rewrite <- Hg.
    destruct ok; simpl; [|by apply played_nothing].
    destruct (_ =? 1); [|by apply played_nothing].
    destruct (Qle_bool _ _); [eauto|]. destruct (Qle_bool _ _); [eauto|].
    apply played_nothing; [|done]. unfold release_vertical. by case_bool_decide.
Qed.

(** Keys after keys. *)
Lemma played_then g0 l u o :
  played g0 (Next l u) -> played (u_gl u) o -> played g0 o.
Proof.
  intros (ks1 & Hk1 & Hs & Hr1 & Hg1) (ks2 & Hk2 & H2).
  exists (ks1 ++ ks2). split; [by apply Forall_app|]. simpl in *.
  rewrite menu_select_keys_app by done.
  destruct (menu_select_globals ks2 (Session.menu_select ks1 (fg_of g0)).1
              (fg_of (u_gl u)) Hg1) as [Hg Hr].
  rewrite Hg, Hr. exact H2.
Qed.

Lemma handle_events_played evs : forall l u,
  synced l u -> played (u_gl u) (handle_events options true true evs l u).
Proof.
  induction evs as [|[now ev] evs IH]; intros l u H; [by apply played_nothing|].
  simpl. pose proof (handle_event_played now ev l u H) as Hp.
  destruct (handle_event _ _ _ _ _ _ _) as [l' u'| | |] eqn:He; try done.
  eapply played_then; [exact Hp|]. apply IH. by destruct Hp as (? & ? & ? & _).
Qed.

Lemma turn_played f l u :
  synced l u -> played (u_gl u) (turn SCREEN_H title options true true f l u).
Proof.
  intros H. unfold turn.
  assert (synced (adjust SCREEN_H l) u) as Ha.
  { unfold adjust. destruct (_ <? _); [done|]. by destruct (_ >=? _). }
  destruct (draw _ _ _ _ _ _ _); [|apply played_raise].
  pose proof (handle_events_played f.1 _ u Ha) as Hp.
  destruct (handle_events _ _ _ _ _ _) as [l' u'| | |]; try done.
  eapply played_then; [exact Hp|].
  assert (synced l' u') as Hs' by by destruct Hp as (? & ? & ? & _).
  unfold repeat. destruct (tick _ _) as [rep r].
  repeat (case_bool_decide; [by apply move_played|]). by apply played_nothing.
Qed.

Lemma menu_loop_played frames : forall l u,
  synced l u ->
  played (u_gl u) (menu_loop SCREEN_H title options true true frames l u).
Proof.
  induction frames as [|f frames IH]; intros l u H; [by apply played_nothing|].
  simpl. pose proof (turn_played f l u H) as Hp.
  destruct (turn _ _ _ _ _ _ _ _) as [l' u'| | |]; try done.
  eapply played_then; [exact Hp|]. apply IH. by destruct Hp as (? & ? & ? & _).
Qed.

End KeyFacts.

(** X9.  The results menu does to the globals what a sequence of the
    four keys -- confirm an option, leave, toggle the multi-select
    mode, start the batch -- does: whatever the events (keyboard,
    buttons, hat, axis) and the clock, when the call
    [menu_select("Results", display_items, allow_back=True,
    allow_multi_controls=True, selected_set=selected_results,
    multi_enabled=multi_select_enabled)] returns [v], some sequence of
    keys over the options makes [Session.menu_select] return [v] with
    the same globals ([u_gl]: those of the downloads, the selection
    and the platform); other events change none of these. *)
Theorem results_menu_plays_keys SCREEN_H title options index offset frames u v u' :
  menu_select SCREEN_H title options true true index offset
    (Some (multi_select_enabled (u_gl u))) frames u = Return v u' ->
  exists keys,
    Forall (fun k => forall label, k = Session.Confirm label -> label ∈ options)
      keys
    /\ (Session.menu_select keys (Session.Fg (u_gl u) [] [])).2 = Some v
    /\ Session.gl (Session.menu_select keys (Session.Fg (u_gl u) [] [])).1
       = u_gl u'.
Proof.
  intros Hr. unfold menu_select in Hr.
  pose proof (menu_loop_played SCREEN_H title options frames
                (Locals index offset (multi_select_enabled (u_gl u)) new false) u
                eq_refl) as (keys & Hk & H).
  simpl in Hr. rewrite Hr in H. by exists keys.
Qed.

End MenuTheory.

Module KeyboardTheory.
Import PyStr Input Menu Keyboard KeyboardSpec.
Import MenuTheory.

(** *** Strings *)

Lemma rstrip_by_idem p s : rstrip_by p (rstrip_by p s) = rstrip_by p s.
Proof.
  induction s as [|c s IH]; [done|]. simpl.
  destruct (rstrip_by p s) as [|c' r] eqn:Hr.
  - destruct (p c) eqn:Hc; [done|]. simpl. by rewrite Hc.
  - simpl. simpl in IH. rewrite IH. done.
Qed.

Lemma rstrip_by_head p c s :
  p c = false -> exists r, rstrip_by p (String c s) = String c r.
Proof.
  intros Hc. simpl. destruct (rstrip_by p s); [rewrite Hc|]; by eexists.
Qed.

Lemma lstrip_head s :
  lstrip s = "" \/ exists c r, lstrip s = String c r /\ is_space c = false.
Proof.
  induction s as [|c s IH]; [by left|]. simpl.
  destruct (is_space c) eqn:Hc; [done|]. right. by eexists _, _.
Qed.

(** [strip] leaves nothing to strip. *)
Lemma strip_idem s : strip (strip s) = strip s.
Proof.
  unfold strip. destruct (lstrip_head s) as [->|(c & r & -> & Hc)]; [done|].
  destruct (rstrip_by_head is_space c r Hc) as [r' Hr]. rewrite Hr.
  change (lstrip (String c r')) with (if is_space c then lstrip r' else String c r').
  rewrite Hc, <- Hr. apply rstrip_by_idem.
Qed.

Lemma typed_app a b : typed (a +:+ b) = (typed a && typed b)%bool.
Proof.
  induction a as [|c a IH]; [done|]. simpl. rewrite IH. by rewrite andb_assoc.
Qed.

Lemma typed_drop_last s : typed s = true -> typed (drop_last s) = true.
Proof.
  induction s as [|c s IH]; [done|]. simpl. intros [Hc Hs]%andb_prop.
  destruct s as [|c' s']; [done|]. simpl in *. rewrite Hc. by apply IH.
Qed.

Lemma typed_lstrip s : typed s = true -> typed (lstrip s) = true.
Proof.
  induction s as [|c s IH]; [done|]. simpl. intros [Hc Hs]%andb_prop.
  destruct (is_space c); [by apply IH|]. simpl. by rewrite Hc.
Qed.

Lemma typed_rstrip_by p s : typed s = true -> typed (rstrip_by p s) = true.
Proof.
  induction s as [|c s IH]; [done|]. simpl. intros [Hc Hs]%andb_prop.
  specialize (IH Hs). destruct (rstrip_by p s).
  - destruct (p c); [done|]. simpl. by rewrite Hc.
  - simpl in *. by rewrite Hc.
Qed.

Lemma typed_strip s : typed s = true -> typed (strip s) = true.
Proof. intros H. unfold strip. by apply typed_rstrip_by, typed_lstrip. Qed.

(** *** The cursor and the text *)

Lemma rows (row : Z) keys :
  0 <= row -> VIRTUAL_KEYS !! Z.to_nat row = Some keys ->
  row < 5 /\ (length keys = 10%nat \/ length keys = 3%nat)
  /\ py_index VIRTUAL_KEYS row = Some keys
  /\ row_length row = Some (Z.of_nat (length keys)).
Proof.
  intros H0 Hk. pose proof (lookup_lt_Some _ _ _ Hk) as Hlt. simpl in Hlt.
  assert (py_index VIRTUAL_KEYS row = Some keys) as Hp.
  { unfold py_index. destruct (Z.leb_spec 0 row); [done|lia]. }
  split; [lia|]. split.
  - destruct (Z.to_nat row) as [|[|[|[|[|n]]]]]; simpl in Hk; try lia;
      injection Hk as <-; auto.
  - split; [done|]. unfold row_length. by rewrite Hp.
Qed.

Lemma row_exists (row : Z) :
  0 <= row < 5 -> exists keys, VIRTUAL_KEYS !! Z.to_nat row = Some keys
                               /\ (length keys = 10%nat \/ length keys = 3%nat).
Proof.
  intros H. destruct (lookup_lt_is_Some_2 VIRTUAL_KEYS (Z.to_nat row)) as [keys Hk];
    [simpl; lia|].
  exists keys. split; [done|]. by destruct (rows row keys) as (_ & ? & _); [lia|done|].
Qed.

Lemma move_cursor_well_formed d l :
  well_formed l -> exists l', move_cursor d l = Some l' /\ well_formed l'
                              /\ input_text l' = input_text l.
Proof.
  intros [(keys & Hr & Hk & Hc) Ht].
  destruct (rows _ _ Hr Hk) as (Hr5 & Hlen & Hp & Hn).
  unfold move_cursor.
  destruct (String.eqb d "up").
  { destruct (row_exists (Z.max (selected_row l - 1) 0)) as (keys' & Hk' & Hlen');
      [lia|].
    destruct (rows (Z.max (selected_row l - 1) 0) keys' ltac:(lia) Hk')
      as (_ & _ & _ & ->). simpl.
    eexists. split; [done|]. split; [|done]. split; [|done].
    exists keys'. simpl. split; [lia|]. split; [done|]. lia. }
  destruct (String.eqb d "down").
  { destruct (row_exists (Z.min (selected_row l + 1)
                            (Z.of_nat (length VIRTUAL_KEYS) - 1)))
      as (keys' & Hk' & Hlen'); [simpl; lia|].
    destruct (rows (Z.min (selected_row l + 1)
                      (Z.of_nat (length VIRTUAL_KEYS) - 1)) keys'
                ltac:(simpl; lia) Hk') as (_ & _ & _ & ->). simpl.
    eexists. split; [done|]. split; [|done]. split; [|done].
    exists keys'. simpl. split; [lia|]. split; [done|]. lia. }
  destruct (String.eqb d "left").
  { eexists. split; [done|]. split; [|done]. split; [|done].
    exists keys. simpl. split; [lia|]. split; [done|]. lia. }
  destruct (String.eqb d "right").
  { rewrite Hn. simpl.
    eexists. split; [done|]. split; [|done]. split; [|done].
    exists keys. simpl. split; [lia|]. split; [done|]. lia. }
  exists l. split; [done|]. split; [|done]. split; [by exists keys|done].
Qed.

Lemma moved_safe d l u : well_formed l -> safe (u_gl u) (moved d l u).
Proof.
  intros H. unfold moved.
  destruct (move_cursor_well_formed d l H) as (l' & -> & H' & _). done.
Qed.

Lemma set_v_well_formed r l : well_formed l -> well_formed (set_v r l).
Proof. done. Qed.

Lemma set_h_well_formed r l : well_formed l -> well_formed (set_h r l).
Proof. done. Qed.

Lemma press_v_safe now d l u : well_formed l -> safe (u_gl u) (press_v now d l u).
Proof.
  intros H. unfold press_v. destruct (press _ _ _) as [[] r]; [|done].
  by apply moved_safe.
Qed.

Lemma press_h_safe now d l u : well_formed l -> safe (u_gl u) (press_h now d l u).
Proof.
  intros H. unfold press_h. destruct (press _ _ _) as [[] r]; [|done].
  by apply moved_safe.
Qed.

(** Every key is a key character, or one of the three words. *)
Lemma keys_typed keys key :
  keys ∈ VIRTUAL_KEYS -> key ∈ keys ->
  key = "ENTER" \/ key = "BACK" \/ key = "SPACE" \/ typed key = true.
Proof.
  intros Hks Hk.
  assert (forallb (forallb (fun key =>
            String.eqb key "ENTER" || String.eqb key "BACK"
            || String.eqb key "SPACE" || typed key)) VIRTUAL_KEYS = true) as H
    by reflexivity.
  rewrite forallb_forall in H. apply list_elem_of_In in Hks, Hk.
  specialize (H _ Hks). rewrite forallb_forall in H. specialize (H _ Hk).
  repeat (apply orb_prop in H as [H|H]); try apply String.eqb_eq in H; auto.
Qed.

Lemma select_key_safe l u : well_formed l -> safe (u_gl u) (select_key l u).
Proof.
  intros [(keys & Hr & Hk & Hc) Ht].
  destruct (rows _ _ Hr Hk) as (_ & _ & Hp & _).
  unfold select_key. rewrite Hp.
  destruct (py_index_in_range keys (selected_col l) Hc) as (key & -> & Hkey).
  assert (on_key l) as Hon by by exists keys.
  destruct (String.eqb_spec key "ENTER").
  { split; [|done]. right. split; [by apply typed_strip|apply strip_idem]. }
  destruct (String.eqb_spec key "BACK").
  { split; [|done]. split; [done|]. simpl. by apply typed_drop_last. }
  destruct (String.eqb_spec key "SPACE").
  { split; [|done]. split; [done|]. simpl. by rewrite typed_app, Ht. }
  split; [|done]. split; [done|]. simpl. rewrite typed_app, Ht.
  destruct (keys_typed keys key) as [?|[?|[?|?]]]; try done.
  - by apply list_elem_of_lookup_2 in Hk.
  - by apply list_elem_of_lookup_2 in Hkey.
Qed.

Lemma key_event_safe now ev l u :
  well_formed l -> safe (u_gl u) (handle_event now ev l u).
Proof.
  intros H. pose proof press_v_safe. pose proof press_h_safe.
  pose proof select_key_safe.
  assert (well_formed (set_text (drop_last (input_text l)) l)) as Hd.
  { destruct H as [Hon Ht]. split; [done|]. simpl. by apply typed_drop_last. }
  destruct ev as [|key|key|joy button|[button|]|joy [hat_x hat_y]|joy axis value|];
    simpl; try done.
  - destruct (bool_decide (key = K_RETURN \/ key = K_KP_ENTER)).
    { split; [|done]. right. destruct H as [_ Ht].
      split; [by apply typed_strip|apply strip_idem]. }
    destruct (bool_decide (key = K_BACKSPACE)); [done|].
    repeat (destruct (bool_decide (_ \/ _)); [auto|]). done.
  - repeat (destruct (_ && _)%bool; [done|]). done.
  - pose proof (allow_gl now joy (Some button) u) as Hg.
    destruct (allow now joy (Some button) u) as [ok u1]. simpl in Hg.
    rewrite <- Hg. destruct ok; simpl; [|done].
    destruct (_ =? 0); [auto|]. destruct (_ =? 1); [by split; [left|]|].
    repeat (destruct (_ =? _); [auto|]). done.
  - repeat (destruct (_ && _)%bool; [done|]). done.
  - pose proof (allow_gl now joy None u) as Hg.
    destruct (allow now joy None u) as [ok u1]. simpl in Hg.
    rewrite <- Hg. destruct ok; simpl; [|done].
    assert (safe (u_gl u1)
              (if hat_y =? 1 then press_v now "up" l u1
               else if hat_y =? -1 then press_v now "down" l u1
               else Next (set_v (release_if "up" "down" (v_rep l)) l) u1)) as Hv.
    { repeat (destruct (_ =? _); [auto|]). done. }
    destruct (if hat_y =? 1 then _ else _) as [l2 u2| | |]; try done.
    destruct Hv as [Hl2 <-].
    repeat (destruct (_ =? _); [auto|]). done.
  - pose proof (allow_gl now joy None u) as Hg.
    destruct (allow now joy None u) as [ok u1]. simpl in Hg.
    rewrite <- Hg. destruct ok; simpl; [|done].
    destruct (_ =? 1).
    { repeat (destruct (Qle_bool _ _); [auto|]). done. }
    destruct (_ =? 0); [|done].
    repeat (destruct (Qle_bool _ _); [auto|]). done.
Qed.

Lemma key_events_safe evs : forall l u,
  well_formed l -> safe (u_gl u) (handle_events evs l u).
Proof.
  induction evs as [|[now ev] evs IH]; intros l u H; [done|]. simpl.
  pose proof (key_event_safe now ev l u H) as Hs.
  destruct (handle_event now ev l u) as [l' u'| | |]; try done.
  destruct Hs as [Hl' <-]. by apply IH.
Qed.

Lemma key_repeat_safe now_v now_h l u :
  well_formed l -> safe (u_gl u) (repeat now_v now_h l u).
Proof.
  intros H. unfold repeat. destruct (tick now_v (v_rep l)) as [rep_v r].
  assert (safe (u_gl u)
            (if truthy rep_v then moved (default "" rep_v) (set_v r l) u
             else Next (set_v r l) u)) as Hv.
  { destruct (truthy rep_v); [by apply moved_safe|done]. }
  destruct (if truthy rep_v then _ else _) as [l2 u2| | |]; try done.
  destruct Hv as [Hl2 <-].
  destruct (tick now_h (h_rep l2)) as [rep_h r'].
  destruct (truthy rep_h); [by apply moved_safe|done].
Qed.

Lemma keyboard_loop_safe frames : forall l u,
  well_formed l -> safe (u_gl u) (keyboard_loop frames l u).
Proof.
  induction frames as [|f frames IH]; intros l u H; [done|]. simpl.
  assert (safe (u_gl u) (turn f l u)) as Hs.
  { unfold turn. pose proof (key_events_safe f.1 l u H) as Hs.
    destruct (handle_events f.1 l u) as [l1 u1| | |]; try done.
    destruct Hs as [Hl1 <-]. by apply key_repeat_safe. }
  destruct (turn f l u) as [l' u'| | |]; try done.
  destruct Hs as [Hl' <-]. by apply IH.
Qed.

(** *** What the keyboard writes *)

Lemma allow_all_app cs1 cs2 s :
  (allow_all (cs1 ++ cs2) s).2 = (allow_all cs2 (allow_all cs1 s).2).2.
Proof.
  revert s. induction cs1 as [|[[now joy] b] cs1 IH]; intros s; [done|].
  simpl. destruct (_allow_joy now joy b s) as [ok s1].
  specialize (IH s1). destruct (allow_all (cs1 ++ cs2) s1) as [oks s2].
  destruct (allow_all cs1 s1) as [oks1 s3]. simpl in *. done.
Qed.

Lemma filtered_refl u : filtered u [] u.
Proof. done. Qed.

Lemma filtered_trans u cs1 u1 cs2 u2 :
  filtered u cs1 u1 -> filtered u1 cs2 u2 -> filtered u (cs1 ++ cs2) u2.
Proof.
  intros [H1 H2] [H3 H4]. split; [|congruence].
  by rewrite allow_all_app, <- H1.
Qed.

Lemma allow_filtered now joy b u :
  filtered u [(now, joy, b)] (allow now joy b u).2.
Proof.
  unfold allow, filtered. simpl.
  by destruct (_allow_joy now joy b (u_joy u)).
Qed.

Lemma moved_state d l u : state_of (moved d l u) = u.
Proof. unfold moved. by destruct (move_cursor d l). Qed.

Lemma press_v_state now d l u : state_of (press_v now d l u) = u.
Proof.
  unfold press_v. destruct (press now d (v_rep l)) as [[|] r];
    [apply moved_state|done].
Qed.

Lemma press_h_state now d l u : state_of (press_h now d l u) = u.
Proof.
  unfold press_h. destruct (press now d (h_rep l)) as [[|] r];
    [apply moved_state|done].
Qed.

Lemma select_key_state l u : state_of (select_key l u) = u.
Proof.
  unfold select_key. destruct (py_index _ _); [|done].
  destruct (py_index _ _); [|done]. by repeat destruct (String.eqb _ _).
Qed.

(** The handling of an event makes the call of [_allow_joy] that
    [allow_call] names, and writes nothing else. *)
Lemma handle_event_filtered now ev l u :
  filtered u (allow_call now ev) (state_of (handle_event now ev l u)).
Proof.
  destruct ev as [|key|key|joy button|[button|]|joy [hx hy]|joy axis value|];
    simpl.
  - done.
  - repeat (case_bool_decide;
            [first [done|by rewrite press_v_state|by rewrite press_h_state]|]).
    done.
  - by repeat destruct (_ && _)%bool.
  - pose proof (allow_filtered now joy (Some button) u) as H.
    destruct (allow now joy (Some button) u) as [ok u1]. simpl in H.
    destruct ok; simpl; [|done].
    repeat (destruct (_ =? _);
            [first [done|by rewrite select_key_state|by rewrite press_v_state
                   |by rewrite press_h_state]|]).
    done.
  - by repeat destruct (_ && _)%bool.
  - done.
  - pose proof (allow_filtered now joy None u) as H.
    destruct (allow now joy None u) as [ok u1]. simpl in H.
    destruct ok; simpl; [|done].
    assert (forall o : outcome locals,
              state_of o = u1 ->
              filtered u [(now, joy, None)]
                (state_of
                   match o with
                   | Next l0 u0 =>
                       if hx =? -1 then press_h now "left" l0 u0
                       else if hx =? 1 then press_h now "right" l0 u0
                       else Next (set_h (release_if "left" "right" (h_rep l0)) l0) u0
                   | r => r
                   end)) as Hh.
    { intros [l0 u0|v u0|u0|e u0] Hu; simpl in Hu; subst u0; try done.
      repeat (destruct (_ =? _); [by rewrite press_h_state|]). done. }
    apply Hh. repeat (destruct (hy =? _); [apply press_v_state|]). done.
  - pose proof (allow_filtered now joy None u) as H.
    destruct (allow now joy None u) as [ok u1]. simpl in H.
    destruct ok; simpl; [|done].
    destruct (axis =? 1).
    { repeat (destruct (Qle_bool _ _); [by rewrite press_v_state|]). done. }
    destruct (axis =? 0); [|done].
    repeat (destruct (Qle_bool _ _); [by rewrite press_h_state|]). done.
  - done.
Qed.

Lemma handle_events_filtered evs : forall l u,
  exists cs,
    cs `prefix_of` (evs ≫= fun e => allow_call e.1 e.2)
    /\ filtered u cs (state_of (handle_events evs l u))
    /\ (forall l' u', handle_events evs l u = Next l' u' ->
          cs = evs ≫= fun e => allow_call e.1 e.2).
Proof.
  induction evs as [|[now ev] evs IH]; intros l u.
  { exists []. by repeat split. }
  rewrite bind_cons. cbn [handle_events fst snd].
  pose proof (handle_event_filtered now ev l u) as H.
  destruct (handle_event now ev l u) as [l1 u1|v u1|u1|e u1]; simpl in H.
  - destruct (IH l1 u1) as (cs & Hp & Hf & Hn).
    exists (allow_call now ev ++ cs). split; [by apply prefix_app|].
    split; [by eapply filtered_trans|].
    intros l' u' Hr. by rewrite (Hn _ _ Hr).
  - exists (allow_call now ev). split; [by apply prefix_app_r|]. by split.
  - exists (allow_call now ev). split; [by apply prefix_app_r|]. by split.
  - exists (allow_call now ev). split; [by apply prefix_app_r|]. by split.
Qed.

Lemma repeat_state now_v now_h l u : state_of (repeat now_v now_h l u) = u.
Proof.
  unfold repeat. destruct (tick now_v (v_rep l)) as [rep_v r]. cbv zeta.
  match goal with |- state_of (match ?o0 with _ => _ end) = _ =>
    assert (state_of o0 = u) as Ho
      by (destruct (truthy rep_v); [apply moved_state|done]);
    destruct o0 as [l2 u2|v u2|u2|e u2]
  end; simpl in Ho; subst u2; try done.
  destruct (tick now_h (h_rep l2)) as [rep_h r'].
  destruct (truthy rep_h); [apply moved_state|done].
Qed.

Lemma keyboard_loop_filtered frames : forall l u,
  exists cs,
    cs `prefix_of` allow_calls frames
    /\ filtered u cs (state_of (keyboard_loop frames l u))
    /\ (forall l' u', keyboard_loop frames l u = Next l' u' ->
          cs = allow_calls frames).
Proof.
  unfold allow_calls.
  induction frames as [|f frames IH]; intros l u.
  { exists []. by repeat split. }
  rewrite bind_cons. cbn [keyboard_loop]. unfold turn.
  destruct (handle_events_filtered f.1 l u) as (cs1 & Hp1 & Hf1 & Hn1).
  destruct (handle_events f.1 l u) as [l1 u1|v u1|u1|e u1] eqn:He;
    simpl in Hf1.
  - rewrite (Hn1 _ _ eq_refl) in Hf1.
    pose proof (repeat_state f.2.1 f.2.2 l1 u1) as Hr.
    destruct (repeat f.2.1 f.2.2 l1 u1) as [l2 u2|v u2|u2|e u2];
      simpl in Hr; subst u2.
    + destruct (IH l2 u1) as (cs & Hp & Hf & Hn).
      exists ((f.1 ≫= fun e => allow_call e.1 e.2) ++ cs).
      split; [by apply prefix_app|]. split; [by eapply filtered_trans|].
      intros l' u' Hr. by rewrite (Hn _ _ Hr).
    + exists (f.1 ≫= fun e => allow_call e.1 e.2).
      split; [by apply prefix_app_r|]. split; [exact Hf1|done].
    + exists (f.1 ≫= fun e => allow_call e.1 e.2).
      split; [by apply prefix_app_r|]. split; [exact Hf1|done].
    + exists (f.1 ≫= fun e => allow_call e.1 e.2).
      split; [by apply prefix_app_r|]. split; [exact Hf1|done].
  - exists cs1. split; [by apply prefix_app_r|]. by split.
  - exists cs1. split; [by apply prefix_app_r|]. by split.
  - exists cs1. split; [by apply prefix_app_r|]. by split.
Qed.

(** X10.  The on-screen keyboard never fails and leaves the state
    globals of the program alone: whatever the events and the clock,
    [virtual_keyboard_input] raises no [IndexError] at
    [VIRTUAL_KEYS[selected_row][selected_col]], the cursor stays on a
    key of the layout, the text holds key characters only (A-Z, 0-9,
    [-], [_], [.], [<] and the space); the globals of the downloads,
    of the selection and of the platform -- [stop_download] included,
    also when the window is closed: the assignment there is to a local
    -- are as they were; [show_notification] is not called; and
    [PRIMARY_JOY_ID] and [_last_button_time], which the keyboard does
    write, are what the calls of [_allow_joy] for the joystick events
    handled, in order, make of them.  (The queue of notifications,
    which [draw_notifications] prunes, is not part of the state
    followed here.) *)
Theorem keyboard_never_raises frames u :
  match virtual_keyboard_input frames u with
  | Raise _ _ => False
  | Next l u' =>
      (exists keys key,
         py_index VIRTUAL_KEYS (selected_row l) = Some keys
         /\ py_index keys (selected_col l) = Some key)
      /\ typed (input_text l) = true /\ u_gl u' = u_gl u
      /\ u_notes u' = u_notes u
      /\ u_joy u' = (allow_all (allow_calls frames) (u_joy u)).2
  | Return _ u' | Exit u' =>
      u_gl u' = u_gl u /\ u_notes u' = u_notes u
      /\ exists cs, cs `prefix_of` allow_calls frames
           /\ u_joy u' = (allow_all cs (u_joy u)).2
  end.
Proof.
  pose proof (keyboard_loop_safe frames (Locals "" 0 0 new new) u) as H.
  destruct (keyboard_loop_filtered frames (Locals "" 0 0 new new) u)
    as (cs & Hp & [Hj Hn] & Hall).
  unfold virtual_keyboard_input.
  assert (well_formed (Locals "" 0 0 new new)) as Hwf.
  { split; [|done]. exists (chars "ABCDEFGHIJ"). by simpl. }
  destruct (keyboard_loop _ _ _) as [l u'|v u'|u'|e u']; simpl in Hj, Hn.
  - destruct H as [[(keys & Hr & Hk & Hc) Ht] Hg]; [done|].
    split; [|split; [done|split; [done|split; [done|]]]].
    + destruct (rows _ _ Hr Hk) as (_ & _ & Hpi & _).
      destruct (py_index_in_range keys (selected_col l) Hc) as (key & Hkey & _).
      by exists keys, key.
    + by rewrite <- (Hall _ _ eq_refl).
  - split; [by apply H|]. split; [done|]. by exists cs.
  - split; [by apply H|]. split; [done|]. by exists cs.
  - by apply H.
Qed.

(** X11.  What the on-screen keyboard returns: ["__BACK__"], or a text
    of key characters that [strip] leaves as it is: the query has no
    white space at its ends, and no lower-case letter. *)
Theorem keyboard_returns_stripped_text frames u v u' :
  virtual_keyboard_input frames u = Return v u' ->
  v = "__BACK__" \/ (typed v = true /\ strip v = v).
Proof.
  intros Hr.
  pose proof (keyboard_loop_safe frames (Locals "" 0 0 new new) u) as H.
  unfold virtual_keyboard_input in Hr. rewrite Hr in H. apply H.
  split; [|done]. exists (chars "ABCDEFGHIJ"). by simpl.
Qed.

(** *** Taking a key back *)




End KeyboardTheory.

Module RenderTheory.
Import PyStr Menu Render RenderSpec.

(** *** [split] *)

Lemma split_aux_words s :
  Forall (fun w => word w = true) (split_aux s).2 /\ no_space (split_aux s).1 = true.
Proof.
  induction s as [|c s [IH1 IH2]]; [by split|]. simpl.
  destruct (split_aux s) as [w ws]. simpl in *.
  destruct (is_space c) eqn:Hc; simpl.
  - split; [|done]. unfold cons_word.
    destruct (String.eqb_spec w ""); [done|]. constructor; [|done].
    unfold word. rewrite IH2. by destruct (String.eqb_spec w "").
  - split; [done|]. by rewrite Hc.
Qed.

(** What [split] returns are words. *)
Lemma split_words s : Forall (fun w => word w = true) (split s).
Proof.
  unfold split. pose proof (split_aux_words s) as [H1 H2].
  destruct (split_aux s) as [w ws]. simpl in *. unfold cons_word.
  destruct (String.eqb_spec w ""); [done|]. constructor; [|done].
  unfold word. rewrite H2. by destruct (String.eqb_spec w "").
Qed.

Lemma split_aux_word w :
  no_space w = true -> split_aux w = (w, []).
Proof.
  induction w as [|c w IH]; [done|]. simpl. intros [Hc Hw]%andb_prop.
  rewrite (IH Hw). by destruct (is_space c).
Qed.

Lemma split_word w : word w = true -> split w = [w].
Proof.
  unfold word. intros [Hne Hw]%andb_prop. unfold split.
  rewrite split_aux_word by done. unfold cons_word.
  destruct (String.eqb w "") eqn:E; done.
Qed.

Lemma split_aux_app_space a b :
  split_aux (a +:+ " " +:+ b)
  = ((split_aux a).1, (split_aux a).2 ++ split b).
Proof.
  induction a as [|c a IH].
  - simpl. change ("" +:+ b) with b. unfold split. by destruct (split_aux b).
  - change (String c a +:+ " " +:+ b) with (String c (a +:+ " " +:+ b)).
    simpl. rewrite IH. destruct (split_aux a) as [w ws]. simpl.
    destruct (is_space c); [|done]. f_equal. unfold cons_word.
    by destruct (String.eqb w "").
Qed.

Lemma split_app_space a b : split (a +:+ " " +:+ b) = split a ++ split b.
Proof.
  unfold split at 1 2. rewrite split_aux_app_space.
  destruct (split_aux a) as [w ws]. simpl. unfold cons_word.
  by destruct (String.eqb w "").
Qed.

(** *** The word wrap *)

Section WrapFacts.
Variable size : string -> Z.

Local Abbreviation line_ok := (RenderSpec.line_ok size).

Lemma wrap_loop_spec words : forall lines current,
  Forall (fun w => word w = true) words ->
  Forall line_ok lines ->
  (current = "" \/ line_ok current) ->
  let r := wrap_loop size words lines current in
  Forall line_ok r.1
  /\ (r.2 = "" \/ line_ok r.2)
  /\ ((lines ++ [current]) ≫= split) ++ words = (r.1 ++ [r.2]) ≫= split
  /\ (words <> [] -> r.2 <> "").
Proof.
  induction words as [|w words IH]; intros lines current Hw Hl Hc r.
  - simpl in r. unfold r. simpl. by rewrite app_nil_r.
  - apply Forall_cons in Hw as [Hw Hws]. pose proof (split_word _ Hw) as Hsw.
    assert (w <> "") as Hne.
    { intros ->. done. }
    unfold r. simpl.
    set (test_line := current +:+ (if String.eqb current "" then "" else " ") +:+ w).
    assert (split test_line = split current ++ [w]) as Htest.
    { unfold test_line. destruct (String.eqb_spec current "") as [->|Hcur].
      - done.
      - by rewrite split_app_space, Hsw. }
    assert (test_line <> "") as Htne.
    { intros H. rewrite H in Htest. by destruct (split current). }
    destruct (Z.ltb_spec (size test_line) (notification_width - 20)).
    + destruct (IH lines test_line Hws Hl) as (H1 & H2 & H3 & H4).
      { right. split; [|by left]. rewrite Htest. by destruct (split current). }
      split; [done|]. split; [done|]. split.
      * rewrite <- H3. rewrite !bind_app. simpl. rewrite !app_nil_r, Htest.
        by rewrite <- !app_assoc.
      * intros _. destruct words as [|w' words']; [done|]. by apply H4.
    + destruct (IH (if String.eqb current "" then lines else lines ++ [current])
                  w Hws) as (H1 & H2 & H3 & H4).
      { destruct (String.eqb_spec current ""); [done|].
        apply Forall_app. split; [done|]. apply Forall_singleton.
        by destruct Hc. }
      { right. split; [by rewrite Hsw|]. right. by exists w. }
      split; [done|]. split; [done|]. split.
      * rewrite <- H3. destruct (String.eqb_spec current "") as [->|Hcur].
        -- rewrite !bind_app. simpl. rewrite !app_nil_r, Hsw.
           by rewrite <- !app_assoc.
        -- rewrite !bind_app. simpl. rewrite !app_nil_r, Hsw.
           by rewrite <- !app_assoc.
      * intros _. destruct words as [|w' words']; [done|]. by apply H4.
Qed.

End WrapFacts.

(** X12.  The word wrap of a notification loses nothing and breaks
    where it must: whatever the widths the font gives, the words of the
    lines, in order, are the words of the message; no line is empty; and
    every line is narrower than the 380 pixels of the box or is one
    single word. *)
Theorem wrap_keeps_the_words size message :
  wrap size message ≫= split = split message
  /\ Forall (fun line =>
       split line <> []
       /\ (size line < notification_width - 20
           \/ exists w, split line = [w] /\ line = w))
       (wrap size message).
Proof.
  unfold wrap.
  destruct (wrap_loop_spec size (split message) [] ""
              (split_words message) (Forall_nil_2 _) (or_introl eq_refl))
    as (H1 & H2 & H3 & H4).
  destruct (wrap_loop size (split message) [] "") as [lines current].
  simpl in *. destruct (String.eqb_spec current "") as [->|Hne].
  - split; [|done]. rewrite H3, bind_app. simpl. by rewrite app_nil_r.
  - split; [by rewrite H3|]. apply Forall_app. split; [done|].
    apply Forall_singleton. by destruct H2.
Qed.

(** *** The boxes of the notifications *)

Section BoxFacts.
Variable size : string -> Z.
Variable SCREEN_W : Z.

Lemma place_lines_spec x y lines i line tx ty :
  place_lines x y lines !! i = Some (line, (tx, ty)) ->
  (i < 3)%nat /\ lines !! i = Some line /\ tx = x + 10
  /\ ty = y + 10 + Z.of_nat i * 25.
Proof.
  unfold place_lines. rewrite list_lookup_imap.
  destruct (take 3 lines !! i) as [l0|] eqn:Hl; [|done]. simpl.
  intros [= <- <- <-]. apply lookup_take_Some in Hl as [Hl Hi]. done.
Qed.

Lemma draw_boxes_spec now snapshot : forall y_offset i bx,
  draw_boxes size SCREEN_W now snapshot y_offset !! i = Some bx ->
  exists n,
    filter (fun n => Bus.is_expired now n = false) snapshot !! i = Some n
    /\ bx = Box (SCREEN_W - notification_width - margin)
                (y_offset + Z.of_nat i * (notification_height + 10))
                (Bus.get_alpha now n) (bg_color (Bus.type n))
                (place_lines (SCREEN_W - notification_width - margin)
                   (y_offset + Z.of_nat i * (notification_height + 10))
                   (wrap size (Bus.message n))).
Proof.
  induction snapshot as [|n snapshot IH]; intros y_offset i bx; [done|]. simpl.
  destruct (Bus.is_expired now n) eqn:He.
  - rewrite filter_cons_False by by rewrite He. apply IH.
  - rewrite filter_cons_True by done. destruct i as [|i]; simpl.
    + intros [= <-]. exists n. split; [done|].
      by replace (y_offset + Z.of_nat 0 * (notification_height + 10))
        with y_offset by lia.
    + intros H. destruct (IH _ _ _ H) as (n' & Hn' & ->). exists n'.
      split; [done|].
      by replace (y_offset + (notification_height + 10)
                  + Z.of_nat i * (notification_height + 10))
        with (y_offset + Z.of_nat (S i) * (notification_height + 10)) by lia.
Qed.

Lemma draw_boxes_length now snapshot : forall y_offset,
  length (draw_boxes size SCREEN_W now snapshot y_offset)
  = length (filter (fun n => Bus.is_expired now n = false) snapshot).
Proof.
  induction snapshot as [|n snapshot IH]; intros y_offset; [done|]. simpl.
  destruct (Bus.is_expired now n) eqn:He.
  - rewrite filter_cons_False by by rewrite He. apply IH.
  - rewrite filter_cons_True by done. simpl. by rewrite IH.
Qed.

End BoxFacts.

(** X13.  The notifications are stacked in the order of the queue:
    [draw_notifications] draws one box for each notification that is
    not expired -- those of the render snapshot, with the same alpha
    --, the [i]-th of them at [(SCREEN_W - 420, 20 + 90 i)], in the
    colour of its type; a box shows at most the first three lines of
    the wrapped message, 10 right of its left edge, 25 apart, starting
    10 below its top and ending no more than 60 below it. *)
Theorem notification_boxes_are_stacked size SCREEN_W now b :
  let boxes := (draw_notifications size SCREEN_W now b).1 in
  length boxes = length (Bus.drawn now b)
  /\ forall i bx,
       boxes !! i = Some bx ->
       exists n,
         Bus.drawn now b !! i = Some (n, box_alpha bx)
         /\ box_x bx = SCREEN_W - 420
         /\ box_y bx = 20 + 90 * Z.of_nat i
         /\ box_color bx = bg_color (Bus.type n)
         /\ (box_text bx).*1 = take 3 (wrap size (Bus.message n))
         /\ forall j line tx ty,
              box_text bx !! j = Some (line, (tx, ty)) ->
              tx = box_x bx + 10 /\ ty = box_y bx + 10 + 25 * Z.of_nat j
              /\ ty <= box_y bx + 60.
Proof.
  intros boxes. unfold boxes, draw_notifications, Bus.drawn. simpl. split.
  - by rewrite draw_boxes_length, length_fmap.
  - intros i bx Hbx.
    destruct (draw_boxes_spec _ _ _ _ _ _ _ Hbx) as (n & Hn & ->). simpl.
    exists n. rewrite list_lookup_fmap, Hn. simpl.
    unfold notification_width, margin, notification_height.
    split; [done|]. split; [lia|]. split; [lia|]. split; [done|]. split.
    + unfold place_lines. rewrite fmap_imap.
      clear. generalize (take 3 (wrap size (Bus.message n))).
      intros l. apply list_eq. intros k. rewrite list_lookup_imap.
      by destruct (l !! k).
    + intros j line tx ty Hj.
      apply place_lines_spec in Hj as (Hj3 & _ & -> & ->). lia.
Qed.

(** X14.  A notification fades out in its last two seconds: for a
    notification with the lifetime of the class, the alpha is 255 up to
    8 s after its creation, then falls (never rising) and is 0 when the
    lifetime ends; as long as the notification is not expired it is
    between 0 and 255. *)
Theorem alpha_fades_out n now1 now2 :
  Bus.lifetime n = Bus.LIFETIME ->
  Bus.created_at n <= now1 <= now2 ->
  now2 - Bus.created_at n <= Bus.LIFETIME ->
  0 <= Bus.get_alpha now2 n <= Bus.get_alpha now1 n
  /\ Bus.get_alpha now1 n <= 255
  /\ (now1 - Bus.created_at n <= 8000 -> Bus.get_alpha now1 n = 255)
  /\ (now2 - Bus.created_at n = Bus.LIFETIME -> Bus.get_alpha now2 n = 0).
Proof.
  unfold Bus.get_alpha, Bus.LIFETIME. intros -> H1 H2.
  assert (forall e, 8000 < e <= 10000 ->
            0 <= Z.quot (255 * (10000 - e)) 2000 <= 255) as Hq.
  { intros e He. split; [apply Z.quot_pos; lia|].
    apply Z.quot_le_upper_bound; lia. }
  repeat split.
  - destruct (Z.gtb_spec (now2 - Bus.created_at n) (10000 - 2000)); [|lia].
    apply Hq. lia.
  - destruct (Z.gtb_spec (now2 - Bus.created_at n) (10000 - 2000)),
             (Z.gtb_spec (now1 - Bus.created_at n) (10000 - 2000)); try lia.
    + apply Z.quot_le_mono; lia.
    + apply Hq. lia.
  - destruct (Z.gtb_spec (now1 - Bus.created_at n) (10000 - 2000)); [|lia].
    apply Hq. lia.
  - intros H. destruct (Z.gtb_spec (now1 - Bus.created_at n) (10000 - 2000)); lia.
  - intros ->. reflexivity.
Qed.

(** *** The time left *)

Lemma int_inject (z : Z) : int (inject_Z z) = z.
Proof. unfold int. destruct (Qle_bool 0 (inject_Z z)); [apply Qfloor_Z|apply Qceiling_Z]. Qed.

(** X15.  [format_eta] shows a duration in its two largest units and
    never overstates it: for a number of seconds that is not negative,
    cut to the whole number [s], the text is [s] seconds below one
    minute; minutes and seconds that add up to [s] below one hour; hours
    and minutes that fall short of [s] by less than a minute below one
    day; and days and hours that fall short of [s] by less than an hour
    from then on -- the smaller field always below 60, 60 and 24. *)
Theorem format_eta_is_truncated seconds :
  (0 <= seconds)%Q ->
  let s := int seconds in
  0 <= s
  /\ ((s < 60 /\ format_eta seconds = pretty s +:+ "s")
      \/ (exists m sec,
            format_eta seconds = pretty m +:+ "m " +:+ pretty sec +:+ "s"
            /\ 1 <= m < 60 /\ 0 <= sec < 60 /\ s = 60 * m + sec)
      \/ (exists h m,
            format_eta seconds = pretty h +:+ "h " +:+ pretty m +:+ "m"
            /\ 1 <= h < 24 /\ 0 <= m < 60
            /\ 0 <= s - (3600 * h + 60 * m) < 60)
      \/ (exists d h,
            format_eta seconds = pretty d +:+ "d " +:+ pretty h +:+ "h"
            /\ 1 <= d /\ 0 <= h < 24
            /\ 0 <= s - (86400 * d + 3600 * h) < 3600)).
Proof.
  intros Hpos s.
  assert (0 <= s) as Hs.
  { unfold s. rewrite MenuTheory.int_nonneg by done.
    rewrite <- (Qfloor_Z 0). by apply Qfloor_resp_le. }
  split; [done|]. unfold format_eta. fold s.
  destruct (Z.ltb_spec s 60); [by left|]. right.
  set (m := s `div` 60). set (h := m `div` 60).
  pose proof (Z.div_mod s 60 ltac:(lia)) as Hdm.
  pose proof (Z.mod_pos_bound s 60 ltac:(lia)) as Hm. fold m in Hdm.
  destruct (Z.ltb_spec m 60).
  { left. exists m, (s `mod` 60). split; [done|]. lia. }
  right.
  pose proof (Z.div_mod m 60 ltac:(lia)) as Hdm2.
  pose proof (Z.mod_pos_bound m 60 ltac:(lia)) as Hm2. fold h in Hdm2.
  destruct (Z.ltb_spec h 24).
  { left. exists h, (m `mod` 60). split; [done|]. lia. }
  right.
  pose proof (Z.div_mod h 24 ltac:(lia)) as Hdm3.
  pose proof (Z.mod_pos_bound h 24 ltac:(lia)) as Hm3.
  exists (h `div` 24), (h `mod` 24).
  split; [done|]. lia.
Qed.

End RenderTheory.

Module PlatformsTheory.
Import PyStr Stat Walk Platforms.

Lemma classify_dirs entries :
  (classify entries).1
  = filename <$> filter (fun i => S_ISDIR (st_mode i) = true) entries.
Proof.
  induction entries as [|e entries IH]; [done|]. simpl.
  destruct (classify entries) as [dirs files]. simpl in IH.
  destruct (S_ISLNK (st_mode e)) eqn:Hl.
  - rewrite filter_cons_False; [done|].
    unfold S_ISLNK, S_ISDIR, S_IFLNK, S_IFDIR in *.
    apply Z.eqb_eq in Hl. rewrite Hl. done.
  - destruct (S_ISDIR (st_mode e)) eqn:Hd.
    + rewrite filter_cons_True by done. simpl. by rewrite IH.
    + rewrite filter_cons_False by by rewrite Hd. done.
Qed.

(** X16.  The platforms offered are the directories the search can
    enter: [list_platforms] never raises and returns exactly the names
    that [sftp_walk(sftp, "/roms")] yields as [dirs] in its first tuple
    -- the entries of [/roms] that are directories, symbolic links left
    out -- and the walk of the base directory of a platform with a valid
    name starts at the path the walk of [/roms] would visit; when
    [/roms] cannot be listed the list is empty and one error is
    shown. *)
Theorem platforms_are_the_walked_directories sftp :
  match sftp "/roms" with
  | inr entries =>
      exists files,
        gen_next sftp (sftp_walk "/roms") []
        = Some (Some ("/roms", (list_platforms sftp).1, files),
                [Loop "/roms" (list_platforms sftp).1], [Listed "/roms"])
        /\ (list_platforms sftp).2 = []
        /\ forall p, p ∈ (list_platforms sftp).1 ->
             exists e, e ∈ entries /\ filename e = p
               /\ S_ISDIR (st_mode e) = true /\ S_ISLNK (st_mode e) = false
               /\ Session.remote_base_of p = join "/roms" p
  | inl e =>
      list_platforms sftp
      = ([], [Shown ("Could not list /roms/: " +:+ e) error])
  end.
Proof.
  unfold list_platforms, Session.remote_root.
  destruct (sftp "/roms") as [e|entries] eqn:Hs; [done|]. simpl.
  rewrite <- classify_dirs.
  exists (classify entries).2. split.
  - unfold gen_next, sftp_walk. simpl. rewrite Hs.
    by destruct (classify entries).
  - split; [done|]. intros p Hp. rewrite classify_dirs in Hp.
    apply list_elem_of_fmap in Hp as (e & -> & He).
    apply list_elem_of_filter in He as [Hd He].
    exists e. split; [done|]. split; [done|]. split; [done|]. split; [|done].
    unfold S_ISLNK, S_ISDIR, S_IFLNK, S_IFDIR in *.
    apply Z.eqb_eq in Hd. by rewrite Hd.
Qed.

End PlatformsTheory.

Module TelemetryTheory.
Import PyStr Download TelemetrySpec.

Lemma keeps_bind {A B} (Q : A -> Prop) (R : B -> Prop) (m : M A) (f : A -> M B) :
  keeps Q m -> (forall a, Q a -> keeps R (f a)) -> keeps R (m ≫= f).
Proof.
  intros Hm Hf w Hw. unfold mbind, M_bind.
  destruct (Hm w Hw) as [H1 H2]. destruct (m w) as [[e|a] w']; simpl in *.
  - split; [done|]. done.
  - by apply Hf; [apply H2|].
Qed.

Lemma keeps_weaken {A} (Q R : A -> Prop) (m : M A) :
  (forall a, Q a -> R a) -> keeps Q m -> keeps R m.
Proof. intros H Hm w Hw. destruct (Hm w Hw). split; [done|]. auto. Qed.

Lemma keeps_ret {A} (Q : A -> Prop) (a : A) : Q a -> keeps Q (mret a).
Proof. intros H w Hw. split; [done|]. by intros ? [= <-]. Qed.

Lemma keeps_raise {A} (Q : A -> Prop) e : keeps Q (raise e).
Proof. intros w Hw. by split. Qed.

Lemma keeps_may_raise r : keeps (fun _ => True) (may_raise r).
Proof. destruct r; [apply keeps_raise|by apply keeps_ret]. Qed.

Lemma keeps_modify (f : globals -> globals) :
  (forall g0, telemetry_ok g0 -> telemetry_ok (f g0)) ->
  keeps (fun _ => True) (modify_globals f).
Proof. intros H w Hw. split; [by apply H|done]. Qed.

Lemma keeps_show msg ty : keeps (fun _ => True) (show_notification msg ty).
Proof. intros w Hw. by split. Qed.

Lemma keeps_try {A} (Q : A -> Prop) (body : M A) (handler : string -> M A) :
  keeps Q body -> (forall e, keeps Q (handler e)) -> keeps Q (try_except body handler).
Proof.
  intros Hb Hh w Hw. unfold try_except.
  destruct (Hb w Hw) as [H1 H2]. destruct (body w) as [[e|a] w']; simpl in *.
  - by apply Hh.
  - split; [done|]. intros ? [= <-]. by apply H2.
Qed.

Lemma set_stop_ok b g0 : telemetry_ok g0 -> telemetry_ok (set_stop b g0).
Proof. done. Qed.

Lemma land_ok b g0 : telemetry_ok g0 -> telemetry_ok (land b g0).
Proof. by destruct b. Qed.

Lemma Qdiv_nonneg (a b : Q) : (0 <= a)%Q -> (0 < b)%Q -> (0 <= a / b)%Q.
Proof.
  intros Ha Hb. unfold Qdiv. apply Qmult_le_0_compat; [done|].
  apply Qinv_le_0_compat. by apply Qlt_le_weak.
Qed.

Lemma inject_Z_nonneg z : 0 <= z -> (0 <= inject_Z z)%Q.
Proof. intros H. unfold Qle. simpl. lia. Qed.

Lemma inject_Z_pos z : 0 < z -> (0 < inject_Z z)%Q.
Proof. intros H. unfold Qlt. simpl. lia. Qed.

Lemma keeps_telemetry size now c :
  counters_ok c -> keeps counters_ok (telemetry size now c).
Proof.
  intros [Hl Hr]. unfold telemetry.
  eapply keeps_bind.
  { apply keeps_modify. intros g0 (_ & Hs & He). split; [|done]. simpl.
    apply Qdiv_nonneg; [apply inject_Z_nonneg|apply inject_Z_pos]; lia. }
  intros _ _.
  destruct (Qle_bool (1 # 2) (inject_Z (now - last_time c) / inject_Z 1000)) eqn:He;
    [|by apply keeps_ret].
  apply Qle_bool_iff in He.
  assert (0 <= inject_Z (read_bytes c - last_bytes c)
               / (inject_Z (now - last_time c) / inject_Z 1000) / MiB)%Q as Hspeed.
  { apply Qdiv_nonneg; [|by apply inject_Z_pos].
    apply Qdiv_nonneg; [apply inject_Z_nonneg; lia|].
    eapply Qlt_le_trans; [|exact He]. done. }
  eapply keeps_bind.
  { apply keeps_modify. intros g0 (Hp & _ & Het). by split. }
  intros _ _. eapply keeps_bind.
  { apply keeps_modify. intros g0 (Hp & Hs & _). split; [done|]. split; [done|].
    simpl. apply Qdiv_nonneg; [apply inject_Z_nonneg; lia|].
    apply Qmult_lt_0_compat; [|by apply inject_Z_pos].
    eapply Qlt_le_trans; [|apply Q.le_max_r]. done. }
  intros _ _. apply keeps_ret. split; simpl; lia.
Qed.

Lemma keeps_read_loop size blocks : forall c,
  counters_ok c -> keeps counters_ok (read_loop size blocks c).
Proof.
  induction blocks as [|b blocks IH]; intros c Hc; simpl.
  - eapply (keeps_bind (fun _ => True)).
    { intros w Hw. by split. }
    intros gl _. destruct (stop_download gl); [|by apply keeps_ret].
    eapply keeps_bind; [apply keeps_show|]. intros _ _. by apply keeps_ret.
  - eapply keeps_bind; [apply keeps_modify, land_ok|]. intros _ _.
    eapply (keeps_bind (fun _ => True)).
    { intros w Hw. by split. }
    intros gl _. destruct (stop_download gl).
    { eapply keeps_bind; [apply keeps_show|]. intros _ _. by apply keeps_ret. }
    destruct (b_read b) as [e|[|x data]]; [apply keeps_raise|by apply keeps_ret|].
    eapply (keeps_bind (fun _ => True)).
    { intros w Hw. unfold write_local. by destruct (b_write b). }
    intros _ _. eapply keeps_bind.
    { apply keeps_telemetry. destruct Hc. split; simpl; lia. }
    intros c'' Hc''. by apply IH.
Qed.

Lemma keeps_remove_partial E msg : keeps (fun _ => True) (remove_partial E msg).
Proof.
  intros w Hw. unfold remove_partial. destruct (local_file w); [|done].
  by destruct (e_remove E).
Qed.

Lemma keeps_with_exit {A} (Q : A -> Prop) r (m : M A) :
  keeps Q m -> keeps Q (with_exit r m).
Proof.
  intros H w Hw. unfold with_exit. destruct (H w Hw) as [H1 H2].
  destruct (m w) as [res w']. by destruct r.
Qed.

Lemma keeps_transfer E local_path : keeps (fun _ => True) (transfer E local_path).
Proof.
  unfold transfer.
  eapply keeps_bind; [apply keeps_may_raise|]. intros _ _.
  eapply (keeps_bind (fun _ => True)).
  { destruct (e_stat E); [apply keeps_raise|by apply keeps_ret]. }
  intros size _. eapply (keeps_bind (fun _ => True)).
  { intros w Hw. unfold open_local. by destruct (e_open_local E). }
  intros _ _. eapply (keeps_bind (fun _ => True)).
  { apply keeps_with_exit.
    eapply keeps_bind; [apply keeps_may_raise|]. intros _ _.
    apply (keeps_weaken counters_ok); [done|]. by apply keeps_read_loop. }
  intros c Hc.
  eapply keeps_bind; [apply keeps_modify, land_ok|]. intros _ _.
  eapply (keeps_bind (fun _ => True)).
  { intros w Hw. by split. }
  intros gl _. eapply (keeps_bind (fun _ => True)).
  { destruct (completion_test _ _ _); [apply keeps_show|apply keeps_remove_partial]. }
  intros _ _. by apply keeps_ret.
Qed.

(** X17.  The numbers of the download screen are never negative: at
    the end of every call of [download_file] -- whatever it was called
    with, whatever the blocks delivered, the clock, the errors and the
    cancellations -- [download_progress], [download_speed] and
    [download_eta] are at least 0 and [downloading] is [False]; so the
    time left that [format_eta] is given needs no sign. *)
Theorem download_telemetry_is_not_negative E remote_path local_path w :
  let g' := g (download_file E remote_path local_path w).2 in
  (0 <= download_progress g')%Q /\ (0 <= download_speed g')%Q
  /\ (0 <= download_eta g')%Q /\ downloading g' = false
  /\ (0 <= Menu.int (download_eta g')).
Proof.
  intros g'.
  assert (telemetry_ok g') as (Hp & Hs & He).
  { unfold g', download_file.
    rewrite DownloadTheory.bind_unfold, DownloadTheory.prologue_spec.
    cbv beta iota.
    match goal with |- telemetry_ok (g (?m ?w0).2) =>
      assert (keeps (fun _ => True) m) as Hk; [|by apply Hk]
    end.
    eapply (keeps_bind (fun _ => True)).
    - apply keeps_try; [apply keeps_transfer|]. intros e.
      eapply keeps_bind; [apply keeps_show|]. intros _ _.
      eapply keeps_bind; [apply keeps_remove_partial|]. intros _ _.
      by apply keeps_ret.
    - intros r _. eapply keeps_bind; [by apply keeps_modify|]. intros _ _.
      by apply keeps_ret. }
  assert (downloading g' = false) as Hd.
  { unfold g'.
    by destruct (DownloadTheory.download_file_spec E remote_path local_path w)
      as (r & w' & d & -> & _ & ? & _). }
  repeat split; try done.
  rewrite MenuTheory.int_nonneg by done.
  rewrite <- (Qfloor_Z 0). by apply Qfloor_resp_le.
Qed.

End TelemetryTheory.

Module AppTheory.
Import PyStr Input App AppSpec.

(** *** What the downloads and the menus leave alone *)

Lemma same_mode_refl g0 : same_mode g0 g0.
Proof. done. Qed.

Lemma same_mode_trans g1 g2 g3 :
  same_mode g1 g2 -> same_mode g2 g3 -> same_mode g1 g3.
Proof. intros (?&?&?) (?&?&?). repeat split; congruence. Qed.

Lemma land_all_mode ws g0 : same_mode (Session.land_all ws g0) g0.
Proof.
  revert g0. induction ws as [|b ws IH] using rev_ind; intros g0; [done|].
  unfold Session.land_all. rewrite foldl_app. simpl.
  destruct (IH g0) as (?&?&?). done.
Qed.

Lemma batch_loop_launched DEST_DIR ltr platform total env :
  forall queue pos i s,
    let s' := Session.batch_loop DEST_DIR ltr platform total env queue pos i s in
    same_mode (Session.gl s') (Session.gl s)
    /\ exists new, Session.launched s' = Session.launched s ++ new
         /\ Forall (from_map DEST_DIR ltr platform) new.
Proof.
  induction queue as [|label queue IH]; intros pos i s.
  { simpl. split; [done|]. exists []. by rewrite app_nil_r. }
  simpl. destruct (String.eqb label Session.BACK); [apply IH|].
  destruct (ltr !! label) as [[|c r]|] eqn:Hl.
  - apply (IH (S pos) i (Session.notify _ error s)).
  - destruct (Session.t_makedirs (env pos));
      [apply (IH (S pos) i (Session.notify _ error s))|].
    destruct (Session.t_start (env pos));
      [apply (IH (S pos) (i + 1) (Session.notify _ error s))|].
    set (L := Session.Launch _ _ _ _ _ _).
    set (s1 := Session.Fg _ _ _).
    assert (from_map DEST_DIR ltr platform L) as HL by done.
    assert (same_mode (Session.gl s1) (Session.gl s)) as H1
        by apply land_all_mode.
    change (stop_download (Session.land_all (Session.t_writes (env pos))
                             (Session.gl s)))
      with (stop_download (Session.gl s1)).
    destruct (stop_download (Session.gl s1)).
    + split; [exact H1|]. exists [L]. split; [done|]. by apply Forall_singleton.
    + destruct (IH (S pos) (i + 1) s1) as (H2 & new & Hnew & Hall).
      split; [by eapply same_mode_trans|].
      exists (L :: new). split; [|by constructor].
      rewrite Hnew. simpl. by rewrite <- app_assoc.
  - apply (IH (S pos) i (Session.notify _ error s)).
Qed.

(** A batch over a selection that is not empty: the selection and the
    mode are cleared, the platform stays, the transfers started are for
    labels of the dictionary. *)
Lemma multi_start_launched DEST_DIR items ltr env s :
  selected_results (Session.gl s) <> ∅ ->
  let s' := Session.multi_start DEST_DIR items ltr env s in
  selected_results (Session.gl s') = ∅
  /\ multi_select_enabled (Session.gl s') = false
  /\ last_platform (Session.gl s') = last_platform (Session.gl s)
  /\ exists new, Session.launched s' = Session.launched s ++ new
       /\ Forall (from_map DEST_DIR ltr
                    (default "" (last_platform (Session.gl s)))) new.
Proof.
  intros Hne. unfold Session.multi_start.
  rewrite decide_False by done. simpl.
  match goal with |- context [Session.batch_loop ?d ?m ?p ?t ?e ?q ?n ?i ?s0] =>
    destruct (batch_loop_launched d m p t e q n i s0) as ((_ & _ & Hp) & new & Hn & Ha)
  end.
  split; [done|]. split; [done|]. split; [done|]. by exists new.
Qed.

Lemma single_download_launched DEST_DIR ltr sel confirm E s :
  let s' := Session.single_download DEST_DIR ltr sel confirm E s in
  same_mode (Session.gl s') (Session.gl s)
  /\ exists new, Session.launched s' = Session.launched s ++ new
       /\ Forall (from_map DEST_DIR ltr
                    (default "" (last_platform (Session.gl s)))) new.
Proof.
  unfold Session.single_download.
  assert (forall s0 : Session.fg,
            same_mode (Session.gl s0) (Session.gl s0)
            /\ exists new, Session.launched s0 = Session.launched s0 ++ new
                 /\ Forall (from_map DEST_DIR ltr
                              (default "" (last_platform (Session.gl s)))) new) as Hid.
  { intros s0. split; [done|]. exists []. by rewrite app_nil_r. }
  destruct (ltr !! sel) as [remote|] eqn:Hl; [|apply (Hid (Session.notify _ _ s))].
  destruct confirm; [|apply Hid].
  destruct (Session.t_makedirs E); [apply (Hid (Session.notify _ _ s))|].
  destruct (Session.t_start E); [apply (Hid (Session.notify _ _ s))|].
  simpl. split; [apply land_all_mode|].
  eexists [_]. split; [done|]. by apply Forall_singleton.
Qed.

(** What the dictionary holds are results, each under its label. *)
Lemma label_map_values remote_base found l p :
  Session.label_map (Session.display_of remote_base found) found !! l = Some p ->
  p ∈ found /\ replace (remote_base +:+ "/") "" p = l.
Proof.
  unfold Session.label_map, Session.display_of.
  induction found as [|q found IH] using rev_ind; [done|].
  rewrite fmap_app, zip_with_app by by rewrite length_fmap.
  rewrite foldl_app. simpl.
  destruct (decide (replace (remote_base +:+ "/") "" q = l)) as [<-|Hne].
  - rewrite lookup_insert_eq. intros [= <-]. split; [|done].
    apply elem_of_app. right. by left.
  - rewrite lookup_insert_ne by done. intros H.
    destruct (IH H) as [Hp Hl]. split; [|done]. apply elem_of_app. by left.
Qed.

(** *** Menus without the multi-select controls *)

Section PlainFacts.
Variable SCREEN_H : Z.
Variable title : string.
Variable options : list string.
Variable allow_back : bool.

Lemma press_move_plain now d l u :
  plain (Menu.u_gl u) (Menu.press_move options now d l u).
Proof.
  unfold Menu.press_move. destruct (press _ _ _) as [[] r]; [|done].
  unfold Menu.move. by destruct (Menu.py_mod _ _).
Qed.

Lemma handle_event_plain now ev l u :
  plain (Menu.u_gl u) (Menu.handle_event options allow_back false now ev l u).
Proof.
  pose proof press_move_plain.
  assert (forall l, plain (Menu.u_gl u) (Menu.confirm options false l u)) as Hc.
  { intros l0. unfold Menu.confirm. by destruct (Menu.py_index _ _). }
  destruct ev as [|key|key|joy button|[button|]|joy [hat_x hat_y]|joy axis value|];
    simpl; try done.
  - destruct (bool_decide (key = Menu.K_RETURN \/ key = Menu.K_KP_ENTER)); [auto|].
    destruct (allow_back && _)%bool; [done|].
    destruct (bool_decide (key = Menu.K_UP \/ key = Menu.K_w)); [auto|].
    destruct (bool_decide (key = Menu.K_DOWN \/ key = Menu.K_s)); [auto|]. done.
  - repeat (destruct (_ && _)%bool; [done|]). done.
  - pose proof (MenuTheory.allow_gl now joy (Some button) u) as Hg.
    destruct (Menu.allow now joy (Some button) u) as [ok u1]. simpl in Hg.
    rewrite <- Hg. destruct ok; simpl; [|done].
    destruct (_ =? Menu.CROSS).
    { unfold Menu.confirm. by destruct (Menu.py_index _ _). }
    destruct (allow_back && _)%bool; [done|].
    destruct (_ =? Menu.DPAD_UP); [apply press_move_plain|].
    destruct (_ =? Menu.DPAD_DOWN); [apply press_move_plain|]. done.
  - repeat (destruct (_ && _)%bool; [done|]). done.
  - pose proof (MenuTheory.allow_gl now joy None u) as Hg.
    destruct (Menu.allow now joy None u) as [ok u1]. simpl in Hg.
    rewrite <- Hg. destruct ok; simpl; [|done].
    destruct (_ =? 1); [apply press_move_plain|].
    destruct (_ =? -1); [apply press_move_plain|]. done.
  - pose proof (MenuTheory.allow_gl now joy None u) as Hg.
    destruct (Menu.allow now joy None u) as [ok u1]. simpl in Hg.
    rewrite <- Hg. destruct ok; simpl; [|done].
    destruct (_ =? 1); [|done].
    destruct (Qle_bool _ _); [apply press_move_plain|].
    destruct (Qle_bool _ _); [apply press_move_plain|]. done.
Qed.

Lemma handle_events_plain evs : forall l u,
  plain (Menu.u_gl u) (Menu.handle_events options allow_back false evs l u).
Proof.
  induction evs as [|[now ev] evs IH]; intros l u; [done|]. simpl.
  pose proof (handle_event_plain now ev l u) as Hp.
  destruct (Menu.handle_event _ _ _ _ _ _ _) as [l' u'| | |]; try done.
  simpl in Hp. rewrite <- Hp. apply IH.
Qed.

Lemma menu_loop_plain frames : forall l u,
  plain (Menu.u_gl u)
    (Menu.menu_loop SCREEN_H title options allow_back false frames l u).
Proof.
  induction frames as [|f frames IH]; intros l u; [done|]. simpl.
  assert (plain (Menu.u_gl u)
            (Menu.turn SCREEN_H title options allow_back false f l u)) as Hp.
  { unfold Menu.turn. destruct (Menu.draw _ _ _ _ _ _ _); [|done].
    pose proof (handle_events_plain f.1 (Menu.adjust SCREEN_H l) u) as He.
    destruct (Menu.handle_events _ _ _ _ _ _) as [l' u'| | |]; try done.
    simpl in He. rewrite <- He. unfold Menu.repeat.
    destruct (tick _ _) as [rep r].
    unfold Menu.move.
    repeat (case_bool_decide; [by destruct (Menu.py_mod _ _)|]). done. }
  destruct (Menu.turn _ _ _ _ _ _ _ _) as [l' u'| | |]; try done.
  simpl in Hp. rewrite <- Hp. apply IH.
Qed.

End PlainFacts.

(** *** The keys of the results menu *)

Lemma menu_key_platform k s :
  last_platform (Session.gl (Session.menu_key k s).1)
  = last_platform (Session.gl s).
Proof.
  destruct k as [label| | |]; unfold Session.menu_key.
  - destruct (multi_select_enabled _); [|done].
    destruct (String.eqb _ _); [done|]. by destruct (decide _).
  - done.
  - simpl. by destruct (_ && _)%bool.
  - destruct (multi_select_enabled _); [|done]. by destruct (decide _).
Qed.

Lemma menu_key_launched k s :
  Session.launched (Session.menu_key k s).1 = Session.launched s.
Proof.
  destruct k as [label| | |]; unfold Session.menu_key.
  - destruct (multi_select_enabled _); [|done].
    destruct (String.eqb _ _); [done|]. by destruct (decide _).
  - done.
  - simpl. by destruct (_ && _)%bool.
  - destruct (multi_select_enabled _); [|done]. by destruct (decide _).
Qed.

Lemma menu_select_keeps items keys : forall s,
  MenuSpec.keys_over items keys ->
  Session.selection_ok items (Session.gl s) ->
  Session.selection_ok items (Session.gl (Session.menu_select keys s).1)
  /\ last_platform (Session.gl (Session.menu_select keys s).1)
     = last_platform (Session.gl s).
Proof.
  induction keys as [|k keys IH]; intros s Hk Hs; [done|].
  apply Forall_cons in Hk as [Hk Hks]. simpl.
  pose proof (SessionTheory.menu_key_selection_ok items k s Hk Hs) as H1.
  pose proof (menu_key_platform k s) as H2.
  destruct (Session.menu_key k s) as [s' [v|]]; simpl in *; [done|].
  destruct (IH s' Hks H1) as [H3 H4]. split; [done|]. congruence.
Qed.

(** *** The invariant of the main loop *)

Section Invariant.
Variable SCREEN_H : Z.
Variable DEST_DIR : string.
Variable sftp : Walk.session.
Variable search_fuel : nat.

Local Abbreviation menu := (menu SCREEN_H).
Local Abbreviation what_next := (what_next SCREEN_H).
Local Abbreviation results_turn := (results_turn SCREEN_H DEST_DIR).
Local Abbreviation results_loop := (results_loop SCREEN_H DEST_DIR).
Local Abbreviation choose_platform := (choose_platform SCREEN_H).
Local Abbreviation ask_and_search := (ask_and_search SCREEN_H search_fuel).
Local Abbreviation main_turn := (main_turn SCREEN_H DEST_DIR search_fuel).
Local Abbreviation main_loop := (main_loop SCREEN_H DEST_DIR search_fuel).
Local Abbreviation platforms := (AppSpec.platforms sftp).
Local Abbreviation found_by := (AppSpec.found_by sftp search_fuel).
Local Abbreviation sound_launch := (AppSpec.sound_launch DEST_DIR sftp search_fuel).
Local Abbreviation platform_ok := (AppSpec.platform_ok sftp).
Local Abbreviation cached := (AppSpec.cached sftp search_fuel).
Local Abbreviation inv := (AppSpec.inv DEST_DIR sftp search_fuel).
Local Abbreviation triple := (AppSpec.triple DEST_DIR sftp search_fuel).
Local Abbreviation in_results := (AppSpec.in_results DEST_DIR sftp search_fuel).
Local Abbreviation at_top := (AppSpec.at_top DEST_DIR sftp search_fuel).
Local Abbreviation pending := (AppSpec.pending DEST_DIR sftp search_fuel).

Lemma steady_refl s : steady s s.
Proof. done. Qed.

Lemma steady_inv s s' : steady s s' -> inv s -> inv s'.
Proof.
  intros (Hl & Hla & Hm & Hs & Hp) (H1 & H2 & H3).
  split; [by rewrite Hla|]. split.
  { intros p. rewrite Hp. apply H2. }
  unfold AppSpec.cached in *. rewrite Hl.
  destruct (display_items (loc s)), (label_to_remote (loc s)); try done.
  - destruct H3 as (platform & found & ? & ? & ? & [Hin Hoff]).
    exists platform, found. rewrite Hp. split; [done|]. split; [done|].
    split; [done|]. split; [by rewrite Hs|]. by rewrite Hm, Hs.
  - by rewrite Hs, Hm.
Qed.

Lemma triple_bind {A B} pre (m : P A) mid (f : A -> P B) post :
  triple pre m mid -> (forall a, triple (mid a) (f a) post) ->
  triple pre (m ≫= f) post.
Proof.
  intros Hm Hf s ins Hs. unfold mbind, P_bind. specialize (Hm s ins Hs).
  destruct (m s ins) as [a s' ins'| | |]; try done. by apply Hf.
Qed.

Lemma triple_weaken {A} (pre pre' : app -> Prop) (m : P A)
    (post post' : A -> app -> Prop) :
  (forall s, pre' s -> pre s) -> (forall a s, post a s -> post' a s) ->
  triple pre m post -> triple pre' m post'.
Proof.
  intros H1 H2 Hm s ins Hs. specialize (Hm s ins (H1 s Hs)).
  destruct (m s ins); auto.
Qed.

Lemma triple_ret {A} (pre : app -> Prop) (a : A) (post : A -> app -> Prop) :
  (forall s, pre s -> post a s) -> triple pre (mret a) post.
Proof. intros H s ins Hs. by apply H. Qed.

Lemma triple_get (pre : app -> Prop) :
  triple pre get (fun a s => s = a /\ pre s).
Proof. intros s ins Hs. done. Qed.

Lemma triple_update (pre : app -> Prop) f (post : unit -> app -> Prop) :
  (forall s, pre s -> post tt (f s)) -> triple pre (update f) post.
Proof. intros H s ins Hs. by apply H. Qed.

Lemma triple_exit {A} (pre : app -> Prop) (post : A -> app -> Prop) :
  (forall s, pre s -> inv s) -> triple pre handle_exit post.
Proof. intros H s ins Hs. by apply H. Qed.

Lemma triple_false {A} (m : P A) post : triple (fun _ => False) m post.
Proof. intros s ins []. Qed.

(** [safe_close_sftp(); handle_exit()] *)
Lemma triple_close_exit {A} (pre : app -> Prop) (post : A -> app -> Prop) :
  (forall s, pre s -> inv s) -> triple pre (safe_close_sftp;; handle_exit) post.
Proof.
  intros H. eapply (triple_bind _ _ (fun _ s => inv s)).
  - apply triple_update. intros s Hs. eapply steady_inv; [|exact (H s Hs)]. done.
  - intros []. by apply triple_exit.
Qed.

(** A menu without the multi-select controls, over options that are
    not empty. *)
Lemma triple_menu title options allow_back (pre : app -> Prop) :
  options <> [] -> (forall s, pre s -> inv s) ->
  triple pre (menu title options allow_back false None)
    (fun v s' =>
       (exists s, pre s /\ steady s s')
       /\ (v ∈ options \/ (allow_back = true /\ v = "__BACK__"))).
Proof.
  intros Hne Hinv s ins Hs. unfold App.menu.
  destruct ins as [|[frames| | |] rest]; try by apply Hinv.
  unfold Menu.menu_select. simpl.
  set (l0 := Menu.Locals 0 0 _ new false).
  pose proof (MenuTheory.menu_loop_safe SCREEN_H title options allow_back false
                frames l0 (ui_of s)) as Hsafe.
  pose proof (MenuTheory.menu_loop_returns SCREEN_H title options allow_back false
                frames l0 (ui_of s) eq_refl) as Hret.
  pose proof (menu_loop_plain SCREEN_H title options allow_back frames l0 (ui_of s))
    as Hplain.
  destruct (Menu.menu_loop _ _ _ _ _ _ _ _) as [l u|v u|u|e u]; simpl in *.
  - eapply steady_inv; [|by apply Hinv]. repeat split; simpl; by rewrite Hplain.
  - split.
    + exists s. split; [done|]. repeat split; simpl; by rewrite Hplain.
    + destruct Hret as [[? _]|[?|(? & _)]]; [by left|by right|done].
  - eapply steady_inv; [|by apply Hinv]. repeat split; simpl; by rewrite Hplain.
  - apply Hsafe. split; simpl; [|lia]. split; [lia|].
    destruct options; [done|]. simpl. lia.
Qed.

(** The keyboard. *)
Lemma triple_keyboard (pre : app -> Prop) :
  (forall s, pre s -> inv s) ->
  triple pre keyboard
    (fun v s' =>
       (exists s, pre s /\ steady s s')
       /\ (v = "__BACK__" \/ (Keyboard.typed v = true /\ strip v = v))).
Proof.
  intros Hinv s ins Hs. unfold keyboard.
  destruct ins as [|[|frames| |] rest]; try by apply Hinv.
  pose proof (KeyboardTheory.keyboard_loop_safe frames
                (Keyboard.Locals "" 0 0 new new) (ui_of s)) as Hsafe.
  unfold Keyboard.virtual_keyboard_input.
  assert (KeyboardSpec.well_formed (Keyboard.Locals "" 0 0 new new)) as Hwf.
  { split; [|done]. exists (Keyboard.chars "ABCDEFGHIJ"). by simpl. }
  specialize (Hsafe Hwf).
  destruct (Keyboard.keyboard_loop _ _ _) as [l u|v u|u|e u]; simpl in *.
  - destruct Hsafe as [_ Hg].
    eapply steady_inv; [|by apply Hinv]. repeat split; simpl; by rewrite Hg.
  - destruct Hsafe as [Hv Hg]. split; [|done].
    exists s. split; [done|]. repeat split; simpl; by rewrite Hg.
  - eapply steady_inv; [|by apply Hinv]. repeat split; simpl; by rewrite Hsafe.
  - done.
Qed.

Lemma selection_ok_mode items g1 g2 :
  same_mode g1 g2 -> Session.selection_ok items g2 -> Session.selection_ok items g1.
Proof. intros (Hm & Hs & _) [H1 H2]. split; rewrite ?Hs, ?Hm; done. Qed.

(** The results menu. *)
Lemma triple_results_menu items s0 :
  inv s0 -> display_items (loc s0) = Some items ->
  triple (fun s => s = s0)
    (menu "Results" items true true
       (Some (multi_select_enabled (Session.gl (fg s0)))))
    (fun v s' =>
       inv s' /\ loc s' = loc s0
       /\ ((v ∈ items
            /\ (multi_select_enabled (Session.gl (fg s')) = true -> v = "< Back"))
           \/ v = "__BACK__"
           \/ (v = "__MULTI_START__"
               /\ selected_results (Session.gl (fg s')) <> ∅))).
Proof.
  intros Hinv Hitems s ins ->. unfold App.menu.
  destruct ins as [|[frames| | |] rest]; try done.
  unfold Menu.menu_select. simpl.
  set (l0 := Menu.Locals 0 0 _ new false).
  destruct Hinv as (Hla & Hpl & Hc). pose proof Hc as Hc0.
  unfold AppSpec.cached in Hc. rewrite Hitems in Hc.
  destruct (label_to_remote (loc s0)) as [ltr|] eqn:Hltr; [|done].
  destruct Hc as (platform & found & Hp & Hf & Hb & Hsel).
  assert (items <> []) as Hne.
  { injection Hb as -> _. by destruct (Session.display_of _ _). }
  pose proof (MenuTheory.menu_loop_safe SCREEN_H "Results" items true true
                frames l0 (ui_of s0)) as Hsafe.
  pose proof (MenuTheory.menu_loop_returns SCREEN_H "Results" items true true
                frames l0 (ui_of s0) eq_refl) as Hret.
  pose proof (MenuTheory.menu_loop_played SCREEN_H "Results" items
                frames l0 (ui_of s0) eq_refl) as (keys & Hk & Hplay).
  destruct (menu_select_keeps items keys
              (MenuSpec.fg_of (Session.gl (fg s0))) Hk Hsel) as [Hsel' Hp'].
  simpl in Hplay, Hp'.
  assert (forall u : Menu.ui,
            Session.selection_ok items (Menu.u_gl u) ->
            last_platform (Menu.u_gl u) = Some platform ->
            inv (with_ui u s0)) as Hgo.
  { intros u Hu Hup. split; [done|]. split.
    { intros p. simpl. rewrite Hup. intros [= <-]. by apply Hpl. }
    unfold AppSpec.cached. simpl. rewrite Hitems, Hltr. by exists platform, found. }
  destruct (Menu.menu_loop _ _ _ _ _ _ _ _) as [l u|v u|u|e u]; simpl in *.
  - destruct Hplay as (_ & _ & Hg). apply Hgo; rewrite <- Hg; [done|congruence].
  - destruct Hplay as (_ & Hg). split; [|split; [done|]].
    + apply Hgo; rewrite <- Hg; [done|congruence].
    + destruct Hret as [[? Hb']|[[_ ?]|(_ & ? & _ & ?)]];
        [left; split; [done|by apply Hb']|by right; left|by right; right].
  - destruct Hplay as (_ & Hg). apply Hgo; rewrite <- Hg; simpl; [|congruence].
    destruct Hsel' as [H1 H2]. by split.
  - apply Hsafe. split; simpl; [|lia]. split; [lia|].
    destruct items; [done|]. simpl. lia.
Qed.

Lemma drop_results_at_top s :
  inv s -> selected_results (Session.gl (fg s)) = ∅ ->
  multi_select_enabled (Session.gl (fg s)) = false ->
  at_top (Make (fg s) (joy s) (drop_results (loc s)) (last_query s) (closed s)).
Proof.
  intros (H1 & H2 & _) Hs Hm. split; [|done]. split; [done|]. split; [done|].
  unfold AppSpec.cached. simpl. done.
Qed.

Lemma triple_what_next :
  triple (fun s => in_results s
                   /\ selected_results (Session.gl (fg s)) = ∅
                   /\ multi_select_enabled (Session.gl (fg s)) = false)
    what_next
    (fun leave s => if leave then at_top s else in_results s).
Proof.
  unfold App.what_next. eapply triple_bind.
  { apply triple_menu; [done|]. by intros s [[H _] _]. }
  intros v. simpl.
  destruct (String.eqb v "Exit").
  { apply triple_close_exit. intros s' [(s & [[H _] _] & Hst) _].
    by eapply steady_inv. }
  assert (forall s', (exists s, (in_results s
                        /\ selected_results (Session.gl (fg s)) = ∅
                        /\ multi_select_enabled (Session.gl (fg s)) = false)
                       /\ steady s s') ->
            in_results s'
            /\ selected_results (Session.gl (fg s')) = ∅
            /\ multi_select_enabled (Session.gl (fg s')) = false) as Hkeep.
  { intros s' (s & ([H1 H2] & H3 & H4) & Hst).
    pose proof Hst as (Hl & _ & Hm & Hs & _).
    split; [split; [by eapply steady_inv|by rewrite Hl]|]. by rewrite Hs, Hm. }
  destruct (String.eqb v "Change Platform").
  { eapply (triple_bind _ _ (fun _ s =>
              Forall sound_launch (Session.launched (fg s))
              /\ last_platform (Session.gl (fg s)) = None
              /\ selected_results (Session.gl (fg s)) = ∅
              /\ multi_select_enabled (Session.gl (fg s)) = false)).
    - apply triple_update. intros s' [Hs' _].
      destruct (Hkeep s' Hs') as ([(H1 & _) _] & H3 & H4). done.
    - intros []. eapply triple_bind; [apply triple_get|]. intros s0.
      eapply (triple_bind _ _ (fun _ s => at_top s)).
      + apply triple_update. intros s [-> (H1 & H2 & H3 & H4)].
        split; [|done]. split; [done|]. split; [|done].
        intros p. simpl. by rewrite H2.
      + intros []. by apply triple_ret. }
  destruct (String.eqb v "New Search").
  { eapply triple_bind; [apply triple_get|]. intros s0.
    eapply (triple_bind _ _ (fun _ s => at_top s)).
    - apply triple_update. intros s [-> [Hs' _]].
      destruct (Hkeep s0 Hs') as ([H1 _] & H3 & H4).
      by apply drop_results_at_top.
    - intros []. by apply triple_ret. }
  apply triple_ret. intros s' [Hs' _]. by destruct (Hkeep s' Hs') as [H _].
Qed.

(** The transfers that a dictionary built from a search starts are
    sound. *)
Lemma from_map_sound platform found items ltr L :
  found_by platform found ->
  (items, ltr) = Session.build (Session.remote_base_of platform) found ->
  from_map DEST_DIR ltr platform L -> sound_launch L.
Proof.
  intros Hf [= -> ->] [Hl Hp].
  destruct (label_map_values _ _ _ _ Hl) as [Hin Hlab].
  by exists platform, found.
Qed.

Lemma triple_batch items env :
  triple (fun s => inv s /\ display_items (loc s) = Some items
                   /\ selected_results (Session.gl (fg s)) <> ∅)
    (batch DEST_DIR items env)
    (fun _ s => in_results s
                /\ selected_results (Session.gl (fg s)) = ∅
                /\ multi_select_enabled (Session.gl (fg s)) = false).
Proof.
  unfold batch. eapply triple_bind; [apply triple_get|]. intros s0.
  intros s ins [-> ((Hla & Hpl & Hc) & Hitems & Hne)].
  unfold AppSpec.cached in Hc. rewrite Hitems in Hc.
  destruct (label_to_remote (loc s0)) as [ltr|] eqn:Hltr; [|done].
  destruct Hc as (platform & found & Hp & Hf & Hb & Hsel).
  rewrite Hp. simpl.
  destruct (multi_start_launched DEST_DIR items ltr env (fg s0) Hne)
    as (H1 & H2 & H3 & new & Hnew & Hall).
  rewrite Hp in H3, Hall. simpl in Hall.
  split; [|done]. split; [|simpl; rewrite Hitems; by eexists]. split.
  { simpl. rewrite Hnew. apply Forall_app. split; [done|].
    eapply Forall_impl; [exact Hall|]. intros L HL.
    by eapply from_map_sound. }
  split.
  { intros p. simpl. rewrite H3. intros [= <-]. by apply Hpl. }
  unfold AppSpec.cached. simpl. rewrite Hitems, Hltr.
  exists platform, found. split; [done|]. split; [done|]. split; [done|].
  split; [|done]. intros l. rewrite H1. by intros ?%not_elem_of_empty.
Qed.

Lemma triple_next_one (pre : app -> Prop) :
  (forall s, pre s -> inv s) ->
  triple pre next_one (fun _ s => pre s).
Proof.
  intros H s ins Hs. unfold next_one.
  destruct ins as [|[| |E|] rest]; try by apply H. done.
Qed.

Lemma triple_next_many (pre : app -> Prop) :
  (forall s, pre s -> inv s) ->
  triple pre next_many (fun _ s => pre s).
Proof.
  intros H s ins Hs. unfold next_many.
  destruct ins as [|[| | |env] rest]; try by apply H. done.
Qed.

Lemma triple_results_turn :
  triple in_results results_turn
    (fun leave s => if leave then at_top s else in_results s).
Proof.
  unfold App.results_turn. eapply triple_bind; [apply triple_get|]. intros s0.
  destruct (display_items (loc s0)) as [items|] eqn:Hitems.
  2:{ intros s ins [-> [_ [? ?]]]. congruence. }
  eapply triple_bind.
  { intros s ins [-> [Hinv _]].
    by apply (triple_results_menu items s0 Hinv Hitems s0 ins). }
  intros sel. simpl.
  destruct (String.eqb sel "__BACK__" || String.eqb sel "< Back")%bool eqn:Hback.
  { (* back to the query *)
    eapply triple_bind; [apply triple_get|]. intros s1.
    eapply (triple_bind _ _ (fun _ s =>
              Forall sound_launch (Session.launched (fg s))
              /\ platform_ok (Session.gl (fg s))
              /\ loc s = drop_results (loc s1))).
    { apply triple_update. intros s [-> ((H1 & H2 & _) & _)]. done. }
    intros []. eapply (triple_bind _ _ (fun _ s =>
              Forall sound_launch (Session.launched (fg s))
              /\ platform_ok (Session.gl (fg s))
              /\ loc s = drop_results (loc s1)
              /\ selected_results (Session.gl (fg s)) = ∅)).
    { apply triple_update. intros s (H1 & H2 & H3). done. }
    intros []. eapply (triple_bind _ _ (fun _ s => at_top s)).
    { apply triple_update. intros s (H1 & H2 & H3 & H4).
      split; [|simpl; by rewrite H3]. split; [done|]. split; [done|].
      unfold AppSpec.cached. simpl. rewrite H3. simpl. done. }
    intros []. by apply triple_ret. }
  apply orb_false_elim in Hback as [Hb1 Hb2].
  destruct (String.eqb sel "__MULTI_START__") eqn:Hmulti.
  { eapply triple_bind; [apply triple_get|]. intros s1.
    case_bool_decide as Hempty.
    { eapply (triple_bind _ _ (fun _ s => in_results s)).
      - apply triple_update. intros s [-> (Hinv & Hl & _)]. split.
        + eapply steady_inv; [|exact Hinv]. done.
        + simpl. rewrite Hl, Hitems. by eexists.
      - intros []. by apply triple_ret. }
    eapply (triple_bind _ _ (fun _ s =>
              inv s /\ display_items (loc s) = Some items
              /\ selected_results (Session.gl (fg s)) <> ∅)).
    { eapply triple_weaken; [| |apply (triple_next_many
                (fun s => inv s /\ display_items (loc s) = Some items
                          /\ selected_results (Session.gl (fg s)) <> ∅))].
      - intros s [-> (Hinv & Hl & _)]. split; [done|]. split; [|done].
        by rewrite Hl.
      - done.
      - by intros s [H _]. }
    intros env. eapply triple_bind; [apply triple_batch|].
    intros []. apply triple_what_next. }
  (* a single file *)
  eapply triple_bind; [apply triple_get|]. intros s1.
  destruct (ltr ← label_to_remote (loc s1); ltr !! sel) as [remote|] eqn:Hremote.
  2:{ eapply (triple_bind _ _ (fun _ s => in_results s)).
      - apply triple_update. intros s [-> (Hinv & Hl & _)]. split.
        + eapply steady_inv; [|exact Hinv]. done.
        + simpl. rewrite Hl, Hitems. by eexists.
      - intros []. by apply triple_ret. }
  destruct (label_to_remote (loc s1)) as [ltr|] eqn:Hltr; [|done].
  simpl in Hremote.
  (* the state [s1] after the menu: the mode is off, nothing is selected *)
  assert (forall s, s = s1 /\ inv s /\ loc s = loc s0
            /\ ((sel ∈ items
                 /\ (multi_select_enabled (Session.gl (fg s)) = true ->
                     sel = "< Back"))
                \/ sel = "__BACK__"
                \/ (sel = "__MULTI_START__"
                    /\ selected_results (Session.gl (fg s)) <> ∅)) ->
            exists platform found,
              last_platform (Session.gl (fg s1)) = Some platform
              /\ found_by platform found
              /\ (items, ltr) = Session.build (Session.remote_base_of platform) found
              /\ in_results s1
              /\ selected_results (Session.gl (fg s1)) = ∅
              /\ multi_select_enabled (Session.gl (fg s1)) = false) as Hs1.
  { intros s [-> (Hinv & Hl & Hsel)]. pose proof Hinv as (_ & _ & Hc).
    unfold AppSpec.cached in Hc. rewrite Hl, Hitems in Hc. rewrite Hl in Hltr.
    rewrite Hltr in Hc. destruct Hc as (platform & found & Hp & Hf & Hb & Hok).
    exists platform, found. split; [done|]. split; [done|]. split; [done|].
    split; [split; [done|rewrite Hl, Hitems; by eexists]|].
    assert (multi_select_enabled (Session.gl (fg s1)) = false) as Hoff.
    { destruct Hsel as [[_ Hm]|[->| [-> _]]]; [|done|done].
      destruct (multi_select_enabled _); [|done].
      rewrite (Hm eq_refl) in Hb2. done. }
    split; [|done]. by apply Hok. }
  destruct (last_platform (Session.gl (fg s1))) as [platform|] eqn:Hplat.
  2:{ intros s ins Hs. destruct (Hs1 s Hs) as (? & ? & ? & _). done. }
  eapply (triple_bind _ _ (fun v s =>
            in_results s
            /\ selected_results (Session.gl (fg s)) = ∅
            /\ multi_select_enabled (Session.gl (fg s)) = false
            /\ loc s = loc s1
            /\ last_platform (Session.gl (fg s)) = Some platform)).
  { eapply triple_weaken; [| |apply (triple_menu _ ["No"; "Yes"] false
        (fun s => s = s1 /\ inv s /\ loc s = loc s0
            /\ ((sel ∈ items
                 /\ (multi_select_enabled (Session.gl (fg s)) = true ->
                     sel = "< Back"))
                \/ sel = "__BACK__"
                \/ (sel = "__MULTI_START__"
                    /\ selected_results (Session.gl (fg s)) <> ∅))))].
    - done.
    - intros v s' [(s & Hs & Hst) _].
      destruct (Hs1 s Hs) as (p & found & Hp & Hf & Hb & [Hinv Hd] & Hsel & Hm).
      destruct Hs as [-> _]. pose proof Hst as (Hl & _ & Hmo & Hse & Hpl).
      split; [split; [by eapply steady_inv|by rewrite Hl]|].
      split; [by rewrite Hse|]. split; [by rewrite Hmo|]. split; [done|].
      by rewrite Hpl.
    - done.
    - by intros s (_ & ? & _). }
  intros confirm.
  eapply (triple_bind _ _ (fun _ s =>
            in_results s
            /\ selected_results (Session.gl (fg s)) = ∅
            /\ multi_select_enabled (Session.gl (fg s)) = false));
    [|intros []; apply triple_what_next].
  destruct (String.eqb confirm "Yes"); [|by apply triple_ret; intros s (?&?&?&_)].
  eapply triple_bind.
  { apply triple_next_one. by intros s ([H _] & _). }
  intros E. apply triple_update.
  intros s ([(Hla & Hpl & Hc) Hd] & Hsel & Hm & Hl & Hp).
  simpl.
  destruct (single_download_launched DEST_DIR ltr sel true E (fg s))
    as ((Hm' & Hs' & Hp') & new & Hnew & Hall).
  rewrite Hp in Hall. simpl in Hall.
  unfold set_fg. cbv beta.
  set (f' := Session.single_download DEST_DIR ltr sel true E (fg s)) in *.
  cbn [fg loc].
  pose proof Hc as Hc'. unfold AppSpec.cached in Hc'. rewrite Hl in Hc'.
  destruct Hd as [items' Hd]. rewrite Hl in Hd. rewrite Hd, Hltr in Hc'.
  destruct Hc' as (platform' & found & Hp2 & Hf & Hb & Hok).
  assert (platform' = platform) as -> by congruence.
  split; [|by rewrite Hs', Hm'].
  split; [|cbn [loc]; rewrite Hl, Hd; by eexists].
  split.
  { cbn [fg]. rewrite Hnew. apply Forall_app. split; [done|].
    eapply Forall_impl; [exact Hall|]. intros L HL. by eapply from_map_sound. }
  split.
  { intros p. cbn [fg]. rewrite Hp'. apply Hpl. }
  unfold AppSpec.cached. cbn [fg loc]. rewrite Hl, Hd, Hltr.
  exists platform, found. rewrite Hp'. split; [done|]. split; [done|].
  split; [done|]. eapply selection_ok_mode; [|exact Hok]. done.
Qed.

Lemma triple_results_loop fuel :
  triple in_results (results_loop fuel) (fun _ s => at_top s).
Proof.
  induction fuel as [|fuel IH]; simpl.
  - intros s ins [H _]. done.
  - eapply triple_bind; [apply triple_results_turn|].
    intros [|]; [by apply triple_ret|exact IH].
Qed.

Lemma triple_choose_platform :
  triple at_top (choose_platform sftp)
    (fun go s => at_top s
                 /\ (go = true -> is_Some (last_platform (Session.gl (fg s))))).
Proof.
  unfold App.choose_platform.
  eapply triple_bind; [apply triple_get|]. intros s0.
  (* the cache and the selection are cleared *)
  set (cleared := fun s : app =>
         Forall sound_launch (Session.launched (fg s))
         /\ platform_ok (Session.gl (fg s))
         /\ loc s = Locals None None None None).
  eapply (triple_bind _ _ (fun _ s => cleared s)).
  { apply triple_update. intros s [-> [(H1 & H2 & _) _]]. done. }
  intros []. eapply (triple_bind _ _ (fun _ s =>
           cleared s /\ selected_results (Session.gl (fg s)) = ∅)).
  { apply triple_update. intros s (H1 & H2 & H3). done. }
  intros []. eapply (triple_bind _ _ (fun _ s => at_top s)).
  { apply triple_update. intros s ((H1 & H2 & H3) & H4).
    split; [|simpl; by rewrite H3]. split; [done|]. split; [done|].
    unfold AppSpec.cached. simpl. rewrite H3. done. }
  intros [].
  pose proof (eq_refl : platforms = (Platforms.list_platforms sftp).1) as Hplat.
  destruct (Platforms.list_platforms sftp) as [pl shown]. simpl in Hplat.
  eapply (triple_bind _ _ (fun _ s => at_top s)).
  { apply triple_update. intros s [H1 H2]. split; [|done].
    eapply steady_inv; [|exact H1]. done. }
  intros []. destruct pl as [|p0 pl].
  { apply triple_close_exit. by intros s [H _]. }
  eapply triple_bind.
  { apply triple_menu; [done|]. by intros s [H _]. }
  intros choice. simpl.
  assert (forall s', (exists s, at_top s /\ steady s s') -> at_top s') as Hkeep.
  { intros s' (s & [H1 H2] & Hst). split; [by eapply steady_inv|].
    destruct Hst as (-> & _). done. }
  destruct (String.eqb_spec choice "__BACK__") as [->|Hnb].
  { eapply triple_bind.
    { apply triple_menu; [done|]. intros s [Hs _]. by destruct (Hkeep s Hs). }
    intros confirm. simpl. destruct (String.eqb confirm "Yes").
    - apply triple_close_exit. intros s' [(s & [Hs _] & Hst) _].
      eapply steady_inv; [exact Hst|]. by destruct (Hkeep s Hs).
    - apply triple_ret. intros s' [(s & [Hs _] & Hst) _]. split; [|done].
      apply Hkeep. exists s. split; [|done]. by apply Hkeep. }
  eapply (triple_bind _ _ (fun _ s =>
            at_top s /\ is_Some (last_platform (Session.gl (fg s))))).
  { apply triple_update. intros s [Hs Hchoice].
    destruct (Hkeep s Hs) as [(H1 & H2 & H3) H4].
    destruct Hchoice as [Hin|[_ ?]]; [|done].
    split; [|by eexists]. split; [|done]. split; [done|]. split.
    - intros p. simpl. intros [= <-]. by rewrite Hplat.
    - unfold AppSpec.cached in *. simpl. rewrite H4 in *.
      by destruct (label_to_remote (loc s)). }
  intros []. apply triple_ret. intros s [H1 H2]. done.
Qed.

Lemma triple_search base query (pre : app -> Prop) :
  (forall s, pre s -> inv s) ->
  triple pre (search search_fuel sftp base query)
    (fun found s =>
       pre s
       /\ exists log,
            Walk.search_remote sftp search_fuel base (Some query) 2000
            = Some (found, log)).
Proof.
  intros H s ins Hs. unfold search.
  destruct (Walk.search_remote _ _ _ _ _) as [[found log]|]; [|by apply H].
  split; [done|]. by exists log.
Qed.

Lemma at_top_pending s platform :
  at_top s -> last_platform (Session.gl (fg s)) = Some platform ->
  pending platform s.
Proof.
  intros [(H1 & H2 & H3) H4] Hp. unfold AppSpec.cached in H3. rewrite H4 in H3.
  destruct (label_to_remote (loc s)) eqn:Hl; [done|].
  destruct H3 as (? & ? & _). done.
Qed.

Lemma pending_at_top s platform :
  pending platform s -> truthy_list (results (loc s)) = false -> at_top s.
Proof.
  intros (H1 & H2 & H3 & H4 & H5 & H6 & H7) Hr.
  split; [|done]. split; [done|]. split; [done|].
  unfold AppSpec.cached. by rewrite H3, H4.
Qed.

Lemma at_top_results s : at_top s -> truthy_list (results (loc s)) = false.
Proof.
  intros [(_ & _ & H3) H4]. unfold AppSpec.cached in H3. rewrite H4 in H3.
  destruct (label_to_remote (loc s)); [done|]. by destruct H3 as (_ & _ & ?).
Qed.

Lemma at_top_no_platform s :
  at_top s ->
  at_top (set_fg (Session.with_globals (set_platform None)) s).
Proof.
  intros [(H1 & H2 & H3) H4]. split; [|done]. split; [done|]. split; [done|].
  unfold AppSpec.cached in *. simpl.
  by destruct (display_items (loc s)), (label_to_remote (loc s)).
Qed.

Lemma triple_ask_and_search :
  triple (fun s => at_top s /\ is_Some (last_platform (Session.gl (fg s))))
    (ask_and_search sftp)
    (fun go s => if go then in_results s else at_top s).
Proof.
  unfold App.ask_and_search. eapply triple_bind.
  { apply triple_keyboard. by intros s [[H _] _]. }
  intros query. simpl.
  assert (forall s', (exists s, (at_top s
                        /\ is_Some (last_platform (Session.gl (fg s))))
                       /\ steady s s') ->
            at_top s' /\ is_Some (last_platform (Session.gl (fg s')))) as Hkeep.
  { intros s' (s & ([H1 H2] & H3) & Hst).
    pose proof Hst as (Hl & _ & _ & _ & Hp).
    split; [split; [by eapply steady_inv|by rewrite Hl]|by rewrite Hp]. }
  destruct (String.eqb_spec query "__BACK__") as [->|Hnb].
  { eapply (triple_bind _ _ (fun _ s => at_top s)); [|intros []; by apply triple_ret].
    apply triple_update. intros s [Hs _].
    destruct (Hkeep s Hs) as [H _]. by apply at_top_no_platform. }
  (* the query is a text of the keyboard *)
  set (typed_query := Keyboard.typed query = true /\ strip query = query).
  set (ready := fun s : app =>
         at_top s /\ is_Some (last_platform (Session.gl (fg s))) /\ typed_query).
  eapply (triple_bind _ _ (fun _ s => ready s)).
  { apply triple_update. intros s [Hs Hq].
    destruct (Hkeep s Hs) as [H1 [platform H2]].
    destruct Hq as [?|Hq]; [done|].
    split; [|split; [by exists platform|done]].
    eapply pending_at_top; [|by apply at_top_results in H1].
    by apply (at_top_pending s platform). }
  intros []. eapply triple_bind; [apply triple_get|]. intros s0.
  destruct (last_platform (Session.gl (fg s0))) as [platform|] eqn:Hplat.
  2:{ intros s ins [-> (_ & [? ?] & _)]. congruence. }
  simpl.
  set (based := fun s : app =>
         at_top s /\ last_platform (Session.gl (fg s)) = Some platform
         /\ typed_query).
  eapply (triple_bind _ _ (fun _ s => based s)).
  { apply triple_update. intros s [-> (H1 & _ & Hq)].
    split; [|done].
    eapply pending_at_top; [|by apply at_top_results in H1].
    by apply (at_top_pending s0 platform). }
  intros []. eapply triple_bind.
  { apply triple_search. by intros s [[H _] _]. }
  intros found. eapply triple_bind; [apply triple_get|]. intros s1.
  destruct found as [|r found].
  { (* nothing found *)
    eapply (triple_bind _ _ (fun _ s => at_top s)).
    { apply triple_update. intros s [-> ((H1 & Hp & _) & _)].
      eapply pending_at_top; [|done]. by apply (at_top_pending s1 platform). }
    intros []. eapply (triple_bind _ _ (fun _ s => at_top s)).
    { apply triple_update. intros s [H1 H2]. split; [|done].
      eapply steady_inv; [|exact H1]. done. }
    intros []. eapply triple_bind.
    { apply triple_menu; [done|]. by intros s [H _]. }
    intros action. simpl.
    assert (forall s', (exists s, at_top s /\ steady s s') -> at_top s') as Hk.
    { intros s' (s & [H1 H2] & Hst). split; [by eapply steady_inv|].
      destruct Hst as (-> & _). done. }
    destruct (String.eqb action "Exit").
    { apply triple_close_exit. intros s [Hs _]. by destruct (Hk s Hs). }
    destruct (String.eqb action "Change Platform").
    { eapply (triple_bind _ _ (fun _ s => at_top s)); [|intros []; by apply triple_ret].
      apply triple_update. intros s [Hs _]. by apply at_top_no_platform, Hk. }
    eapply triple_bind; [apply triple_get|]. intros s2.
    eapply (triple_bind _ _ (fun _ s => at_top s)); [|intros []; by apply triple_ret].
    apply triple_update. intros s [-> [Hs _]].
    destruct (Hk s2 Hs) as [(H1 & H2 & H3) H4].
    split; [|done]. split; [done|]. split; [done|].
    unfold AppSpec.cached in *. simpl. rewrite H4 in *.
    destruct (label_to_remote (loc s2)); [done|]. by destruct H3 as (? & ? & _). }
  (* something found: the display list and the dictionary *)
  set (searched := fun s : app =>
         pending platform s /\ typed_query
         /\ exists log,
              Walk.search_remote sftp search_fuel
                (Session.remote_base_of platform) (Some query) 2000
              = Some (r :: found, log)).
  eapply (triple_bind _ _ (fun _ s => searched s)).
  { apply triple_update. intros s [-> ((H1 & Hp & Hq) & Hlog)].
    split; [|done]. by apply (at_top_pending s1 platform) in H1. }
  intros [].
  destruct (Session.build (Session.remote_base_of platform) (r :: found))
    as [items ltr] eqn:Hbuild.
  eapply triple_bind; [apply triple_get|]. intros s2.
  eapply (triple_bind _ _ (fun _ s => in_results s)); [|intros []; by apply triple_ret].
  apply triple_update.
  intros s [-> ((H1 & H2 & H3 & H4 & H5 & H6 & H7) & [Hq1 Hq2] & log & Hlog)].
  split; [|by eexists]. split; [done|]. split; [done|].
  unfold AppSpec.cached. simpl.
  exists platform, (r :: found). split; [done|]. split.
  { split; [by apply H2|]. by exists query, log. }
  split; [done|]. split; [|done]. intros l. rewrite H5.
  by intros ?%not_elem_of_empty.
Qed.

Lemma triple_main_turn fuel :
  triple at_top (main_turn sftp fuel) (fun _ s => at_top s).
Proof.
  unfold App.main_turn. eapply triple_bind; [apply triple_get|]. intros s0.
  eapply (triple_bind _ _ (fun go s =>
            at_top s
            /\ (go = true -> is_Some (last_platform (Session.gl (fg s)))))).
  { destruct (truthy_str (last_platform (Session.gl (fg s0)))) eqn:Ht.
    - apply triple_ret. intros s [-> H]. split; [done|]. intros _.
      destruct (last_platform _); [by eexists|done].
    - eapply triple_weaken; [| |apply triple_choose_platform].
      + by intros s [_ H].
      + done. }
  intros [|]; [|apply triple_ret; by intros s [H _]].
  eapply triple_bind; [apply triple_get|]. intros s1.
  eapply (triple_bind _ _ (fun (go : bool) s => if go then in_results s else at_top s)).
  { destruct (truthy_list (results (loc s1))) eqn:Ht.
    - intros s ins [-> [[(_ & _ & Hc) Hd] _]]. exfalso.
      unfold AppSpec.cached in Hc. rewrite Hd in Hc.
      destruct (label_to_remote (loc s1)); [done|].
      destruct Hc as (_ & _ & Hc). congruence.
    - eapply triple_weaken; [| |apply triple_ask_and_search].
      + intros s [-> [H1 H2]]. split; [done|]. by apply H2.
      + done. }
  intros [|]; [apply triple_results_loop|by apply triple_ret].
Qed.

Lemma triple_main_loop fuel :
  triple at_top (main_loop sftp fuel) (fun _ _ => False).
Proof.
  induction fuel as [|fuel IH]; simpl.
  - by intros s ins [H _].
  - eapply triple_bind; [apply triple_main_turn|]. intros []. exact IH.
Qed.

(** The whole program, with a connection that succeeds: it does not
    crash unless [os.makedirs(DEST_DIR)] raises, and it waits and exits
    in states that satisfy the invariant. *)
Lemma search_and_download_inv makedirs fuel ins :
  match search_and_download SCREEN_H DEST_DIR (inr sftp) makedirs search_fuel
          fuel start ins with
  | Got _ _ _ => False
  | Exited s | Waiting s => inv s
  | Crashed e => makedirs = Some e
  end.
Proof.
  unfold search_and_download. destruct makedirs as [e|]; [done|].
  assert (at_top start) as Hstart.
  { split; [|done]. split; [constructor|]. split; [done|]. done. }
  assert (triple at_top
            (set_loc (Locals None None None None);; main_loop sftp fuel)
            (fun _ _ => False)) as H.
  { eapply (triple_bind _ _ (fun _ s => at_top s)); [|intros []; apply triple_main_loop].
    apply triple_update. intros s [(H1 & H2 & H3) H4].
    split; [|done]. split; [done|]. split; [done|].
    unfold AppSpec.cached in *. simpl. rewrite H4 in H3.
    destruct (label_to_remote (loc s)); [done|]. by destruct H3 as (? & ? & _). }
  specialize (H start ins Hstart).
  destruct ((set_loc _;; main_loop sftp fuel) start ins); done.
Qed.

End Invariant.

(** X18.  The main loop does not fail: [search_and_download], started
    as the module leaves the globals, whatever the server, the events,
    the clock and the fate of the downloads, is left by no exception
    other than that of [os.makedirs(DEST_DIR)] at its start -- no
    [TypeError] from a platform or a display list that is [None], no
    [IndexError] or [ZeroDivisionError] from a menu or the keyboard --
    and it never returns: it ends with [handle_exit()] only. *)
Theorem main_loop_never_crashes SCREEN_H DEST_DIR connection makedirs
    search_fuel fuel ins :
  match search_and_download SCREEN_H DEST_DIR connection makedirs search_fuel
          fuel start ins with
  | Crashed e => makedirs = Some e /\ exists sftp, connection = inr sftp
  | Got _ _ _ => False
  | Exited _ | Waiting _ => True
  end.
Proof.
  destruct connection as [e|sftp]; [done|].
  pose proof (search_and_download_inv SCREEN_H DEST_DIR sftp search_fuel
                makedirs fuel ins) as H.
  destruct (search_and_download _ _ _ _ _ _ _ _); try done.
  split; [done|]. by eexists.
Qed.

(** X19.  A selection never outlives the result list it was made in:
    whenever the program waits for the user or exits, either there is
    a display list -- the labels of what a search on the current
    platform has found, followed by ["< Back"], with the dictionary
    built from the same results -- and every selected label is one of
    its labels other than ["< Back"], none being selected while the
    multi-select mode is off; or there is no display list, nothing is
    selected and the mode is off. *)
Theorem selection_stays_within_the_results SCREEN_H DEST_DIR sftp makedirs
    search_fuel fuel ins :
  match search_and_download SCREEN_H DEST_DIR (inr sftp) makedirs search_fuel
          fuel start ins with
  | Exited s | Waiting s =>
      let g0 := Session.gl (fg s) in
      match display_items (loc s) with
      | Some items =>
          (forall l, l ∈ selected_results g0 -> l ∈ items /\ l <> "< Back")
          /\ (multi_select_enabled g0 = false -> selected_results g0 = ∅)
          /\ exists platform found,
               last_platform g0 = Some platform
               /\ platform ∈ (Platforms.list_platforms sftp).1
               /\ items
                  = Session.display_of (Session.remote_base_of platform) found
                    ++ ["< Back"]
               /\ label_to_remote (loc s)
                  = Some (Session.label_map
                            (Session.display_of
                               (Session.remote_base_of platform) found) found)
      | None =>
          selected_results g0 = ∅ /\ multi_select_enabled g0 = false
          /\ label_to_remote (loc s) = None
      end
  | _ => True
  end.
Proof.
  pose proof (search_and_download_inv SCREEN_H DEST_DIR sftp search_fuel
                makedirs fuel ins) as H.
  assert (forall s, inv DEST_DIR sftp search_fuel s ->
            let g0 := Session.gl (fg s) in
            match display_items (loc s) with
            | Some items =>
                (forall l, l ∈ selected_results g0 -> l ∈ items /\ l <> "< Back")
                /\ (multi_select_enabled g0 = false -> selected_results g0 = ∅)
                /\ exists platform found,
                     last_platform g0 = Some platform
                     /\ platform ∈ (Platforms.list_platforms sftp).1
                     /\ items
                        = Session.display_of (Session.remote_base_of platform) found
                          ++ ["< Back"]
                     /\ label_to_remote (loc s)
                        = Some (Session.label_map
                                  (Session.display_of
                                     (Session.remote_base_of platform) found) found)
            | None =>
                selected_results g0 = ∅ /\ multi_select_enabled g0 = false
                /\ label_to_remote (loc s) = None
            end) as Hinv.
  { intros s (_ & _ & Hc). unfold AppSpec.cached in Hc. simpl.
    destruct (display_items (loc s)) as [items|],
             (label_to_remote (loc s)) as [ltr|]; try done.
    - destruct Hc as (platform & found & Hp & [Hpl _] & [= -> ->] & [H1 H2]).
      split; [done|]. split; [done|]. by exists platform, found.
    - by destruct Hc as (? & ? & _). }
  destruct (search_and_download _ _ _ _ _ _ _ _); try done; by apply Hinv.
Qed.

(** X20.  Nothing is downloaded that was not searched for: every
    transfer the program has started, single or in a batch, is of a
    path that a search returned -- a search in the directory of a
    platform that [list_platforms] offers, for a query entered on the
    keyboard, the file name containing the query without regard to
    case --, under the label made from that path, into
    [DEST_DIR/<platform>/<label>]. *)
Theorem downloads_come_from_the_search SCREEN_H DEST_DIR sftp makedirs
    search_fuel fuel ins :
  match search_and_download SCREEN_H DEST_DIR (inr sftp) makedirs search_fuel
          fuel start ins with
  | Exited s | Waiting s =>
      Forall (fun L =>
        exists platform query found log,
          platform ∈ (Platforms.list_platforms sftp).1
          /\ Keyboard.typed query = true
          /\ Walk.search_remote sftp search_fuel
               (Session.remote_base_of platform) (Some query) 2000
             = Some (found, log)
          /\ Session.l_remote L ∈ found
          /\ Walk.hit sftp (lower query) (Session.l_remote L)
          /\ Session.l_label L
             = replace (Session.remote_base_of platform +:+ "/") ""
                 (Session.l_remote L)
          /\ Session.l_local L
             = Session.path_join (Session.path_join DEST_DIR platform)
                 (replace "/" "/" (Session.l_label L)))
        (Session.launched (fg s))
  | _ => True
  end.
Proof.
  pose proof (search_and_download_inv SCREEN_H DEST_DIR sftp search_fuel
                makedirs fuel ins) as H.
  assert (forall s, inv DEST_DIR sftp search_fuel s ->
            Forall (fun L =>
              exists platform query found log,
                platform ∈ (Platforms.list_platforms sftp).1
                /\ Keyboard.typed query = true
                /\ Walk.search_remote sftp search_fuel
                     (Session.remote_base_of platform) (Some query) 2000
                   = Some (found, log)
                /\ Session.l_remote L ∈ found
                /\ Walk.hit sftp (lower query) (Session.l_remote L)
                /\ Session.l_label L
                   = replace (Session.remote_base_of platform +:+ "/") ""
                       (Session.l_remote L)
                /\ Session.l_local L
                   = Session.path_join (Session.path_join DEST_DIR platform)
                       (replace "/" "/" (Session.l_label L)))
              (Session.launched (fg s))) as Hinv.
  { intros s (Hla & _). eapply Forall_impl; [exact Hla|]. intros L.
    intros (platform & found & (Hpl & query & log & Hq1 & Hq2 & Hs) & Hin & Hlab & Hloc).
    exists platform, query, found, log.
    split; [done|]. split; [done|]. split; [done|]. split; [done|].
    split; [|done].
    unfold Walk.search_remote in Hs. simpl in Hs. rewrite Hq2 in Hs.
    destruct (String.eqb (lower query) ""); [by injection Hs as <-; apply elem_of_nil in Hin|].
    destruct (WalkTheory.search_loop_spec sftp (lower query) 2000 _ _ _ _ _ _ _ Hs
                (Forall_nil_2 _) eq_refl) as [Hhit _].
    rewrite Forall_forall in Hhit. by apply Hhit. }
  destruct (search_and_download _ _ _ _ _ _ _ _); try done; by apply Hinv.
Qed.

End AppTheory.

Module ScenesTheory.
Import Input Menu Scenes.

Lemma menu_select_never_raises_witness :
  0 <= 0 < Z.of_nat (length three)
  /\ match menu_select 720 "Results" three true true 0 0 None down_once fresh with
     | Raise _ _ => False
     | Next l _ =>
         0 <= selected_index l < Z.of_nat (length three) /\ 0 <= scroll_offset l
     | _ => True
     end.
Proof.
  split; [simpl; lia|].
  apply (MenuTheory.menu_select_never_raises 720 "Results" three true true 0 0 None
           down_once fresh); simpl; lia.
Defined.

Lemma cursor_row_is_drawn_witness :
  1 <= visible_count 300
  /\ exists sc label text y,
       draw 300 "Results" three true true
         (adjust 300 (Locals 2 0 false new false)) fresh = Some sc
       /\ three !! 2%nat = Some label
       /\ sc_rows sc !! 1%nat = Some (Row y text true)
       /\ (text = label \/ text = "[x] " +:+ label)
       /\ 200 <= y <= 300 - 50
       /\ forall k' r,
            sc_rows sc !! k' = Some r -> row_highlight r = true -> k' = 1%nat.
Proof.
  split; [by vm_compute|].
  apply (MenuTheory.cursor_row_is_drawn 300 "Results" three true true
           (Locals 2 0 false new false) fresh);
    [simpl; lia|simpl; lia|by vm_compute].
Defined.

Lemma scrollbar_stays_on_track_witness :
  exists y h,
    draw_bar 720 three 1 = Some (y, h)
    /\ 60 <= h <= 200
    /\ 200 <= y /\ y + h <= 720 - 200
    /\ (1 <= 0 -> y = 200)
    /\ forall i' y' h',
         1 <= i' -> draw_bar 720 three i' = Some (y', h') -> y <= y' /\ h' = h.
Proof.
  apply (MenuTheory.scrollbar_stays_on_track 720 three 1); [lia|simpl; lia].
Defined.

Lemma menu_select_returns_witness :
  menu_select 720 "Results" three true true 0 0 None enter fresh
    = Return "a.zip" fresh
  /\ (("a.zip" ∈ three
       /\ (true = true -> multi_select_enabled (u_gl fresh) = true ->
           "a.zip" = "< Back"))
      \/ (true = true /\ "a.zip" = "__BACK__")
      \/ (true = true /\ "a.zip" = "__MULTI_START__"
          /\ multi_select_enabled (u_gl fresh) = true
          /\ selected_results (u_gl fresh) <> ∅)).
Proof.
  split; [reflexivity|].
  apply (MenuTheory.menu_select_returns 720 "Results" three true true 0 0 None
           enter fresh "a.zip" fresh); [by left|reflexivity].
Defined.

Lemma results_menu_plays_keys_witness :
  exists u',
    menu_select 720 "Results" three true true 0 0
      (Some (multi_select_enabled (u_gl fresh))) batch_of_two fresh
    = Return "__MULTI_START__" u'
    /\ exists keys,
         Forall (fun k => forall label, k = Session.Confirm label -> label ∈ three)
           keys
         /\ (Session.menu_select keys (Session.Fg (u_gl fresh) [] [])).2
            = Some "__MULTI_START__"
         /\ Session.gl (Session.menu_select keys (Session.Fg (u_gl fresh) [] [])).1
            = u_gl u'.
Proof.
  eexists. split; [vm_compute; reflexivity|].
  eapply (MenuTheory.results_menu_plays_keys 720 "Results" three 0 0 batch_of_two
            fresh "__MULTI_START__" _). vm_compute. reflexivity.
Defined.

Lemma keyboard_returns_stripped_text_witness :
  exists u',
    Keyboard.virtual_keyboard_input type_a fresh = Return "A" u'
    /\ ("A" = "__BACK__" \/ (Keyboard.typed "A" = true /\ PyStr.strip "A" = "A")).
Proof.
  eexists. split; [vm_compute; reflexivity|].
  eapply (KeyboardTheory.keyboard_returns_stripped_text type_a fresh "A" _).
  vm_compute. reflexivity.
Defined.

Lemma alpha_fades_out_witness :
  Bus.get_alpha 9500 note = 191 /\ Bus.get_alpha 10500 note = 63
  /\ 0 <= Bus.get_alpha 10500 note <= Bus.get_alpha 9500 note
  /\ Bus.get_alpha 9500 note <= 255
  /\ (9500 - Bus.created_at note <= 8000 -> Bus.get_alpha 9500 note = 255)
  /\ (10500 - Bus.created_at note = Bus.LIFETIME -> Bus.get_alpha 10500 note = 0).
Proof.
  split; [reflexivity|]. split; [reflexivity|].
  apply (RenderTheory.alpha_fades_out note 9500 10500);
    [reflexivity|simpl; lia|by vm_compute].
Defined.

Lemma format_eta_is_truncated_witness :
  Render.format_eta (7325 # 2) = "1h 1m"
  /\ let s := int (7325 # 2) in
     0 <= s
     /\ ((s < 60 /\ Render.format_eta (7325 # 2) = pretty s +:+ "s")
         \/ (exists m sec,
               Render.format_eta (7325 # 2)
               = pretty m +:+ "m " +:+ pretty sec +:+ "s"
               /\ 1 <= m < 60 /\ 0 <= sec < 60 /\ s = 60 * m + sec)
         \/ (exists h m,
               Render.format_eta (7325 # 2)
               = pretty h +:+ "h " +:+ pretty m +:+ "m"
               /\ 1 <= h < 24 /\ 0 <= m < 60
               /\ 0 <= s - (3600 * h + 60 * m) < 60)
         \/ (exists d h,
               Render.format_eta (7325 # 2)
               = pretty d +:+ "d " +:+ pretty h +:+ "h"
               /\ 1 <= d /\ 0 <= h < 24
               /\ 0 <= s - (86400 * d + 3600 * h) < 3600)).
Proof.
  split; [by vm_compute|].
  apply (RenderTheory.format_eta_is_truncated (7325 # 2)). by vm_compute.
Defined.


Lemma cursor_wraps_around_witness :
  move three 1 (Locals 2 0 false new false) fresh
    = Next (Locals 0 0 false new false) fresh
  /\ move three (-1) (Locals 2 0 false new false) fresh
     = Next (Locals 1 0 false new false) fresh
  /\ move three (-1) (Locals 0 0 false new false) fresh
     = Next (Locals 2 0 false new false) fresh
  /\ move three 1 (Locals 1 0 false new false) fresh
     = Next (Locals 2 0 false new false) fresh.
Proof.
  apply (MenuTheory.cursor_wraps_around three (Locals 2 0 false new false) fresh).
  simpl. lia.
Defined.

End ScenesTheory.
